(** * cconv: the heuristic C <-> C++ converter (src/cconv/converter.py)

    A shallow embedding of the conversion engine and of the part of
    Python's [re] and [str] libraries it is written with.

    Texts are sequences of code points.  The embedding covers the code
    points below 256 (one [ascii] each) and gives them the classification
    Python 3 gives them: [\s], [\w], [\b], [str.strip] and
    [str.splitlines] follow the Unicode tables for that range. *)

From Stdlib Require Import Ascii String Bool Arith NArith Lia List.
Import ListNotations.
Open Scope list_scope.
Open Scope bool_scope.

Set Implicit Arguments.
Set Warnings "-comment-terminator-in-string".

(** ** Texts *)

Definition str := list ascii.

(** [L "abc"] is the Python literal ['abc'] (a backslash is one character,
    as in a raw string). *)
Definition L (s : string) : str := list_ascii_of_string s.

Definition dq : ascii := Eval cbv in ascii_of_nat 34.   (* the double quote *)
Definition sq : ascii := Eval cbv in ascii_of_nat 39.   (* the single quote *)
Definition nl : ascii := Eval cbv in ascii_of_nat 10.   (* line feed *)
Definition cr : ascii := Eval cbv in ascii_of_nat 13.   (* carriage return *)
Definition bsl : ascii := Eval cbv in ascii_of_nat 92.  (* the backslash *)

Definition code (c : ascii) : N := N_of_ascii c.

Definition in_range (lo hi : N) (c : ascii) : bool :=
  (lo <=? code c)%N && (code c <=? hi)%N.

Definition is_code (n : N) (c : ascii) : bool := (code c =? n)%N.

Definition ch (c d : ascii) : bool := Ascii.eqb c d.

(** ** Character classes *)

Definition is_digit (c : ascii) : bool := in_range 48 57 c.          (* [0-9] *)
Definition is_upper (c : ascii) : bool := in_range 65 90 c.          (* [A-Z] *)
Definition is_lower (c : ascii) : bool := in_range 97 122 c.         (* [a-z] *)

(** [[A-Za-z_]] and [[A-Za-z0-9_]] *)
Definition ident_start (c : ascii) : bool :=
  is_upper c || is_lower c || ch "_" c.
Definition ident_char (c : ascii) : bool :=
  ident_start c || is_digit c.

(** [str.isspace] and the pattern [\s] below 256: tab to carriage return,
    the four separators 28..31, the space, NEL and the no-break space. *)
Definition is_space (c : ascii) : bool :=
  in_range 9 13 c || in_range 28 32 c || is_code 133 c || is_code 160 c.

(** [\w] below 256: what [str.isalnum] accepts, and the underscore. *)
Definition is_alnum (c : ascii) : bool :=
  is_digit c || is_upper c || is_lower c
  || is_code 170 c || is_code 178 c || is_code 179 c || is_code 181 c
  || is_code 185 c || is_code 186 c || in_range 188 190 c
  || in_range 192 214 c || in_range 216 246 c || in_range 248 255 c.
Definition is_word (c : ascii) : bool := is_alnum c || ch "_" c.

(** [.] without DOTALL, and with it *)
Definition not_nl (c : ascii) : bool := negb (ch nl c).
Definition any_char (c : ascii) : bool := true.

(** a negated one-character class such as [[^;]] *)
Definition notc (d : ascii) (c : ascii) : bool := negb (ch d c).

(** the boundaries [str.splitlines] splits at, below 256 *)
Definition is_linebreak (c : ascii) : bool :=
  in_range 10 13 c || in_range 28 30 c || is_code 133 c.

Arguments ch c d : simpl never.
Arguments is_digit c : simpl never.
Arguments is_upper c : simpl never.
Arguments is_lower c : simpl never.
Arguments ident_start c : simpl never.
Arguments ident_char c : simpl never.
Arguments is_space c : simpl never.
Arguments is_alnum c : simpl never.
Arguments is_word c : simpl never.
Arguments not_nl c : simpl never.
Arguments notc d c : simpl never.
Arguments is_linebreak c : simpl never.

(** ** String methods *)

Fixpoint str_eqb (a b : str) : bool :=
  match a, b with
  | [], [] => true
  | c :: a', d :: b' => ch c d && str_eqb a' b'
  | _, _ => false
  end.

Fixpoint startswith (w s : str) : bool :=
  match w with
  | [] => true
  | c :: w' => match s with
               | d :: s' => ch c d && startswith w' s'
               | [] => false
               end
  end.

Definition endswith (w s : str) : bool := startswith (rev w) (rev s).

Fixpoint lstrip_by (f : ascii -> bool) (s : str) : str :=
  match s with
  | c :: t => if f c then lstrip_by f t else s
  | [] => []
  end.

Definition rstrip_by (f : ascii -> bool) (s : str) : str :=
  rev (lstrip_by f (rev s)).

Definition strip_by (f : ascii -> bool) (s : str) : str :=
  rstrip_by f (lstrip_by f s).

(** [s.lstrip()], [s.strip()], and [s.strip(c)], [s.lstrip(c)] for a
    one-character [c] (the double quote, the ampersand) *)
Definition lstrip (s : str) : str := lstrip_by is_space s.
Definition strip (s : str) : str := strip_by is_space s.
Definition strip_ch (c : ascii) (s : str) : str := strip_by (ch c) s.
Definition lstrip_ch (c : ascii) (s : str) : str := lstrip_by (ch c) s.

(** [s.replace(c, w)] for a one-character [c] *)
Definition replace_ch (c : ascii) (w : str) (s : str) : str :=
  flat_map (fun d => if ch c d then w else [d]) s.

(** [s.split(c)] for a one-character separator *)
Fixpoint split_ch_aux (c : ascii) (s : str) (cur : str) : list str :=
  match s with
  | [] => [rev cur]
  | d :: t => if ch c d then rev cur :: split_ch_aux c t []
              else split_ch_aux c t (d :: cur)
  end.
Definition split_ch (c : ascii) (s : str) : list str := split_ch_aux c s [].

(** [s.splitlines()]: a carriage return followed by a line feed is one
    boundary, and no empty last line is produced. *)
Fixpoint splitlines_aux (s : str) (cur : str) : list str :=
  match s with
  | [] => match cur with [] => [] | _ => [rev cur] end
  | c :: t =>
      if ch cr c then
        match t with
        | d :: t' => if ch nl d then rev cur :: splitlines_aux t' []
                     else rev cur :: splitlines_aux t []
        | [] => rev cur :: splitlines_aux t []
        end
      else if is_linebreak c then rev cur :: splitlines_aux t []
      else splitlines_aux t (c :: cur)
  end.
Definition splitlines (s : str) : list str := splitlines_aux s [].

(** [sep.join(parts)] *)
Fixpoint join (sep : str) (parts : list str) : str :=
  match parts with
  | [] => []
  | [a] => a
  | a :: rest => a ++ sep ++ join sep rest
  end.

(** [s[:-1]] and [s[:-2]] *)
Definition drop_last (n : nat) (s : str) : str := firstn (length s - n) s.

(** [x in xs] for a list or set of strings *)
Definition mem (x : str) (xs : list str) : bool := existsb (str_eqb x) xs.

(** [o or d] for an optional string [o] *)
Definition or_default (d : str) (o : option str) : str :=
  match o with
  | Some t => match t with [] => d | _ => t end
  | None => d
  end.

(** Truth value of a string, and of an optional string *)
Definition truthy (s : str) : bool := match s with [] => false | _ => true end.
Definition otruthy (o : option str) : bool :=
  match o with Some s => truthy s | None => false end.

(** ** Dictionaries with string keys, in insertion order *)

Section Dict.
Variable V : Type.

Definition dict := list (str * V).

Fixpoint dict_get (k : str) (d : dict) : option V :=
  match d with
  | [] => None
  | (k', v) :: d' => if str_eqb k k' then Some v else dict_get k d'
  end.

Fixpoint dict_set (k : str) (v : V) (d : dict) : dict :=
  match d with
  | [] => [(k, v)]
  | (k', v') :: d' => if str_eqb k k' then (k, v) :: d'
                      else (k', v') :: dict_set k v d'
  end.

Definition dict_setdefault (k : str) (v : V) (d : dict) : dict :=
  match dict_get k d with Some _ => d | None => dict_set k v d end.
End Dict.

(** ** Outcomes of a call

    A Python call returns, raises, or does not come back.  The operations
    of the converter that can raise are the ones that use the value of a
    match group as a string: a group that took no part in the match is
    [None].  Its one [while] loop is run with a bound on its iterations,
    and [Loops] is the outcome when the bound is reached. *)

Inductive exn : Type := TypeError | AttributeError.

Inductive res (A : Type) : Type :=
| Ok (a : A)
| Raise (e : exn)
| Loops.
Arguments Ok {A} a.
Arguments Raise {A} e.
Arguments Loops {A}.

Definition bind {A B : Type} (x : res A) (f : A -> res B) : res B :=
  match x with Ok a => f a | Raise e => Raise e | Loops => Loops end.

Notation "x <- e ;; f" := (bind e (fun x => f))
  (at level 61, e at next level, right associativity).
Notation "' pat <- e ;; f" := (bind e (fun x => match x with pat => f end))
  (at level 61, pat pattern, e at next level, right associativity).

Fixpoint mapM {A B : Type} (f : A -> res B) (l : list A) : res (list B) :=
  match l with
  | [] => Ok []
  | a :: l' => b <- f a ;; bs <- mapM f l' ;; Ok (b :: bs)
  end.

Fixpoint foldM {A S : Type} (f : S -> A -> res S) (l : list A) (s : S) : res S :=
  match l with
  | [] => Ok s
  | a :: l' => s' <- f s a ;; foldM f l' s'
  end.

(** ** Regular expressions

    The patterns of the converter use literals, one-character classes,
    greedy and lazy repetition of a class, sequence, alternation, numbered
    groups, back-references, [^] and [$], [\b] and one negative
    look-ahead.  Every starred or plussed item in them is a class. *)

Inductive re : Type :=
| Eps
| Lit (w : str)                        (* literal text *)
| Cls (c : ascii -> bool)              (* one character of a class *)
| Star (greedy : bool) (c : ascii -> bool)   (* [c*] and [c*?] *)
| Seq (a b : re)
| Alt (a b : re)                       (* [a|b] *)
| Grp (n : nat) (a : re)               (* the n-th capturing group *)
| Ref (n : nat)                        (* [\n] *)
| Bol (multiline : bool)               (* [^] *)
| Eol                                  (* [$] under MULTILINE *)
| WordB                                (* [\b] *)
| NotAhead (a : re).                   (* [(?!a)] *)

Definition lit (s : string) : re := Lit (L s).
Definition Plus (c : ascii -> bool) : re := Seq (Cls c) (Star true c).   (* [c+] *)
Definition Opt (a : re) : re := Alt a Eps.                               (* [(?:a)?] *)
Definition pat (l : list re) : re := fold_right Seq Eps l.

Definition ws : re := Star true is_space.    (* [\s*] *)
Definition ws1 : re := Plus is_space.        (* [\s+] *)
(** [[A-Za-z_][A-Za-z0-9_]*] and [[A-Za-z_]\w*] *)
Definition ident : re := Seq (Cls ident_start) (Star true ident_char).
Definition identw : re := Seq (Cls ident_start) (Star true is_word).
(** [(?:struct\s+)?] *)
Definition opt_struct : re := Opt (pat [lit "struct"; ws1]).
Definition one_of (s : string) (c : ascii) : bool := existsb (fun d => ch d c) (L s).

(** *** The backtracking matcher

    A position is the character before it, if any, and the text after it.
    Groups are numbered from 1; slot [n] of the list holds group [n]. *)

Definition groups := list (option str).

Definition getg (n : nat) (g : groups) : option str := nth n g None.

Fixpoint setg (n : nat) (v : str) (g : groups) : groups :=
  match n, g with
  | 0, [] => [Some v]
  | 0, _ :: g' => Some v :: g'
  | S n', [] => None :: setg n' v []
  | S n', x :: g' => x :: setg n' v g'
  end.

Definition cont := option ascii -> str -> groups -> option (str * groups).

Fixpoint lit_match (w s : str) (p : option ascii) : option (option ascii * str) :=
  match w with
  | [] => Some (p, s)
  | c :: w' => match s with
               | d :: s' => if ch c d then lit_match w' s' (Some d) else None
               | [] => None
               end
  end.

(** Greedy repetition takes as many characters as it can and gives them
    back one at a time; lazy repetition takes them one at a time. *)
Fixpoint star_greedy (c : ascii -> bool) (k : cont)
    (p : option ascii) (s : str) (g : groups) : option (str * groups) :=
  match s with
  | d :: s' =>
      if c d then
        match star_greedy c k (Some d) s' g with
        | Some x => Some x
        | None => k p s g
        end
      else k p s g
  | [] => k p s g
  end.

Fixpoint star_lazy (c : ascii -> bool) (k : cont)
    (p : option ascii) (s : str) (g : groups) : option (str * groups) :=
  match k p s g with
  | Some x => Some x
  | None => match s with
            | d :: s' => if c d then star_lazy c k (Some d) s' g else None
            | [] => None
            end
  end.

Definition word_before (p : option ascii) : bool :=
  match p with Some d => is_word d | None => false end.
Definition word_after (s : str) : bool :=
  match s with d :: _ => is_word d | [] => false end.

Definition at_bol (multiline : bool) (p : option ascii) : bool :=
  match p with None => true | Some d => multiline && ch nl d end.
Definition at_eol (s : str) : bool :=
  match s with [] => true | d :: _ => ch nl d end.

Definition k_end : cont := fun _ s g => Some (s, g).

Fixpoint matchre (r : re) (k : cont) (p : option ascii) (s : str) (g : groups)
    {struct r} : option (str * groups) :=
  match r with
  | Eps => k p s g
  | Lit w => match lit_match w s p with
             | Some (p', s') => k p' s' g
             | None => None
             end
  | Cls c => match s with
             | d :: s' => if c d then k (Some d) s' g else None
             | [] => None
             end
  | Star true c => star_greedy c k p s g
  | Star false c => star_lazy c k p s g
  | Seq a b => matchre a (matchre b k) p s g
  | Alt a b => match matchre a k p s g with
               | Some x => Some x
               | None => matchre b k p s g
               end
  | Grp n a =>
      matchre a (fun p' s' g' =>
                   k p' s' (setg n (firstn (length s - length s') s) g')) p s g
  | Ref n => match getg n g with
             | Some w => match lit_match w s p with
                         | Some (p', s') => k p' s' g
                         | None => None
                         end
             | None => None
             end
  | Bol m => if at_bol m p then k p s g else None
  | Eol => if at_eol s then k p s g else None
  | WordB => if xorb (word_before p) (word_after s) then k p s g else None
  | NotAhead a => match matchre a k_end p s g with
                  | Some _ => None
                  | None => k p s g
                  end
  end.

(** *** Match objects and the functions of [re] *)

Record mobj : Type := { m0 : str; mgroups : groups }.

(** [m.group(n)] *)
Definition group (m : mobj) (n : nat) : option str := getg n (mgroups m).

(** [m.group(n)] where the converter goes on to use it as a string *)
Definition grp (m : mobj) (n : nat) : res str :=
  match group m n with Some t => Ok t | None => Raise TypeError end.

(** [\n] in a replacement template: a group that did not take part
    expands to the empty string *)
Definition tg (m : mobj) (n : nat) : str :=
  match group m n with Some t => t | None => [] end.

(** one attempt at one position: the match and the text after it *)
Definition match_at (r : re) (p : option ascii) (s : str) : option (mobj * str) :=
  match matchre r k_end p s [] with
  | Some (s', g) => Some ({| m0 := firstn (length s - length s') s; mgroups := g |}, s')
  | None => None
  end.

(** [re.match(r, s)] and [re.fullmatch(r, s)] *)
Definition re_match (r : re) (s : str) : option mobj :=
  option_map fst (match_at r None s).

Definition re_fullmatch (r : re) (s : str) : option mobj :=
  match matchre r (fun _ s' g => match s' with [] => Some (s', g) | _ => None end)
                None s [] with
  | Some (_, g) => Some {| m0 := s; mgroups := g |}
  | None => None
  end.

(** [r.search(s)] as a truth value *)
Fixpoint search_from (r : re) (p : option ascii) (s : str) : bool :=
  match match_at r p s with
  | Some _ => true
  | None => match s with
            | c :: t => search_from r (Some c) t
            | [] => false
            end
  end.
Definition re_search (r : re) (s : str) : bool := search_from r None s.

(** The non-overlapping matches of [r] in [s] from left to right, each with
    the unmatched text before it, and the unmatched text after the last.
    [skip] counts the characters of the current match still to pass; [acc]
    is the unmatched text gathered so far, reversed.  An empty match (no
    pattern of the converter has one) is recorded and the scan moves on by
    one character. *)
Fixpoint scan (r : re) (p : option ascii) (s : str) (skip : nat) (acc : str)
    : list (str * mobj) * str :=
  match s with
  | [] =>
      match skip with
      | 0 => match match_at r p [] with
             | Some (m, _) => ([(rev acc, m)], [])
             | None => ([], rev acc)
             end
      | S _ => ([], rev acc)
      end
  | c :: t =>
      match skip with
      | S n => scan r (Some c) t n acc
      | 0 =>
          match match_at r p s with
          | Some (m, _) =>
              match length (m0 m) with
              | 0 => let (l, tl) := scan r (Some c) t 0 [c] in ((rev acc, m) :: l, tl)
              | S n => let (l, tl) := scan r (Some c) t n [] in ((rev acc, m) :: l, tl)
              end
          | None => scan r (Some c) t 0 (c :: acc)
          end
      end
  end.

Definition segments (r : re) (s : str) : list (str * mobj) * str :=
  scan r None s 0 [].

(** [re.finditer(r, s)] *)
Definition re_finditer (r : re) (s : str) : list mobj :=
  map snd (fst (segments r s)).

(** [re.findall(r, s)] for a pattern with one group *)
Definition re_findall1 (r : re) (s : str) : list str :=
  map (fun m => tg m 1) (re_finditer r s).

(** [re.findall(r, s)] for a pattern without groups *)
Definition re_findall0 (r : re) (s : str) : list str :=
  map m0 (re_finditer r s).

(** [re.split(r, s)] for a pattern without groups, and for a pattern that
    is one group *)
Definition re_split (r : re) (s : str) : list str :=
  let (segs, tl) := segments r s in map fst segs ++ [tl].

Definition re_split1 (r : re) (s : str) : res (list str) :=
  let (segs, tl) := segments r s in
  pieces <- mapM (fun sm => t <- grp (snd sm) 1 ;; Ok [fst sm; t]) segs ;;
  Ok (concat pieces ++ [tl]).

(** [re.sub(r, repl, s)] with a function [repl], which may raise *)
Definition re_sub (r : re) (repl : mobj -> res str) (s : str) : res str :=
  let (segs, tl) := segments r s in
  out <- foldM (fun out sm => t <- repl (snd sm) ;; Ok (out ++ fst sm ++ t)) segs [] ;;
  Ok (out ++ tl).

(** the same where [repl] reads and updates a record of its own *)
Definition re_sub_st {S : Type} (r : re) (repl : mobj -> S -> res (str * S))
    (s : str) (st : S) : res (str * S) :=
  let (segs, tl) := segments r s in
  '(out, st') <- foldM (fun acc sm =>
                          '(t, st') <- repl (snd sm) (snd acc) ;;
                          Ok (fst acc ++ fst sm ++ t, st'))
                       segs ([], st) ;;
  Ok (out ++ tl, st').

(** ** The converter

    Each pattern is followed by its source text, as a string. *)

(** *** Includes (lines 8-10), compiled with MULTILINE *)

Definition _include_stdio : re :=     (* "^\s*#\s*include\s*<stdio\.h>\s*$" *)
  pat [Bol true; ws; lit "#"; ws; lit "include"; ws; lit "<stdio.h>"; ws; Eol].
Definition _include_iostream : re :=  (* "^\s*#\s*include\s*<iostream>\s*$" *)
  pat [Bol true; ws; lit "#"; ws; lit "include"; ws; lit "<iostream>"; ws; Eol].

(** *** The declaration and typedef index (lines 13-75) *)

Definition re_typedef_struct : re :=
  (* "typedef\s+struct\s+([A-Za-z_]\w*)\s+([A-Za-z_]\w*)\s*;" *)
  pat [lit "typedef"; ws1; lit "struct"; ws1; Grp 1 identw; ws1; Grp 2 identw;
       ws; lit ";"].
Definition re_typedef_struct_body : re :=
  (* "typedef\s+struct\s+([A-Za-z_]\w*)\s*\{[^}]*\}\s*([A-Za-z_]\w*)\s*;" *)
  pat [lit "typedef"; ws1; lit "struct"; ws1; Grp 1 identw; ws; lit "{";
       Star true (notc "}"); lit "}"; ws; Grp 2 identw; ws; lit ";"].
Definition re_typedef_base : re :=
  (* "typedef\s+((?:struct\s+)?[A-Za-z_]\w*)\s+([A-Za-z_]\w*)\s*;" *)
  pat [lit "typedef"; ws1; Grp 1 (pat [opt_struct; identw]); ws1; Grp 2 identw;
       ws; lit ";"].

Definition _collect_typedefs (code : str) : res (dict str) :=
  tdefs <- foldM (fun tdefs m =>
                    base <- grp m 1 ;; alias <- grp m 2 ;;
                    Ok (dict_set alias (L "struct " ++ base) tdefs))
                 (re_finditer re_typedef_struct code) [] ;;
  tdefs <- foldM (fun tdefs m =>
                    base <- grp m 1 ;; alias <- grp m 2 ;;
                    Ok (dict_set alias (L "struct " ++ base) tdefs))
                 (re_finditer re_typedef_struct_body code) tdefs ;;
  foldM (fun tdefs m =>
           base <- grp m 1 ;; alias <- grp m 2 ;;
           Ok (dict_setdefault alias base tdefs))
        (re_finditer re_typedef_base code) tdefs.

Definition re_struct_def : re :=     (* "struct\s+([A-Za-z_]\w*)\s*\{" *)
  pat [lit "struct"; ws1; Grp 1 identw; ws; lit "{"].
Definition decl_re : re :=
  (* "^(?P<type>(?:struct\s+)?[A-Za-z_]\w*)\s+(?P<rest>[^;]+);" with MULTILINE *)
  pat [Bol true; Grp 1 (pat [opt_struct; identw]); ws1; Grp 2 (Plus (notc ";"));
       lit ";"].
Definition re_name : re :=           (* "([A-Za-z_][A-Za-z0-9_]*)" *)
  Grp 1 ident.

(** The loop [while q.startswith("*"): stars += 1; q = q[1:].lstrip()],
    with a bound on its iterations. *)
Fixpoint strip_stars (fuel : nat) (stars : nat) (q : str) : res (nat * str) :=
  match fuel with
  | 0 => Loops
  | S f => if startswith (L "*") q
           then strip_stars f (S stars) (lstrip (tl q))
           else Ok (stars, q)
  end.

(** the body of [for p in parts], for a declaration of type [t] *)
Definition decl_part (typedefs : dict str) (t : str) (types : dict str) (p : str)
    : res (dict str) :=
  '(stars, q) <- strip_stars (S (length p)) 0 p ;;
  match re_match re_name q with
  | None => Ok types
  | Some name_match =>
      name <- grp name_match 1 ;;
      let base := match dict_get t typedefs with Some b => b | None => t end in
      let ctype := base ++ repeat "*"%char stars in
      Ok (dict_set name ctype types)
  end.

Definition is_some {A : Type} (o : option A) : bool :=
  match o with Some _ => true | None => false end.

Definition _infer_decl_types (code : str) : res (dict str) :=
  typedefs <- _collect_typedefs code ;;
  let struct_names := re_findall1 re_struct_def code in
  let base_types :=
    [L "int"; L "long"; L "float"; L "double"; L "char"]
      ++ map (fun s => L "struct " ++ s) struct_names
      ++ map fst typedefs in
  foldM (fun types m =>
           t <- grp m 1 ;;
           if negb (mem t base_types)
              && negb (is_some (dict_get t typedefs) || startswith (L "struct ") t)
           then Ok types
           else
             rest <- grp m 2 ;;
             let parts := map strip (split_ch "," rest) in
             foldM (decl_part typedefs t) parts types)
        (re_finditer decl_re code) [].

(** *** Format specifiers for types (lines 78-118) *)

Definition _fmt_for_type (ctype : str) : str :=
  let base := replace_ch "*" [] ctype in
  match dict_get ctype [(L "int", L "%d"); (L "long", L "%ld"); (L "float", L "%f");
                        (L "double", L "%lf"); (L "char", L "%c"); (L "char*", L "%s")] with
  | Some f => f
  | None =>
      match dict_get base [(L "int", L "%d"); (L "long", L "%ld"); (L "float", L "%f");
                           (L "double", L "%lf"); (L "char", L "%c")] with
      | Some f => f
      | None => L "%d"
      end
  end.

Definition re_deref : re :=   (* "\*\s*\(?\s*([A-Za-z_][A-Za-z0-9_]*)\s*\)?" *)
  pat [lit "*"; ws; Opt (lit "("); ws; Grp 1 ident; ws; Opt (lit ")")].
Definition re_index : re :=   (* "([A-Za-z_][A-Za-z0-9_]*)\s*\[.+\]" *)
  pat [Grp 1 ident; ws; lit "["; Plus not_nl; lit "]"].

(** [t[:-1]] if [t] is a non-empty string that ends with a star *)
Definition pointee (t : option str) : option str :=
  match t with
  | Some t' => if truthy t' && endswith (L "*") t' then Some (drop_last 1 t') else None
  | None => None
  end.

Definition _expr_ctype (expr : str) (types : dict str) : res (option str) :=
  let expr := strip expr in
  match re_fullmatch ident expr with
  | Some _ => Ok (dict_get expr types)
  | None =>
      match re_fullmatch re_deref expr with
      | Some m => v <- grp m 1 ;; Ok (pointee (dict_get v types))
      | None =>
          match re_fullmatch re_index expr with
          | Some m => v <- grp m 1 ;; Ok (pointee (dict_get v types))
          | None => Ok None
          end
      end
  end.

(** *** printf and scanf to streams (lines 121-208) *)

(** the state of the loop of [_split_printf_args]: the parts so far, the
    part being read, the open quote if any, the depth of parentheses *)
Record split_state : Type :=
  { parts : list str; buf : str; q : option ascii; depth : nat }.

Definition split_step (st : split_state) (c : ascii) : split_state :=
  if ch dq c || ch sq c then
    let q' := match q st with
              | None => Some c
              | Some o => if ch o c then None else Some o
              end in
    {| parts := parts st; buf := buf st ++ [c]; q := q'; depth := depth st |}
  else if ch "(" c && negb (is_some (q st)) then
    {| parts := parts st; buf := buf st ++ [c]; q := q st; depth := S (depth st) |}
  else if ch ")" c && negb (is_some (q st)) && (0 <? depth st) then
    {| parts := parts st; buf := buf st ++ [c]; q := q st; depth := depth st - 1 |}
  else if ch "," c && negb (is_some (q st)) && (depth st =? 0) then
    {| parts := parts st ++ [strip (buf st)]; buf := []; q := q st; depth := depth st |}
  else
    {| parts := parts st; buf := buf st ++ [c]; q := q st; depth := depth st |}.

Definition _split_printf_args (args : str) : list str :=
  let st := fold_left split_step args
                      {| parts := []; buf := []; q := None; depth := 0 |} in
  if truthy (buf st) then parts st ++ [strip (buf st)] else parts st.

Definition re_printf_call : re :=   (* "printf\s*\((.*)\)\s*;\s*" with DOTALL *)
  pat [lit "printf"; ws; lit "("; Grp 1 (Star true any_char); lit ")"; ws; lit ";"; ws].
Definition re_scanf_call : re :=    (* "scanf\s*\((.*)\)\s*;\s*" with DOTALL *)
  pat [lit "scanf"; ws; lit "("; Grp 1 (Star true any_char); lit ")"; ws; lit ";"; ws].
Definition re_spec : re :=          (* "%[0-9]*\.?[0-9]*[dlfcsg]" *)
  pat [lit "%"; Star true is_digit; Opt (lit "."); Star true is_digit;
       Cls (one_of "dlfcsg")].
Definition re_spec_scanf : re :=    (* "%[0-9]*\.?[0-9]*[dlfcs]" *)
  pat [lit "%"; Star true is_digit; Opt (lit "."); Star true is_digit;
       Cls (one_of "dlfcs")].

(** the state of the loop over the tokens: the text so far, the arguments
    not yet used, and whether a newline was seen *)
Definition cout_state : Type := (str * list str * bool)%type.

(** the two [replace] calls on a literal token: every backslash is
    doubled, then every double quote gets a backslash before it *)
Definition escape (tok : str) : str :=
  replace_ch dq [bsl; dq] (replace_ch bsl [bsl; bsl] tok).

Definition printf_step (st : cout_state) (tok : str) : cout_state :=
  let '(out, vars, newline) := st in
  if negb (truthy tok) then st
  else if startswith (L "%") tok then
    match vars with
    | [] => (out ++ L " << " ++ [dq] ++ tok ++ [dq], [], newline)
    | v :: vars' => (out ++ L " << (" ++ v ++ L ")", vars', newline)
    end
  else
    let '(tok', newline') :=
      if endswith (L "\n") tok then (drop_last 2 tok, true) else (tok, newline) in
    if truthy tok'
    then (out ++ L " << " ++ [dq] ++ escape tok' ++ [dq], vars, newline')
    else (out, vars, newline').

Definition _convert_printf_to_cout (call : str) : res str :=
  match re_match re_printf_call call with
  | None => Ok call
  | Some m =>
      g1 <- grp m 1 ;;
      match _split_printf_args g1 with
      | [] => Ok call
      | fmt :: rest =>
          if negb (startswith [dq] fmt || startswith [sq] fmt) then Ok call
          else
            let fmt_str := strip_ch dq (strip fmt) in
            let specs := re_findall0 re_spec fmt_str in
            tokens <- re_split1 (Grp 1 re_spec) fmt_str ;;
            let '(out, _, newline) :=
              fold_left printf_step tokens (L "std::cout", rest, false) in
            let out := if newline then out ++ L " << std::endl" else out in
            Ok (out ++ L ";")
      end
  end.

Definition _convert_scanf_to_cin (call : str) (types : dict str) : res str :=
  match re_match re_scanf_call call with
  | None => Ok call
  | Some m =>
      g1 <- grp m 1 ;;
      match _split_printf_args g1 with
      | [] => Ok call
      | fmt :: rest =>
          if negb (startswith [dq] fmt || startswith [sq] fmt) then Ok call
          else
            let fmt_str := strip_ch dq (strip fmt) in
            let specs := re_findall0 re_spec_scanf fmt_str in
            let vars := map (fun a => strip (lstrip_ch "&" a)) rest in
            let out := fold_left (fun out v => out ++ L " >> (" ++ v ++ L ")")
                                 vars (L "std::cin") in
            Ok (out ++ L ";")
      end
  end.

(** *** new and delete to malloc and free (lines 211-222) *)

Definition re_new_array : re :=
  (* "new\s+([A-Za-z_][A-Za-z0-9_]*)\s*\[\s*([^\]]+)\s*\]" *)
  pat [lit "new"; ws1; Grp 1 ident; ws; lit "["; ws; Grp 2 (Plus (notc "]")); ws;
       lit "]"].
Definition re_new_scalar : re :=
  (* "new\s+([A-Za-z_][A-Za-z0-9_]*)\b(?!\s*\[)" *)
  pat [lit "new"; ws1; Grp 1 ident; WordB; NotAhead (pat [ws; lit "["])].
Definition re_delete_array : re :=
  (* "delete\s*\[\s*\]\s*([A-Za-z_][A-Za-z0-9_]*)\s*;" *)
  pat [lit "delete"; ws; lit "["; ws; lit "]"; ws; Grp 1 ident; ws; lit ";"].
Definition re_delete : re :=
  (* "delete\s+([A-Za-z_][A-Za-z0-9_]*)\s*;" *)
  pat [lit "delete"; ws1; Grp 1 ident; ws; lit ";"].

Definition _convert_new_delete_to_malloc_free (code : str) : res str :=
  (* template "(\1*)malloc(sizeof(\1) * (\2))" *)
  code <- re_sub re_new_array
            (fun m => Ok (L "(" ++ tg m 1 ++ L "*)malloc(sizeof(" ++ tg m 1
                            ++ L ") * (" ++ tg m 2 ++ L "))")) code ;;
  (* template "(\1*)malloc(sizeof(\1))" *)
  code <- re_sub re_new_scalar
            (fun m => Ok (L "(" ++ tg m 1 ++ L "*)malloc(sizeof(" ++ tg m 1 ++ L "))"))
            code ;;
  (* template "free(\1);" *)
  code <- re_sub re_delete_array (fun m => Ok (L "free(" ++ tg m 1 ++ L ");")) code ;;
  re_sub re_delete (fun m => Ok (L "free(" ++ tg m 1 ++ L ");")) code.

(** *** malloc, calloc and free to new and delete (lines 225-358) *)

Inductive alloc_kind : Type := array | scalar.

(** the cast [\(\s*(?:struct\s+)?(T)\s*\*\s*\)] with the type as group [n] *)
Definition cast (n : nat) : re :=
  pat [lit "("; ws; opt_struct; Grp n ident; ws; lit "*"; ws; lit ")"].

Definition re_realloc : re :=   (* "realloc\s*\(\s*([A-Za-z_][A-Za-z0-9_]*)\s*," *)
  pat [lit "realloc"; ws; lit "("; ws; Grp 1 ident; ws; lit ","].

Definition re_malloc_array : re :=
  (* "([A-Za-z_][A-Za-z0-9_]*)\s*=\s*\(\s*(?:struct\s+)?([A-Za-z_][A-Za-z0-9_]*)\s*\*\s*\)\s*malloc\s*\(\s*sizeof\(\s*(?:struct\s+)?\2\s*\)\s*\*\s*([^\)]+)\)\s*;" *)
  pat [Grp 1 ident; ws; lit "="; ws; cast 2; ws; lit "malloc"; ws; lit "("; ws;
       lit "sizeof("; ws; opt_struct; Ref 2; ws; lit ")"; ws; lit "*"; ws;
       Grp 3 (Plus (notc ")")); lit ")"; ws; lit ";"].
Definition re_malloc_scalar : re :=
  (* "([A-Za-z_][A-Za-z0-9_]*)\s*=\s*\(\s*(?:struct\s+)?([A-Za-z_][A-Za-z0-9_]*)\s*\*\s*\)\s*malloc\s*\(\s*sizeof\(\s*(?:struct\s+)?\2\s*\)\s*\)\s*;" *)
  pat [Grp 1 ident; ws; lit "="; ws; cast 2; ws; lit "malloc"; ws; lit "("; ws;
       lit "sizeof("; ws; opt_struct; Ref 2; ws; lit ")"; ws; lit ")"; ws; lit ";"].
Definition re_malloc_sizeof_ptr : re :=
  (* "([A-Za-z_][A-Za-z0-9_]*)\s*=\s*(?:\(\s*(?:struct\s+)?([A-Za-z_][A-Za-z0-9_]*)\s*\*\s*\)\s*)?malloc\s*\(\s*sizeof\s*\(\s*\*\s*\1\s*\)\s*(?:\*\s*([^\)]+))?\)\s*;" *)
  pat [Grp 1 ident; ws; lit "="; ws; Opt (pat [cast 2; ws]); lit "malloc"; ws;
       lit "("; ws; lit "sizeof"; ws; lit "("; ws; lit "*"; ws; Ref 1; ws; lit ")";
       ws; Opt (pat [lit "*"; ws; Grp 3 (Plus (notc ")"))]); lit ")"; ws; lit ";"].
Definition re_lhs_type_array : re :=
  (* "(?:^|;)\s*(?:struct\s+)?([A-Za-z_][A-Za-z0-9_]*)\s*\*\s*([A-Za-z_][A-Za-z0-9_]*)\s*=\s*malloc\s*\(\s*sizeof\(\s*(?:struct\s+)?\1\s*\)\s*\*\s*([^\)]+)\)\s*;" *)
  pat [Alt (Bol false) (lit ";"); ws; opt_struct; Grp 1 ident; ws; lit "*"; ws;
       Grp 2 ident; ws; lit "="; ws; lit "malloc"; ws; lit "("; ws; lit "sizeof(";
       ws; opt_struct; Ref 1; ws; lit ")"; ws; lit "*"; ws; Grp 3 (Plus (notc ")"));
       lit ")"; ws; lit ";"].
Definition re_lhs_type_scalar : re :=
  (* "(?:^|;)\s*(?:struct\s+)?([A-Za-z_][A-Za-z0-9_]*)\s*\*\s*([A-Za-z_][A-Za-z0-9_]*)\s*=\s*malloc\s*\(\s*sizeof\(\s*(?:struct\s+)?\1\s*\)\s*\)\s*;" *)
  pat [Alt (Bol false) (lit ";"); ws; opt_struct; Grp 1 ident; ws; lit "*"; ws;
       Grp 2 ident; ws; lit "="; ws; lit "malloc"; ws; lit "("; ws; lit "sizeof(";
       ws; opt_struct; Ref 1; ws; lit ")"; ws; lit ")"; ws; lit ";"].
Definition re_calloc_cast : re :=
  (* "([A-Za-z_][A-Za-z0-9_]*)\s*=\s*\(\s*(?:struct\s+)?([A-Za-z_][A-Za-z0-9_]*)\s*\*\s*\)\s*calloc\s*\(\s*([^,]+)\s*,\s*sizeof\(\s*(?:struct\s+)?\2\s*\)\s*\)\s*;" *)
  pat [Grp 1 ident; ws; lit "="; ws; cast 2; ws; lit "calloc"; ws; lit "("; ws;
       Grp 3 (Plus (notc ",")); ws; lit ","; ws; lit "sizeof("; ws; opt_struct;
       Ref 2; ws; lit ")"; ws; lit ")"; ws; lit ";"].
Definition re_calloc_sizeof_ptr : re :=
  (* "([A-Za-z_][A-Za-z0-9_]*)\s*=\s*calloc\s*\(\s*([^,]+)\s*,\s*sizeof\(\s*\*\s*\1\s*\)\s*\)\s*;" *)
  pat [Grp 1 ident; ws; lit "="; ws; lit "calloc"; ws; lit "("; ws;
       Grp 2 (Plus (notc ",")); ws; lit ","; ws; lit "sizeof("; ws; lit "*"; ws;
       Ref 1; ws; lit ")"; ws; lit ")"; ws; lit ";"].
Definition re_free : re :=      (* "free\s*\(\s*([A-Za-z_][A-Za-z0-9_]*)\s*\)\s*;" *)
  pat [lit "free"; ws; lit "("; ws; Grp 1 ident; ws; lit ")"; ws; lit ";"].

Section MallocFree.
Variable types : dict str.
Variable realloc_names : list str.

(** The replacement functions read [realloc_names] and [types] and write
    the record [allocs], which they are given and give back. *)
Definition allocs_t : Type := dict alloc_kind.

Definition repl_array (m : mobj) (allocs : allocs_t) : res (str * allocs_t) :=
  name <- grp m 1 ;; T <- grp m 2 ;; n <- grp m 3 ;;
  if mem name realloc_names then Ok (m0 m, allocs)
  else Ok (name ++ L " = new " ++ T ++ L "[" ++ n ++ L "];", dict_set name array allocs).

Definition repl_scalar (m : mobj) (allocs : allocs_t) : res (str * allocs_t) :=
  name <- grp m 1 ;; T <- grp m 2 ;;
  if mem name realloc_names then Ok (m0 m, allocs)
  else Ok (name ++ L " = new " ++ T ++ L ";", dict_set name scalar allocs).

(** [decl.replace('*', '').replace(' ', '')] *)
Definition base_of (decl : str) : str := replace_ch " " [] (replace_ch "*" [] decl).

Definition repl_sizeof_ptr (m : mobj) (allocs : allocs_t) : res (str * allocs_t) :=
  name <- grp m 1 ;;
  let T := group m 2 in
  let n := group m 3 in
  if mem name realloc_names then Ok (m0 m, allocs)
  else
    let T := if negb (otruthy T)
             then match dict_get name types with
                  | Some decl => if truthy decl then Some (base_of decl) else T
                  | None => T
                  end
             else T in
    let T := if negb (otruthy T) then L "int"
             else match T with Some t => t | None => [] end in
    match n with
    | Some n' =>
        if truthy n'
        then Ok (name ++ L " = new " ++ T ++ L "[" ++ n' ++ L "];",
                 dict_set name array allocs)
        else Ok (name ++ L " = new " ++ T ++ L ";", dict_set name scalar allocs)
    | None => Ok (name ++ L " = new " ++ T ++ L ";", dict_set name scalar allocs)
    end.

Definition repl_lhs_type_array (m : mobj) (allocs : allocs_t) : res (str * allocs_t) :=
  T <- grp m 1 ;; name <- grp m 2 ;; n <- grp m 3 ;;
  if mem name realloc_names then Ok (m0 m, allocs)
  else Ok (T ++ L "* " ++ name ++ L " = new " ++ T ++ L "[" ++ n ++ L "];",
           dict_set name array allocs).

Definition repl_lhs_type_scalar (m : mobj) (allocs : allocs_t) : res (str * allocs_t) :=
  T <- grp m 1 ;; name <- grp m 2 ;;
  if mem name realloc_names then Ok (m0 m, allocs)
  else Ok (T ++ L "* " ++ name ++ L " = new " ++ T ++ L ";", dict_set name scalar allocs).

Definition repl_calloc_cast (m : mobj) (allocs : allocs_t) : res (str * allocs_t) :=
  name <- grp m 1 ;; T <- grp m 2 ;; n <- grp m 3 ;;
  if mem name realloc_names then Ok (m0 m, allocs)
  else if str_eqb (strip n) (L "1")
  then Ok (name ++ L " = new " ++ T ++ L ";", dict_set name scalar allocs)
  else Ok (name ++ L " = new " ++ T ++ L "[" ++ n ++ L "];", dict_set name array allocs).

Definition repl_calloc_sizeof_ptr (m : mobj) (allocs : allocs_t) : res (str * allocs_t) :=
  name <- grp m 1 ;; n <- grp m 2 ;;
  if mem name realloc_names then Ok (m0 m, allocs)
  else
    let decl := match dict_get name types with Some d => d | None => L "int" end in
    let T := if truthy (base_of decl) then base_of decl else L "int" in
    if str_eqb (strip n) (L "1")
    then Ok (name ++ L " = new " ++ T ++ L ";", dict_set name scalar allocs)
    else Ok (name ++ L " = new " ++ T ++ L "[" ++ n ++ L "];", dict_set name array allocs).

Definition repl_free (m : mobj) (allocs : allocs_t) : res (str * allocs_t) :=
  name <- grp m 1 ;;
  match dict_get name allocs with
  | Some array => Ok (L "delete[] " ++ name ++ L ";", allocs)
  | _ => Ok (L "delete " ++ name ++ L ";", allocs)
  end.

End MallocFree.

Definition _convert_malloc_free_to_new_delete (code : str) (types : dict str)
    : res str :=
  let allocs : allocs_t := [] in
  let realloc_names := re_findall1 re_realloc code in
  '(code, allocs) <- re_sub_st re_malloc_array (repl_array realloc_names) code allocs ;;
  '(code, allocs) <- re_sub_st re_malloc_scalar (repl_scalar realloc_names) code allocs ;;
  '(code, allocs) <- re_sub_st re_malloc_sizeof_ptr
                       (repl_sizeof_ptr types realloc_names) code allocs ;;
  '(code, allocs) <- re_sub_st re_lhs_type_array
                       (repl_lhs_type_array realloc_names) code allocs ;;
  '(code, allocs) <- re_sub_st re_lhs_type_scalar
                       (repl_lhs_type_scalar realloc_names) code allocs ;;
  '(code, allocs) <- re_sub_st re_calloc_cast
                       (repl_calloc_cast realloc_names) code allocs ;;
  '(code, allocs) <- re_sub_st re_calloc_sizeof_ptr
                       (repl_calloc_sizeof_ptr types realloc_names) code allocs ;;
  '(code, _) <- re_sub_st re_free repl_free code allocs ;;
  Ok code.

(** *** The two entry points (lines 361-446) *)

Definition re_printf_stmt : re :=   (* "printf\s*\(.*?\)\s*;" *)
  pat [lit "printf"; ws; lit "("; Star false not_nl; lit ")"; ws; lit ";"].
Definition re_scanf_stmt : re :=    (* "scanf\s*\(.*?\)\s*;" *)
  pat [lit "scanf"; ws; lit "("; Star false not_nl; lit ")"; ws; lit ";"].
Definition re_struct_ptr : re :=    (* "\bstruct\s+([A-Za-z_][A-Za-z0-9_]*)\s*\*" *)
  pat [WordB; lit "struct"; ws1; Grp 1 ident; ws; lit "*"].
(** "\bNULL\b" and its like *)
Definition re_word (w : string) : re := pat [WordB; lit w; WordB].

(** [re.sub(r"\bW\b", "R", code)] *)
Definition sub_word (W R : string) (code : str) : res str :=
  re_sub (re_word W) (fun _ => Ok (L R)) code.

(** the body of [for ln in lines] *)
Definition convert_line (types : dict str) (ln : str) : res str :=
  l <- re_sub re_printf_stmt (fun m => _convert_printf_to_cout (m0 m)) ln ;;
  re_sub re_scanf_stmt (fun m => _convert_scanf_to_cin (m0 m) types) l.

Definition convert_c_to_cpp (code : str) : res str :=
  code <- (if re_search _include_stdio code
           then re_sub _include_stdio (fun _ => Ok (L "#include <iostream>")) code
           else Ok code) ;;
  types <- _infer_decl_types code ;;
  let lines := splitlines code in
  out_lines <- mapM (convert_line types) lines ;;
  let code := join [nl] out_lines in
  code <- _convert_malloc_free_to_new_delete code types ;;
  (* template "\1*" *)
  code <- re_sub re_struct_ptr (fun m => Ok (tg m 1 ++ L "*")) code ;;
  sub_word "NULL" "nullptr" code.

Definition re_cout : re :=   (* "std::cout\s*<<(.*?);" *)
  pat [lit "std::cout"; ws; lit "<<"; Grp 1 (Star false not_nl); lit ";"].
Definition re_cin : re :=    (* "std::cin\s*>>(.*?);" *)
  pat [lit "std::cin"; ws; lit ">>"; Grp 1 (Star false not_nl); lit ";"].

(** the state of the loop of [cout_repl]: the lists [fmt] and [vs] *)
Definition cout_part (code : str) (st : list str * list str) (p : str)
    : res (list str * list str) :=
  let '(fmt, vs) := st in
  if str_eqb p (L "std::endl") then Ok (fmt ++ [L "\n"], vs)
  else if startswith [dq] p then Ok (fmt ++ [strip_ch dq (strip p)], vs)
  else
    tmap <- _infer_decl_types code ;;
    ctp <- _expr_ctype p tmap ;;
    Ok (fmt ++ [_fmt_for_type (or_default (L "int") ctp)], vs ++ [p]).

(** [cout_repl] reads the variable [code] of [convert_cpp_to_c], which holds
    the text after the include substitution while the substitution runs. *)
Definition cout_repl (code : str) (m : mobj) : res str :=
  expr <- grp m 1 ;;
  let parts := map strip (re_split (lit "<<") expr) in
  '(fmt, vs) <- foldM (cout_part code) parts ([], []) ;;
  let fmt_str := concat fmt in
  let args := if negb (length vs =? 0) then L ", " ++ join (L ", ") vs else [] in
  Ok (L "printf(" ++ [dq] ++ fmt_str ++ [dq] ++ args ++ L ");").

Definition cin_repl (m : mobj) : res str :=
  expr <- grp m 1 ;;
  let vars := map strip (re_split (lit ">>") expr) in
  let fmts := map (fun _ => L "%d") vars in
  let fmt := join (L " ") fmts in
  let vaddrs := map (fun v => L "&" ++ v) vars in
  let args := join (L ", ") vaddrs in
  Ok (L "scanf(" ++ [dq] ++ fmt ++ [dq] ++ L ", " ++ args ++ L ");").

Definition convert_cpp_to_c (code : str) : res str :=
  code <- (if re_search _include_iostream code
           then re_sub _include_iostream
                  (fun _ => Ok (L "#include <stdio.h>" ++ [nl] ++ L "#include <stdlib.h>"))
                  code
           else Ok code) ;;
  code <- re_sub re_cout (cout_repl code) code ;;
  code <- re_sub re_cin cin_repl code ;;
  code <- sub_word "nullptr" "NULL" code ;;
  code <- sub_word "bool" "int" code ;;
  code <- sub_word "true" "1" code ;;
  code <- sub_word "false" "0" code ;;
  _convert_new_delete_to_malloc_free code.

(** ** Static analysis of patterns *)

(** [defines n r]: every match of [r] sets group [n]. *)
Fixpoint defines (n : nat) (r : re) : bool :=
  match r with
  | Grp m a => (n =? m) || defines n a
  | Seq a b => defines n a || defines n b
  | Alt a b => defines n a && defines n b
  | _ => false
  end.

(** [must c r]: every text matched by [r] contains the character [c]. *)
Fixpoint must (c : ascii) (r : re) : bool :=
  match r with
  | Lit w => existsb (ch c) w
  | Seq a b => must c a || must c b
  | Alt a b => must c a && must c b
  | Grp _ a => must c a
  | _ => false
  end.

(** What a pattern can see of the character before a position: whether
    there is none, whether it is a line feed, whether it is a word
    character. *)
Record before : Type := { no_char : bool; line_feed : bool; word_char : bool }.

Definition before_of (p : option ascii) : before :=
  {| no_char := match p with None => true | Some _ => false end;
     line_feed := match p with Some d => ch nl d | None => false end;
     word_char := word_before p |}.

Definition all_befores : list before :=
  flat_map (fun a => flat_map (fun b => map (fun c =>
    {| no_char := a; line_feed := b; word_char := c |}) [true; false])
    [true; false]) [true; false].

(** At a position after [p], with [q = before_of p], and before the
    character [c]: [passes r q c] if [r] may succeed there without taking a
    character, [begins r q c] if it may succeed taking [c] first.  Both err
    on the side of [true]. *)
Fixpoint passes (r : re) (q : before) (c : ascii) : bool :=
  match r with
  | Eps => true
  | Lit w => match w with [] => true | _ => false end
  | Cls _ => false
  | Star _ _ => true
  | Seq a b => passes a q c && passes b q c
  | Alt a b => passes a q c || passes b q c
  | Grp _ a => passes a q c
  | Ref _ => true
  | Bol m => no_char q || (m && line_feed q)
  | Eol => ch nl c
  | WordB => xorb (word_char q) (is_word c)
  | NotAhead _ => true
  end.

Fixpoint begins (r : re) (q : before) (c : ascii) : bool :=
  match r with
  | Lit w => match w with d :: _ => ch d c | [] => false end
  | Cls f => f c
  | Star _ f => f c
  | Seq a b => begins a q c || (passes a q c && begins b q c)
  | Alt a b => begins a q c || begins b q c
  | Grp _ a => begins a q c
  | Ref _ => true
  | _ => false
  end.

(** the position after the text [u], read from a position after [p] *)
Definition lastp (p : option ascii) (u : str) : option ascii :=
  fold_left (fun _ c => Some c) u p.

(** the 256 characters *)
Definition all_chars : list ascii := map ascii_of_nat (List.seq 0 256).

(** ** Names in the statements the properties are about *)

(** an identifier, [[A-Za-z_][A-Za-z0-9_]*] *)
Definition is_identifier (x : str) : bool :=
  match x with c :: t => ident_start c && forallb ident_char t | [] => false end.
(** a size written as a number or a name, [[A-Za-z0-9_]+] *)
Definition is_number_or_name (x : str) : bool :=
  match x with _ :: _ => forallb ident_char x | [] => false end.
(** the words [convert_cpp_to_c] replaces before it rewrites allocations *)
Definition cpp_words : list str := [L "nullptr"; L "bool"; L "true"; L "false"].

(** a character [str.splitlines] does not split at *)
Definition no_linebreak (c : ascii) : bool := negb (is_linebreak c).
(** a character of an argument that is neither a quote, a parenthesis nor a comma *)
Definition arg_char (c : ascii) : bool :=
  negb (ch dq c || ch sq c || ch "(" c || ch ")" c || ch "," c).
Definition not_space (c : ascii) : bool := negb (is_space c).

(** a character of a plain literal fragment: a lower-case letter, a digit,
    a space, or one of = : . ! ? - + / _ *)
Definition frag_char (c : ascii) : bool :=
  is_lower c || is_digit c || one_of " =:.!?-+/_" c.
(** the insertion of a literal fragment into a stream; none if it is empty *)
Definition insertion (A : str) : str :=
  if truthy A then L " << " ++ [dq] ++ A ++ [dq] else [].

(** a program in which [p] is allocated, grown by realloc and released *)
Definition realloc_program : str :=
  L "p = (int*)malloc(sizeof(int) * n);" ++ [nl] ++
  L "p = realloc(p, 8);" ++ [nl] ++
  L "free(p);".

(** *** The chain of a printf call, by position *)

(** the tokens the loop of [_convert_printf_to_cout] reads as specifiers *)
Definition is_spec_token (tok : str) : bool := startswith (L "%") tok.

Definition count_specs (tokens : list str) : nat :=
  length (filter is_spec_token tokens).

(** the insertion for a literal token *)
Definition literal_insertion (tok : str) : str :=
  let t := if endswith (L "\n") tok then drop_last 2 tok else tok in
  if truthy t then L " << " ++ [dq] ++ escape t ++ [dq] else [].

(** the insertion for a specifier that has no argument left *)
Definition placeholder (tok : str) : str := L " << " ++ [dq] ++ tok ++ [dq].

(** the chain by position: the specifier number [i] takes the argument
    number [i] when there is one, and is a placeholder otherwise *)
Fixpoint chain (tokens args : list str) (i : nat) : str :=
  match tokens with
  | [] => []
  | tok :: rest =>
      if is_spec_token tok then
        match nth_error args i with
        | Some v => L " << (" ++ v ++ L ")"
        | None => placeholder tok
        end ++ chain rest args (S i)
      else literal_insertion tok ++ chain rest args i
  end.

(** the chain once the arguments have run out *)
Definition unfilled (tok : str) : str :=
  if is_spec_token tok then placeholder tok else literal_insertion tok.

Definition ends_line (tokens : list str) : bool :=
  existsb (fun tok => negb (is_spec_token tok) && endswith (L "\n") tok) tokens.

(** literal fragments and specifiers in turn *)
Fixpoint interleave (lits specs : list str) : list str :=
  match lits, specs with
  | l :: ls, sp :: sps => l :: sp :: interleave ls sps
  | _, _ => []
  end.

(** the match object of a pattern put in a group *)
Definition in_group (n : nat) (m : mobj) : mobj :=
  {| m0 := m0 m; mgroups := setg n (m0 m) (mgroups m) |}.

(** *** The statements of a cin chain *)

(** the statement "std::cin >> e1 >> ... >> en;" *)
Definition cin_statement (es : list str) : str :=
  L "std::cin" ++ concat (map (fun e => L " >> " ++ e) es) ++ L ";".

(** the call of scanf with one "%d" for each target and the targets with
    an ampersand before each *)
Definition scanf_call (es : list str) : str :=
  L "scanf(" ++ [dq] ++ join (L " ") (map (fun _ => L "%d") es) ++ [dq] ++ L ", "
    ++ join (L ", ") (map (fun e => L "&" ++ e) es) ++ L ");".

(** a target: an identifier that the word substitutions leave alone *)
Definition is_target (e : str) : bool :=
  is_identifier e && negb (mem e cpp_words).

(** what is left of a chain between two ">>" *)
Fixpoint raw_targets (e : str) (es : list str) : list str :=
  match es with
  | [] => [e]
  | x :: xs => (e ++ L " ") :: raw_targets (L " " ++ x) xs
  end.

Definition target (e : str) : Prop :=
  is_identifier e = true /\ mem e cpp_words = false.

(** the body of a chain: what the group of [re_cin] takes *)
Definition chain_body (e : str) (es : list str) : str :=
  L " " ++ e ++ concat (map (fun x => L " >> " ++ x) es).

(** the characters of a call of scanf between its words *)
Definition scanf_punct (c : ascii) : bool := ch dq c || one_of "(% ,&);" c.

(** *** Whole words and the texts around them *)

(** [re.sub(r"\bW\b", "R", s)] as a text: the pieces between the matches,
    each followed by the replacement, then the rest *)
Definition emit (R : str) (sc : list (str * mobj) * str) : str :=
  concat (map (fun sm => fst sm ++ R) (fst sc)) ++ snd sc.

Definition replaced (W R : string) (s : str) : str :=
  emit (L R) (segments (re_word W) s).

(** the same from a position on, after the character [p] *)
Definition after (W : string) (R : str) (p : option ascii) (s : str) : str :=
  emit R (scan (re_word W) p s 0 []).

(** the four substitutions of [convert_cpp_to_c], in its order *)
Definition surface_c (s : str) : str :=
  replaced "false" "0" (replaced "true" "1" (replaced "bool" "int"
    (replaced "nullptr" "NULL" s))).

(** the five words of the two entry points *)
Definition is_rule_word (W : string) : Prop :=
  In W ["NULL"; "nullptr"; "bool"; "true"; "false"]%string.

Definition cpp_rules : list (string * string) :=
  [("nullptr", "NULL"); ("bool", "int"); ("true", "1"); ("false", "0")]%string.

(** a text that does not end, or does not begin, with a word character *)
Definition ends_nonword (u : str) : bool :=
  match rev u with [] => true | c :: _ => negb (is_word c) end.

Definition starts_nonword (v : str) : bool := negb (word_after v).

(** a word boundary between [u] and [v] *)
Definition boundary (u v : str) : Prop :=
  ends_nonword u = true \/ starts_nonword v = true.

(** a whole word [w] at the start of [s], after [p] *)
Definition tail_ok (w s : str) : bool :=
  startswith w s && negb (word_after (skipn (length w) s)).

Definition word_at (w : str) (p : option ascii) (s : str) : bool :=
  negb (word_before p) && tail_ok w s.

(** one line on which only the word substitution of [convert_c_to_cpp] can
    act: no include, no call, no pointer *)
Definition plain_c (s : str) : bool :=
  forallb (fun c => no_linebreak c && notc "#" c && notc "(" c && notc "*" c) s.

(** a text without include and without stream statement *)
Definition plain_cpp (s : str) : bool :=
  forallb (fun c => notc "#" c && notc ":" c) s.

(** *** The tokens of a cout chain *)

(** a token that is neither std::endl nor a string literal *)
Definition is_cout_expr (p : str) : bool :=
  negb (str_eqb p (L "std::endl")) && negb (startswith [dq] p).

(** the type [_expr_ctype] gives for an expression *)
Definition expr_ctype (p : str) (tmap : dict str) : option str :=
  match _expr_ctype p tmap with Ok c => c | _ => None end.

(** the specifier of an expression token *)
Definition token_spec (tmap : dict str) (p : str) : str :=
  _fmt_for_type (or_default (L "int") (expr_ctype p tmap)).

(** what a token adds to the format *)
Definition cout_piece (tmap : dict str) (p : str) : str :=
  if str_eqb p (L "std::endl") then L "\n"
  else if startswith [dq] p then strip_ch dq (strip p)
  else token_spec tmap p.

(** the arguments of the call after the format *)
Definition call_args (vs : list str) : str :=
  match vs with [] => [] | _ => L ", " ++ join (L ", ") vs end.

(** the specifier of each type of the table *)
Definition fmt_table : list (str * str) :=
  [(L "int", L "%d"); (L "long", L "%ld"); (L "float", L "%f");
   (L "double", L "%lf"); (L "char", L "%c"); (L "char*", L "%s")].

(** the match of the whole text that [re.fullmatch] asks for *)
Definition k_full : cont :=
  fun _ s' g => match s' with [] => Some (s', g) | _ => None end.

(** *** Argument lists *)

(** an argument without quote, parenthesis or comma, and without white
    space at its ends *)
Definition is_plain_arg (p : str) : bool :=
  forallb arg_char p && str_eqb (strip p) p.

(** every comma of a text is inside parentheses, the text starting at
    depth [d] *)
Fixpoint commas_nested (d : nat) (t : str) : bool :=
  match t with
  | [] => true
  | c :: t' =>
      if ch "(" c then commas_nested (S d) t'
      else if ch ")" c then commas_nested (d - 1) t'
      else if ch "," c then (0 <? d) && commas_nested d t'
      else commas_nested d t'
  end.

Definition no_quote (c : ascii) : bool := negb (ch dq c || ch sq c).

(** ** The command line (src/cconv/__main__.py)

    [main] parses its arguments, reads the input, chooses the direction,
    converts and writes.  The choice of the direction (lines 21-35) and the
    conversion it leads to (lines 37-40) are functions of the three
    arguments and of the text read. *)

(** [str.lower] below 256: the capital letters A to Z and the capital
    letters of Latin-1, 192 to 222 without the multiplication sign *)
Definition lower_char (c : ascii) : ascii :=
  if in_range 65 90 c || in_range 192 214 c || in_range 216 222 c
  then ascii_of_N (code c + 32) else c.
Definition lower (s : str) : str := map lower_char s.

(** [path.split(".")[-1].lower()] *)
Definition ext_of (path : str) : str := lower (last (split_ch "." path) []).

(** [in_ext]: [None] for the standard input and for a name without dot *)
Definition in_ext (input : str) : option str :=
  if str_eqb input (L "-") then None
  else if existsb (ch ".") input then Some (ext_of input) else None.

Definition cpp_exts : list str :=
  [L "cc"; L "cpp"; L "cxx"; L "hpp"; L "hh"; L "hxx"].

(** the value of [target] before the conversion: [to] is the option --to,
    [output] the option -o *)
Definition target_of (to : option str) (output : option str) (input : str) : str :=
  let target :=
    match to, output with
    | None, Some o =>
        if truthy o then
          if mem (ext_of o) [L "c"] then Some (L "c")
          else if mem (ext_of o) cpp_exts then Some (L "cpp")
          else None
        else None
    | _, _ => to
    end in
  match target with
  | Some t => t
  | None =>
      if match in_ext input with Some e => mem e [L "c"] | None => false end
      then L "cpp" else L "c"
  end.

(** [out_code] *)
Definition main_convert (to : option str) (output : option str) (input : str)
    (code : str) : res str :=
  if str_eqb (target_of to output input) (L "cpp")
  then convert_c_to_cpp code else convert_cpp_to_c code.

(** *** The words of a text *)

(** the pieces of a text: its longest runs of word characters and its
    longest runs of other characters, in order *)
Fixpoint runs (s : str) : list str :=
  match s with
  | [] => []
  | c :: t =>
      match runs t with
      | (d :: u) :: rest =>
          if Bool.eqb (is_word c) (is_word d) then (c :: d :: u) :: rest
          else [c] :: (d :: u) :: rest
      | _ => [[c]]
      end
  end.

(** a run of word characters ([true]) or of other characters ([false]) *)
Definition run_of (w : bool) (t : str) : bool :=
  truthy t && forallb (fun d => Bool.eqb (is_word d) w) t.

(** runs of the two kinds in turn, the first of kind [w] *)
Fixpoint alternate (w : bool) (ts : list str) : bool :=
  match ts with
  | [] => true
  | t :: rest => run_of w t && alternate (negb w) rest
  end.

(** the piece [W] becomes [R], every other piece stays *)
Definition swap (W R : str) (t : str) : str := if str_eqb t W then R else t.

(** the four words of [convert_cpp_to_c] *)
Definition c_word (t : str) : str :=
  swap (L "false") (L "0") (swap (L "true") (L "1") (swap (L "bool") (L "int")
    (swap (L "nullptr") (L "NULL") t))).

(** *** Lines *)

(** a text on which only the line splitting and the word substitution of
    [convert_c_to_cpp] can act: no include, no call, no pointer *)
Definition no_c_syntax (c : ascii) : bool := notc "#" c && notc "(" c && notc "*" c.

(** one of the line boundaries of [str.splitlines] *)
Definition is_terminator (t : str) : bool :=
  str_eqb t [cr; nl] || match t with [c] => is_linebreak c | _ => false end.

(** [w in s] for two texts *)
Fixpoint has_sub (w s : str) : bool :=
  startswith w s || match s with [] => false | _ :: t => has_sub w t end.

(** the words and keywords the two directions look for *)
Definition cpp_marks : list str :=
  [L "new"; L "delete"; L "nullptr"; L "bool"; L "true"; L "false"].

(** [convert_cpp_to_c(convert_c_to_cpp(code))] *)
Definition c_round_trip (code : str) : res str :=
  bind (convert_c_to_cpp code) convert_cpp_to_c.

(** *** Declarators *)

(** stars before a name, each followed by the blanks of [gaps] *)
Definition star_run (gaps : list str) : str := flat_map (fun g => "*"%char :: g) gaps.

(** the type [decl_part] records for a declarator of type [t] with
    [stars] stars: [typedefs.get(t, t) + "*" * stars] *)
Definition decl_type (typedefs : dict str) (t : str) (stars : nat) : str :=
  match dict_get t typedefs with Some b => b | None => t end ++ repeat "*"%char stars.

(** a text that cannot begin a declarator: it is empty or begins with a
    character that is no star, no blank and cannot start a name *)
Definition no_name (q : str) : bool :=
  match q with
  | [] => true
  | c :: _ => notc "*" c && negb (is_space c) && negb (ident_start c)
  end.

(** a declarator with [fst d] stars before the name [snd d], and the
    declaration "T d1, d2, ...;" *)
Definition declarator (d : nat * str) : str := repeat "*"%char (fst d) ++ snd d.
Definition declaration (T : str) (ds : list (nat * str)) : str :=
  T ++ L " " ++ join (L ", ") (map declarator ds) ++ L ";".

(** the index after the declarators [ds] of type [T], in their order *)
Definition declared (T : str) (ds : list (nat * str)) (types : dict str) : dict str :=
  fold_left (fun types d => dict_set (snd d) (T ++ repeat "*"%char (fst d)) types) ds types.

(** the primitive types of [base_types] *)
Definition c_types : list str := [L "int"; L "long"; L "float"; L "double"; L "char"].

(** the characters of a declarator list *)
Definition declarator_char (c : ascii) : bool := ident_char c || one_of "*, " c.

(** no line of the text begins with a character that can begin a name;
    [p] is the character before the text *)
Fixpoint no_decl_start (p : option ascii) (s : str) : bool :=
  match s with
  | [] => true
  | c :: t => negb (at_bol true p && ident_start c) && no_decl_start (Some c) t
  end.

(** *** Allocation statements *)

(** "p = (T*)malloc(sizeof(T) * n);", "p = new T[n];", "free(q);" and the
    two statements that replace the last *)
Definition malloc_array_stmt (p T n : str) : str :=
  p ++ L " = (" ++ T ++ L "*)malloc(sizeof(" ++ T ++ L ") * " ++ n ++ L ");".
Definition new_array_stmt (p T n : str) : str :=
  p ++ L " = new " ++ T ++ L "[" ++ n ++ L "];".
Definition free_stmt (q : str) : str := L "free(" ++ q ++ L ");".
Definition delete_stmt (is_array : bool) (q : str) : str :=
  (if is_array then L "delete[] " else L "delete ") ++ q ++ L ";".

(** "p = malloc(n);", an allocation without cast *)
Definition malloc_plain_stmt (p n : str) : str := p ++ L " = malloc(" ++ n ++ L ");".

(** *** Include lines *)

(** the include pattern for the header [h] *)
Definition include_re (h : string) : re :=
  pat [Bol true; ws; lit "#"; ws; lit "include"; ws; lit h; ws; Eol].

(** "#include h" *)
Definition include_line (h : string) : str := L "#include " ++ L h.

(** *** Specifiers with width, precision and length *)

(** "%", digits, an optional "." with digits, and a conversion letter *)
Definition spec_text (w1 : str) (dotted : bool) (w2 : str) (c : ascii) : str :=
  L "%" ++ w1 ++ (if dotted then L "." ++ w2 else []) ++ [c].

(** the characters of a specifier *)
Definition spec_char (c : ascii) : bool :=
  ch "%" c || is_digit c || ch "." c || one_of "dlfcsg" c.

(** the statement [printf("F", x);] *)
Definition printf_stmt (F x : str) : str :=
  L "printf(" ++ [dq] ++ F ++ [dq] ++ L ", " ++ x ++ L ");".

(** the format "A<specifier>B\n" *)
Definition one_spec_format (A S B : str) : str := A ++ S ++ B ++ L "\n".

(** *** Pointers to structures *)

(** a blank that ends no line: a space, a tab, the separator 31, the
    no-break space *)
Definition is_blank (c : ascii) : bool := is_space c && no_linebreak c.

(** a character of a line on which no include, call or other pointer
    stands *)
Definition plain_line_char (c : ascii) : bool :=
  no_linebreak c && notc "#" c && notc "(" c && notc "*" c.

(** *** A declaration and a stream statement *)

(** "std::cout << x;" and the call "printf("f", x);" *)
Definition cout_stmt (x : str) : str := L "std::cout << " ++ x ++ L ";".
Definition printf_call (f x : str) : str :=
  L "printf(" ++ [dq] ++ f ++ [dq] ++ L ", " ++ x ++ L ");".

(** the words a name must not hold for the passes to leave it alone *)
Definition name_marks : list str := L "typedef" :: cpp_marks.

(** a piece of a text: a run of word characters without [w], or a run of
    other characters *)
Definition piece_ok (w : str) (b : bool) (t : str) : bool :=
  run_of b t && (negb b || negb (has_sub w t)).

Fixpoint pieces_ok (w : str) (b : bool) (ts : list str) : bool :=
  match ts with
  | [] => true
  | t :: rest => piece_ok w b t && pieces_ok w (negb b) rest
  end.

(** "typedef B A;" *)
Definition typedef_line (B A : str) : str := L "typedef " ++ B ++ L " " ++ A ++ L ";".

(** * Properties *)

(** ** Strings *)

Lemma ch_eq (c d : ascii) : ch c d = true <-> c = d.
Proof. unfold ch. apply Ascii.eqb_eq. Qed.

Lemma ch_refl (c : ascii) : ch c c = true.
Proof. apply ch_eq. reflexivity. Qed.

Lemma ch_neq (c d : ascii) : ch c d = false <-> c <> d.
Proof. unfold ch. apply Ascii.eqb_neq. Qed.

Lemma str_eqb_eq (a b : str) : str_eqb a b = true <-> a = b.
Proof.
  revert b. induction a as [|c a IH]; intros [|d b]; simpl; split; intro H;
    try reflexivity; try discriminate.
  - apply andb_true_iff in H. destruct H as [H1 H2].
    apply ch_eq in H1. apply IH in H2. congruence.
  - injection H as -> ->. rewrite ch_refl. simpl. apply IH. reflexivity.
Qed.

Lemma str_eqb_refl (a : str) : str_eqb a a = true.
Proof. apply str_eqb_eq. reflexivity. Qed.

(** ** Outcomes *)

Definition returns {A : Type} (x : res A) : Prop := exists a, x = Ok a.

Lemma returns_Ok {A : Type} (a : A) : returns (Ok a).
Proof. exists a. reflexivity. Qed.

Lemma returns_bind {A B : Type} (x : res A) (f : A -> res B) :
  returns x -> (forall a, x = Ok a -> returns (f a)) -> returns (bind x f).
Proof.
  intros [a ->] H. simpl. apply H. reflexivity.
Qed.

Lemma foldM_returns {A S : Type} (P : A -> Prop) (f : S -> A -> res S) (l : list A) :
  Forall P l -> (forall s a, P a -> returns (f s a)) ->
  forall s, returns (foldM f l s).
Proof.
  intros HP Hf. induction HP as [|a l Ha _ IH]; intro s; simpl.
  - apply returns_Ok.
  - apply returns_bind; [apply Hf; exact Ha | intros; apply IH].
Qed.

Lemma mapM_returns {A B : Type} (P : A -> Prop) (f : A -> res B) (l : list A) :
  Forall P l -> (forall a, P a -> returns (f a)) -> returns (mapM f l).
Proof.
  intros HP Hf. induction HP as [|a l Ha _ IH]; simpl.
  - apply returns_Ok.
  - apply returns_bind; [apply Hf; exact Ha | intros].
    apply returns_bind; [exact IH | intros; apply returns_Ok].
Qed.

(** ** The matcher: what a successful match went through *)

Lemma getg_nil (n : nat) : getg n [] = None.
Proof. destruct n; reflexivity. Qed.

Lemma getg_setg_same (n : nat) (v : str) (g : groups) : getg n (setg n v g) = Some v.
Proof.
  revert g. induction n as [|n IH]; intros [|x g]; simpl; try reflexivity; apply IH.
Qed.

Lemma getg_setg_other (n m : nat) (v : str) (g : groups) :
  n <> m -> getg n (setg m v g) = getg n g.
Proof.
  unfold getg. revert n g. induction m as [|m IH]; intros [|n] [|x g] H; simpl;
    try reflexivity; try congruence.
  - destruct n; reflexivity.
  - rewrite IH by congruence. destruct n; reflexivity.
  - apply IH. congruence.
Qed.

Lemma getg_setg_keeps (n m : nat) (v : str) (g : groups) :
  getg n g <> None -> getg n (setg m v g) <> None.
Proof.
  intro H. destruct (Nat.eq_dec n m) as [->|Hn].
  - rewrite getg_setg_same. discriminate.
  - rewrite getg_setg_other by exact Hn. exact H.
Qed.

Lemma lit_match_app (w s : str) (p p' : option ascii) (s' : str) :
  lit_match w s p = Some (p', s') -> s = w ++ s'.
Proof.
  revert s p. induction w as [|c w IH]; intros s p H; simpl in *.
  - injection H as _ ->. reflexivity.
  - destruct s as [|d s]; [discriminate|].
    destruct (ch c d) eqn:E; [|discriminate].
    apply ch_eq in E. subst d. f_equal. eapply IH. exact H.
Qed.

Ltac through_here p s g :=
  exists p, [], s, g; split; [reflexivity|]; split; [eassumption|];
  split;
  [ let n := fresh "n" in let F := fresh "F" in
    intros n [F|F]; [discriminate|exact F]
  | let c := fresh "c" in let F := fresh "F" in intros c F; discriminate ].

Section Through.
Variable x : str * groups.

(** [through k p s g]: the continuation [k] succeeded with [x] somewhere
    in [s], with groups that keep what [g] has. *)
Definition through (k : cont) (s : str) (g : groups)
    (extra : nat -> bool) (req : ascii -> bool) : Prop :=
  exists p' t s' g',
    s = t ++ s' /\ k p' s' g' = Some x /\
    (forall n, extra n = true \/ getg n g <> None -> getg n g' <> None) /\
    (forall c, req c = true -> In c t).

Lemma star_greedy_through c k p s g :
  star_greedy c k p s g = Some x -> through k s g (fun _ => false) (fun _ => false).
Proof.
  revert p. induction s as [|d s IH]; intros p H; simpl in H.
  - through_here p (@nil ascii) g.
  - destruct (c d).
    + destruct (star_greedy c k (Some d) s g) eqn:E.
      * injection H as ->. destruct (IH _ E) as (p' & t & s' & g' & -> & Hk & Hg & Hc).
        exists p', (d :: t), s', g'. split; [reflexivity|]. split; [assumption|].
        split; [assumption|]. intros; discriminate.
      * through_here p (d :: s) g.
    + through_here p (d :: s) g.
Qed.

Lemma star_lazy_through c k p s g :
  star_lazy c k p s g = Some x -> through k s g (fun _ => false) (fun _ => false).
Proof.
  revert p. induction s as [|d s IH]; intros p H; simpl in H.
  - destruct (k p [] g) eqn:E; [|discriminate]. injection H as ->.
    through_here p (@nil ascii) g.
  - destruct (k p (d :: s) g) eqn:E.
    + injection H as ->. through_here p (d :: s) g.
    + destruct (c d); [|discriminate].
      destruct (IH _ H) as (p' & t & s' & g' & -> & Hk & Hg & Hc).
      exists p', (d :: t), s', g'. split; [reflexivity|]. split; [assumption|].
      split; [assumption|]. intros; discriminate.
Qed.

End Through.

Lemma existsb_ch_In (c : ascii) (w : str) : existsb (ch c) w = true -> In c w.
Proof.
  intro H. apply existsb_exists in H. destruct H as (d & Hd & E).
  apply ch_eq in E. subst d. exact Hd.
Qed.

Lemma matchre_through (r : re) :
  forall x k p s g,
    matchre r k p s g = Some x ->
    through x k s g (fun n => defines n r) (fun c => must c r).
Proof.
  induction r as [|w|c|gr c|a IHa b IHb|a IHa b IHb|m a IHa|m| ml | | |a IHa];
    intros x k p s g H; simpl in H.
  - through_here p s g.
  - destruct (lit_match w s p) as [[p' s']|] eqn:E; [|discriminate].
    exists p', w, s', g. split; [eapply lit_match_app; exact E|].
    split; [exact H|]. split; [intros n [F|F]; [discriminate|exact F]|].
    intros c Hc. apply existsb_ch_In. exact Hc.
  - destruct s as [|d s]; [discriminate|]. destruct (c d); [|discriminate].
    exists (Some d), [d], s, g. split; [reflexivity|]. split; [exact H|].
    split; [intros n [F|F]; [discriminate|exact F]|]. intros; discriminate.
  - destruct gr; [apply star_greedy_through in H | apply star_lazy_through in H];
      exact H.
  - apply IHa in H. destruct H as (p1 & t1 & s1 & g1 & -> & H & Hg1 & Hc1).
    apply IHb in H. destruct H as (p2 & t2 & s2 & g2 & -> & H & Hg2 & Hc2).
    exists p2, (t1 ++ t2), s2, g2. rewrite app_assoc.
    split; [reflexivity|]. split; [exact H|]. split.
    + intros n Hn. apply Hg2. simpl in Hn.
      destruct (defines n b); [left; reflexivity|]. right. apply Hg1.
      rewrite orb_false_r in Hn. exact Hn.
    + intros c Hc. simpl in Hc. apply in_or_app. apply orb_true_iff in Hc.
      destruct Hc as [Hc|Hc]; [left; apply Hc1|right; apply Hc2]; exact Hc.
  - destruct (matchre a k p s g) eqn:E.
    + injection H as ->. apply IHa in E.
      destruct E as (p1 & t1 & s1 & g1 & -> & H & Hg1 & Hc1).
      exists p1, t1, s1, g1. split; [reflexivity|]. split; [exact H|]. split.
      * intros n Hn. apply Hg1.
        simpl in Hn. destruct Hn as [Hn|Hn]; [|right; exact Hn].
        apply andb_true_iff in Hn. left. apply Hn.
      * intros c Hc. simpl in Hc. apply andb_true_iff in Hc. apply Hc1. apply Hc.
    + apply IHb in H. destruct H as (p1 & t1 & s1 & g1 & -> & H & Hg1 & Hc1).
      exists p1, t1, s1, g1. split; [reflexivity|]. split; [exact H|]. split.
      * intros n Hn. apply Hg1.
        simpl in Hn. destruct Hn as [Hn|Hn]; [|right; exact Hn].
        apply andb_true_iff in Hn. left. apply Hn.
      * intros c Hc. simpl in Hc. apply andb_true_iff in Hc. apply Hc1. apply Hc.
  - apply IHa in H. destruct H as (p1 & t1 & s1 & g1 & -> & H & Hg1 & Hc1).
    eexists p1, t1, s1, _. split; [reflexivity|]. split; [exact H|]. split.
    + intros n Hn. simpl in Hn. destruct (Nat.eq_dec n m) as [->|Hm].
      * rewrite getg_setg_same. discriminate.
      * rewrite getg_setg_other by exact Hm. apply Hg1.
        apply Nat.eqb_neq in Hm. rewrite Hm in Hn. exact Hn.
    + exact Hc1.
  - destruct (getg m g) as [w|]; [|discriminate].
    destruct (lit_match w s p) as [[p' s']|] eqn:E; [|discriminate].
    exists p', w, s', g. split; [eapply lit_match_app; exact E|].
    split; [exact H|]. split; [intros n [F|F]; [discriminate|exact F]|].
    intros; discriminate.
  - destruct (at_bol ml p); [|discriminate]. through_here p s g.
  - destruct (at_eol s); [|discriminate]. through_here p s g.
  - destruct (xorb _ _); [|discriminate]. through_here p s g.
  - destruct (matchre a k_end p s g); [discriminate|]. through_here p s g.
Qed.

(** A match object found by [r] has the groups [r] defines. *)
Definition has_groups (r : re) (m : mobj) : Prop :=
  forall n, defines n r = true -> exists t, group m n = Some t.

Lemma match_at_has_groups r p s m s' :
  match_at r p s = Some (m, s') -> has_groups r m.
Proof.
  unfold match_at. intro H.
  destruct (matchre r k_end p s []) as [[s1 g1]|] eqn:E; [|discriminate].
  injection H as <- <-. apply matchre_through in E.
  destruct E as (p' & t & s2 & g2 & _ & Hk & Hg & _). unfold k_end in Hk.
  injection Hk as -> ->. intros n Hn. unfold group. simpl.
  specialize (Hg n (or_introl Hn)). destruct (getg n g1) as [v|]; [eauto|congruence].
Qed.

Lemma has_groups_grp r m n :
  has_groups r m -> defines n r = true -> returns (grp m n).
Proof.
  intros H Hn. destruct (H n Hn) as [t Ht]. unfold grp. rewrite Ht. apply returns_Ok.
Qed.

Lemma scan_Forall (P : mobj -> Prop) r :
  (forall p s m s', match_at r p s = Some (m, s') -> P m) ->
  forall s p skip acc, Forall (fun sm => P (snd sm)) (fst (scan r p s skip acc)).
Proof.
  intro HP. induction s as [|c t IH]; intros p skip acc; simpl.
  - destruct skip; [|constructor].
    destruct (match_at r p []) as [[m s']|] eqn:E; simpl; [|constructor].
    constructor; [|constructor]. simpl. eapply HP. exact E.
  - destruct skip; [|apply IH].
    destruct (match_at r p (c :: t)) as [[m s']|] eqn:E; [|apply IH].
    destruct (length (m0 m)).
    + specialize (IH (Some c) 0 [c]). destruct (scan r (Some c) t 0 [c]). simpl in *.
      constructor; [simpl; eapply HP; exact E | exact IH].
    + specialize (IH (Some c) n []). destruct (scan r (Some c) t n []). simpl in *.
      constructor; [simpl; eapply HP; exact E | exact IH].
Qed.

Lemma segments_has_groups r s :
  Forall (fun sm => has_groups r (snd sm)) (fst (segments r s)).
Proof.
  apply scan_Forall. intros p s0 m s' H. eapply match_at_has_groups. exact H.
Qed.

Lemma finditer_has_groups r s : Forall (has_groups r) (re_finditer r s).
Proof.
  unfold re_finditer. apply Forall_map. apply segments_has_groups.
Qed.

Lemma re_match_has_groups r s m : re_match r s = Some m -> has_groups r m.
Proof.
  unfold re_match. destruct (match_at r None s) as [[m1 s1]|] eqn:E; [|discriminate].
  simpl. intro H. injection H as <-. eapply match_at_has_groups. exact E.
Qed.

Lemma re_fullmatch_has_groups r s m : re_fullmatch r s = Some m -> has_groups r m.
Proof.
  unfold re_fullmatch.
  destruct (matchre r _ None s []) as [[s1 g1]|] eqn:E; [|discriminate].
  intro H. injection H as <-. apply matchre_through in E.
  destruct E as (p' & t & s2 & g2 & _ & Hk & Hg & _).
  destruct s2; [|discriminate]. injection Hk as <- <-.
  intros n Hn. unfold group. simpl.
  specialize (Hg n (or_introl Hn)). destruct (getg n g2) as [v|]; [eauto|congruence].
Qed.

(** [re.sub] returns when its replacement function does on what it is given. *)
Lemma re_sub_returns r repl s :
  (forall m, has_groups r m -> returns (repl m)) -> returns (re_sub r repl s).
Proof.
  intro H. unfold re_sub. pose proof (segments_has_groups r s) as HF.
  destruct (segments r s) as [segs tl]. simpl in HF.
  apply returns_bind; [|intros; apply returns_Ok].
  apply foldM_returns with (P := fun sm => has_groups r (snd sm)); [exact HF|].
  intros out sm Hsm. apply returns_bind; [apply H; exact Hsm|intros; apply returns_Ok].
Qed.

Lemma re_sub_st_returns {S : Type} r (repl : mobj -> S -> res (str * S)) s st :
  (forall m st', has_groups r m -> returns (repl m st')) ->
  returns (re_sub_st r repl s st).
Proof.
  intro H. unfold re_sub_st. pose proof (segments_has_groups r s) as HF.
  destruct (segments r s) as [segs tl]. simpl in HF.
  apply returns_bind; [|intros [out st'] _; apply returns_Ok].
  apply foldM_returns with (P := fun sm => has_groups r (snd sm)); [exact HF|].
  intros acc sm Hsm. apply returns_bind; [apply H; exact Hsm|].
  intros [t st'] _. apply returns_Ok.
Qed.

Lemma re_split1_returns r s : defines 1 r = true -> returns (re_split1 r s).
Proof.
  intro Hd. unfold re_split1. pose proof (segments_has_groups r s) as HF.
  destruct (segments r s) as [segs tl]. simpl in HF.
  apply returns_bind; [|intros; apply returns_Ok].
  apply mapM_returns with (P := fun sm => has_groups r (snd sm)); [exact HF|].
  intros sm Hsm. apply returns_bind; [|intros; apply returns_Ok].
  eapply has_groups_grp; [exact Hsm|exact Hd].
Qed.

(** ** Every function of the converter returns *)

Ltac ret_step :=
  first
    [ apply returns_Ok
    | eapply has_groups_grp; [eassumption | reflexivity]
    | apply returns_bind; [|intros]
    | match goal with
      | |- returns (match ?x with _ => _ end) => destruct x eqn:?
      end ].
Ltac ret := repeat ret_step.

Lemma lstrip_by_length f s : length (lstrip_by f s) <= length s.
Proof.
  induction s as [|c t IH]; simpl; [lia|]. destruct (f c); simpl; lia.
Qed.

(** The [while] loop ends within the bound it is run with. *)
Lemma strip_stars_returns fuel :
  forall stars q, length q < fuel -> returns (strip_stars fuel stars q).
Proof.
  induction fuel as [|fuel IH]; intros stars q H; [lia|]. simpl.
  destruct q as [|c q]; simpl; [apply returns_Ok|].
  destruct (ch "*" c); simpl; [|apply returns_Ok].
  apply IH. unfold lstrip. pose proof (lstrip_by_length is_space q). simpl in H. lia.
Qed.

Lemma _collect_typedefs_returns code : returns (_collect_typedefs code).
Proof.
  unfold _collect_typedefs.
  apply returns_bind; [|intros].
  { eapply foldM_returns; [apply finditer_has_groups|]. intros; ret. }
  apply returns_bind; [|intros].
  { eapply foldM_returns; [apply finditer_has_groups|]. intros; ret. }
  eapply foldM_returns; [apply finditer_has_groups|]. intros; ret.
Qed.

Lemma decl_part_returns typedefs t types p : returns (decl_part typedefs t types p).
Proof.
  unfold decl_part. apply returns_bind; [apply strip_stars_returns; lia|].
  intros [stars q0] _. destruct (re_match re_name q0) as [m|] eqn:E; [|apply returns_Ok].
  apply re_match_has_groups in E. ret.
Qed.

Lemma _infer_decl_types_returns code : returns (_infer_decl_types code).
Proof.
  unfold _infer_decl_types.
  apply returns_bind; [apply _collect_typedefs_returns|]. intros typedefs _.
  eapply foldM_returns; [apply finditer_has_groups|]. intros types m Hm.
  apply returns_bind; [ret|]. intros t _.
  match goal with |- returns (if ?b then _ else _) => destruct b end;
    [apply returns_Ok|].
  apply returns_bind; [ret|]. intros rest _.
  apply foldM_returns with (P := fun _ => True).
  - apply Forall_forall. trivial.
  - intros. apply decl_part_returns.
Qed.

Lemma _expr_ctype_returns expr types : returns (_expr_ctype expr types).
Proof.
  unfold _expr_ctype.
  destruct (re_fullmatch ident (strip expr)); [apply returns_Ok|].
  destruct (re_fullmatch re_deref (strip expr)) as [m|] eqn:E.
  { apply re_fullmatch_has_groups in E. ret. }
  destruct (re_fullmatch re_index (strip expr)) as [m|] eqn:E2; [|apply returns_Ok].
  apply re_fullmatch_has_groups in E2. ret.
Qed.

Lemma _convert_printf_to_cout_returns call : returns (_convert_printf_to_cout call).
Proof.
  unfold _convert_printf_to_cout.
  destruct (re_match re_printf_call call) as [m|] eqn:E; [|apply returns_Ok].
  apply re_match_has_groups in E.
  apply returns_bind; [ret|]. intros g1 _.
  destruct (_split_printf_args g1) as [|fmt rest]; [apply returns_Ok|].
  match goal with |- returns (if ?b then _ else _) => destruct b end;
    [apply returns_Ok|].
  cbv zeta. apply returns_bind; [apply re_split1_returns; reflexivity|].
  intros tokens _.
  destruct (fold_left printf_step tokens (L "std::cout", rest, false)) as [[out vs] b].
  apply returns_Ok.
Qed.

Lemma _convert_scanf_to_cin_returns call types :
  returns (_convert_scanf_to_cin call types).
Proof.
  unfold _convert_scanf_to_cin.
  destruct (re_match re_scanf_call call) as [m|] eqn:E; [|apply returns_Ok].
  apply re_match_has_groups in E.
  apply returns_bind; [ret|]. intros g1 _.
  destruct (_split_printf_args g1) as [|fmt rest]; [apply returns_Ok|].
  match goal with |- returns (if ?b then _ else _) => destruct b end; apply returns_Ok.
Qed.

Lemma convert_line_returns types ln : returns (convert_line types ln).
Proof.
  unfold convert_line. apply returns_bind.
  - apply re_sub_returns. intros. apply _convert_printf_to_cout_returns.
  - intros. apply re_sub_returns. intros. apply _convert_scanf_to_cin_returns.
Qed.

Ltac ret_if :=
  repeat (cbv zeta;
          first
            [ apply returns_Ok
            | eapply has_groups_grp; [eassumption | reflexivity]
            | apply returns_bind; [|intros]
            | match goal with
              | |- returns (if ?b then _ else _) => destruct b
              | |- returns (match ?x with _ => _ end) => destruct x
              end ]).

Lemma _convert_malloc_free_to_new_delete_returns code types :
  returns (_convert_malloc_free_to_new_delete code types).
Proof.
  unfold _convert_malloc_free_to_new_delete. cbv zeta.
  repeat (apply returns_bind;
          [apply re_sub_st_returns; intros m st' Hm;
           first [ unfold repl_array | unfold repl_scalar | unfold repl_sizeof_ptr
                 | unfold repl_lhs_type_array | unfold repl_lhs_type_scalar
                 | unfold repl_calloc_cast | unfold repl_calloc_sizeof_ptr
                 | unfold repl_free ];
           cbv zeta; ret_if
          | intros [? ?] _ ]).
  apply returns_Ok.
Qed.

Lemma _convert_new_delete_to_malloc_free_returns code :
  returns (_convert_new_delete_to_malloc_free code).
Proof.
  unfold _convert_new_delete_to_malloc_free.
  repeat (apply returns_bind; [apply re_sub_returns; intros; apply returns_Ok|intros]).
  apply re_sub_returns; intros; apply returns_Ok.
Qed.

Lemma cout_part_returns code st p : returns (cout_part code st p).
Proof.
  unfold cout_part. destruct st as [fmt vs].
  destruct (str_eqb p (L "std::endl")); [apply returns_Ok|].
  destruct (startswith [dq] p); [apply returns_Ok|].
  apply returns_bind; [apply _infer_decl_types_returns|]. intros tmap _.
  apply returns_bind; [apply _expr_ctype_returns|]. intros ctp _. apply returns_Ok.
Qed.

Lemma cout_repl_returns code m : has_groups re_cout m -> returns (cout_repl code m).
Proof.
  intro Hm. unfold cout_repl. apply returns_bind; [ret|]. intros expr _. cbv zeta.
  apply returns_bind; [|intros [fmt vs] _; apply returns_Ok].
  apply foldM_returns with (P := fun _ => True).
  - apply Forall_forall. trivial.
  - intros. apply cout_part_returns.
Qed.

Lemma cin_repl_returns m : has_groups re_cin m -> returns (cin_repl m).
Proof.
  intro Hm. unfold cin_repl. apply returns_bind; [ret|]. intros. apply returns_Ok.
Qed.

Lemma convert_c_to_cpp_returns code : returns (convert_c_to_cpp code).
Proof.
  unfold convert_c_to_cpp.
  apply returns_bind.
  { destruct (re_search _include_stdio code); [|apply returns_Ok].
    apply re_sub_returns. intros. apply returns_Ok. }
  intros code1 _.
  apply returns_bind; [apply _infer_decl_types_returns|]. intros types _. cbv zeta.
  apply returns_bind.
  { apply mapM_returns with (P := fun _ => True).
    - apply Forall_forall. trivial.
    - intros. apply convert_line_returns. }
  intros out_lines _.
  apply returns_bind; [apply _convert_malloc_free_to_new_delete_returns|].
  intros code3 _.
  apply returns_bind; [apply re_sub_returns; intros; apply returns_Ok|].
  intros code4 _. apply re_sub_returns; intros; apply returns_Ok.
Qed.

Lemma convert_cpp_to_c_returns code : returns (convert_cpp_to_c code).
Proof.
  unfold convert_cpp_to_c.
  apply returns_bind.
  { destruct (re_search _include_iostream code); [|apply returns_Ok].
    apply re_sub_returns. intros. apply returns_Ok. }
  intros code1 _.
  apply returns_bind; [apply re_sub_returns; intros; apply cout_repl_returns; assumption|].
  intros code2 _.
  apply returns_bind; [apply re_sub_returns; intros; apply cin_repl_returns; assumption|].
  intros code3 _.
  do 4 (apply returns_bind; [apply re_sub_returns; intros; apply returns_Ok|intros]).
  apply _convert_new_delete_to_malloc_free_returns.
Qed.

(** C1. Both entry points are total: on every text, [convert_c_to_cpp]
    (translate_to_cpp) and [convert_cpp_to_c] (translate_to_c) return a
    string; neither raises, and the one loop of the converter ends. *)
Theorem C1_entry_points_total :
  forall code : str,
    (exists out, convert_c_to_cpp code = Ok out) /\
    (exists out, convert_cpp_to_c code = Ok out).
Proof.
  intro code. split.
  - apply convert_c_to_cpp_returns.
  - apply convert_cpp_to_c_returns.
Qed.
(** ** Where a pattern cannot match *)

Lemma match_at_must r p s m s' c :
  match_at r p s = Some (m, s') -> must c r = true -> In c s.
Proof.
  unfold match_at. intros H Hc.
  destruct (matchre r k_end p s []) as [[s1 g1]|] eqn:E; [|discriminate].
  apply matchre_through in E. destruct E as (p' & t & s2 & g2 & -> & _ & _ & Ht).
  apply in_or_app. left. apply Ht. exact Hc.
Qed.

Lemma match_at_lacks r p s c :
  must c r = true -> ~ In c s -> match_at r p s = None.
Proof.
  intros Hc Hn. destruct (match_at r p s) as [[m s']|] eqn:E; [|reflexivity].
  exfalso. apply Hn. eapply match_at_must; eassumption.
Qed.

Lemma at_bol_before m p : at_bol m p = no_char (before_of p) || (m && line_feed (before_of p)).
Proof. destruct p as [d|]; simpl; [reflexivity|reflexivity]. Qed.

Lemma matchre_begins (r : re) :
  forall x k p c t g,
    matchre r k p (c :: t) g = Some x ->
    begins r (before_of p) c = true \/
    (passes r (before_of p) c = true /\ exists g', k p (c :: t) g' = Some x).
Proof.
  induction r as [|w|f|gr f|a IHa b IHb|a IHa b IHb|m a IHa|m| ml | | |a IHa];
    intros x k p c t g H; simpl in H; simpl.
  - right. eauto.
  - destruct w as [|d w]; simpl in H.
    + right. eauto.
    + left. destruct (ch d c); [reflexivity|discriminate].
  - left. destruct (f c); [reflexivity|discriminate].
  - destruct gr; simpl in H.
    + destruct (f c); [left; reflexivity|]. right. eauto.
    + destruct (k p (c :: t) g) eqn:E.
      * injection H as ->. right. eauto.
      * destruct (f c); [left; reflexivity|discriminate].
  - apply IHa in H. destruct H as [H|[Ha [g' H]]].
    + left. rewrite H. reflexivity.
    + apply IHb in H. destruct H as [H|[Hb [g'' H]]].
      * left. rewrite Ha, H. apply orb_true_r.
      * right. rewrite Ha, Hb. eauto.
  - destruct (matchre a k p (c :: t) g) eqn:E.
    + injection H as ->. apply IHa in E. destruct E as [E|[Ea [g' E]]].
      * left. rewrite E. reflexivity.
      * right. rewrite Ea. eauto.
    + apply IHb in H. destruct H as [H|[Hb [g' H]]].
      * left. rewrite H. apply orb_true_r.
      * right. rewrite Hb. rewrite orb_true_r. eauto.
  - apply IHa in H. destruct H as [H|[Ha [g' H]]]; [left; exact H|].
    right. split; [exact Ha|]. eauto.
  - left. reflexivity.
  - destruct p as [d|]; simpl in H |- *.
    + destruct (ml && ch nl d); [|discriminate]. right. eauto.
    + right. eauto.
  - unfold at_eol in H. destruct (ch nl c); [|discriminate]. right. eauto.
  - unfold word_after in H. destruct (xorb _ _); [|discriminate]. right. eauto.
  - destruct (matchre a k_end p (c :: t) g); [discriminate|]. right. eauto.
Qed.

(** [stuck r q c]: [r] neither begins with [c] nor passes before it. *)
Definition stuck (r : re) (q : before) (c : ascii) : bool :=
  negb (begins r q c || passes r q c).

Lemma matchre_stuck r k p c t g :
  stuck r (before_of p) c = true -> matchre r k p (c :: t) g = None.
Proof.
  unfold stuck. intro H. destruct (matchre r k p (c :: t) g) eqn:E; [|reflexivity].
  apply matchre_begins in E. destruct E as [E|[E _]]; rewrite E in H;
    [|rewrite orb_true_r in H]; discriminate.
Qed.

Lemma match_at_stuck r p c t :
  stuck r (before_of p) c = true -> match_at r p (c :: t) = None.
Proof.
  intro H. unfold match_at. rewrite matchre_stuck by exact H. reflexivity.
Qed.

(** ** Scanning *)

Lemma lastp_app p u v : lastp p (u ++ v) = lastp (lastp p u) v.
Proof. unfold lastp. apply fold_left_app. Qed.

Lemma lastp_cons p c u : lastp p (c :: u) = lastp (Some c) u.
Proof. reflexivity. Qed.

(** a text in which [r] matches nowhere before the part [v] *)
Definition quiet (r : re) (p : option ascii) (u v : str) : Prop :=
  forall u1 c u2, u = u1 ++ c :: u2 -> match_at r (lastp p u1) (c :: u2 ++ v) = None.

Lemma quiet_nil r p v : quiet r p [] v.
Proof. intros [|d u1] c u2 H; discriminate. Qed.

Lemma quiet_cons r p c u v :
  match_at r p (c :: u ++ v) = None -> quiet r (Some c) u v -> quiet r p (c :: u) v.
Proof.
  intros H0 H [|d u1] e u2 E; simpl in E; injection E as -> ->.
  - exact H0.
  - apply H. reflexivity.
Qed.

Lemma quiet_cons_inv r p c u v :
  quiet r p (c :: u) v ->
  match_at r p (c :: u ++ v) = None /\ quiet r (Some c) u v.
Proof.
  intro H. split.
  - apply (H [] c u). reflexivity.
  - intros u1 d u2 E. apply (H (c :: u1) d u2). rewrite E. reflexivity.
Qed.

Lemma quiet_app r p u1 u2 v :
  quiet r p u1 (u2 ++ v) -> quiet r (lastp p u1) u2 v -> quiet r p (u1 ++ u2) v.
Proof.
  revert p. induction u1 as [|c u1 IH]; intros p H1 H2; simpl.
  - exact H2.
  - apply quiet_cons_inv in H1. destruct H1 as [H0 H1].
    apply quiet_cons; [rewrite <- app_assoc; exact H0|].
    apply IH; assumption.
Qed.

Lemma scan_quiet r u : forall p v acc,
  quiet r p u v ->
  scan r p (u ++ v) 0 acc = scan r (lastp p u) v 0 (rev u ++ acc).
Proof.
  induction u as [|c u IH]; intros p v acc H; simpl; [reflexivity|].
  apply quiet_cons_inv in H. destruct H as [H0 H]. rewrite H0.
  rewrite IH by exact H. rewrite <- app_assoc. reflexivity.
Qed.

Lemma scan_skip r w : forall p v acc,
  scan r p (w ++ v) (length w) acc = scan r (lastp p w) v 0 acc.
Proof.
  induction w as [|c w IH]; intros p v acc; simpl; [reflexivity|]. apply IH.
Qed.

Lemma scan_end r p acc :
  match_at r p [] = None -> scan r p [] 0 acc = ([], rev acc).
Proof. intro H. simpl. rewrite H. reflexivity. Qed.

(** a match at the head of the text, which takes [c :: w] *)
Lemma scan_here r p c w v acc m :
  match_at r p (c :: w ++ v) = Some (m, v) -> m0 m = c :: w ->
  scan r p (c :: w ++ v) 0 acc =
  let (l, tl) := scan r (lastp (Some c) w) v 0 [] in ((rev acc, m) :: l, tl).
Proof.
  intros H Hm. simpl. rewrite H, Hm. simpl. rewrite scan_skip. reflexivity.
Qed.

(** [r] matches nowhere in [s] *)
Lemma scan_nowhere r p s acc :
  quiet r p s [] -> match_at r (lastp p s) [] = None ->
  scan r p s 0 acc = ([], rev acc ++ s).
Proof.
  intros H He. rewrite <- (app_nil_r s) at 1. rewrite scan_quiet by exact H.
  rewrite scan_end by exact He. rewrite rev_app_distr, rev_involutive. reflexivity.
Qed.

Lemma quiet_lacks r p u v c :
  must c r = true -> ~ In c (u ++ v) -> quiet r p u v.
Proof.
  intros Hc Hn u1 d u2 ->. apply match_at_lacks with (c := c); [exact Hc|].
  intro H. apply Hn. rewrite <- app_assoc. apply in_or_app. right. exact H.
Qed.

Lemma segments_lacks r s c :
  must c r = true -> ~ In c s -> segments r s = ([], s).
Proof.
  intros Hc Hn. unfold segments. apply (@scan_nowhere r None s []).
  - eapply quiet_lacks; [exact Hc|]. rewrite app_nil_r. exact Hn.
  - apply match_at_lacks with (c := c); [exact Hc|]. intros [].
Qed.

Lemma re_sub_segments_nil r repl s : segments r s = ([], s) -> re_sub r repl s = Ok s.
Proof. intro H. unfold re_sub. rewrite H. reflexivity. Qed.

Lemma re_sub_st_segments_nil {S : Type} r (repl : mobj -> S -> res (str * S)) s st :
  segments r s = ([], s) -> re_sub_st r repl s st = Ok (s, st).
Proof. intro H. unfold re_sub_st. rewrite H. reflexivity. Qed.

Lemma search_from_quiet r s : forall p,
  quiet r p s [] -> match_at r (lastp p s) [] = None -> search_from r p s = false.
Proof.
  induction s as [|c s IH]; intros p H He; simpl.
  - simpl in He. rewrite He. reflexivity.
  - apply quiet_cons_inv in H. destruct H as [H0 H]. rewrite app_nil_r in H0.
    rewrite H0. apply IH; assumption.
Qed.

Lemma re_search_lacks r s c : must c r = true -> ~ In c s -> re_search r s = false.
Proof.
  intros Hc Hn. apply search_from_quiet.
  - eapply quiet_lacks; [exact Hc|]. rewrite app_nil_r. exact Hn.
  - apply match_at_lacks with (c := c); [exact Hc|]. intros [].
Qed.

(** ** Facts about all characters, by enumeration *)

Lemma all_chars_In (c : ascii) : In c all_chars.
Proof.
  unfold all_chars. rewrite <- (ascii_nat_embedding c). apply in_map.
  apply in_seq. pose proof (nat_ascii_bounded c). lia.
Qed.

Lemma all_befores_In (q : before) : In q all_befores.
Proof. destruct q as [[] [] []]; simpl; tauto. Qed.

Lemma forall_chars (P : ascii -> bool) :
  forallb P all_chars = true -> forall c, P c = true.
Proof.
  intros H c. rewrite forallb_forall in H. apply H. apply all_chars_In.
Qed.

Lemma forall_befores (P : before -> bool) :
  forallb P all_befores = true -> forall q, P q = true.
Proof.
  intros H q. rewrite forallb_forall in H. apply H. apply all_befores_In.
Qed.

(** one class inside another *)
Definition sub_class (C D : ascii -> bool) : bool :=
  forallb (fun c => negb (C c) || D c) all_chars.

Lemma sub_class_ok C D c : sub_class C D = true -> C c = true -> D c = true.
Proof.
  intros H Hc. pose proof (forall_chars _ H c) as E. cbv beta in E.
  rewrite Hc in E. exact E.
Qed.

Lemma forallb_sub_class C D u :
  sub_class C D = true -> forallb C u = true -> forallb D u = true.
Proof.
  intros H Hu. rewrite forallb_forall in *. intros c Hc.
  eapply sub_class_ok; [exact H|]. apply Hu. exact Hc.
Qed.

(** the characters of class [C] on which [r] is stuck, whatever comes before *)
Definition stuck_on (C : ascii -> bool) (r : re) : bool :=
  forallb (fun c => negb (C c) || forallb (fun q => stuck r q c) all_befores) all_chars.

Lemma stuck_on_ok C r q c : stuck_on C r = true -> C c = true -> stuck r q c = true.
Proof.
  intros H Hc. pose proof (forall_chars _ H c) as E. cbv beta in E.
  rewrite Hc in E. exact (forall_befores _ E q).
Qed.

(** ** What a pattern takes

    [takes a p u v g g']: at a position after [p] and before [u ++ v], the
    first way [a] matches takes [u] and leaves the groups [g']. *)

Definition takes (a : re) (p : option ascii) (u v : str) (g g' : groups) : Prop :=
  forall k x, k (lastp p u) v g' = Some x -> matchre a k p (u ++ v) g = Some x.

Definition stops (c : ascii -> bool) (v : str) : bool :=
  match v with d :: _ => negb (c d) | [] => true end.

Lemma firstn_app_len (u v : str) : firstn (length (u ++ v) - length v) (u ++ v) = u.
Proof.
  rewrite length_app. replace (length u + length v - length v) with (length u) by lia.
  rewrite firstn_app, Nat.sub_diag, firstn_all. simpl. apply app_nil_r.
Qed.

Lemma lit_match_here w : forall p s, lit_match w (w ++ s) p = Some (lastp p w, s).
Proof.
  induction w as [|c w IH]; intros p s; simpl; [reflexivity|].
  rewrite ch_refl. apply IH.
Qed.

Lemma takes_Eps p v g : takes Eps p [] v g g.
Proof. intros k x H. exact H. Qed.

Lemma takes_Lit w p v g : takes (Lit w) p w v g g.
Proof. intros k x H. simpl. rewrite lit_match_here. exact H. Qed.

Lemma takes_Cls c d p v g : c d = true -> takes (Cls c) p [d] v g g.
Proof. intros Hc k x H. simpl. rewrite Hc. exact H. Qed.

Lemma star_greedy_take c k u : forall p v g x,
  forallb c u = true ->
  star_greedy c k (lastp p u) v g = Some x -> star_greedy c k p (u ++ v) g = Some x.
Proof.
  induction u as [|d u IH]; intros p v g x Hu H; simpl in *; [exact H|].
  apply andb_true_iff in Hu. destruct Hu as [Hd Hu]. rewrite Hd.
  rewrite (IH (Some d) v g x Hu H). reflexivity.
Qed.

Lemma star_greedy_stop c k p v g : stops c v = true -> star_greedy c k p v g = k p v g.
Proof.
  destruct v as [|d v]; simpl; [reflexivity|]. intro H.
  apply negb_true_iff in H. rewrite H. reflexivity.
Qed.

Lemma takes_Star c p u v g :
  forallb c u = true -> stops c v = true -> takes (Star true c) p u v g g.
Proof.
  intros Hu Hv k x H. simpl. apply star_greedy_take; [exact Hu|].
  rewrite star_greedy_stop by exact Hv. exact H.
Qed.

Lemma takes_Seq a b p u1 u2 v g g1 g2 :
  takes a p u1 (u2 ++ v) g g1 -> takes b (lastp p u1) u2 v g1 g2 ->
  takes (Seq a b) p (u1 ++ u2) v g g2.
Proof.
  intros Ha Hb k x H. simpl. rewrite <- app_assoc. apply Ha. apply Hb.
  rewrite <- lastp_app. exact H.
Qed.

Lemma takes_Grp n a p u v g g' :
  takes a p u v g g' -> takes (Grp n a) p u v g (setg n u g').
Proof.
  intros Ha k x H. simpl. apply Ha. rewrite firstn_app_len. exact H.
Qed.

Lemma takes_Alt_l a b p u v g g' : takes a p u v g g' -> takes (Alt a b) p u v g g'.
Proof. intros Ha k x H. simpl. rewrite (Ha k x H). reflexivity. Qed.

Lemma takes_Alt_r a b p u v g g' :
  (forall k, matchre a k p (u ++ v) g = None) ->
  takes b p u v g g' -> takes (Alt a b) p u v g g'.
Proof. intros Ha Hb k x H. simpl. rewrite Ha. apply Hb. exact H. Qed.

Lemma takes_WordB p v g :
  xorb (word_before p) (word_after v) = true -> takes WordB p [] v g g.
Proof. intros Hb k x H. simpl. rewrite Hb. exact H. Qed.

Lemma takes_NotAhead a p v g :
  matchre a k_end p v g = None -> takes (NotAhead a) p [] v g g.
Proof. intros Ha k x H. simpl. rewrite Ha. exact H. Qed.

Lemma takes_Bol m p v g : at_bol m p = true -> takes (Bol m) p [] v g g.
Proof. intros Hb k x H. simpl. rewrite Hb. exact H. Qed.

Lemma takes_Ref n w p v g : getg n g = Some w -> takes (Ref n) p w v g g.
Proof. intros Hg k x H. simpl. rewrite Hg, lit_match_here. exact H. Qed.

Lemma takes_Plus c d u p v g :
  c d = true -> forallb c u = true -> stops c v = true ->
  takes (Plus c) p (d :: u) v g g.
Proof.
  intros Hd Hu Hv. change (d :: u) with ([d] ++ u). unfold Plus.
  eapply takes_Seq; [apply takes_Cls; exact Hd|]. apply takes_Star; assumption.
Qed.

Lemma match_at_takes r p u v g' :
  takes r p u v [] g' -> match_at r p (u ++ v) = Some ({| m0 := u; mgroups := g' |}, v).
Proof.
  intro H. unfold match_at. rewrite (H k_end (v, g') eq_refl).
  rewrite firstn_app_len. reflexivity.
Qed.

Lemma re_fullmatch_takes r s g' :
  takes r None s [] [] g' -> re_fullmatch r s = Some {| m0 := s; mgroups := g' |}.
Proof.
  intro H. unfold re_fullmatch.
  pose proof (H (fun _ s' g => match s' with [] => Some (s', g) | _ => None end)
                ([], g') eq_refl) as E.
  rewrite app_nil_r in E. rewrite E. reflexivity.
Qed.

(** Lazy repetition goes on while what follows it fails. *)
Lemma star_lazy_skip c k u : forall p v g,
  forallb c u = true ->
  (forall u1 d u2, u = u1 ++ d :: u2 -> k (lastp p u1) (d :: u2 ++ v) g = None) ->
  star_lazy c k p (u ++ v) g = star_lazy c k (lastp p u) v g.
Proof.
  induction u as [|d u IH]; intros p v g Hu Hk; [reflexivity|].
  simpl in Hu. apply andb_true_iff in Hu. destruct Hu as [Hd Hu].
  pose proof (Hk [] d u eq_refl) as H0. simpl in H0. simpl. rewrite H0, Hd.
  apply IH; [exact Hu|].
  intros u1 e u2 E. apply (Hk (d :: u1) e u2). rewrite E. reflexivity.
Qed.

Lemma star_lazy_here c k p v g x : k p v g = Some x -> star_lazy c k p v g = Some x.
Proof. intro H. destruct v; simpl; rewrite H; reflexivity. Qed.

(** the lazy star followed by a pattern [b] that is stuck on the class *)
Lemma lazy_then c b k u p v g x :
  forallb c u = true -> stuck_on c b = true ->
  matchre b k (lastp p u) v g = Some x ->
  matchre (Seq (Star false c) b) k p (u ++ v) g = Some x.
Proof.
  intros Hu Hb H. simpl. rewrite star_lazy_skip.
  - apply star_lazy_here. exact H.
  - exact Hu.
  - intros u1 d u2 E. apply matchre_stuck. eapply stuck_on_ok; [exact Hb|].
    rewrite forallb_forall in Hu. apply Hu. rewrite E. apply in_or_app.
    right. left. reflexivity.
Qed.

(** ** Regions in which a pattern led by a literal cannot match *)

Lemma app_split_class (C : ascii -> bool) w : forall u d v s',
  forallb C w = true -> forallb C u = true -> C d = false ->
  u ++ d :: v = w ++ s' -> exists u3, u = w ++ u3 /\ s' = u3 ++ d :: v.
Proof.
  induction w as [|c w IH]; intros u d v s' Hw Hu Hd E; simpl in *.
  - exists u. split; [reflexivity|]. symmetry. exact E.
  - apply andb_true_iff in Hw. destruct Hw as [Hc Hw].
    destruct u as [|e u]; simpl in E.
    + injection E as -> _. congruence.
    + injection E as -> E. simpl in Hu. apply andb_true_iff in Hu.
      destruct Hu as [_ Hu]. destruct (IH u d v s' Hw Hu Hd E) as (u3 & -> & ->).
      exists u3. split; reflexivity.
Qed.

Lemma forallb_app_inv (C : ascii -> bool) u1 u2 :
  forallb C (u1 ++ u2) = true -> forallb C u1 = true /\ forallb C u2 = true.
Proof. rewrite forallb_app. apply andb_true_iff. Qed.

Lemma lit_led_quiet (C : ascii -> bool) w R d u v p :
  forallb C w = true -> C d = false -> forallb C u = true ->
  stuck_on (fun c => C c || ch d c) R = true ->
  quiet (Seq (Lit w) R) p u (d :: v).
Proof.
  intros Hw Hd Hu HR u1 c u2 E. unfold match_at. simpl.
  destruct (lit_match w (c :: u2 ++ d :: v) (lastp p u1)) as [[p' s']|] eqn:El;
    [|reflexivity].
  apply lit_match_app in El. subst u. apply forallb_app_inv in Hu.
  destruct Hu as [_ Hu].
  change (c :: u2 ++ d :: v) with ((c :: u2) ++ d :: v) in El.
  destruct (app_split_class C w _ _ _ _ Hw Hu Hd El) as (u3 & E3 & ->).
  rewrite E3 in Hu. apply forallb_app_inv in Hu. destruct Hu as [_ Hu3].
  destruct u3 as [|e u3]; simpl.
  - rewrite matchre_stuck; [reflexivity|]. eapply stuck_on_ok; [exact HR|].
    cbv beta. rewrite ch_refl. apply orb_true_r.
  - rewrite matchre_stuck; [reflexivity|]. eapply stuck_on_ok; [exact HR|].
    simpl in Hu3. apply andb_true_iff in Hu3. destruct Hu3 as [He _].
    cbv beta. rewrite He. reflexivity.
Qed.

(** a region on whose characters the pattern is stuck *)
Lemma stuck_quiet (C : ascii -> bool) r u v p :
  forallb C u = true -> stuck_on C r = true -> quiet r p u v.
Proof.
  intros Hu Hr u1 c u2 E. apply match_at_stuck. eapply stuck_on_ok; [exact Hr|].
  rewrite forallb_forall in Hu. apply Hu. rewrite E. apply in_or_app.
  right. left. reflexivity.
Qed.

(** ** A word pattern on a region that is one word *)

Lemma lastp_word w p :
  w <> [] -> forallb is_word w = true -> word_before (lastp p w) = true.
Proof.
  revert p. induction w as [|c w IH]; intros p Hn Hw; [congruence|].
  simpl in Hw. apply andb_true_iff in Hw. destruct Hw as [Hc Hw].
  rewrite lastp_cons. destruct w as [|e w]; [exact Hc|].
  apply IH; [discriminate|exact Hw].
Qed.

Lemma lit_match_lastp w : forall s p p' s',
  lit_match w s p = Some (p', s') -> p' = lastp p w.
Proof.
  induction w as [|c w IH]; intros s p p' s' H; simpl in H.
  - injection H as <- _. reflexivity.
  - destruct s as [|d s]; [discriminate|]. destruct (ch c d) eqn:E; [|discriminate].
    apply ch_eq in E. subst d. rewrite lastp_cons. eapply IH. exact H.
Qed.

Lemma word_quiet (W : string) u d v p :
  L W <> [] -> forallb is_word (L W) = true ->
  word_before p = false -> forallb is_word u = true -> is_word d = false ->
  u <> L W ->
  quiet (re_word W) p u (d :: v).
Proof.
  intros HW0 HW Hp Hu Hd Hne u1 c u2 E. unfold match_at, re_word, pat, lit. simpl.
  assert (Hc : is_word c = true).
  { rewrite forallb_forall in Hu. apply Hu. rewrite E. apply in_or_app.
    right. left. reflexivity. }
  rewrite Hc.
  destruct u1 as [|e u1].
  - simpl in E. subst u. simpl. rewrite Hp. simpl.
    destruct (lit_match (L W) (c :: u2 ++ d :: v) p) as [[p' s']|] eqn:El;
      [|reflexivity].
    pose proof El as Hp'. apply lit_match_lastp in Hp'. apply lit_match_app in El.
    change (c :: u2 ++ d :: v) with ((c :: u2) ++ d :: v) in El.
    destruct (app_split_class is_word (L W) _ _ _ _ HW Hu Hd El) as (u3 & E3 & ->).
    subst p'. rewrite (lastp_word p HW0 HW).
    destruct u3 as [|e u3].
    + exfalso. apply Hne. rewrite E3. apply app_nil_r.
    + rewrite E3 in Hu. apply forallb_app_inv in Hu. destruct Hu as [_ Hu].
      simpl in Hu. apply andb_true_iff in Hu. destruct Hu as [He _].
      simpl. rewrite He. reflexivity.
  - assert (Hb : word_before (lastp p (e :: u1)) = true).
    { apply lastp_word; [discriminate|]. rewrite E in Hu.
      apply forallb_app_inv in Hu. apply Hu. }
    rewrite Hb. reflexivity.
Qed.

(** ** The segments of a text with one match *)

Lemma segments_one r pre u v g' :
  u <> [] ->
  quiet r None pre (u ++ v) ->
  takes r (lastp None pre) u v [] g' ->
  quiet r (lastp None (pre ++ u)) v [] ->
  match_at r (lastp None (pre ++ u ++ v)) [] = None ->
  segments r (pre ++ u ++ v) = ([(pre, {| m0 := u; mgroups := g' |})], v).
Proof.
  intros Hu Hpre Ht Hv He. unfold segments.
  rewrite scan_quiet by exact Hpre. rewrite app_nil_r.
  destruct u as [|c w]; [congruence|].
  change ((c :: w) ++ v) with (c :: w ++ v).
  apply match_at_takes in Ht. change ((c :: w) ++ v) with (c :: w ++ v) in Ht.
  rewrite (@scan_here r (lastp None pre) c w v (rev pre) _ Ht eq_refl).
  rewrite rev_involutive.
  replace (lastp (Some c) w) with (lastp None (pre ++ c :: w))
    by (rewrite lastp_app; reflexivity).
  rewrite (@scan_nowhere r _ v []); [reflexivity|exact Hv|].
  rewrite <- lastp_app, <- app_assoc. exact He.
Qed.

Lemma re_sub_one r repl pre u v m t :
  segments r (pre ++ u ++ v) = ([(pre, m)], v) -> repl m = Ok t ->
  re_sub r repl (pre ++ u ++ v) = Ok (pre ++ t ++ v).
Proof.
  intros H Hr. unfold re_sub. rewrite H. simpl. rewrite Hr. simpl.
  rewrite <- app_assoc. reflexivity.
Qed.

Lemma quiet_segments r s :
  quiet r None s [] -> match_at r (lastp None s) [] = None -> segments r s = ([], s).
Proof. intros H He. unfold segments. apply (@scan_nowhere r None s []); assumption. Qed.

Lemma quiet_search r s :
  quiet r None s [] -> match_at r (lastp None s) [] = None -> re_search r s = false.
Proof. apply search_from_quiet. Qed.

(** characters a text does not have *)
Lemma forallb_not_In (C : ascii -> bool) s c :
  forallb C s = true -> C c = false -> ~ In c s.
Proof.
  intros H Hc Hi. rewrite forallb_forall in H. apply H in Hi. congruence.
Qed.

Lemma segments_without r s c :
  must c r = true -> forallb (notc c) s = true -> segments r s = ([], s).
Proof.
  intros Hm Hs. eapply segments_lacks; [exact Hm|].
  eapply forallb_not_In; [exact Hs|]. unfold notc. rewrite ch_refl. reflexivity.
Qed.

Lemma re_search_without r s c :
  must c r = true -> forallb (notc c) s = true -> re_search r s = false.
Proof.
  intros Hm Hs. eapply re_search_lacks; [exact Hm|].
  eapply forallb_not_In; [exact Hs|]. unfold notc. rewrite ch_refl. reflexivity.
Qed.

(** ** Stages of the two entry points on simple texts *)

Arguments L s : simpl never.

Lemma mem_false_neq x y l : mem x l = false -> In y l -> x <> y.
Proof.
  unfold mem. intros H Hy E. subst y.
  assert (existsb (str_eqb x) l = true) as F; [|congruence].
  apply existsb_exists. exists x. split; [exact Hy|apply str_eqb_refl].
Qed.

Lemma is_identifier_chars x : is_identifier x = true -> forallb ident_char x = true.
Proof.
  destruct x as [|c t]; [discriminate|]. simpl. intro H.
  apply andb_true_iff in H. destruct H as [Hc Ht]. rewrite Ht.
  rewrite (@sub_class_ok ident_start ident_char c); [reflexivity| |exact Hc].
  vm_compute. reflexivity.
Qed.

Lemma is_name_chars x : is_number_or_name x = true -> forallb ident_char x = true.
Proof. destruct x; [discriminate|]. intro H. exact H. Qed.

Lemma forallb_cons_intro (C : ascii -> bool) c t :
  C c = true -> forallb C t = true -> forallb C (c :: t) = true.
Proof. intros Hc Ht. simpl. rewrite Hc, Ht. reflexivity. Qed.

(** [forallb] over a text given in pieces *)
Ltac fb_go :=
  lazymatch goal with
  | |- forallb _ (_ ++ _) = true =>
      rewrite forallb_app; apply andb_true_intro; split; fb_go
  | |- forallb _ (L _) = true => reflexivity
  | |- forallb _ (_ :: _) = true => apply forallb_cons_intro; [reflexivity | fb_go]
  | |- forallb _ [] = true => reflexivity
  | |- _ => first [ assumption
                  | eapply forallb_sub_class; [|eassumption]; vm_compute; reflexivity ]
  end.
Ltac fb := cbn [app]; fb_go.

(** a position before a known character *)
Ltac nomatch_here :=
  first [ reflexivity
        | apply match_at_stuck;
          match goal with
          | |- stuck ?r ?p ?c = true =>
              apply (forall_befores (fun q => stuck r q c)); vm_compute; reflexivity
          end ].

Ltac quiet_concrete :=
  cbv [L list_ascii_of_string]; cbn [app];
  repeat (apply quiet_cons; [nomatch_here|]); apply quiet_nil.

(** the word substitutions of [convert_cpp_to_c] leave a text alone *)
Definition no_cpp_words (s : str) : Prop :=
  forall W, In W ["nullptr"; "bool"; "true"; "false"]%string ->
            segments (re_word W) s = ([], s).

Lemma cpp_to_c_plain s :
  forallb (notc "#") s = true -> forallb (notc ":") s = true -> no_cpp_words s ->
  convert_cpp_to_c s = _convert_new_delete_to_malloc_free s.
Proof.
  intros Hh Hc Hw. unfold convert_cpp_to_c, sub_word.
  rewrite (@re_search_without _include_iostream s "#"%char); [|reflexivity|exact Hh].
  cbn [bind].
  rewrite (@re_sub_segments_nil re_cout); [|eapply segments_without; [|exact Hc]; reflexivity].
  cbn [bind].
  rewrite (@re_sub_segments_nil re_cin); [|eapply segments_without; [|exact Hc]; reflexivity].
  cbn [bind].
  rewrite (@re_sub_segments_nil (re_word "nullptr")); [|apply Hw; simpl; tauto].
  cbn [bind].
  rewrite (@re_sub_segments_nil (re_word "bool")); [|apply Hw; simpl; tauto].
  cbn [bind].
  rewrite (@re_sub_segments_nil (re_word "true")); [|apply Hw; simpl; tauto].
  cbn [bind].
  rewrite (@re_sub_segments_nil (re_word "false")); [|apply Hw; simpl; tauto].
  reflexivity.
Qed.

(** a word that is none of the four *)
Lemma word_region_quiet W u d v p :
  In W ["nullptr"; "bool"; "true"; "false"; "NULL"]%string ->
  word_before p = false -> forallb ident_char u = true -> is_word d = false ->
  u <> L W ->
  quiet (re_word W) p u (d :: v).
Proof.
  intros HW Hp Hu Hd Hne. apply word_quiet; try assumption.
  - simpl in HW. repeat destruct HW as [<-|HW]; try discriminate. destruct HW.
  - simpl in HW. repeat destruct HW as [<-|HW]; try reflexivity. destruct HW.
  - eapply forallb_sub_class; [|exact Hu]. vm_compute. reflexivity.
Qed.

(** a pattern that must contain some character matches nothing at the end *)
Definition must_any (r : re) : bool := existsb (fun c => must c r) all_chars.

Lemma match_at_end r p : must_any r = true -> match_at r p [] = None.
Proof.
  intro H. apply existsb_exists in H. destruct H as (c & _ & Hc).
  apply match_at_lacks with (c := c); [exact Hc|]. intros [].
Qed.

Ltac nomatch_end :=
  first [ reflexivity | apply match_at_end; vm_compute; reflexivity ].


(** ** The characters a match takes *)

(** [within C r]: every character a match of [r] takes is of class [C]. *)
Fixpoint within (C : ascii -> bool) (r : re) : bool :=
  match r with
  | Lit w => forallb C w
  | Cls f => sub_class f C
  | Star _ f => sub_class f C
  | Seq a b => within C a && within C b
  | Alt a b => within C a && within C b
  | Grp _ a => within C a
  | Ref _ => false
  | _ => true
  end.


Section Taken.
Variable C : ascii -> bool.
Variable x : str * groups.

Definition taken (k : cont) (s : str) : Prop :=
  exists p' t s' g', s = t ++ s' /\ forallb C t = true /\ k p' s' g' = Some x.

Lemma taken_here (k : cont) p s g : k p s g = Some x -> taken k s.
Proof. intro H. exists p, [], s, g. repeat split; assumption. Qed.

Lemma taken_cons (k : cont) d s : C d = true -> taken k s -> taken k (d :: s).
Proof.
  intros Hd (p' & t & s' & g' & -> & Ht & Hk).
  exists p', (d :: t), s', g'. split; [reflexivity|]. split; [|exact Hk].
  simpl. rewrite Hd. exact Ht.
Qed.

Lemma star_greedy_taken f k p s g :
  sub_class f C = true -> star_greedy f k p s g = Some x -> taken k s.
Proof.
  intro Hf. revert p. induction s as [|d s IH]; intros p H; simpl in H.
  - eapply taken_here. exact H.
  - destruct (f d) eqn:Ed; [|eapply taken_here; exact H].
    destruct (star_greedy f k (Some d) s g) eqn:E.
    + injection H as ->. apply taken_cons; [eapply sub_class_ok; eassumption|].
      eapply IH. exact E.
    + eapply taken_here. exact H.
Qed.

Lemma star_lazy_taken f k p s g :
  sub_class f C = true -> star_lazy f k p s g = Some x -> taken k s.
Proof.
  intro Hf. revert p. induction s as [|d s IH]; intros p H; simpl in H.
  - destruct (k p [] g) eqn:E; [|discriminate]. injection H as ->.
    eapply taken_here. exact E.
  - destruct (k p (d :: s) g) eqn:E.
    + injection H as ->. eapply taken_here. exact E.
    + destruct (f d) eqn:Ed; [|discriminate].
      apply taken_cons; [eapply sub_class_ok; eassumption|]. eapply IH. exact H.
Qed.

End Taken.

Lemma matchre_taken C (r : re) :
  within C r = true ->
  forall x k p s g, matchre r k p s g = Some x -> taken C x k s.
Proof.
  induction r as [|w|f|gr f|a IHa b IHb|a IHa b IHb|m a IHa|m| ml | | |a IHa];
    intros Hw x k p s g H; simpl in H, Hw.
  - eapply taken_here. exact H.
  - destruct (lit_match w s p) as [[p' s']|] eqn:E; [|discriminate].
    exists p', w, s', g. split; [eapply lit_match_app; exact E|]. split; assumption.
  - destruct s as [|d s]; [discriminate|]. destruct (f d) eqn:Ed; [|discriminate].
    apply taken_cons; [eapply sub_class_ok; eassumption|]. eapply taken_here. exact H.
  - destruct gr; [eapply star_greedy_taken | eapply star_lazy_taken]; eassumption.
  - apply andb_true_iff in Hw. destruct Hw as [Ha Hb].
    apply (IHa Ha) in H. destruct H as (p1 & t1 & s1 & g1 & -> & Ht1 & H).
    apply (IHb Hb) in H. destruct H as (p2 & t2 & s2 & g2 & -> & Ht2 & H).
    exists p2, (t1 ++ t2), s2, g2. rewrite app_assoc. split; [reflexivity|].
    split; [|exact H]. rewrite forallb_app, Ht1, Ht2. reflexivity.
  - apply andb_true_iff in Hw. destruct Hw as [Ha Hb].
    destruct (matchre a k p s g) eqn:E.
    + injection H as ->. eapply IHa; eassumption.
    + eapply IHb; eassumption.
  - apply (IHa Hw) in H. destruct H as (p1 & t1 & s1 & g1 & -> & Ht1 & H).
    eexists p1, t1, s1, _. split; [reflexivity|]. split; [exact Ht1|exact H].
  - discriminate.
  - destruct (at_bol ml p); [|discriminate]. eapply taken_here. exact H.
  - destruct (at_eol s); [|discriminate]. eapply taken_here. exact H.
  - destruct (xorb _ _); [|discriminate]. eapply taken_here. exact H.
  - destruct (matchre a k_end p s g); [discriminate|]. eapply taken_here. exact H.
Qed.

(** a full match takes the whole text *)
Lemma re_fullmatch_within C r s m :
  within C r = true -> re_fullmatch r s = Some m -> forallb C s = true.
Proof.
  intros Hw H. unfold re_fullmatch in H.
  destruct (matchre r _ None s []) as [[s1 g1]|] eqn:E; [|discriminate].
  apply (matchre_taken C r Hw) in E. destruct E as (p' & t & s' & g' & -> & Ht & Hk).
  destruct s'; [|discriminate]. rewrite app_nil_r. exact Ht.
Qed.

Lemma re_fullmatch_stuck r c t :
  stuck r (before_of None) c = true -> re_fullmatch r (c :: t) = None.
Proof.
  intro H. unfold re_fullmatch. rewrite matchre_stuck by exact H. reflexivity.
Qed.

Lemma run_stops (C f : ascii -> bool) d (v : str) :
  f d = false ->
  forall u t s2,
    forallb C u = true -> u ++ d :: v = t ++ s2 -> forallb f t = true ->
    exists e s3, s2 = e :: s3 /\ (C e = true \/ e = d).
Proof.
  intros Hfd. induction u as [|e u IH]; intros t s2 Hu Et Ht.
  - destruct t as [|a t]; simpl in Et.
    + exists d, v. split; [symmetry; exact Et|right; reflexivity].
    + injection Et as <- _. simpl in Ht. rewrite Hfd in Ht. discriminate.
  - simpl in Hu. apply andb_true_iff in Hu. destruct Hu as [He Hu].
    destruct t as [|a t]; simpl in Et.
    + exists e, (u ++ d :: v). split; [symmetry; exact Et|left; exact He].
    + injection Et as <- Et. simpl in Ht. apply andb_true_iff in Ht.
      apply (IH t s2 Hu Et). apply Ht.
Qed.

(** a region in which a literal, then a run of one class, then a pattern
    stuck on the region cannot match *)
Lemma lit_run_led_quiet (C : ascii -> bool) w f R d u v p :
  forallb C w = true -> C d = false -> forallb C u = true ->
  f d = false ->
  stuck_on (fun c => C c || ch d c) R = true ->
  quiet (Seq (Lit w) (Seq (Star true f) R)) p u (d :: v).
Proof.
  intros Hw Hd Hu Hfd HR u1 c u2 E. unfold match_at. simpl.
  destruct (lit_match w (c :: u2 ++ d :: v) (lastp p u1)) as [[p' s']|] eqn:El;
    [|reflexivity].
  apply lit_match_app in El. subst u. apply forallb_app_inv in Hu.
  destruct Hu as [_ Hu].
  change (c :: u2 ++ d :: v) with ((c :: u2) ++ d :: v) in El.
  destruct (app_split_class C w _ _ _ _ Hw Hu Hd El) as (u3 & E3 & ->).
  rewrite E3 in Hu. apply forallb_app_inv in Hu. destruct Hu as [_ Hu3].
  destruct (star_greedy f (matchre R k_end) p' (u3 ++ d :: v) []) as [y|] eqn:Es;
    [|reflexivity].
  exfalso.
  apply (@star_greedy_taken f y f) in Es; [|apply forallb_forall; intros a _;
    destruct (f a); reflexivity].
  destruct Es as (p2 & t & s2 & g2 & Et & Ht & Hk).
  destruct (@run_stops C f d v Hfd u3 t s2 Hu3 Et Ht) as (e & s3 & -> & He).
  rewrite matchre_stuck in Hk; [discriminate|].
  eapply stuck_on_ok; [exact HR|]. cbv beta.
  destruct He as [He| ->]; [rewrite He; reflexivity|rewrite ch_refl; apply orb_true_r].
Qed.

(** a region of a known class *)
Ltac region :=
  cbv [L list_ascii_of_string]; cbn [app];
  match goal with
  | H : forallb ?C ?u = true |- quiet _ _ ?u _ =>
      first [ apply (@stuck_quiet C); [exact H | vm_compute; reflexivity]
            | apply (@lit_led_quiet C);
              [reflexivity | reflexivity | exact H | vm_compute; reflexivity]
            | apply (@lit_run_led_quiet C);
              [reflexivity | reflexivity | exact H | reflexivity
              | vm_compute; reflexivity]
            | apply word_region_quiet;
              [simpl; tauto | reflexivity | exact H | reflexivity | assumption] ]
  end.

Ltac quiet_go :=
  lazymatch goal with
  | |- quiet _ _ (_ ++ _) _ => apply quiet_app; [quiet_go | quiet_go]
  | |- quiet _ _ (L _) _ => quiet_concrete
  | |- quiet _ _ (_ :: _) _ => apply quiet_cons; [nomatch_here | quiet_go]
  | |- quiet _ _ [] _ => apply quiet_nil
  | |- _ => region
  end.

(** no match anywhere in a text given in pieces *)
Ltac no_segments :=
  cbn [app]; repeat (rewrite <- app_assoc || rewrite <- app_comm_cons);
  apply quiet_segments; [quiet_go | nomatch_end].

Lemma takes_seq_cons a l p u1 u2 v g g1 g2 :
  takes a p u1 (u2 ++ v) g g1 -> takes (pat l) (lastp p u1) u2 v g1 g2 ->
  takes (pat (a :: l)) p (u1 ++ u2) v g g2.
Proof. apply takes_Seq. Qed.

Lemma takes_seq_nil p v g : takes (pat []) p [] v g g.
Proof. apply takes_Eps. Qed.

(** classes that share no character *)
Definition disjoint (C D : ascii -> bool) : bool :=
  forallb (fun c => negb (C c && D c)) all_chars.

Lemma disjoint_ok C D c : disjoint C D = true -> C c = true -> D c = false.
Proof.
  intros H Hc. pose proof (forall_chars _ H c) as E. cbv beta in E.
  rewrite Hc in E. destruct (D c); [discriminate|reflexivity].
Qed.

Lemma stops_cons C D c v : disjoint C D = true -> C c = true -> stops D (c :: v) = true.
Proof. intros H Hc. simpl. rewrite (disjoint_ok C D c H Hc). reflexivity. Qed.

(** an identifier before a character that cannot go on it *)
Lemma takes_ident c t p v g :
  ident_start c = true -> forallb ident_char t = true -> stops ident_char v = true ->
  takes ident p (c :: t) v g g.
Proof.
  intros Hc Ht Hv. change (c :: t) with ([c] ++ t). unfold ident.
  eapply takes_Seq; [apply takes_Cls; exact Hc|]. apply takes_Star; assumption.
Qed.

(** ** new and delete with plain names *)

Ltac retext old new :=
  replace old with new
    by (repeat (rewrite <- app_assoc || rewrite <- app_comm_cons); reflexivity).

Lemma identifier_nonempty T : is_identifier T = true -> T <> [].
Proof. destruct T; [discriminate|]. discriminate. Qed.

Lemma identifier_word T : is_identifier T = true -> forallb is_word T = true.
Proof.
  intro H. apply is_identifier_chars in H.
  eapply forallb_sub_class; [|exact H]. vm_compute. reflexivity.
Qed.

Lemma new_array_takes T N p v :
  is_identifier T = true -> is_number_or_name N = true ->
  takes re_new_array p (L "new " ++ T ++ L "[" ++ N ++ L "]") v []
        (setg 2 N (setg 1 T [])).
Proof.
  intros HT HN.
  destruct T as [|c T]; [discriminate|]. destruct N as [|n N]; [discriminate|].
  simpl in HT, HN. apply andb_true_iff in HT. destruct HT as [Hc HT].
  apply andb_true_iff in HN. destruct HN as [Hn HN].
  change (L "new " ++ (c :: T) ++ L "[" ++ (n :: N) ++ L "]")
    with (L "new" ++ (" "%char :: []) ++ (c :: T) ++ [] ++ L "[" ++ [] ++ (n :: N)
            ++ [] ++ L "]" ++ []).
  unfold re_new_array.
  apply takes_seq_cons with (g1 := []); [apply takes_Lit|].
  apply takes_seq_cons with (g1 := []).
  { apply takes_Plus; [reflexivity|reflexivity|].
    apply (stops_cons ident_start); [vm_compute; reflexivity|exact Hc]. }
  eapply takes_seq_cons.
  { apply takes_Grp. apply takes_ident; [exact Hc|exact HT|reflexivity]. }
  eapply takes_seq_cons; [apply takes_Star; reflexivity|].
  eapply takes_seq_cons; [apply takes_Lit|].
  eapply takes_seq_cons.
  { apply takes_Star; [reflexivity|].
    apply (stops_cons ident_char); [vm_compute; reflexivity|exact Hn]. }
  eapply takes_seq_cons.
  { apply takes_Grp. apply takes_Plus; [|eapply forallb_sub_class; [|exact HN]|reflexivity].
    - apply (sub_class_ok ident_char (notc "]")); [vm_compute; reflexivity|exact Hn].
    - vm_compute; reflexivity. }
  eapply takes_seq_cons; [apply takes_Star; reflexivity|].
  eapply takes_seq_cons; [apply takes_Lit|].
  apply takes_seq_nil.
Qed.

Lemma new_scalar_takes T p v :
  is_identifier T = true ->
  takes re_new_scalar p (L "new " ++ T) (";"%char :: v) [] (setg 1 T []).
Proof.
  intros HT. pose proof (@identifier_word T HT) as HTw.
  pose proof (@identifier_nonempty T HT) as HTn.
  destruct T as [|c T]; [discriminate|].
  simpl in HT. apply andb_true_iff in HT. destruct HT as [Hc HT].
  replace (L "new " ++ (c :: T))
    with (L "new" ++ (" "%char :: []) ++ (c :: T) ++ [] ++ [] ++ [])
    by (cbn [app]; rewrite app_nil_r; reflexivity).
  unfold re_new_scalar.
  apply takes_seq_cons with (g1 := []); [apply takes_Lit|].
  apply takes_seq_cons with (g1 := []).
  { apply takes_Plus; [reflexivity|reflexivity|].
    apply (stops_cons ident_start); [vm_compute; reflexivity|exact Hc]. }
  eapply takes_seq_cons.
  { apply takes_Grp. apply takes_ident; [exact Hc|exact HT|reflexivity]. }
  eapply takes_seq_cons.
  { apply takes_WordB. rewrite lastp_word; [reflexivity|exact HTn|exact HTw]. }
  eapply takes_seq_cons; [apply takes_NotAhead; reflexivity|].
  apply takes_seq_nil.
Qed.

Lemma delete_array_takes w p :
  is_identifier w = true ->
  takes re_delete_array p (L "delete[] " ++ w ++ L ";") [] [] (setg 1 w []).
Proof.
  intros Hw. destruct w as [|c w]; [discriminate|].
  simpl in Hw. apply andb_true_iff in Hw. destruct Hw as [Hc Hw].
  change (L "delete[] " ++ (c :: w) ++ L ";")
    with (L "delete" ++ [] ++ L "[" ++ [] ++ L "]" ++ L " " ++ (c :: w) ++ []
            ++ L ";" ++ []).
  unfold re_delete_array.
  apply takes_seq_cons with (g1 := []); [apply takes_Lit|].
  apply takes_seq_cons with (g1 := []); [apply takes_Star; reflexivity|].
  apply takes_seq_cons with (g1 := []); [apply takes_Lit|].
  apply takes_seq_cons with (g1 := []); [apply takes_Star; reflexivity|].
  apply takes_seq_cons with (g1 := []); [apply takes_Lit|].
  apply takes_seq_cons with (g1 := []).
  { apply takes_Star; [reflexivity|].
    apply (stops_cons ident_start); [vm_compute; reflexivity|exact Hc]. }
  eapply takes_seq_cons.
  { apply takes_Grp. apply takes_ident; [exact Hc|exact Hw|reflexivity]. }
  eapply takes_seq_cons; [apply takes_Star; reflexivity|].
  eapply takes_seq_cons; [apply takes_Lit|].
  apply takes_seq_nil.
Qed.

Lemma delete_takes w p :
  is_identifier w = true ->
  takes re_delete p (L "delete " ++ w ++ L ";") [] [] (setg 1 w []).
Proof.
  intros Hw. destruct w as [|c w]; [discriminate|].
  simpl in Hw. apply andb_true_iff in Hw. destruct Hw as [Hc Hw].
  change (L "delete " ++ (c :: w) ++ L ";")
    with (L "delete" ++ (" "%char :: []) ++ (c :: w) ++ [] ++ L ";" ++ []).
  unfold re_delete.
  apply takes_seq_cons with (g1 := []); [apply takes_Lit|].
  apply takes_seq_cons with (g1 := []).
  { apply takes_Plus; [reflexivity|reflexivity|].
    apply (stops_cons ident_start); [vm_compute; reflexivity|exact Hc]. }
  eapply takes_seq_cons.
  { apply takes_Grp. apply takes_ident; [exact Hc|exact Hw|reflexivity]. }
  eapply takes_seq_cons; [apply takes_Star; reflexivity|].
  eapply takes_seq_cons; [apply takes_Lit|].
  apply takes_seq_nil.
Qed.

(** the four words are whole words nowhere in a text made of pieces *)
Ltac no_words HW :=
  simpl in HW; repeat destruct HW as [<-|HW]; try no_segments; destruct HW.

Ltac not_a_word W :=
  eapply mem_false_neq; [eassumption|]; simpl; tauto.

Lemma new_array_to_malloc T N :
  is_identifier T = true -> is_number_or_name N = true ->
  mem T cpp_words = false -> mem N cpp_words = false ->
  convert_cpp_to_c (L "new " ++ T ++ L "[" ++ N ++ L "];")
  = Ok (L "(" ++ T ++ L "*)malloc(sizeof(" ++ T ++ L ") * (" ++ N ++ L "));").
Proof.
  intros HT HN HTk HNk.
  pose proof (@is_identifier_chars T HT) as HTc.
  pose proof (@is_name_chars N HN) as HNc.
  rewrite cpp_to_c_plain; [ | fb | fb | ].
  2:{ intros W HW.
      assert (T <> L W /\ N <> L W) as [HTW HNW].
      { split; eapply mem_false_neq; try eassumption;
          simpl in HW; simpl; repeat destruct HW as [<-|HW]; tauto. }
      no_words HW. }
  unfold _convert_new_delete_to_malloc_free.
  retext (L "new " ++ T ++ L "[" ++ N ++ L "];")
         ([] ++ (L "new " ++ T ++ L "[" ++ N ++ L "]") ++ L ";").
  erewrite re_sub_one;
    [ | apply segments_one;
        [ destruct T; discriminate | apply quiet_nil | apply new_array_takes; assumption
        | quiet_concrete | nomatch_end ]
      | reflexivity ].
  cbn [bind app tg group getg mgroups setg nth].
  repeat (rewrite re_sub_segments_nil; [cbn [bind]|]).
  { f_equal. repeat rewrite <- app_assoc. reflexivity. }
  all: repeat rewrite <- app_assoc; no_segments.
Qed.

Lemma new_scalar_to_malloc T :
  is_identifier T = true -> mem T cpp_words = false ->
  convert_cpp_to_c (L "new " ++ T ++ L ";")
  = Ok (L "(" ++ T ++ L "*)malloc(sizeof(" ++ T ++ L "));").
Proof.
  intros HT HTk.
  pose proof (@is_identifier_chars T HT) as HTc.
  rewrite cpp_to_c_plain; [ | fb | fb | ].
  2:{ intros W HW.
      assert (T <> L W) as HTW.
      { eapply mem_false_neq; try eassumption;
          simpl in HW; simpl; repeat destruct HW as [<-|HW]; tauto. }
      no_words HW. }
  unfold _convert_new_delete_to_malloc_free.
  rewrite (@re_sub_segments_nil re_new_array);
    [|eapply segments_without with (c := "["%char); [reflexivity|fb]].
  cbn [bind].
  retext (L "new " ++ T ++ L ";") ([] ++ (L "new " ++ T) ++ L ";").
  erewrite re_sub_one;
    [ | apply segments_one;
        [ destruct T; discriminate | apply quiet_nil | apply new_scalar_takes; assumption
        | quiet_concrete | nomatch_end ]
      | reflexivity ].
  cbn [bind app tg group getg mgroups setg nth].
  repeat (rewrite re_sub_segments_nil; [cbn [bind]|]).
  { f_equal. repeat rewrite <- app_assoc. reflexivity. }
  all: repeat rewrite <- app_assoc; no_segments.
Qed.

Lemma delete_array_to_free w :
  is_identifier w = true -> mem w cpp_words = false ->
  convert_cpp_to_c (L "delete[] " ++ w ++ L ";") = Ok (L "free(" ++ w ++ L ");").
Proof.
  intros Hw Hwk.
  pose proof (@is_identifier_chars w Hw) as Hwc.
  rewrite cpp_to_c_plain; [ | fb | fb | ].
  2:{ intros W HW.
      assert (w <> L W) as HwW.
      { eapply mem_false_neq; try eassumption;
          simpl in HW; simpl; repeat destruct HW as [<-|HW]; tauto. }
      no_words HW. }
  unfold _convert_new_delete_to_malloc_free.
  rewrite (@re_sub_segments_nil re_new_array); [|no_segments]. cbn [bind].
  rewrite (@re_sub_segments_nil re_new_scalar); [|no_segments]. cbn [bind].
  retext (L "delete[] " ++ w ++ L ";") ([] ++ (L "delete[] " ++ w ++ L ";") ++ []).
  erewrite re_sub_one;
    [ | apply segments_one;
        [ discriminate | apply quiet_nil | apply delete_array_takes; assumption
        | apply quiet_nil | nomatch_end ]
      | reflexivity ].
  cbn [bind app tg group getg mgroups setg nth].
  rewrite app_nil_r.
  rewrite re_sub_segments_nil; [reflexivity|]. no_segments.
Qed.

Lemma delete_to_free w :
  is_identifier w = true -> mem w cpp_words = false ->
  convert_cpp_to_c (L "delete " ++ w ++ L ";") = Ok (L "free(" ++ w ++ L ");").
Proof.
  intros Hw Hwk.
  pose proof (@is_identifier_chars w Hw) as Hwc.
  rewrite cpp_to_c_plain; [ | fb | fb | ].
  2:{ intros W HW.
      assert (w <> L W) as HwW.
      { eapply mem_false_neq; try eassumption;
          simpl in HW; simpl; repeat destruct HW as [<-|HW]; tauto. }
      no_words HW. }
  unfold _convert_new_delete_to_malloc_free.
  rewrite (@re_sub_segments_nil re_new_array); [|no_segments]. cbn [bind].
  rewrite (@re_sub_segments_nil re_new_scalar); [|no_segments]. cbn [bind].
  rewrite (@re_sub_segments_nil re_delete_array);
    [|eapply segments_without with (c := "["%char); [reflexivity|fb]].
  cbn [bind].
  retext (L "delete " ++ w ++ L ";") ([] ++ (L "delete " ++ w ++ L ";") ++ []).
  erewrite re_sub_one;
    [ | apply segments_one;
        [ discriminate | apply quiet_nil | apply delete_takes; assumption
        | apply quiet_nil | nomatch_end ]
      | reflexivity ].
  cbn [bind app tg group getg mgroups setg nth].
  rewrite app_nil_r. reflexivity.
Qed.




(** ** [convert_c_to_cpp] on one line *)

Lemma splitlines_aux_one s : forall cur,
  forallb no_linebreak s = true -> (s <> [] \/ cur <> []) ->
  splitlines_aux s cur = [rev cur ++ s].
Proof.
  induction s as [|c s IH]; intros cur Hs Hne; simpl.
  - destruct cur; [destruct Hne; congruence|]. rewrite app_nil_r. reflexivity.
  - simpl in Hs. apply andb_true_iff in Hs. destruct Hs as [Hc Hs].
    rewrite (@disjoint_ok no_linebreak (ch cr) c); [|vm_compute; reflexivity|exact Hc].
    unfold no_linebreak in Hc. apply negb_true_iff in Hc. rewrite Hc.
    rewrite IH; [|exact Hs|right; discriminate]. simpl. rewrite <- app_assoc. reflexivity.
Qed.

Lemma splitlines_one s :
  s <> [] -> forallb no_linebreak s = true -> splitlines s = [s].
Proof.
  intros Hn Hs. unfold splitlines. rewrite splitlines_aux_one; auto.
Qed.

(** what follows the include substitution and the declaration index, for a
    text that is one line *)
Definition after_lines (types : dict str) (code : str) : res str :=
  code <- _convert_malloc_free_to_new_delete code types ;;
  code <- re_sub re_struct_ptr (fun m => Ok (tg m 1 ++ L "*")) code ;;
  sub_word "NULL" "nullptr" code.

Lemma c_to_cpp_line s :
  s <> [] -> forallb no_linebreak s = true -> forallb (notc "#") s = true ->
  exists types,
    convert_c_to_cpp s = (l <- convert_line types s ;; after_lines types l).
Proof.
  intros Hn Hl Hh. destruct (_infer_decl_types_returns s) as [types Ht].
  exists types. unfold convert_c_to_cpp.
  rewrite (@re_search_without _include_stdio s "#"%char); [|reflexivity|exact Hh].
  cbn [bind]. rewrite Ht. cbn [bind]. rewrite splitlines_one by assumption.
  cbn [mapM]. destruct (convert_line types s) as [l| |]; reflexivity.
Qed.

Lemma after_lines_plain types l :
  forallb (notc "*") l = true ->
  segments re_free l = ([], l) ->
  segments (re_word "NULL") l = ([], l) ->
  after_lines types l = Ok l.
Proof.
  intros Hs Hf Hn. unfold after_lines, _convert_malloc_free_to_new_delete.
  cbv zeta.
  repeat (rewrite re_sub_st_segments_nil;
          [cbn [bind]|first [exact Hf | eapply segments_without with (c := "*"%char);
                                       [reflexivity|exact Hs]]]).
  rewrite re_sub_segments_nil;
    [|eapply segments_without with (c := "*"%char); [reflexivity|exact Hs]].
  cbn [bind]. unfold sub_word. rewrite re_sub_segments_nil; [reflexivity|exact Hn].
Qed.

(** ** The statement patterns on a statement *)

Lemma matchre_seq_takes a b k p u v g g' x :
  takes a p u v g g' -> matchre b k (lastp p u) v g' = Some x ->
  matchre (Seq a b) k p (u ++ v) g = Some x.
Proof. intros Ha Hb. simpl. apply Ha. exact Hb. Qed.

Lemma lazy_upto c C b k u p v g x :
  forallb c u = true -> forallb C u = true -> stuck_on C b = true ->
  matchre b k (lastp p u) v g = Some x ->
  matchre (Seq (Star false c) b) k p (u ++ v) g = Some x.
Proof.
  intros Hu HC Hb H. simpl. rewrite star_lazy_skip.
  - apply star_lazy_here. exact H.
  - exact Hu.
  - intros u1 d u2 E. apply matchre_stuck. eapply stuck_on_ok; [exact Hb|].
    rewrite forallb_forall in HC. apply HC. rewrite E. apply in_or_app.
    right. left. reflexivity.
Qed.

Lemma match_at_all r p s g :
  matchre r k_end p s [] = Some ([], g) ->
  match_at r p s = Some ({| m0 := s; mgroups := g |}, []).
Proof.
  intro H. unfold match_at. rewrite H. simpl. rewrite Nat.sub_0_r, firstn_all.
  reflexivity.
Qed.

(** the statement pattern on a statement "w(body);" whose body has no
    closing parenthesis and no line feed *)
Lemma stmt_match (w : string) body p :
  forallb not_nl body = true -> forallb (notc ")") body = true ->
  match_at (pat [lit w; ws; lit "("; Star false not_nl; lit ")"; ws; lit ";"]) p
           (L w ++ L "(" ++ body ++ L ");")
  = Some ({| m0 := L w ++ L "(" ++ body ++ L ");"; mgroups := [] |}, []).
Proof.
  intros Hb Hc. apply match_at_all.
  apply matchre_seq_takes with (g' := []); [apply takes_Lit|].
  change (L "(" ++ body ++ L ");") with ([] ++ L "(" ++ body ++ L ");").
  apply matchre_seq_takes with (g' := []); [apply takes_Star; reflexivity|].
  apply matchre_seq_takes with (g' := []); [apply takes_Lit|].
  apply lazy_upto with (C := notc ")"); [exact Hb|exact Hc|vm_compute; reflexivity|].
  reflexivity.
Qed.

(** the call pattern on the same *)
Lemma call_match (w : string) body :
  re_match (pat [lit w; ws; lit "("; Grp 1 (Star true any_char); lit ")"; ws;
                 lit ";"; ws]) (L w ++ L "(" ++ body ++ L ");")
  = Some {| m0 := L w ++ L "(" ++ body ++ L ");"; mgroups := setg 1 body [] |}.
Proof.
  unfold re_match. erewrite match_at_all; [reflexivity|].
  apply matchre_seq_takes with (g' := []); [apply takes_Lit|].
  change (L "(" ++ body ++ L ");") with ([] ++ L "(" ++ body ++ L ");").
  apply matchre_seq_takes with (g' := []); [apply takes_Star; reflexivity|].
  apply matchre_seq_takes with (g' := []); [apply takes_Lit|].
  cbn [pat fold_right matchre]. apply star_greedy_take.
  { apply forallb_forall. reflexivity. }
  transitivity (Some (@nil ascii,
                      setg 1 (firstn (length (body ++ L ");") - length (L ");"))
                                     (body ++ L ");")) []));
    [reflexivity | rewrite firstn_app_len; reflexivity].
Qed.

(** ** Splitting the arguments of a call *)

Lemma split_step_plain st c :
  arg_char c = true ->
  split_step st c
  = {| parts := parts st; buf := buf st ++ [c]; q := q st; depth := depth st |}.
Proof.
  unfold arg_char, split_step. intro H. apply negb_true_iff in H.
  repeat (apply orb_false_iff in H; destruct H as [H ?]).
  repeat match goal with E : ch _ c = false |- _ => rewrite E; clear E end.
  reflexivity.
Qed.

Lemma split_run_plain u : forall st,
  forallb arg_char u = true ->
  fold_left split_step u st
  = {| parts := parts st; buf := buf st ++ u; q := q st; depth := depth st |}.
Proof.
  induction u as [|c u IH]; intros st Hu; simpl.
  - rewrite app_nil_r. destruct st; reflexivity.
  - simpl in Hu. apply andb_true_iff in Hu. destruct Hu as [Hc Hu].
    rewrite split_step_plain by exact Hc. rewrite IH by exact Hu. simpl.
    rewrite <- app_assoc. reflexivity.
Qed.

(** ** Stripping *)

Lemma rstrip_by_last f u a :
  a <> [] -> forallb (fun c => negb (f c)) a = true -> rstrip_by f (u ++ a) = u ++ a.
Proof.
  intros Hn Ha. unfold rstrip_by. rewrite rev_app_distr.
  destruct (rev a) as [|z r] eqn:E.
  - exfalso. apply Hn. rewrite <- (rev_involutive a), E. reflexivity.
  - assert (Hz : f z = false).
    { rewrite forallb_forall in Ha. apply negb_true_iff. apply Ha.
      apply in_rev. rewrite E. left. reflexivity. }
    cbn [app lstrip_by]. rewrite Hz.
    change (z :: r ++ rev u) with ((z :: r) ++ rev u).
    rewrite <- E, <- rev_app_distr, rev_involutive. reflexivity.
Qed.

Lemma strip_by_word f a :
  a <> [] -> forallb (fun c => negb (f c)) a = true -> strip_by f a = a.
Proof.
  intros Hn Ha. unfold strip_by.
  destruct a as [|c a]; [congruence|]. simpl in Ha.
  apply andb_true_iff in Ha. destruct Ha as [Hc Ha']. simpl.
  apply negb_true_iff in Hc. rewrite Hc.
  apply (@rstrip_by_last f [] (c :: a)); [discriminate|].
  simpl. rewrite Hc, Ha'. reflexivity.
Qed.

Lemma lstrip_by_head f c a : f c = false -> lstrip_by f (c :: a) = c :: a.
Proof. intro H. simpl. rewrite H. reflexivity. Qed.

Lemma identifier_not_space a :
  is_identifier a = true -> forallb (fun c => negb (is_space c)) a = true.
Proof.
  intro H. apply is_identifier_chars in H.
  eapply forallb_sub_class; [|exact H]. vm_compute. reflexivity.
Qed.

Lemma identifier_arg a : is_identifier a = true -> forallb arg_char a = true.
Proof.
  intro H. apply is_identifier_chars in H.
  eapply forallb_sub_class; [|exact H]. vm_compute. reflexivity.
Qed.

(** ** scanf with two targets *)

Lemma split_comma_amp st :
  q st = None -> depth st = 0 ->
  fold_left split_step (L ", &") st
  = {| parts := parts st ++ [strip (buf st)]; buf := L " &"; q := None; depth := 0 |}.
Proof. destruct st as [ps bf qq d]. simpl. intros -> ->. reflexivity. Qed.

Lemma strip_amp a : is_identifier a = true -> strip (L " &" ++ a) = L "&" ++ a.
Proof.
  intro Ha. unfold strip, strip_by.
  change (lstrip_by is_space (L " &" ++ a)) with (L "&" ++ a).
  apply rstrip_by_last; [exact (@identifier_nonempty a Ha)|].
  exact (@identifier_not_space a Ha).
Qed.

Lemma scanf_two_args a b :
  is_identifier a = true -> is_identifier b = true ->
  _split_printf_args ([dq] ++ L "%d %f" ++ [dq] ++ L ", &" ++ a ++ L ", &" ++ b)
  = [[dq] ++ L "%d %f" ++ [dq]; L "&" ++ a; L "&" ++ b].
Proof.
  intros Ha Hb. unfold _split_printf_args.
  replace ([dq] ++ L "%d %f" ++ [dq] ++ L ", &" ++ a ++ L ", &" ++ b)
    with (([dq] ++ L "%d %f" ++ [dq] ++ L ", &") ++ a ++ L ", &" ++ b)
    by (repeat rewrite <- app_assoc; reflexivity).
  rewrite fold_left_app.
  change (fold_left split_step ([dq] ++ L "%d %f" ++ [dq] ++ L ", &")
                    {| parts := []; buf := []; q := None; depth := 0 |})
    with {| parts := [[dq] ++ L "%d %f" ++ [dq]]; buf := L " &"; q := None; depth := 0 |}.
  rewrite fold_left_app. rewrite (@split_run_plain a) by exact (@identifier_arg a Ha).
  cbn [parts buf q depth].
  rewrite fold_left_app. rewrite split_comma_amp by reflexivity.
  cbn [parts buf q depth].
  rewrite (@split_run_plain b) by exact (@identifier_arg b Hb).
  cbn [parts buf q depth truthy app L list_ascii_of_string].
  change (" "%char :: "&"%char :: a) with (L " &" ++ a).
  change (" "%char :: "&"%char :: b) with (L " &" ++ b).
  rewrite !strip_amp by assumption. reflexivity.
Qed.

Lemma amp_target a : is_identifier a = true -> strip (lstrip_ch "&" (L "&" ++ a)) = a.
Proof.
  intro Ha. pose proof (@identifier_nonempty a Ha) as Hn.
  pose proof (@identifier_not_space a Ha) as Hs.
  destruct a as [|c a]; [congruence|]. simpl in Ha.
  apply andb_true_iff in Ha. destruct Ha as [Hc Ha].
  unfold lstrip_ch. change (L "&" ++ c :: a) with ("&"%char :: c :: a).
  cbn [lstrip_by]. change (ch "&" "&") with true. cbv iota.
  rewrite (@disjoint_ok ident_start (ch "&") c); [|vm_compute; reflexivity|exact Hc].
  apply strip_by_word; [discriminate|exact Hs].
Qed.

Lemma scanf_two_to_cin a b types :
  is_identifier a = true -> is_identifier b = true ->
  _convert_scanf_to_cin
    (L "scanf" ++ L "(" ++ ([dq] ++ L "%d %f" ++ [dq] ++ L ", &" ++ a ++ L ", &" ++ b)
       ++ L ");") types
  = Ok (L "std::cin >> (" ++ a ++ L ") >> (" ++ b ++ L ");").
Proof.
  intros Ha Hb. unfold _convert_scanf_to_cin.
  change re_scanf_call
    with (pat [lit "scanf"; ws; lit "("; Grp 1 (Star true any_char); lit ")"; ws;
               lit ";"; ws]).
  rewrite call_match. cbn [grp group getg mgroups setg nth bind].
  rewrite scanf_two_args by assumption.
  cbn [startswith app]. change (ch dq dq) with true. cbn [andb orb negb].
  cbv zeta. cbn [map fold_left]. rewrite !amp_target by assumption.
  f_equal. repeat rewrite <- app_assoc. reflexivity.
Qed.

Lemma segments_all r s m :
  s <> [] -> match_at r None s = Some (m, []) -> m0 m = s ->
  match_at r (lastp None s) [] = None ->
  segments r s = ([([], m)], []).
Proof.
  intros Hn Hm H0 He. unfold segments. destruct s as [|c w]; [congruence|].
  rewrite <- (app_nil_r w) in Hm.
  rewrite <- (app_nil_r w) at 1.
  rewrite (@scan_here r None c w [] [] m Hm H0). rewrite scan_end; [reflexivity|].
  exact He.
Qed.

Lemma re_sub_all r repl s m t :
  segments r s = ([([], m)], []) -> repl m = Ok t -> re_sub r repl s = Ok t.
Proof.
  intros H Hr. unfold re_sub. rewrite H. simpl. rewrite Hr. simpl.
  rewrite app_nil_r. reflexivity.
Qed.

Lemma scanf_line a b types :
  is_identifier a = true -> is_identifier b = true ->
  convert_line types
    (L "scanf(" ++ [dq] ++ L "%d %f" ++ [dq] ++ L ", &" ++ a ++ L ", &" ++ b ++ L ");")
  = Ok (L "std::cin >> (" ++ a ++ L ") >> (" ++ b ++ L ");").
Proof.
  intros Ha Hb.
  pose proof (@is_identifier_chars a Ha) as Hac.
  pose proof (@is_identifier_chars b Hb) as Hbc.
  unfold convert_line.
  rewrite re_sub_segments_nil; [|no_segments]. cbn [bind].
  retext (L "scanf(" ++ [dq] ++ L "%d %f" ++ [dq] ++ L ", &" ++ a ++ L ", &" ++ b ++ L ");")
         (L "scanf" ++ L "(" ++ ([dq] ++ L "%d %f" ++ [dq] ++ L ", &" ++ a ++ L ", &" ++ b)
            ++ L ");").
  eapply re_sub_all.
  - apply segments_all.
    + discriminate.
    + apply stmt_match; fb.
    + reflexivity.
    + nomatch_end.
  - cbn [m0]. apply scanf_two_to_cin; assumption.
Qed.

(** C4. For every statement scanf("%d %f", &a, &b); on a line of its own,
    where a and b are identifiers (NULL, which is no variable, apart),
    [convert_c_to_cpp] returns exactly "std::cin >> (a) >> (b);": one
    extraction per argument, in the order of the arguments, without the
    ampersand. *)
Theorem C4_scanf_two_targets :
  forall a b : str,
    is_identifier a = true -> is_identifier b = true ->
    a <> L "NULL" -> b <> L "NULL" ->
    convert_c_to_cpp
      (L "scanf(" ++ [dq] ++ L "%d %f" ++ [dq] ++ L ", &" ++ a ++ L ", &" ++ b ++ L ");")
    = Ok (L "std::cin >> (" ++ a ++ L ") >> (" ++ b ++ L ");").
Proof.
  intros a b Ha Hb Han Hbn.
  pose proof (@is_identifier_chars a Ha) as Hac.
  pose proof (@is_identifier_chars b Hb) as Hbc.
  destruct (@c_to_cpp_line
              (L "scanf(" ++ [dq] ++ L "%d %f" ++ [dq] ++ L ", &" ++ a ++ L ", &" ++ b
                 ++ L ");")) as [types ->]; [discriminate | fb | fb |].
  rewrite scanf_line by assumption. cbn [bind].
  apply after_lines_plain; [fb | no_segments | no_segments].
Qed.

Lemma C4_scanf_two_targets_witness :
  convert_c_to_cpp
    (L "scanf(" ++ [dq] ++ L "%d %f" ++ [dq] ++ L ", &" ++ L "a" ++ L ", &" ++ L "b" ++ L ");")
  = Ok (L "std::cin >> (" ++ L "a" ++ L ") >> (" ++ L "b" ++ L ");").
Proof.
  apply (@C4_scanf_two_targets (L "a") (L "b"));
    [reflexivity | reflexivity | discriminate | discriminate].
Defined.

(** ** printf with one specifier between two plain fragments *)

Lemma truthy_nil_or (A : str) : A = [] \/ truthy A = true.
Proof. destruct A; [left|right]; reflexivity. Qed.

Lemma frag_not_percent A : forallb frag_char A = true -> startswith (L "%") A = false.
Proof.
  destruct A as [|c A]; [reflexivity|]. simpl. intro H.
  apply andb_true_iff in H. destruct H as [Hc _].
  change (startswith (L "%") (c :: A)) with (ch "%" c && true).
  rewrite (@disjoint_ok frag_char (ch "%") c); [reflexivity|vm_compute; reflexivity|exact Hc].
Qed.

Lemma replace_ch_without c w s : forallb (notc c) s = true -> replace_ch c w s = s.
Proof.
  unfold replace_ch. induction s as [|d s IH]; simpl; [reflexivity|]. intro H.
  apply andb_true_iff in H. destruct H as [Hd Hs]. unfold notc in Hd.
  apply negb_true_iff in Hd. rewrite Hd. simpl. rewrite IH by exact Hs. reflexivity.
Qed.

Lemma escape_frag A : forallb frag_char A = true -> escape A = A.
Proof.
  intro H. unfold escape. rewrite (@replace_ch_without bsl).
  - apply replace_ch_without. eapply forallb_sub_class; [|exact H].
    vm_compute. reflexivity.
  - eapply forallb_sub_class; [|exact H]. vm_compute. reflexivity.
Qed.

Lemma endswith_nl_frag A : forallb frag_char A = true -> endswith (L "\n") A = false.
Proof.
  intro H. unfold endswith.
  assert (Hr : forallb frag_char (rev A) = true).
  { rewrite forallb_forall in *. intros c Hc. apply H. apply in_rev. exact Hc. }
  destruct (rev A) as [|c1 [|c2 r]]; [reflexivity| |].
  - change (startswith (rev (L "\n")) [c1]) with (ch "n" c1 && false).
    apply andb_false_r.
  - change (startswith (rev (L "\n")) (c1 :: c2 :: r))
      with (ch "n" c1 && (ch bsl c2 && true)).
    simpl in Hr. apply andb_true_iff in Hr. destruct Hr as [_ Hr].
    apply andb_true_iff in Hr. destruct Hr as [H2 _].
    rewrite (@disjoint_ok frag_char (ch bsl) c2);
      [apply andb_false_r|vm_compute; reflexivity|exact H2].
Qed.

Lemma startswith_refl w s : startswith w (w ++ s) = true.
Proof. induction w as [|c w IH]; simpl; [reflexivity|]. rewrite ch_refl. exact IH. Qed.

Lemma endswith_app w u : endswith w (u ++ w) = true.
Proof. unfold endswith. rewrite rev_app_distr. apply startswith_refl. Qed.

Lemma drop_last_app (u w : str) : drop_last (length w) (u ++ w) = u.
Proof. unfold drop_last. apply firstn_app_len. Qed.

Lemma printf_step_frag out vars nlf A :
  forallb frag_char A = true ->
  printf_step (out, vars, nlf) A = (out ++ insertion A, vars, nlf).
Proof.
  intro H. unfold printf_step, insertion.
  destruct (truthy_nil_or A) as [->|Ht].
  - simpl. rewrite app_nil_r. reflexivity.
  - rewrite Ht. cbn [negb]. rewrite frag_not_percent by exact H.
    rewrite endswith_nl_frag by exact H. rewrite Ht.
    rewrite escape_frag by exact H. reflexivity.
Qed.

Lemma printf_step_last out vars nlf B :
  forallb frag_char B = true ->
  printf_step (out, vars, nlf) (B ++ L "\n") = (out ++ insertion B, vars, true).
Proof.
  intro H. unfold printf_step, insertion.
  assert (Ht : truthy (B ++ L "\n") = true) by (destruct B; reflexivity).
  rewrite Ht. cbn [negb].
  assert (Hp : startswith (L "%") (B ++ L "\n") = false).
  { destruct B as [|c B]; [reflexivity|]. simpl in H.
    apply andb_true_iff in H. destruct H as [Hc _].
    change (startswith (L "%") ((c :: B) ++ L "\n")) with (ch "%" c && true).
    rewrite (@disjoint_ok frag_char (ch "%") c);
      [reflexivity|vm_compute; reflexivity|exact Hc]. }
  rewrite Hp. rewrite endswith_app.
  change 2 with (length (L "\n")). rewrite drop_last_app.
  destruct (truthy_nil_or B) as [->|HB].
  - simpl. rewrite app_nil_r. reflexivity.
  - rewrite HB. rewrite escape_frag by exact H. reflexivity.
Qed.

Lemma printf_loop A B x :
  forallb frag_char A = true -> forallb frag_char B = true ->
  fold_left printf_step [A; L "%d"; B ++ L "\n"] (L "std::cout", [x], false)
  = (((L "std::cout" ++ insertion A) ++ L " << (" ++ x ++ L ")") ++ insertion B,
     [], true).
Proof.
  intros HA HB. cbn [fold_left]. rewrite printf_step_frag by exact HA.
  change (printf_step (L "std::cout" ++ insertion A, [x], false) (L "%d"))
    with ((L "std::cout" ++ insertion A) ++ L " << (" ++ x ++ L ")", @nil str, false).
  apply printf_step_last. exact HB.
Qed.

Lemma frag_arg A : forallb frag_char A = true -> forallb arg_char A = true.
Proof. intro H. eapply forallb_sub_class; [|exact H]. vm_compute. reflexivity. Qed.

Lemma split_close_comma st :
  q st = Some dq -> depth st = 0 ->
  fold_left split_step ([dq] ++ L ", ") st
  = {| parts := parts st ++ [strip (buf st ++ [dq])]; buf := L " "; q := None;
       depth := 0 |}.
Proof. destruct st as [ps bf qq d]. simpl. intros -> ->. reflexivity. Qed.

Lemma strip_quoted body : strip ([dq] ++ body ++ [dq]) = [dq] ++ body ++ [dq].
Proof.
  unfold strip, strip_by.
  change (lstrip_by is_space ([dq] ++ body ++ [dq])) with ([dq] ++ body ++ [dq]).
  rewrite app_assoc. apply rstrip_by_last; [discriminate|reflexivity].
Qed.

Lemma strip_space_ident x : is_identifier x = true -> strip (L " " ++ x) = x.
Proof.
  intro Hx. pose proof (@identifier_nonempty x Hx) as Hn.
  pose proof (@identifier_not_space x Hx) as Hs.
  unfold strip, strip_by. destruct x as [|c x]; [congruence|].
  change (lstrip_by is_space (L " " ++ c :: x)) with (lstrip_by is_space (c :: x)).
  simpl in Hs. apply andb_true_iff in Hs. destruct Hs as [Hc Hs].
  rewrite lstrip_by_head by (apply negb_true_iff; exact Hc).
  apply (@rstrip_by_last is_space [] (c :: x)); [discriminate|].
  simpl. rewrite Hc, Hs. reflexivity.
Qed.

Lemma printf_args A B x :
  forallb frag_char A = true -> forallb frag_char B = true ->
  is_identifier x = true ->
  _split_printf_args ([dq] ++ A ++ L "%d" ++ B ++ L "\n" ++ [dq] ++ L ", " ++ x)
  = [[dq] ++ (A ++ L "%d" ++ B ++ L "\n") ++ [dq]; x].
Proof.
  intros HA HB Hx. unfold _split_printf_args.
  replace ([dq] ++ A ++ L "%d" ++ B ++ L "\n" ++ [dq] ++ L ", " ++ x)
    with ([dq] ++ (A ++ L "%d" ++ B ++ L "\n") ++ ([dq] ++ L ", ") ++ x)
    by (repeat (rewrite <- app_assoc || rewrite <- app_comm_cons); reflexivity).
  rewrite fold_left_app.
  change (fold_left split_step [dq] {| parts := []; buf := []; q := None; depth := 0 |})
    with {| parts := []; buf := [dq]; q := Some dq; depth := 0 |}.
  rewrite fold_left_app.
  rewrite (@split_run_plain (A ++ L "%d" ++ B ++ L "\n")).
  2:{ rewrite !forallb_app. rewrite (frag_arg A HA), (frag_arg B HB). reflexivity. }
  cbn [parts buf q depth]. rewrite fold_left_app.
  rewrite split_close_comma by reflexivity. cbn [parts buf q depth].
  rewrite (@split_run_plain x) by exact (@identifier_arg x Hx).
  cbn [parts buf q depth].
  assert (Ht : truthy (L " " ++ x) = true) by reflexivity. rewrite Ht.
  rewrite strip_space_ident by exact Hx.
  rewrite <- (app_assoc [dq] _ [dq]). rewrite strip_quoted. reflexivity.
Qed.

Lemma lstrip_by_region f u c v :
  forallb (fun d => negb (f d)) u = true -> f c = false ->
  lstrip_by f (u ++ c :: v) = u ++ c :: v.
Proof.
  intros Hu Hc. destruct u as [|d u]; simpl.
  - rewrite Hc. reflexivity.
  - simpl in Hu. apply andb_true_iff in Hu. destruct Hu as [Hd _].
    apply negb_true_iff in Hd. rewrite Hd. reflexivity.
Qed.

Lemma rstrip_by_one f u c d :
  f d = true -> f c = false -> rstrip_by f (u ++ [c] ++ [d]) = u ++ [c].
Proof.
  intros Hd Hc. unfold rstrip_by. rewrite app_assoc.
  rewrite (rev_app_distr (u ++ [c]) [d]). rewrite (rev_app_distr u [c]).
  cbn [rev app lstrip_by]. rewrite Hd, Hc. cbn [rev]. rewrite rev_involutive.
  reflexivity.
Qed.

Lemma printf_fmt_str A B :
  forallb frag_char A = true ->
  strip_ch dq (strip ([dq] ++ (A ++ L "%d" ++ B ++ L "\n") ++ [dq]))
  = A ++ L "%d" ++ B ++ L "\n".
Proof.
  intro HA. rewrite strip_quoted. unfold strip_ch, strip_by.
  change (lstrip_by (ch dq) ([dq] ++ (A ++ L "%d" ++ B ++ L "\n") ++ [dq]))
    with (lstrip_by (ch dq) ((A ++ L "%d" ++ B ++ L "\n") ++ [dq])).
  replace ((A ++ L "%d" ++ B ++ L "\n") ++ [dq])
    with (A ++ "%"%char :: (L "d" ++ B ++ L "\n" ++ [dq]))
    by (repeat (rewrite <- app_assoc || rewrite <- app_comm_cons); reflexivity).
  rewrite lstrip_by_region; [| |reflexivity].
  2:{ eapply forallb_sub_class; [|exact HA]. vm_compute. reflexivity. }
  replace (A ++ "%"%char :: (L "d" ++ B ++ L "\n" ++ [dq]))
    with ((A ++ L "%d" ++ B ++ L "\") ++ ["n"%char] ++ [dq])
    by (repeat (rewrite <- app_assoc || rewrite <- app_comm_cons); reflexivity).
  rewrite rstrip_by_one; [|reflexivity|reflexivity].
  repeat (rewrite <- app_assoc || rewrite <- app_comm_cons). reflexivity.
Qed.

Lemma spec_takes p v :
  takes (Grp 1 re_spec) p (L "%d") v [] (setg 1 (L "%d") []).
Proof.
  apply takes_Grp. unfold re_spec.
  change (L "%d") with (L "%" ++ [] ++ [] ++ [] ++ ["d"%char] ++ []).
  apply takes_seq_cons with (g1 := []); [apply takes_Lit|].
  apply takes_seq_cons with (g1 := []); [apply takes_Star; reflexivity|].
  apply takes_seq_cons with (g1 := []).
  { apply takes_Alt_r; [intro k; reflexivity|apply takes_Eps]. }
  apply takes_seq_cons with (g1 := []); [apply takes_Star; reflexivity|].
  apply takes_seq_cons with (g1 := []); [apply takes_Cls; reflexivity|].
  apply takes_seq_nil.
Qed.

Lemma printf_tokens A B :
  forallb frag_char A = true -> forallb frag_char B = true ->
  re_split1 (Grp 1 re_spec) (A ++ L "%d" ++ B ++ L "\n")
  = Ok [A; L "%d"; B ++ L "\n"].
Proof.
  intros HA HB. unfold re_split1.
  rewrite (@segments_one (Grp 1 re_spec) A (L "%d") (B ++ L "\n") (setg 1 (L "%d") [])).
  - reflexivity.
  - discriminate.
  - region.
  - apply spec_takes.
  - quiet_go.
  - nomatch_end.
Qed.

Lemma printf_one_to_cout A B x :
  forallb frag_char A = true -> forallb frag_char B = true ->
  is_identifier x = true ->
  _convert_printf_to_cout
    (L "printf" ++ L "("
       ++ ([dq] ++ A ++ L "%d" ++ B ++ L "\n" ++ [dq] ++ L ", " ++ x) ++ L ");")
  = Ok (L "std::cout" ++ insertion A ++ L " << (" ++ x ++ L ")" ++ insertion B
          ++ L " << std::endl;").
Proof.
  intros HA HB Hx. unfold _convert_printf_to_cout.
  change re_printf_call
    with (pat [lit "printf"; ws; lit "("; Grp 1 (Star true any_char); lit ")"; ws;
               lit ";"; ws]).
  rewrite call_match. cbn [grp group getg mgroups setg nth bind].
  rewrite printf_args by assumption.
  cbn [startswith app]. change (ch dq dq) with true. cbn [andb orb negb].
  cbv zeta.
  change (dq :: (A ++ L "%d" ++ B ++ L "\n") ++ [dq])
    with ([dq] ++ (A ++ L "%d" ++ B ++ L "\n") ++ [dq]).
  rewrite printf_fmt_str by exact HA.
  rewrite printf_tokens by assumption. cbn [bind].
  rewrite printf_loop by assumption.
  f_equal. repeat (rewrite <- app_assoc || rewrite <- app_comm_cons). reflexivity.
Qed.

Lemma insertion_cases A (P : str -> Prop) :
  P [] -> (truthy A = true -> P (L " << " ++ [dq] ++ A ++ [dq])) -> P (insertion A).
Proof.
  intros H0 H1. unfold insertion. destruct (truthy A); [apply H1; reflexivity|exact H0].
Qed.

Lemma printf_line A B x types :
  forallb frag_char A = true -> forallb frag_char B = true ->
  is_identifier x = true ->
  convert_line types
    (L "printf(" ++ [dq] ++ A ++ L "%d" ++ B ++ L "\n" ++ [dq] ++ L ", " ++ x ++ L ");")
  = Ok (L "std::cout" ++ insertion A ++ L " << (" ++ x ++ L ")" ++ insertion B
          ++ L " << std::endl;").
Proof.
  intros HA HB Hx.
  pose proof (@is_identifier_chars x Hx) as Hxc.
  unfold convert_line.
  retext (L "printf(" ++ [dq] ++ A ++ L "%d" ++ B ++ L "\n" ++ [dq] ++ L ", " ++ x ++ L ");")
         (L "printf" ++ L "("
            ++ ([dq] ++ A ++ L "%d" ++ B ++ L "\n" ++ [dq] ++ L ", " ++ x) ++ L ");").
  erewrite re_sub_all.
  2:{ apply segments_all.
      + discriminate.
      + apply stmt_match; fb.
      + reflexivity.
      + nomatch_end. }
  2:{ cbn [m0]. apply printf_one_to_cout; assumption. }
  cbn [bind].
  apply re_sub_segments_nil.
  apply (insertion_cases A); [|intro HtA]; apply (insertion_cases B); try intro HtB;
    cbn [app]; no_segments.
Qed.




(** ** free of a name that is grown by realloc *)

(** C2 (the code departs from the specification): in [realloc_program] the name [p]
    is the first argument of a realloc call, so [p] is in the exclusion set
    and its malloc statement is reproduced unchanged; its statement
    "free(p);" is nevertheless rewritten to "delete p;", because [repl_free]
    alone among the replacement functions never reads [realloc_names].  The
    output therefore differs from the input, which holds nothing else to
    convert. *)
Theorem C2_free_of_realloc_name_rewritten :
  re_findall1 re_realloc realloc_program = [L "p"]
  /\ convert_c_to_cpp realloc_program
     = Ok (L "p = (int*)malloc(sizeof(int) * n);" ++ [nl] ++
           L "p = realloc(p, 8);" ++ [nl] ++
           L "delete p;")
  /\ convert_c_to_cpp realloc_program <> Ok realloc_program.
Proof.
  split; [vm_compute; reflexivity|].
  split; [vm_compute; reflexivity|].
  vm_compute. discriminate.
Qed.

(** ** printf with too few or too many arguments *)

Lemma skipn_nth_error {A : Type} (l : list A) : forall i,
  match skipn i l with
  | [] => nth_error l i = None
  | v :: vs => nth_error l i = Some v /\ skipn (S i) l = vs
  end.
Proof.
  induction l as [|a l IH]; intro i.
  - destruct i; reflexivity.
  - destruct i as [|i]; [simpl; auto|]. specialize (IH i).
    change (skipn (S i) (a :: l)) with (skipn i l).
    destruct (skipn i l); simpl; exact IH.
Qed.

Lemma is_spec_token_truthy tok : is_spec_token tok = true -> truthy tok = true.
Proof. destruct tok; [discriminate|reflexivity]. Qed.

Lemma printf_loop_chain args : forall tokens out i nl,
  fold_left printf_step tokens (out, skipn i args, nl)
  = (out ++ chain tokens args i, skipn (i + count_specs tokens) args,
     nl || ends_line tokens).
Proof.
  induction tokens as [|tok tokens IH]; intros out i nl.
  - cbn. rewrite app_nil_r, Nat.add_0_r, orb_false_r. reflexivity.
  - cbn [fold_left chain]. unfold count_specs, ends_line. cbn [filter existsb].
    fold (ends_line tokens). unfold printf_step at 2.
    fold (is_spec_token tok).
    destruct (is_spec_token tok) eqn:Es.
    + rewrite (is_spec_token_truthy _ Es). cbn [negb andb length].
      fold (count_specs tokens).
      pose proof (skipn_nth_error args i) as Hn.
      destruct (skipn i args) as [|v vs] eqn:Ev.
      * rewrite Hn. 
        assert (Hs : skipn (S i) args = []).
        { apply skipn_all2. apply nth_error_None in Hn. lia. }
        rewrite <- Hs, IH. unfold placeholder.
        rewrite <- !app_assoc, Nat.add_succ_r. reflexivity.
      * destruct Hn as [-> <-]. rewrite IH.
        rewrite <- !app_assoc, Nat.add_succ_r. reflexivity.
    + fold (count_specs tokens). cbn [negb andb].
      destruct (truthy tok) eqn:Et; cbn [negb].
      * unfold literal_insertion.
        destruct (endswith (L "\n") tok); cbn [orb];
          match goal with |- context [truthy ?t] => destruct (truthy t) end;
          rewrite <- Ev || idtac; rewrite IH; rewrite ?app_nil_l, <- ?app_assoc;
          rewrite ?orb_true_r; reflexivity.
      * destruct tok; [|discriminate]. cbn [orb]. rewrite IH.
        reflexivity.
Qed.

Lemma chain_app args : forall t1 t2 i,
  chain (t1 ++ t2) args i = chain t1 args i ++ chain t2 args (i + count_specs t1).
Proof.
  induction t1 as [|tok t1 IH]; intros t2 i.
  - cbn. rewrite Nat.add_0_r. reflexivity.
  - cbn [app chain]. unfold count_specs. cbn [filter].
    destruct (is_spec_token tok); rewrite IH, <- app_assoc.
    + cbn [length]. rewrite Nat.add_succ_r. reflexivity.
    + reflexivity.
Qed.

Lemma chain_unfilled args : forall tokens i,
  length args <= i -> chain tokens args i = concat (map unfilled tokens).
Proof.
  induction tokens as [|tok tokens IH]; intros i Hi; [reflexivity|].
  cbn [chain map concat]. unfold unfilled at 1.
  destruct (is_spec_token tok).
  - assert (Hn : nth_error args i = None) by (apply nth_error_None; exact Hi).
    rewrite Hn, IH by lia. reflexivity.
  - rewrite IH by exact Hi. reflexivity.
Qed.

Lemma chain_firstn : forall tokens args i n,
  i + count_specs tokens <= n -> chain tokens (firstn n args) i = chain tokens args i.
Proof.
  induction tokens as [|tok tokens IH]; intros args i n Hn; [reflexivity|].
  cbn [chain]. unfold count_specs in Hn. cbn [filter] in Hn.
  destruct (is_spec_token tok).
  - cbn [length] in Hn. fold (count_specs tokens) in Hn.
    rewrite IH by lia. rewrite nth_error_firstn.
    destruct (Nat.ltb_spec i n); [reflexivity|lia].
  - fold (count_specs tokens) in Hn. rewrite IH by exact Hn. reflexivity.
Qed.

Section Continuation.

Variable F : str * groups -> str * groups.

Lemma star_greedy_map c (k1 k2 : cont) :
  (forall p s g, k2 p s g = option_map F (k1 p s g)) ->
  forall s p g, star_greedy c k2 p s g = option_map F (star_greedy c k1 p s g).
Proof.
  intro Hk. induction s as [|d s IH]; intros p g; cbn [star_greedy]; [apply Hk|].
  destruct (c d); [|apply Hk]. rewrite IH.
  destruct (star_greedy c k1 (Some d) s g); [reflexivity|apply Hk].
Qed.

Lemma star_lazy_map c (k1 k2 : cont) :
  (forall p s g, k2 p s g = option_map F (k1 p s g)) ->
  forall s p g, star_lazy c k2 p s g = option_map F (star_lazy c k1 p s g).
Proof.
  intro Hk. induction s as [|d s IH]; intros p g; cbn [star_lazy]; rewrite Hk.
  - destruct (k1 p [] g); reflexivity.
  - destruct (k1 p (d :: s) g); [reflexivity|]. cbn [option_map].
    destruct (c d); [apply IH|reflexivity].
Qed.

(** The match does not depend on what the continuation makes of a success. *)
Lemma matchre_map (r : re) : forall (k1 k2 : cont),
  (forall p s g, k2 p s g = option_map F (k1 p s g)) ->
  forall p s g, matchre r k2 p s g = option_map F (matchre r k1 p s g).
Proof.
  induction r as [|w|c|gr c|a IHa b IHb|a IHa b IHb|m a IHa|m| ml | | |a IHa];
    intros k1 k2 Hk p s g; cbn [matchre].
  - apply Hk.
  - destruct (lit_match w s p) as [[p' s']|]; [apply Hk|reflexivity].
  - destruct s as [|d s]; [reflexivity|]. destruct (c d); [apply Hk|reflexivity].
  - destruct gr; [apply star_greedy_map|apply star_lazy_map]; exact Hk.
  - apply IHa. intros p' s' g'. apply IHb. exact Hk.
  - rewrite (IHa k1 k2 Hk). destruct (matchre a k1 p s g); [reflexivity|].
    apply IHb. exact Hk.
  - apply IHa. intros p' s' g'. apply Hk.
  - destruct (getg m g) as [w|]; [|reflexivity].
    destruct (lit_match w s p) as [[p' s']|]; [apply Hk|reflexivity].
  - destruct (at_bol ml p); [apply Hk|reflexivity].
  - destruct (at_eol s); [apply Hk|reflexivity].
  - destruct (xorb _ _); [apply Hk|reflexivity].
  - destruct (matchre a k_end p s g); [reflexivity|apply Hk].
Qed.

End Continuation.

Lemma match_at_Grp n r p s :
  match_at (Grp n r) p s
  = match match_at r p s with
    | Some (m, s') => Some (in_group n m, s')
    | None => None
    end.
Proof.
  unfold match_at. cbn [matchre].
  rewrite (@matchre_map
             (fun x => (fst x, setg n (firstn (length s - length (fst x)) s) (snd x)))
             r k_end) by reflexivity.
  destruct (matchre r k_end p s []) as [[s' g]|]; reflexivity.
Qed.

Lemma scan_Grp n r : forall s p skip acc,
  scan (Grp n r) p s skip acc
  = (map (fun sm => (fst sm, in_group n (snd sm))) (fst (scan r p s skip acc)),
     snd (scan r p s skip acc)).
Proof.
  induction s as [|c t IH]; intros p skip acc; cbn [scan].
  - destruct skip; [|reflexivity]. rewrite match_at_Grp.
    destruct (match_at r p []) as [[m s']|]; reflexivity.
  - destruct skip; [|apply IH]. rewrite match_at_Grp.
    destruct (match_at r p (c :: t)) as [[m s']|]; [|apply IH].
    cbn [in_group m0]. destruct (length (m0 m)).
    + rewrite IH. destruct (scan r (Some c) t 0 [c]). reflexivity.
    + rewrite IH. destruct (scan r (Some c) t n0 []). reflexivity.
Qed.

Lemma grp_in_group n m : grp (in_group n m) n = Ok (m0 m).
Proof. unfold grp, group, in_group. cbn [mgroups]. rewrite getg_setg_same. reflexivity. Qed.

Lemma mapM_group1 (l : list (str * mobj)) :
  mapM (fun sm => t <- grp (in_group 1 (snd sm)) 1 ;; Ok [fst sm; t]) l
  = Ok (map (fun sm => [fst sm; m0 (snd sm)]) l).
Proof.
  induction l as [|sm l IH]; [reflexivity|]. cbn [mapM map].
  rewrite grp_in_group. cbn [bind]. rewrite IH. reflexivity.
Qed.

(** splitting at a pattern put in one group: the pieces between the matches
    and the matched texts, in turn *)
Lemma re_split1_Grp r s :
  re_split1 (Grp 1 r) s
  = Ok (concat (map (fun sm => [fst sm; m0 (snd sm)]) (fst (segments r s)))
          ++ [snd (segments r s)]).
Proof.
  unfold re_split1, segments. rewrite scan_Grp.
  destruct (scan r None s 0 []) as [l tl]. cbn [fst snd].
  assert (E : forall l', mapM (fun sm : str * mobj => t <- grp (snd sm) 1;; Ok [fst sm; t])
               (map (fun sm : str * mobj => (fst sm, in_group 1 (snd sm))) l')
             = mapM (fun sm => t <- grp (in_group 1 (snd sm)) 1 ;; Ok [fst sm; t]) l').
  { induction l' as [|sm l' IH]; [reflexivity|]. cbn [map mapM fst snd].
    rewrite IH. reflexivity. }
  rewrite E, mapM_group1. reflexivity.
Qed.

Lemma spec_match_percent p s m s' :
  match_at re_spec p s = Some (m, s') -> is_spec_token (m0 m) = true.
Proof.
  unfold match_at. intro H.
  destruct (matchre re_spec k_end p s []) as [[s1 g1]|] eqn:E; [|discriminate].
  injection H as <- <-. cbn [m0].
  pose proof E as E'. apply matchre_through in E'.
  destruct E' as (p' & t & s2 & g2 & -> & Hk & _ & Hc). unfold k_end in Hk.
  injection Hk as -> ->. rewrite firstn_app_len.
  specialize (Hc "%"%char eq_refl).
  destruct t as [|c t]; [destruct Hc|].
  unfold re_spec in E. cbn [pat fold_right matchre lit app] in E.
  change (L "%") with ["%"%char] in E. cbn [lit_match] in E.
  unfold is_spec_token. change (L "%") with ["%"%char]. cbn [startswith].
  destruct (ch "%" c); [reflexivity|discriminate].
Qed.

Lemma findall_spec_tokens s : forallb is_spec_token (re_findall0 re_spec s) = true.
Proof.
  unfold re_findall0, re_finditer, segments. apply forallb_forall. intros x Hx.
  rewrite map_map in Hx. apply in_map_iff in Hx. destruct Hx as (sm & <- & Hin).
  pose proof (@scan_Forall (fun m => is_spec_token (m0 m) = true) re_spec
                spec_match_percent s None 0 []) as HF.
  rewrite Forall_forall in HF. apply (HF sm Hin).
Qed.

Lemma interleave_segments (segs : list (str * mobj)) :
  concat (map (fun sm => [fst sm; m0 (snd sm)]) segs)
  = interleave (map fst segs) (map m0 (map snd segs)).
Proof.
  induction segs as [|sm segs IH]; [reflexivity|].
  cbn [map concat interleave app]. rewrite IH. reflexivity.
Qed.

(** the tokens of a format: the literal fragments and the specifiers that
    the pattern finds, in turn, and the fragment after the last one *)
Lemma format_tokens s :
  exists lits tl,
    re_split1 (Grp 1 re_spec) s = Ok (interleave lits (re_findall0 re_spec s) ++ [tl])
    /\ length lits = length (re_findall0 re_spec s).
Proof.
  exists (map fst (fst (segments re_spec s))), (snd (segments re_spec s)).
  rewrite re_split1_Grp, interleave_segments. split; [reflexivity|].
  unfold re_findall0, re_finditer. rewrite !length_map. reflexivity.
Qed.



(** the two cases on whole statements *)

Lemma printf_missing_argument :
  convert_c_to_cpp (L "printf(" ++ [dq] ++ L "%d %d" ++ [dq] ++ L ", x);")
  = Ok (L "std::cout << (x) << " ++ [dq] ++ L " " ++ [dq] ++ L " << "
          ++ [dq] ++ L "%d" ++ [dq] ++ L ";").
Proof. vm_compute. reflexivity. Qed.

Lemma printf_no_argument :
  convert_c_to_cpp (L "printf(" ++ [dq] ++ L "%s\n" ++ [dq] ++ L ");")
  = Ok (L "std::cout << " ++ [dq] ++ L "%s" ++ [dq] ++ L " << std::endl;").
Proof. vm_compute. reflexivity. Qed.

Lemma printf_excess_arguments :
  convert_c_to_cpp (L "printf(" ++ [dq] ++ L "%d" ++ [dq] ++ L ", x, y, z);")
  = convert_c_to_cpp (L "printf(" ++ [dq] ++ L "%d" ++ [dq] ++ L ", x);")
  /\ convert_c_to_cpp (L "printf(" ++ [dq] ++ L "%d" ++ [dq] ++ L ", x);")
     = Ok (L "std::cout << (x);").
Proof. split; vm_compute; reflexivity. Qed.

(** ** A chain of targets read from std::cin *)

Lemma is_target_ok es : forallb is_target es = true -> Forall target es.
Proof.
  intro H. apply Forall_forall. intros e He. rewrite forallb_forall in H.
  apply H in He. unfold is_target in He. apply andb_true_iff in He.
  destruct He as [H1 H2]. apply negb_true_iff in H2. split; assumption.
Qed.

Lemma lazy_grp_upto n c C b k u p v g x :
  forallb c u = true -> forallb C u = true -> stuck_on C b = true ->
  matchre b k (lastp p u) v (setg n u g) = Some x ->
  matchre (Seq (Grp n (Star false c)) b) k p (u ++ v) g = Some x.
Proof.
  intros Hu HC Hb H. simpl. rewrite star_lazy_skip.
  - apply star_lazy_here. rewrite firstn_app_len. exact H.
  - exact Hu.
  - intros u1 d u2 E. apply matchre_stuck. eapply stuck_on_ok; [exact Hb|].
    rewrite forallb_forall in HC. apply HC. rewrite E. apply in_or_app.
    right. left. reflexivity.
Qed.

Lemma forallb_concat_map {A : Type} (C : ascii -> bool) (f : A -> str) l :
  Forall (fun x => forallb C (f x) = true) l -> forallb C (concat (map f l)) = true.
Proof.
  induction 1 as [|x l Hx _ IH]; [reflexivity|].
  cbn [map concat]. rewrite forallb_app, Hx, IH. reflexivity.
Qed.

Lemma forallb_join (C : ascii -> bool) sep l :
  forallb C sep = true -> Forall (fun x => forallb C x = true) l ->
  forallb C (join sep l) = true.
Proof.
  intros Hs. induction 1 as [|x l Hx Hl IH]; [reflexivity|].
  destruct l as [|y l]; [exact Hx|].
  change (join sep (x :: y :: l)) with (x ++ sep ++ join sep (y :: l)).
  rewrite !forallb_app, Hx, Hs, IH. reflexivity.
Qed.

Lemma targets_chars (C : ascii -> bool) es :
  sub_class ident_char C = true -> Forall target es ->
  Forall (fun e => forallb C e = true) es.
Proof.
  intros HC H. eapply Forall_impl; [|exact H]. intros e [He _].
  eapply forallb_sub_class; [exact HC|]. apply is_identifier_chars. exact He.
Qed.

Lemma cin_statement_body e es :
  cin_statement (e :: es) = L "std::cin" ++ L " " ++ L ">>" ++ chain_body e es ++ L ";".
Proof.
  unfold cin_statement, chain_body. cbn [map concat].
  change (L " >> ") with (L " " ++ L ">>" ++ L " ").
  repeat rewrite <- app_assoc. reflexivity.
Qed.

Lemma chain_body_chars (C : ascii -> bool) e es :
  sub_class ident_char C = true -> forallb C (L " >> ") = true ->
  target e -> Forall target es -> forallb C (chain_body e es) = true.
Proof.
  intros HC Hs He Hes. unfold chain_body.
  pose proof (@targets_chars C (e :: es) HC (Forall_cons _ He Hes)) as H.
  inversion H as [|? ? H1 H2]; subst.
  rewrite !forallb_app, H1.
  rewrite forallb_concat_map.
  - change (L " >> ") with (L " " ++ L ">> ") in Hs. rewrite forallb_app in Hs.
    apply andb_true_iff in Hs. destruct Hs as [-> _]. reflexivity.
  - eapply Forall_impl; [|exact H2]. intros x Hx. cbv beta.
    rewrite forallb_app, Hs, Hx. reflexivity.
Qed.

Lemma cin_match e es :
  target e -> Forall target es ->
  match_at re_cin None (cin_statement (e :: es))
  = Some ({| m0 := cin_statement (e :: es); mgroups := setg 1 (chain_body e es) [] |},
          []).
Proof.
  intros He Hes. rewrite cin_statement_body. apply match_at_all.
  apply matchre_seq_takes with (g' := []); [apply takes_Lit|].
  apply matchre_seq_takes with (g' := []); [apply takes_Star; reflexivity|].
  apply matchre_seq_takes with (g' := []); [apply takes_Lit|].
  apply lazy_grp_upto with (C := notc ";").
  - apply chain_body_chars; [vm_compute; reflexivity|reflexivity|exact He|exact Hes].
  - apply chain_body_chars; [vm_compute; reflexivity|reflexivity|exact He|exact Hes].
  - vm_compute; reflexivity.
  - reflexivity.
Qed.

Lemma scan_split_chain es : forall e p acc,
  forallb (notc ">") e = true ->
  Forall (fun x => forallb (notc ">") x = true) es ->
  let (l, tl) := scan (lit ">>") p (e ++ concat (map (fun x => L " >> " ++ x) es)) 0 acc in
  map fst l ++ [tl] = raw_targets (rev acc ++ e) es.
Proof.
  induction es as [|x es IH]; intros e p acc He Hes.
  - cbn [map concat raw_targets].
    rewrite scan_quiet
      by (apply stuck_quiet with (C := notc ">"); [exact He|vm_compute; reflexivity]).
    rewrite scan_end by reflexivity. cbn [map app].
    rewrite rev_app_distr, rev_involutive. reflexivity.
  - inversion Hes as [|? ? Hx Hes']; subst.
    cbn [map concat raw_targets].
    change (L " >> ") with (L " " ++ L ">>" ++ L " ").
    replace (e ++ ((L " " ++ L ">>" ++ L " ") ++ x) ++
               concat (map (fun x0 => (L " " ++ L ">>" ++ L " ") ++ x0) es))
      with ((e ++ L " ") ++ L ">>" ++
              ((L " " ++ x) ++ concat (map (fun x0 => (L " " ++ L ">>" ++ L " ") ++ x0) es)))
      by (repeat rewrite <- app_assoc; reflexivity).
    rewrite scan_quiet
      by (apply stuck_quiet with (C := notc ">");
          [rewrite forallb_app, He; reflexivity|vm_compute; reflexivity]).
    match goal with
    | |- context [scan _ _ (L ">>" ++ ?v) 0 _] =>
        change (L ">>" ++ v) with (">"%char :: [">"%char] ++ v)
    end.
    rewrite (@scan_here (lit ">>") _ ">"%char [">"%char] _ _
               {| m0 := L ">>"; mgroups := [] |}).
    + specialize (IH (L " " ++ x) (lastp (Some ">"%char) [">"%char]) []).
      change (L " " ++ L ">>" ++ L " ") with (L " >> ") in *.
      destruct (scan (lit ">>") (lastp (Some ">"%char) [">"%char])
                     ((L " " ++ x) ++ concat (map (fun x0 => L " >> " ++ x0) es)) 0 [])
        as [l tl].
      cbn [map fst app]. rewrite rev_app_distr, rev_involutive, app_assoc. f_equal.
      apply IH; [|exact Hes']. rewrite forallb_app, Hx. reflexivity.
    + apply (@match_at_takes (lit ">>") _ (L ">>") _ []). apply takes_Lit.
    + reflexivity.
Qed.

Lemma re_split_chain e es :
  forallb (notc ">") e = true ->
  Forall (fun x => forallb (notc ">") x = true) es ->
  re_split (lit ">>") (e ++ concat (map (fun x => L " >> " ++ x) es))
  = raw_targets e es.
Proof.
  intros He Hes. unfold re_split, segments.
  pose proof (@scan_split_chain es e None [] He Hes) as H.
  destruct (scan (lit ">>") None (e ++ concat (map (fun x => L " >> " ++ x) es)) 0 [])
    as [l tl].
  exact H.
Qed.

Lemma strip_spaced_ident x : is_identifier x = true -> strip ((L " " ++ x) ++ L " ") = x.
Proof.
  intro Hx. pose proof (@identifier_nonempty x Hx) as Hn.
  pose proof (@identifier_not_space x Hx) as Hs.
  unfold strip, strip_by. destruct x as [|c x]; [congruence|].
  change (lstrip_by is_space ((L " " ++ c :: x) ++ L " "))
    with (lstrip_by is_space ((c :: x) ++ L " ")).
  simpl in Hs. apply andb_true_iff in Hs. destruct Hs as [Hc Hs].
  cbn [app]. rewrite lstrip_by_head by (apply negb_true_iff; exact Hc).
  unfold rstrip_by. change (c :: x ++ L " ") with ((c :: x) ++ L " ").
  rewrite rev_app_distr. cbn [L list_ascii_of_string rev app lstrip_by].
  change (is_space " "%char) with true. cbv iota.
  change (rev x ++ [c]) with (rev (c :: x)).
  fold (rstrip_by is_space (c :: x)).
  apply (@rstrip_by_last is_space [] (c :: x)); [discriminate|].
  simpl. rewrite Hc, Hs. reflexivity.
Qed.

Lemma strip_raw_targets es : forall e,
  is_identifier e = true -> Forall (fun x => is_identifier x = true) es ->
  map strip (raw_targets (L " " ++ e) es) = e :: es.
Proof.
  induction es as [|x es IH]; intros e He Hes.
  - cbn [raw_targets map]. rewrite strip_space_ident by exact He. reflexivity.
  - inversion Hes; subst. cbn [raw_targets map].
    rewrite strip_spaced_ident by exact He. rewrite IH by assumption. reflexivity.
Qed.

Lemma target_identifiers es :
  Forall target es -> Forall (fun x => is_identifier x = true) es.
Proof. intro H. eapply Forall_impl; [|exact H]. intros x [Hx _]. exact Hx. Qed.

Lemma cin_repl_chain m e es :
  target e -> Forall target es ->
  group m 1 = Some (chain_body e es) ->
  cin_repl m = Ok (scanf_call (e :: es)).
Proof.
  intros He Hes Hg. unfold cin_repl, grp. rewrite Hg. cbn [bind]. cbv zeta.
  unfold chain_body. rewrite (app_assoc (L " ") e). rewrite re_split_chain.
  - rewrite strip_raw_targets; [|apply He|apply target_identifiers; exact Hes].
    reflexivity.
  - pose proof (@targets_chars (notc ">") [e] eq_refl (Forall_cons _ He (Forall_nil _))) as H.
    inversion H; subst. rewrite forallb_app. cbn [L list_ascii_of_string forallb].
    assumption.
  - apply targets_chars; [vm_compute; reflexivity|exact Hes].
Qed.

Lemma cin_line e es :
  target e -> Forall target es ->
  re_sub re_cin cin_repl (cin_statement (e :: es)) = Ok (scanf_call (e :: es)).
Proof.
  intros He Hes.
  apply re_sub_all with (m := {| m0 := cin_statement (e :: es);
                                 mgroups := setg 1 (chain_body e es) [] |}).
  - apply segments_all.
    + unfold cin_statement. discriminate.
    + apply cin_match; assumption.
    + reflexivity.
    + nomatch_end.
  - apply cin_repl_chain; [exact He|exact Hes|reflexivity].
Qed.

Lemma quiet_join r (sep tail : str) (P : str -> Prop) :
  (forall p e v, P e -> quiet r p e (sep ++ v)) ->
  (forall p e, P e -> quiet r p e tail) ->
  (forall p v, quiet r p sep v) ->
  forall es e p, P e -> Forall P es -> quiet r p (join sep (e :: es)) tail.
Proof.
  intros Hsep Htail Hs. induction es as [|x es IH]; intros e p He Hes.
  - apply Htail. exact He.
  - inversion Hes; subst.
    change (join sep (e :: x :: es)) with (e ++ sep ++ join sep (x :: es)).
    apply quiet_app.
    + rewrite <- app_assoc. apply Hsep. exact He.
    + apply quiet_app; [apply Hs|]. apply IH; assumption.
Qed.

Section Scanf_call_quiet.

Variable r : re.
Variable P : str -> Prop.

Hypothesis r_end : must_any r = true.
Hypothesis r_punct : stuck_on scanf_punct r = true.
Hypothesis r_scanf : forall v, quiet r None (L "scanf") ("("%char :: v).
Hypothesis r_d : forall d v, ch dq d || ch " " d = true ->
                             quiet r (Some "%"%char) (L "d") (d :: v).
Hypothesis r_target :
  forall x d v, P x -> one_of ",)" d = true -> quiet r (Some "&"%char) x (d :: v).

Lemma quiet_punct u p v : forallb scanf_punct u = true -> quiet r p u v.
Proof. intro H. apply stuck_quiet with (C := scanf_punct); [exact H|exact r_punct]. Qed.

Lemma quiet_percent_d p d v :
  ch dq d || ch " " d = true -> quiet r p (L "%d") (d :: v).
Proof.
  intro Hd. change (L "%d") with (L "%" ++ L "d").
  apply quiet_app; [apply quiet_punct; reflexivity|]. apply r_d. exact Hd.
Qed.

Lemma quiet_amp_target p x d v :
  P x -> one_of ",)" d = true -> quiet r p (L "&" ++ x) (d :: v).
Proof.
  intros Hx Hd. apply quiet_app; [apply quiet_punct; reflexivity|].
  apply r_target; assumption.
Qed.

Lemma scanf_call_quiet e es :
  P e -> Forall P es ->
  segments r (scanf_call (e :: es)) = ([], scanf_call (e :: es)).
Proof.
  intros He Hes. apply quiet_segments; [|apply match_at_end; exact r_end].
  unfold scanf_call. change (L "scanf(") with (L "scanf" ++ L "(").
  rewrite <- app_assoc.
  apply quiet_app; [apply r_scanf|].
  apply quiet_app; [apply quiet_punct; reflexivity|].
  apply quiet_app; [apply quiet_punct; reflexivity|].
  apply quiet_app.
  { cbn [map]. apply quiet_join with (P := fun t => t = L "%d").
    - intros p t v ->. apply quiet_percent_d. reflexivity.
    - intros p t ->. apply quiet_percent_d. reflexivity.
    - intros p v. apply quiet_punct. reflexivity.
    - reflexivity.
    - clear. induction es; constructor; auto. }
  apply quiet_app; [apply quiet_punct; reflexivity|].
  apply quiet_app; [apply quiet_punct; reflexivity|].
  apply quiet_app; [|apply quiet_punct; reflexivity].
  cbn [map]. apply quiet_join with (P := fun t => exists x, t = L "&" ++ x /\ P x).
  - intros p t v (x & -> & Hx). apply quiet_amp_target; [exact Hx|reflexivity].
  - intros p t (x & -> & Hx). apply quiet_amp_target; [exact Hx|reflexivity].
  - intros p v. apply quiet_punct. reflexivity.
  - exists e. auto.
  - clear - Hes. induction Hes; constructor; eauto.
Qed.

End Scanf_call_quiet.

Lemma comma_or_paren d : one_of ",)" d = true -> d = ","%char \/ d = ")"%char.
Proof.
  cbv [one_of L list_ascii_of_string existsb]. rewrite orb_false_r.
  intro H. apply orb_true_iff in H. destruct H as [H|H]; apply ch_eq in H; auto.
Qed.

Lemma quote_or_space d : ch dq d || ch " " d = true -> d = dq \/ d = " "%char.
Proof.
  intro H. apply orb_true_iff in H. destruct H as [H|H]; apply ch_eq in H; auto.
Qed.

Lemma scanf_call_no_word W e es :
  In W ["nullptr"; "bool"; "true"; "false"]%string ->
  target e -> Forall target es ->
  segments (re_word W) (scanf_call (e :: es)) = ([], scanf_call (e :: es)).
Proof.
  intros HW He Hes.
  assert (HW' : In W ["nullptr"; "bool"; "true"; "false"; "NULL"]%string)
    by (simpl in *; tauto).
  assert (Hcpp : In (L W) cpp_words).
  { simpl in HW. unfold cpp_words. simpl. repeat destruct HW as [<-|HW]; tauto. }
  apply scanf_call_quiet with (P := fun x => is_identifier x = true /\ x <> L W).
  - simpl in HW. repeat destruct HW as [<-|HW]; try (vm_compute; reflexivity).
    destruct HW.
  - simpl in HW. repeat destruct HW as [<-|HW]; try (vm_compute; reflexivity).
    destruct HW.
  - intro v. apply word_region_quiet; try reflexivity; [exact HW'|].
    simpl in HW. repeat destruct HW as [<-|HW]; try discriminate. destruct HW.
  - intros d v Hd. apply word_region_quiet; try reflexivity; [exact HW'| |].
    + apply quote_or_space in Hd. destruct Hd as [-> | ->]; reflexivity.
    + simpl in HW. repeat destruct HW as [<-|HW]; try discriminate. destruct HW.
  - intros x d v [Hx Hne] Hd. apply word_region_quiet; try assumption.
    + reflexivity.
    + apply is_identifier_chars. exact Hx.
    + apply comma_or_paren in Hd. destruct Hd as [-> | ->]; reflexivity.
  - destruct He as [He Hm]. split; [exact He|].
    eapply mem_false_neq; eassumption.
  - eapply Forall_impl; [|exact Hes]. intros x [Hx Hm]. split; [exact Hx|].
    eapply mem_false_neq; eassumption.
Qed.

Lemma scanf_call_no_new e es :
  target e -> Forall target es ->
  segments re_new_scalar (scanf_call (e :: es)) = ([], scanf_call (e :: es)).
Proof.
  intros He Hes.
  apply scanf_call_quiet with (P := fun x => is_identifier x = true).
  - vm_compute; reflexivity.
  - vm_compute; reflexivity.
  - intro v. apply (@lit_led_quiet ident_char); vm_compute; reflexivity.
  - intros d v Hd. apply quote_or_space in Hd.
    destruct Hd as [-> | ->]; (apply quiet_cons; [nomatch_here|apply quiet_nil]).
  - intros x d v Hx Hd. apply comma_or_paren in Hd.
    destruct Hd as [-> | ->];
      (apply (@lit_led_quiet ident_char);
       [reflexivity|reflexivity|apply is_identifier_chars; exact Hx
       |vm_compute; reflexivity]).
  - apply He.
  - apply target_identifiers. exact Hes.
Qed.

Lemma scanf_call_no_delete e es :
  target e -> Forall target es ->
  segments re_delete (scanf_call (e :: es)) = ([], scanf_call (e :: es)).
Proof.
  intros He Hes.
  apply scanf_call_quiet with (P := fun x => is_identifier x = true).
  - vm_compute; reflexivity.
  - vm_compute; reflexivity.
  - intro v. apply (@lit_led_quiet ident_char); vm_compute; reflexivity.
  - intros d v Hd. apply quote_or_space in Hd.
    destruct Hd as [-> | ->]; (apply quiet_cons; [nomatch_here|apply quiet_nil]).
  - intros x d v Hx Hd. apply comma_or_paren in Hd.
    destruct Hd as [-> | ->];
      (apply (@lit_led_quiet ident_char);
       [reflexivity|reflexivity|apply is_identifier_chars; exact Hx
       |vm_compute; reflexivity]).
  - apply He.
  - apply target_identifiers. exact Hes.
Qed.

Lemma cin_statement_chars (C : ascii -> bool) es :
  sub_class ident_char C = true -> forallb C (L "std::cin >> ;") = true ->
  Forall target es -> forallb C (cin_statement es) = true.
Proof.
  intros HC Hl Hes. unfold cin_statement.
  change (L "std::cin >> ;") with (L "std::cin" ++ L " >> " ++ L ";") in Hl.
  rewrite !forallb_app in Hl. apply andb_true_iff in Hl. destruct Hl as [H1 Hl].
  apply andb_true_iff in Hl. destruct Hl as [H2 H3].
  rewrite !forallb_app, H1, H3, forallb_concat_map; [reflexivity|].
  eapply Forall_impl; [|apply (@targets_chars C es HC Hes)].
  intros x Hx. cbv beta in *. rewrite forallb_app, H2, Hx. reflexivity.
Qed.

Lemma scanf_call_chars (C : ascii -> bool) es :
  sub_class ident_char C = true -> forallb C (L "scanf(%d , &);") = true -> C dq = true ->
  Forall target es -> forallb C (scanf_call es) = true.
Proof.
  intros HC Hl Hq Hes. unfold scanf_call.
  assert (Hc : forall c, In c (L "scanf(%d , &);") -> C c = true)
    by (apply forallb_forall; exact Hl).
  assert (Hs : forall w, (forall c, In c (L w) -> In c (L "scanf(%d , &);")) ->
                         forallb C (L w) = true).
  { intros w Hw. apply forallb_forall. intros c Hin. apply Hc, Hw, Hin. }
  rewrite !forallb_app.
  rewrite (Hs "scanf("%string), (Hs ", "%string), (Hs ");"%string);
    try (cbv [L list_ascii_of_string]; simpl; tauto).
  cbn [forallb]. rewrite Hq. cbn [andb].
  rewrite !forallb_join; try reflexivity.
  - apply Hs. cbv [L list_ascii_of_string]; simpl; tauto.
  - apply Forall_map. eapply Forall_impl; [|apply (@targets_chars C es HC Hes)].
    intros x Hx. cbv beta in *. rewrite forallb_app, Hx.
    rewrite (Hs "&"%string); [reflexivity|]. cbv [L list_ascii_of_string]; simpl; tauto.
  - apply Hs. cbv [L list_ascii_of_string]; simpl; tauto.
  - apply Forall_map. eapply Forall_impl; [|exact Hes]. intros x _.
    apply Hs. cbv [L list_ascii_of_string]; simpl; tauto.
Qed.



(** the targets are read with "%d" also when they are declared otherwise *)
Lemma cin_declared_float :
  convert_cpp_to_c (L "float f;" ++ [nl] ++ L "std::cin >> f >> g;")
  = Ok (L "float f;" ++ [nl] ++ L "scanf(" ++ [dq] ++ L "%d %d" ++ [dq]
          ++ L ", &f, &g);").
Proof. vm_compute. reflexivity. Qed.

(** ** The word substitutions *)

Lemma lit_match_startswith w : forall s p,
  lit_match w s p = if startswith w s then Some (lastp p w, skipn (length w) s) else None.
Proof.
  induction w as [|c w IH]; intros s p; [reflexivity|].
  destruct s as [|d s]; [reflexivity|]. cbn [lit_match startswith].
  destruct (ch c d) eqn:E; [|reflexivity]. apply ch_eq in E. subst d.
  rewrite IH. cbn [andb length skipn]. rewrite lastp_cons. reflexivity.
Qed.

Lemma startswith_app_skipn w : forall s,
  startswith w s = true -> s = w ++ skipn (length w) s.
Proof.
  induction w as [|c w IH]; intros s H; [reflexivity|].
  destruct s as [|d s]; [discriminate|]. cbn [startswith] in H.
  apply andb_true_iff in H. destruct H as [E H]. apply ch_eq in E. subst d.
  cbn [length skipn app]. f_equal. apply IH. exact H.
Qed.

Section Word.

Variable W : string.
Hypothesis W_nonempty : L W <> [].
Hypothesis W_word : forallb is_word (L W) = true.

Lemma startswith_word_after s : startswith (L W) s = true -> word_after s = true.
Proof.
  intro H. pose proof W_word as Hw. pose proof W_nonempty as Hn.
  destruct (L W) as [|c w]; [congruence|].
  destruct s as [|d s]; [discriminate|]. cbn [startswith] in H.
  apply andb_true_iff in H. destruct H as [Hc _]. apply ch_eq in Hc. subst d.
  cbn [forallb] in Hw. apply andb_true_iff in Hw. apply Hw.
Qed.

Lemma match_at_word p s :
  match_at (re_word W) p s
  = if word_at (L W) p s
    then Some ({| m0 := L W; mgroups := [] |}, skipn (length (L W)) s)
    else None.
Proof.
  unfold match_at, re_word, word_at, tail_ok. cbn [pat fold_right matchre lit].
  rewrite lit_match_startswith.
  destruct (startswith (L W) s) eqn:Es.
  - rewrite (startswith_word_after _ Es).
    rewrite (lastp_word p W_nonempty W_word).
    destruct (word_before p); cbn [xorb negb andb]; [reflexivity|].
    destruct (word_after (skipn (length (L W)) s)); cbn [xorb negb k_end]; [reflexivity|].
    f_equal. f_equal. f_equal.
    pose proof (startswith_app_skipn _ _ Es) as E.
    remember (skipn (length (L W)) s) as t. rewrite E.
    apply firstn_app_len.
  - rewrite andb_false_r. destruct (xorb (word_before p) (word_after s)); reflexivity.
Qed.


Variable R : str.

Lemma emit_nil p acc : emit R (scan (re_word W) p [] 0 acc) = rev acc.
Proof.
  cbn [scan]. rewrite match_at_word.
  replace (word_at (L W) p []) with false; [unfold emit; cbn; apply app_nil_l|].
  unfold word_at, tail_ok.
  assert (HW : exists c w, L W = c :: w)
    by (destruct (L W) as [|c w]; [congruence|eauto]).
  destruct HW as (c & w & ->).
  cbn [startswith]. rewrite andb_false_r. reflexivity.
Qed.

Lemma emit_skip p c t acc :
  word_at (L W) p (c :: t) = false ->
  emit R (scan (re_word W) p (c :: t) 0 acc)
  = emit R (scan (re_word W) (Some c) t 0 (c :: acc)).
Proof. intro H. cbn [scan]. rewrite match_at_word, H. reflexivity. Qed.

Lemma emit_match p s acc :
  word_at (L W) p s = true ->
  emit R (scan (re_word W) p s 0 acc)
  = rev acc ++ R ++ emit R (scan (re_word W) (lastp p (L W)) (skipn (length (L W)) s) 0 []).
Proof.
  intro H. pose proof H as H'. unfold word_at, tail_ok in H'.
  apply andb_true_iff in H'. destruct H' as [_ H']. apply andb_true_iff in H'.
  destruct H' as [Hs _]. pose proof (startswith_app_skipn _ _ Hs) as E.
  remember (skipn (length (L W)) s) as t. clear Heqt. subst s.
  assert (HW : exists c w, L W = c :: w)
    by (destruct (L W) as [|c w]; [congruence|eauto]).
  destruct HW as (c & w & EW).
  assert (Hm : match_at (re_word W) p (c :: w ++ t)
               = Some ({| m0 := c :: w; mgroups := [] |}, t)).
  { rewrite match_at_word. rewrite EW in H |- *. cbn [app] in H. rewrite H.
    f_equal. f_equal.
    change (c :: w ++ t) with ((c :: w) ++ t).
    rewrite skipn_app, skipn_all, Nat.sub_diag. reflexivity. }
  rewrite EW. cbn [app].
  rewrite (@scan_here (re_word W) p c w t acc {| m0 := c :: w; mgroups := [] |} Hm eq_refl).
  rewrite lastp_cons.
  destruct (scan (re_word W) (lastp (Some c) w) t 0 []) as [l tl].
  unfold emit. cbn [fst snd map concat]. rewrite <- !app_assoc. reflexivity.
Qed.

Lemma emit_acc : forall n s, length s <= n -> forall p acc,
  emit R (scan (re_word W) p s 0 acc) = rev acc ++ emit R (scan (re_word W) p s 0 []).
Proof.
  induction n as [|n IH]; intros s Hn p acc.
  - destruct s; [|simpl in Hn; lia]. rewrite !emit_nil. cbn. rewrite app_nil_r. reflexivity.
  - destruct s as [|c t]; [rewrite !emit_nil; cbn; rewrite app_nil_r; reflexivity|].
    destruct (word_at (L W) p (c :: t)) eqn:E.
    + rewrite (@emit_match p (c :: t) acc E), (@emit_match p (c :: t) [] E). reflexivity.
    + rewrite !emit_skip by exact E. simpl in Hn.
      rewrite (IH t ltac:(lia) _ (c :: acc)), (IH t ltac:(lia) _ [c]).
      cbn [rev app]. rewrite <- !app_assoc. reflexivity.
Qed.

Lemma after_nil p : after W R p [] = [].
Proof. apply emit_nil. Qed.

Lemma after_skip p c t :
  word_at (L W) p (c :: t) = false -> after W R p (c :: t) = c :: after W R (Some c) t.
Proof.
  intro H. unfold after. rewrite emit_skip by exact H.
  rewrite (@emit_acc (length t) t (le_n _)). reflexivity.
Qed.

Lemma after_match p s :
  word_at (L W) p s = true ->
  after W R p s = R ++ after W R (lastp p (L W)) (skipn (length (L W)) s).
Proof. intro H. unfold after. rewrite emit_match by exact H. reflexivity. Qed.

Lemma ends_nonword_cons c u : u <> [] -> ends_nonword (c :: u) = ends_nonword u.
Proof.
  intro Hn. unfold ends_nonword. cbn [rev].
  destruct (rev u) as [|d r] eqn:E; [|reflexivity].
  apply (f_equal (@rev ascii)) in E. rewrite rev_involutive in E. simpl in E. congruence.
Qed.

Lemma boundary_cons c u v : u <> [] -> boundary (c :: u) v -> boundary u v.
Proof.
  intros Hn [H|H]; [left|right; exact H]. rewrite <- (ends_nonword_cons c Hn). exact H.
Qed.

Lemma boundary_nil v : boundary [] v.
Proof. left. reflexivity. Qed.

Lemma boundary_skipn n u v : boundary u v -> boundary (skipn n u) v.
Proof.
  revert u. induction n as [|n IH]; intros u H; [exact H|].
  destruct u as [|c u]; [exact H|]. cbn [skipn].
  destruct u as [|d u]; [rewrite skipn_nil; apply boundary_nil|].
  apply IH. eapply boundary_cons; [discriminate|exact H].
Qed.

Lemma tail_ok_app : forall w u v,
  forallb is_word w = true -> u <> [] -> boundary u v ->
  tail_ok w (u ++ v) = tail_ok w u.
Proof.
  induction w as [|c w IH]; intros u v Hw Hn Hb.
  - unfold tail_ok. cbn [startswith length skipn]. destruct u; [congruence|reflexivity].
  - destruct u as [|d u]; [congruence|]. cbn [forallb] in Hw.
    apply andb_true_iff in Hw. destruct Hw as [Hc Hw].
    unfold tail_ok in *. cbn [app startswith length skipn].
    destruct (ch c d) eqn:E; [|reflexivity]. cbn [andb]. apply ch_eq in E. subst d.
    destruct u as [|e u].
    + destruct Hb as [Hb|Hb].
      * unfold ends_nonword in Hb. cbn in Hb. rewrite Hc in Hb. discriminate.
      * cbn [app]. destruct v as [|e v]; [reflexivity|].
        unfold starts_nonword in Hb. cbn in Hb. apply negb_true_iff in Hb.
        destruct w as [|c' w].
        -- cbn. rewrite Hb. reflexivity.
        -- cbn [startswith forallb] in *. apply andb_true_iff in Hw.
           destruct Hw as [Hc' _].
           destruct (ch c' e) eqn:E'; [|reflexivity]. apply ch_eq in E'. subst e.
           congruence.
    + apply (IH (e :: u) v Hw); [discriminate|].
      eapply boundary_cons; [discriminate|exact Hb].
Qed.

Lemma word_at_app w p u v :
  forallb is_word w = true -> u <> [] -> boundary u v ->
  word_at w p (u ++ v) = word_at w p u.
Proof. intros. unfold word_at. rewrite tail_ok_app by assumption. reflexivity. Qed.

Lemma lastp_skipn w : forall p s,
  startswith w s = true -> lastp (lastp p w) (skipn (length w) s) = lastp p s.
Proof.
  intros p s H. pose proof (@startswith_app_skipn w s H) as E.
  remember (skipn (length w) s) as t. clear Heqt. subst s.
  rewrite lastp_app. reflexivity.
Qed.

Lemma word_at_startswith w p s : word_at w p s = true -> startswith w s = true.
Proof.
  unfold word_at, tail_ok. intro H. apply andb_true_iff in H. destruct H as [_ H].
  apply andb_true_iff in H. apply H.
Qed.

(** The substitution of a text cut at a word boundary is the substitution
    of its two parts. *)
Lemma after_app : forall n u, length u <= n -> forall p v,
  boundary u v -> after W R p (u ++ v) = after W R p u ++ after W R (lastp p u) v.
Proof.
  induction n as [|n IH]; intros u Hn p v Hb.
  - destruct u; [|simpl in Hn; lia]. rewrite after_nil. reflexivity.
  - destruct u as [|c t]; [rewrite after_nil; reflexivity|].
    pose proof (@word_at_app (L W) p (c :: t) v W_word ltac:(discriminate) Hb) as Ea.
    destruct (word_at (L W) p (c :: t)) eqn:E.
    + rewrite (@after_match p ((c :: t) ++ v) Ea), (@after_match p (c :: t) E).
      pose proof (word_at_startswith _ _ _ E) as Hs.
      pose proof (startswith_app_skipn _ _ Hs) as Hu.
      assert (Hl : length (L W) <= length (c :: t)).
      { apply (f_equal (@length ascii)) in Hu. rewrite length_app in Hu. rewrite Hu. apply Nat.le_add_r. }
      rewrite skipn_app.
      replace (length (L W) - length (c :: t)) with 0 by lia. cbn [skipn].
      rewrite IH.
      * rewrite lastp_skipn by exact Hs. rewrite <- app_assoc. reflexivity.
      * rewrite length_skipn.
        assert (0 < length (L W)) by (destruct (L W); [congruence|simpl; lia]).
        lia.
      * apply boundary_skipn. exact Hb.
    + cbn [app] in *. rewrite (after_skip _ _ _ Ea), (after_skip _ _ _ E).
      rewrite lastp_cons. cbn [app]. f_equal. apply IH; [simpl in Hn; lia|].
      destruct t as [|d t]; [apply boundary_nil|].
      eapply boundary_cons; [discriminate|exact Hb].
Qed.

(** After a character that is not of a word, as at the start of the text. *)
Lemma after_start p v : word_before p = false -> after W R p v = after W R None v.
Proof.
  intro Hp. destruct v as [|c t]; [rewrite !after_nil; reflexivity|].
  assert (E : word_at (L W) p (c :: t) = word_at (L W) None (c :: t))
    by (unfold word_at; rewrite Hp; reflexivity).
  destruct (word_at (L W) None (c :: t)) eqn:E0.
  - rewrite (@after_match p (c :: t) E), (@after_match None (c :: t) E0).
    assert (HW : exists d w, L W = d :: w)
      by (destruct (L W) as [|d w]; [congruence|eauto]).
    destruct HW as (d & w & EW). rewrite EW, !lastp_cons. reflexivity.
  - rewrite (after_skip _ _ _ E), (after_skip _ _ _ E0). reflexivity.
Qed.

(** Before a character that is not of a word, whatever came before. *)
Lemma after_nonword p v : starts_nonword v = true -> after W R p v = after W R None v.
Proof.
  intro Hv. destruct v as [|c t]; [rewrite !after_nil; reflexivity|].
  assert (E : forall q, word_at (L W) q (c :: t) = false).
  { intro q. unfold word_at, tail_ok.
    destruct (startswith (L W) (c :: t)) eqn:Es; [|rewrite andb_false_r; reflexivity].
    apply startswith_word_after in Es. unfold starts_nonword in Hv.
    rewrite Es in Hv. discriminate. }
  rewrite !after_skip by apply E. reflexivity.
Qed.

Lemma ends_nonword_lastp u : ends_nonword u = true -> word_before (lastp None u) = false.
Proof.
  unfold ends_nonword. intro H. destruct (rev u) as [|c r] eqn:E.
  - apply (f_equal (@rev ascii)) in E. rewrite rev_involutive in E. subst u. reflexivity.
  - apply (f_equal (@rev ascii)) in E. rewrite rev_involutive in E. subst u.
    cbn [rev]. rewrite lastp_app. cbn. apply negb_true_iff. exact H.
Qed.

Lemma after_boundary u v :
  boundary u v -> after W R None (u ++ v) = after W R None u ++ after W R None v.
Proof.
  intro Hb. rewrite (@after_app (length u) u (le_n _) None v Hb). f_equal.
  destruct Hb as [Hb|Hb].
  - apply after_start. apply ends_nonword_lastp. exact Hb.
  - apply after_nonword. exact Hb.
Qed.

Lemma after_word : after W R None (L W) = R.
Proof.
  assert (E : word_at (L W) None (L W) = true).
  { unfold word_at, tail_ok. cbn [word_before negb andb].
    rewrite <- (app_nil_r (L W)) at 2. rewrite startswith_refl.
    rewrite skipn_all. reflexivity. }
  rewrite (@after_match None (L W) E). rewrite skipn_all, after_nil. apply app_nil_r.
Qed.

End Word.

Lemma rule_word_nonempty W : is_rule_word W -> L W <> [].
Proof.
  unfold is_rule_word. simpl. intro H.
  repeat destruct H as [<-|H]; try discriminate. destruct H.
Qed.

Lemma rule_word_word W : is_rule_word W -> forallb is_word (L W) = true.
Proof.
  unfold is_rule_word. simpl. intro H.
  repeat destruct H as [<-|H]; try reflexivity. destruct H.
Qed.

Lemma foldM_const (R : str) (l : list (str * mobj)) : forall out,
  foldM (fun out sm => t <- Ok R ;; Ok (out ++ fst sm ++ t)) l out
  = Ok (out ++ concat (map (fun sm => fst sm ++ R) l)).
Proof.
  induction l as [|sm l IH]; intro out; cbn [foldM map concat bind].
  - rewrite app_nil_r. reflexivity.
  - rewrite IH. rewrite <- !app_assoc. reflexivity.
Qed.

Lemma sub_word_replaced W R s : sub_word W R s = Ok (replaced W R s).
Proof.
  unfold sub_word, re_sub, replaced, emit.
  destruct (segments (re_word W) s) as [l tl]. rewrite foldM_const. reflexivity.
Qed.

Lemma replaced_app W R u v :
  is_rule_word W -> boundary u v ->
  replaced W R (u ++ v) = replaced W R u ++ replaced W R v.
Proof.
  intros HW Hb.
  apply (@after_boundary W (rule_word_nonempty HW) (rule_word_word HW) (L R) u v Hb).
Qed.

Lemma replaced_word W R : is_rule_word W -> replaced W R (L W) = L R.
Proof.
  intro HW. apply (@after_word W (rule_word_nonempty HW) (rule_word_word HW) (L R)).
Qed.

Lemma replaced_nil W R : is_rule_word W -> replaced W R [] = [].
Proof.
  intro HW. apply (@after_nil W (rule_word_nonempty HW) (rule_word_word HW) (L R)).
Qed.

Lemma replaced_nonword W R c :
  is_rule_word W -> is_word c = false -> replaced W R [c] = [c].
Proof.
  intros HW Hc. change (replaced W R [c]) with (after W (L R) None [c]).
  rewrite (@after_skip W (rule_word_nonempty HW) (rule_word_word HW)).
  - rewrite (@after_nil W (rule_word_nonempty HW) (rule_word_word HW)). reflexivity.
  - unfold word_at, tail_ok.
    destruct (startswith (L W) [c]) eqn:Es; [|reflexivity].
    apply (@startswith_word_after W (rule_word_nonempty HW) (rule_word_word HW)) in Es.
    simpl in Es. congruence.
Qed.

(** the substitution splits at a whole word: the word is replaced, and what
    is before it and what is after it are substituted on their own *)
Lemma replaced_split W R u v :
  is_rule_word W -> ends_nonword u = true -> starts_nonword v = true ->
  replaced W R (u ++ L W ++ v) = replaced W R u ++ L R ++ replaced W R v.
Proof.
  intros HW Hu Hv.
  rewrite replaced_app by (assumption || left; assumption).
  rewrite replaced_app by (assumption || right; assumption).
  rewrite replaced_word by exact HW. reflexivity.
Qed.

(** a whole word other than the one substituted stays *)
Lemma replaced_other W R (X : string) u v :
  is_rule_word W -> replaced W R (L X) = L X ->
  ends_nonword u = true -> starts_nonword v = true ->
  replaced W R (u ++ L X ++ v) = replaced W R u ++ L X ++ replaced W R v.
Proof.
  intros HW HX Hu Hv.
  rewrite replaced_app by (assumption || left; assumption).
  rewrite replaced_app by (assumption || right; assumption).
  rewrite HX. reflexivity.
Qed.

Lemma replaced_ends W R u :
  is_rule_word W -> ends_nonword u = true -> ends_nonword (replaced W R u) = true.
Proof.
  intros HW Hu. unfold ends_nonword in Hu.
  destruct (rev u) as [|c r] eqn:E.
  - apply (f_equal (@rev ascii)) in E. rewrite rev_involutive in E. subst u.
    rewrite replaced_nil by exact HW. reflexivity.
  - apply (f_equal (@rev ascii)) in E. rewrite rev_involutive in E. subst u.
    cbn [rev]. apply negb_true_iff in Hu.
    rewrite replaced_app; [|exact HW|right; unfold starts_nonword; simpl; rewrite Hu; reflexivity].
    rewrite replaced_nonword by assumption.
    unfold ends_nonword. rewrite rev_app_distr. cbn. rewrite Hu. reflexivity.
Qed.

Lemma replaced_starts W R v :
  is_rule_word W -> starts_nonword v = true -> starts_nonword (replaced W R v) = true.
Proof.
  intros HW Hv. destruct v as [|c t]; [rewrite replaced_nil by exact HW; reflexivity|].
  unfold starts_nonword in Hv. cbn in Hv. apply negb_true_iff in Hv.
  change (c :: t) with ([c] ++ t).
  rewrite replaced_app; [|exact HW|left; unfold ends_nonword; simpl; rewrite Hv; reflexivity].
  rewrite replaced_nonword by assumption. unfold starts_nonword. cbn. rewrite Hv.
  reflexivity.
Qed.

Ltac rule_word := unfold is_rule_word; simpl; tauto.

Ltac at_boundary :=
  repeat first [ assumption
               | apply replaced_ends; [rule_word|]
               | apply replaced_starts; [rule_word|] ].

Lemma surface_c_split W R u v :
  In (W, R) cpp_rules -> ends_nonword u = true -> starts_nonword v = true ->
  surface_c (u ++ L W ++ v) = surface_c u ++ L R ++ surface_c v.
Proof.
  intros HR Hu Hv. unfold cpp_rules in HR. simpl in HR. unfold surface_c.
  destruct HR as [E|[E|[E|[E|[]]]]]; injection E as <- <-.
  - rewrite (@replaced_split "nullptr" "NULL") by (rule_word || at_boundary).
    rewrite (@replaced_other "bool" "int" "NULL");
      [|rule_word|vm_compute; reflexivity|at_boundary|at_boundary].
    rewrite (@replaced_other "true" "1" "NULL");
      [|rule_word|vm_compute; reflexivity|at_boundary|at_boundary].
    rewrite (@replaced_other "false" "0" "NULL");
      [|rule_word|vm_compute; reflexivity|at_boundary|at_boundary].
    reflexivity.
  - rewrite (@replaced_other "nullptr" "NULL" "bool");
      [|rule_word|vm_compute; reflexivity|at_boundary|at_boundary].
    rewrite (@replaced_split "bool" "int") by (rule_word || at_boundary).
    rewrite (@replaced_other "true" "1" "int");
      [|rule_word|vm_compute; reflexivity|at_boundary|at_boundary].
    rewrite (@replaced_other "false" "0" "int");
      [|rule_word|vm_compute; reflexivity|at_boundary|at_boundary].
    reflexivity.
  - rewrite (@replaced_other "nullptr" "NULL" "true");
      [|rule_word|vm_compute; reflexivity|at_boundary|at_boundary].
    rewrite (@replaced_other "bool" "int" "true");
      [|rule_word|vm_compute; reflexivity|at_boundary|at_boundary].
    rewrite (@replaced_split "true" "1") by (rule_word || at_boundary).
    rewrite (@replaced_other "false" "0" "1");
      [|rule_word|vm_compute; reflexivity|at_boundary|at_boundary].
    reflexivity.
  - rewrite (@replaced_other "nullptr" "NULL" "false");
      [|rule_word|vm_compute; reflexivity|at_boundary|at_boundary].
    rewrite (@replaced_other "bool" "int" "false");
      [|rule_word|vm_compute; reflexivity|at_boundary|at_boundary].
    rewrite (@replaced_other "true" "1" "false");
      [|rule_word|vm_compute; reflexivity|at_boundary|at_boundary].
    rewrite (@replaced_split "false" "0") by (rule_word || at_boundary).
    reflexivity.
Qed.

Lemma plain_c_class (C : ascii -> bool) s :
  sub_class (fun c => no_linebreak c && notc "#" c && notc "(" c && notc "*" c) C = true ->
  plain_c s = true -> forallb C s = true.
Proof. intros HC H. eapply forallb_sub_class; [exact HC|exact H]. Qed.

Lemma convert_line_plain types s :
  forallb (notc "(") s = true -> convert_line types s = Ok s.
Proof.
  intro H. unfold convert_line.
  rewrite (@re_sub_segments_nil re_printf_stmt);
    [|eapply segments_without with (c := "("%char); [reflexivity|exact H]].
  cbn [bind].
  rewrite (@re_sub_segments_nil re_scanf_stmt);
    [|eapply segments_without with (c := "("%char); [reflexivity|exact H]].
  reflexivity.
Qed.

Lemma after_lines_words types l :
  forallb (notc "*") l = true -> forallb (notc "(") l = true ->
  after_lines types l = Ok (replaced "NULL" "nullptr" l).
Proof.
  intros Hs Hp. unfold after_lines, _convert_malloc_free_to_new_delete.
  cbv zeta.
  repeat (rewrite re_sub_st_segments_nil;
          [cbn [bind]|eapply segments_without with (c := "("%char);
                       [reflexivity|exact Hp]]).
  rewrite re_sub_segments_nil;
    [|eapply segments_without with (c := "*"%char); [reflexivity|exact Hs]].
  cbn [bind]. apply sub_word_replaced.
Qed.

Lemma c_to_cpp_plain s :
  s <> [] -> plain_c s = true ->
  convert_c_to_cpp s = Ok (replaced "NULL" "nullptr" s).
Proof.
  intros Hn Hp.
  destruct (@c_to_cpp_line s Hn) as [types ->];
    [apply (plain_c_class no_linebreak); [vm_compute; reflexivity|exact Hp]
    |apply (plain_c_class (notc "#")); [vm_compute; reflexivity|exact Hp]|].
  rewrite convert_line_plain
    by (apply (plain_c_class (notc "(")); [vm_compute; reflexivity|exact Hp]).
  cbn [bind]. apply after_lines_words.
  - apply (plain_c_class (notc "*")); [vm_compute; reflexivity|exact Hp].
  - apply (plain_c_class (notc "(")); [vm_compute; reflexivity|exact Hp].
Qed.

Lemma cpp_to_c_surface s :
  plain_cpp s = true ->
  convert_cpp_to_c s = _convert_new_delete_to_malloc_free (surface_c s).
Proof.
  intro Hp. unfold convert_cpp_to_c.
  assert (Hh : forallb (notc "#") s = true)
    by (eapply forallb_sub_class; [|exact Hp]; vm_compute; reflexivity).
  assert (Hc : forallb (notc ":") s = true)
    by (eapply forallb_sub_class; [|exact Hp]; vm_compute; reflexivity).
  rewrite (@re_search_without _include_iostream s "#"%char); [|reflexivity|exact Hh].
  cbn [bind].
  rewrite (@re_sub_segments_nil re_cout); [|eapply segments_without; [|exact Hc]; reflexivity].
  cbn [bind].
  rewrite (@re_sub_segments_nil re_cin); [|eapply segments_without; [|exact Hc]; reflexivity].
  cbn [bind]. do 4 (rewrite sub_word_replaced; cbn [bind]). reflexivity.
Qed.

Lemma plain_cpp_word W R u v :
  In (W, R) cpp_rules -> plain_cpp (u ++ v) = true -> plain_cpp (u ++ L W ++ v) = true.
Proof.
  intros HR H. unfold plain_cpp in *. rewrite forallb_app in H.
  apply andb_true_iff in H. destruct H as [Hu Hv]. rewrite !forallb_app, Hu, Hv.
  unfold cpp_rules in HR. simpl in HR.
  destruct HR as [E|[E|[E|[E|[]]]]]; injection E as <- <-; reflexivity.
Qed.



(** the words inside a string literal and inside comments, on whole texts *)
Lemma null_in_literal_and_comment :
  convert_c_to_cpp (L "char *s = " ++ [dq] ++ L "NULL" ++ [dq]
                      ++ L "; /* NULL */ p = NULL; // NULL")
  = Ok (L "char *s = " ++ [dq] ++ L "nullptr" ++ [dq]
          ++ L "; /* nullptr */ p = nullptr; // nullptr").
Proof. vm_compute. reflexivity. Qed.

Lemma cpp_words_in_literal_and_comment :
  convert_cpp_to_c (L "bool ok = true; /* bool */ s = " ++ [dq] ++ L "false nullptr"
                      ++ [dq] ++ L "; // true")
  = Ok (L "int ok = 1; /* int */ s = " ++ [dq] ++ L "0 NULL"
          ++ [dq] ++ L "; // 1").
Proof. vm_compute. reflexivity. Qed.

(** a word inside a longer word is no occurrence *)
Lemma longer_word_stays :
  convert_c_to_cpp (L "x = NULLABLE;") = Ok (L "x = NULLABLE;")
  /\ convert_cpp_to_c (L "int truth = boolean;") = Ok (L "int truth = boolean;").
Proof. split; vm_compute; reflexivity. Qed.

(** ** The specifier of a token of a cout chain *)

Lemma strip_ident x : is_identifier x = true -> strip x = x.
Proof.
  intro Hx. apply strip_by_word.
  - apply identifier_nonempty. exact Hx.
  - apply identifier_not_space. exact Hx.
Qed.

Lemma ident_fullmatch x :
  is_identifier x = true -> re_fullmatch ident x = Some {| m0 := x; mgroups := [] |}.
Proof.
  intro Hx. apply re_fullmatch_takes.
  destruct x as [|c t]; [discriminate|].
  simpl in Hx. apply andb_true_iff in Hx. destruct Hx as [Hc Ht].
  apply takes_ident; [exact Hc|exact Ht|reflexivity].
Qed.

Lemma expr_ctype_name x tmap :
  is_identifier x = true -> _expr_ctype x tmap = Ok (dict_get x tmap).
Proof.
  intro Hx. unfold _expr_ctype. cbv zeta. rewrite strip_ident by exact Hx.
  rewrite ident_fullmatch by exact Hx. reflexivity.
Qed.

Lemma strip_star_ident x : is_identifier x = true -> strip (L "*" ++ x) = L "*" ++ x.
Proof.
  intro Hx. unfold strip, strip_by.
  change (L "*" ++ x) with ("*"%char :: x).
  rewrite lstrip_by_head by reflexivity.
  apply (@rstrip_by_last is_space (L "*") x).
  - apply identifier_nonempty. exact Hx.
  - apply identifier_not_space. exact Hx.
Qed.

Lemma deref_fullmatch x :
  is_identifier x = true ->
  re_fullmatch re_deref (L "*" ++ x)
  = Some {| m0 := L "*" ++ x; mgroups := setg 1 x [] |}.
Proof.
  intro Hx. apply re_fullmatch_takes.
  destruct x as [|c t]; [discriminate|].
  simpl in Hx. apply andb_true_iff in Hx. destruct Hx as [Hc Ht].
  replace (L "*" ++ c :: t)
    with (L "*" ++ [] ++ [] ++ [] ++ (c :: t) ++ [] ++ [] ++ [])
    by (cbn [app]; rewrite app_nil_r; reflexivity).
  unfold re_deref.
  apply takes_seq_cons with (g1 := []); [apply takes_Lit|].
  apply takes_seq_cons with (g1 := []).
  { apply takes_Star; [reflexivity|].
    apply (stops_cons ident_start); [vm_compute; reflexivity|exact Hc]. }
  apply takes_seq_cons with (g1 := []).
  { apply takes_Alt_r; [|apply takes_Eps].
    intro k. cbn [app]. apply matchre_stuck.
    apply (@stuck_on_ok ident_start); [vm_compute; reflexivity|exact Hc]. }
  apply takes_seq_cons with (g1 := []).
  { apply takes_Star; [reflexivity|].
    apply (stops_cons ident_start); [vm_compute; reflexivity|exact Hc]. }
  eapply takes_seq_cons.
  { apply takes_Grp. apply takes_ident; [exact Hc|exact Ht|reflexivity]. }
  eapply takes_seq_cons; [apply takes_Star; reflexivity|].
  eapply takes_seq_cons.
  { apply takes_Alt_r; [|apply takes_Eps]. intro k. reflexivity. }
  apply takes_seq_nil.
Qed.

Lemma ident_start_stuck r x t :
  is_identifier x = true -> stuck_on ident_start r = true ->
  re_fullmatch r (x ++ t) = None.
Proof.
  intros Hx Hr. destruct x as [|c x]; [discriminate|].
  simpl in Hx. apply andb_true_iff in Hx. destruct Hx as [Hc _].
  cbn [app]. apply re_fullmatch_stuck.
  apply (@stuck_on_ok ident_start); [exact Hr|exact Hc].
Qed.

Lemma expr_ctype_deref x tmap :
  is_identifier x = true ->
  _expr_ctype (L "*" ++ x) tmap = Ok (pointee (dict_get x tmap)).
Proof.
  intro Hx. unfold _expr_ctype. cbv zeta. rewrite strip_star_ident by exact Hx.
  replace (re_fullmatch ident (L "*" ++ x)) with (@None mobj)
    by (symmetry; apply re_fullmatch_stuck; vm_compute; reflexivity).
  rewrite deref_fullmatch by exact Hx. reflexivity.
Qed.

(** greedy repetition up to a last character that the continuation asks for *)
Lemma star_greedy_last c d g : forall u p,
  forallb c u = true -> c d = true ->
  star_greedy c (matchre (Seq (Lit [d]) Eps) k_full) p (u ++ [d]) g = Some ([], g).
Proof.
  induction u as [|a u IH]; intros p Hu Hd.
  - cbn [app star_greedy]. rewrite Hd. cbn [matchre lit_match].
    rewrite ch_refl. reflexivity.
  - cbn [forallb] in Hu. apply andb_true_iff in Hu. destruct Hu as [Ha Hu].
    cbn [app star_greedy]. rewrite Ha. rewrite IH by assumption. reflexivity.
Qed.

Lemma index_fullmatch x e :
  is_identifier x = true -> e <> [] -> forallb not_nl e = true ->
  re_fullmatch re_index (x ++ L "[" ++ e ++ L "]")
  = Some {| m0 := x ++ L "[" ++ e ++ L "]"; mgroups := setg 1 x [] |}.
Proof.
  intros Hx Hn He. unfold re_fullmatch.
  assert (E : matchre re_index k_full None (x ++ L "[" ++ e ++ L "]") []
              = Some ([], setg 1 x [])).
  { destruct x as [|c t]; [discriminate|].
    simpl in Hx. apply andb_true_iff in Hx. destruct Hx as [Hc Ht].
    unfold re_index. cbn [pat fold_right].
    apply matchre_seq_takes with (g' := setg 1 (c :: t) []).
    { apply takes_Grp. apply takes_ident; [exact Hc|exact Ht|reflexivity]. }
    change (L "[" ++ e ++ L "]") with ([] ++ L "[" ++ e ++ L "]").
    apply matchre_seq_takes with (g' := setg 1 (c :: t) []);
      [apply takes_Star; reflexivity|].
    apply matchre_seq_takes with (g' := setg 1 (c :: t) []); [apply takes_Lit|].
    destruct e as [|a e]; [congruence|].
    cbn [forallb] in He. apply andb_true_iff in He. destruct He as [Ha He].
    unfold Plus. cbn [app matchre]. rewrite Ha.
    apply (@star_greedy_last not_nl "]"%char); [exact He|reflexivity]. }
  fold k_full. rewrite E. reflexivity.
Qed.

Lemma strip_index x e :
  is_identifier x = true ->
  strip (x ++ L "[" ++ e ++ L "]") = x ++ L "[" ++ e ++ L "]".
Proof.
  intro Hx. unfold strip, strip_by.
  pose proof (@identifier_not_space x Hx) as Hs.
  destruct x as [|c t]; [discriminate|].
  cbn [forallb] in Hs. apply andb_true_iff in Hs. destruct Hs as [Hc _].
  cbn [app]. rewrite lstrip_by_head by (apply negb_true_iff; exact Hc).
  change (c :: t ++ L "[" ++ e ++ L "]") with ((c :: t) ++ L "[" ++ e ++ L "]").
  rewrite !app_assoc.
  apply rstrip_by_last; [discriminate|reflexivity].
Qed.

Lemma expr_ctype_index x e tmap :
  is_identifier x = true -> e <> [] -> forallb not_nl e = true ->
  _expr_ctype (x ++ L "[" ++ e ++ L "]") tmap = Ok (pointee (dict_get x tmap)).
Proof.
  intros Hx Hn He. unfold _expr_ctype. cbv zeta. rewrite strip_index by exact Hx.
  destruct (re_fullmatch ident (x ++ L "[" ++ e ++ L "]")) as [m|] eqn:E.
  { apply (@re_fullmatch_within ident_char) in E; [|reflexivity].
    rewrite !forallb_app in E. apply andb_true_iff in E. destruct E as [_ E].
    apply andb_true_iff in E. destruct E as [E _]. discriminate. }
  rewrite ident_start_stuck by (assumption || vm_compute; reflexivity).
  rewrite index_fullmatch by assumption. reflexivity.
Qed.

Lemma cout_part_piece code tmap fmt vs p :
  _infer_decl_types code = Ok tmap ->
  cout_part code (fmt, vs) p
  = Ok (fmt ++ [cout_piece tmap p], vs ++ (if is_cout_expr p then [p] else [])).
Proof.
  intro Ht. unfold cout_part, cout_piece, is_cout_expr.
  destruct (str_eqb p (L "std::endl")); [rewrite app_nil_r; reflexivity|].
  destruct (startswith [dq] p); [rewrite app_nil_r; reflexivity|].
  rewrite Ht. cbn [bind negb andb]. unfold token_spec, expr_ctype.
  destruct (_expr_ctype_returns p tmap) as [ctp ->]. reflexivity.
Qed.

Lemma cout_parts_pieces code tmap parts : forall fmt vs,
  _infer_decl_types code = Ok tmap ->
  foldM (cout_part code) parts (fmt, vs)
  = Ok (fmt ++ map (cout_piece tmap) parts, vs ++ filter is_cout_expr parts).
Proof.
  induction parts as [|p parts IH]; intros fmt vs Ht.
  - cbn. rewrite !app_nil_r. reflexivity.
  - cbn [foldM]. rewrite (@cout_part_piece code tmap fmt vs p Ht). cbn [bind].
    rewrite IH by exact Ht. cbn [map filter].
    destruct (is_cout_expr p); rewrite <- !app_assoc; reflexivity.
Qed.

Lemma call_args_length vs :
  (if negb (length vs =? 0) then L ", " ++ join (L ", ") vs else []) = call_args vs.
Proof. destruct vs; reflexivity. Qed.

Lemma fmt_table_rows t f :
  In (t, f) fmt_table -> _fmt_for_type (or_default (L "int") (Some t)) = f.
Proof.
  unfold fmt_table. simpl. intro H.
  repeat destruct H as [E|H]; try (injection E as <- <-; vm_compute; reflexivity).
  destruct H.
Qed.



(** the six types of the table, and a name that is not declared, in one
    chain *)
Lemma cout_declared_types :
  convert_cpp_to_c
    (L "int x;" ++ [nl] ++ L "long n;" ++ [nl] ++ L "float f;" ++ [nl]
       ++ L "double d;" ++ [nl] ++ L "char c;" ++ [nl] ++ L "char *s;" ++ [nl]
       ++ L "std::cout << x << n << f << d << c << s << y << std::endl;")
  = Ok (L "int x;" ++ [nl] ++ L "long n;" ++ [nl] ++ L "float f;" ++ [nl]
          ++ L "double d;" ++ [nl] ++ L "char c;" ++ [nl] ++ L "char *s;" ++ [nl]
          ++ L "printf(" ++ [dq] ++ L "%d%ld%f%lf%c%s%d\n" ++ [dq]
          ++ L ", x, n, f, d, c, s, y);").
Proof. vm_compute. reflexivity. Qed.

(** a dereference, an index, a string literal and an expression of another
    form *)
Lemma cout_deref_and_index :
  convert_cpp_to_c
    (L "int *p;" ++ [nl] ++ L "double *a;" ++ [nl]
       ++ L "std::cout << *p << a[i] << " ++ [dq] ++ L "v=" ++ [dq] ++ L " << x + 1;")
  = Ok (L "int *p;" ++ [nl] ++ L "double *a;" ++ [nl]
          ++ L "printf(" ++ [dq] ++ L "%d%lfv=%d" ++ [dq] ++ L ", *p, a[i], x + 1);").
Proof. vm_compute. reflexivity. Qed.

(** * Further properties of the converter *)

(** ** Specifiers of pointer types *)

Lemma replace_stars t k :
  forallb (notc "*") t = true -> replace_ch "*" [] (t ++ repeat "*"%char k) = t.
Proof.
  intro Ht. unfold replace_ch. rewrite flat_map_app.
  fold (replace_ch "*" [] t). rewrite replace_ch_without by exact Ht.
  induction k as [|k IH]; [apply app_nil_r|]. cbn [repeat flat_map].
  rewrite ch_refl. exact IH.
Qed.

(** X1: a pointer type of any depth over one of the five base types gets
    the specifier of the base type, the stars being dropped, with one
    exception: "char*" is in the table with "%s".  So a pointer to a
    pointer to char is printed with "%c". *)
Theorem X1_fmt_for_pointer_types :
  forall k : nat,
    _fmt_for_type (L "int" ++ repeat "*"%char k) = L "%d"
    /\ _fmt_for_type (L "long" ++ repeat "*"%char k) = L "%ld"
    /\ _fmt_for_type (L "float" ++ repeat "*"%char k) = L "%f"
    /\ _fmt_for_type (L "double" ++ repeat "*"%char k) = L "%lf"
    /\ _fmt_for_type (L "char") = L "%c"
    /\ _fmt_for_type (L "char*") = L "%s"
    /\ _fmt_for_type (L "char" ++ repeat "*"%char (S (S k))) = L "%c".
Proof.
  intro k. unfold _fmt_for_type. cbv zeta.
  repeat split; try reflexivity;
    rewrite replace_stars by reflexivity;
    (destruct k; [reflexivity|]); reflexivity.
Qed.

(** ** The splitting of argument lists *)

(** *** Stripping twice *)

Lemma lstrip_by_stable f s :
  match s with [] => True | c :: _ => f c = false end -> lstrip_by f s = s.
Proof. destruct s as [|c s]; [reflexivity|]. intro H. cbn. rewrite H. reflexivity. Qed.

Lemma lstrip_by_starts f s :
  match lstrip_by f s with [] => True | c :: _ => f c = false end.
Proof.
  induction s as [|c s IH]; [exact I|]. cbn. destruct (f c) eqn:E; [exact IH|exact E].
Qed.

Lemma lstrip_by_idem f s : lstrip_by f (lstrip_by f s) = lstrip_by f s.
Proof. apply lstrip_by_stable, lstrip_by_starts. Qed.

Lemma lstrip_by_suffix f s : exists u, s = u ++ lstrip_by f s /\ forallb f u = true.
Proof.
  induction s as [|c s IH]; [exists []; auto|]. cbn. destruct (f c) eqn:E.
  - destruct IH as (u & Hu & Hf). exists (c :: u). cbn. rewrite E, Hf. split; [|reflexivity].
    f_equal. exact Hu.
  - exists []. auto.
Qed.

Lemma rstrip_by_idem f s : rstrip_by f (rstrip_by f s) = rstrip_by f s.
Proof. unfold rstrip_by. rewrite rev_involutive, lstrip_by_idem. reflexivity. Qed.

(** what is left of a text that starts with a kept character starts with it *)
Lemma rstrip_by_keeps_head f c s :
  f c = false -> exists t, rstrip_by f (c :: s) = c :: t.
Proof.
  intro Hc. unfold rstrip_by. cbn [rev].
  destruct (lstrip_by_suffix f (rev s ++ [c])) as (u & Hu & Hf).
  remember (lstrip_by f (rev s ++ [c])) as r.
  assert (Hr : r <> []).
  { intro E. rewrite E, app_nil_r in Hu. rewrite <- Hu in Hf.
    rewrite forallb_app in Hf. apply andb_true_iff in Hf. destruct Hf as [_ Hf].
    cbn in Hf. rewrite Hc in Hf. discriminate. }
  apply (f_equal (@rev ascii)) in Hu. rewrite !rev_app_distr, rev_involutive in Hu.
  cbn in Hu. destruct (rev r) as [|d t] eqn:Er.
  - apply (f_equal (@rev ascii)) in Er. rewrite rev_involutive in Er. cbn in Er. congruence.
  - cbn in Hu. injection Hu as <- _. exists t. reflexivity.
Qed.

Lemma strip_by_idem f s : strip_by f (strip_by f s) = strip_by f s.
Proof.
  unfold strip_by. pose proof (lstrip_by_starts f s) as H.
  destruct (lstrip_by f s) as [|c t] eqn:E; [reflexivity|].
  destruct (@rstrip_by_keeps_head f c t H) as [t' Ht]. rewrite Ht.
  rewrite lstrip_by_stable by exact H. rewrite <- Ht. apply rstrip_by_idem.
Qed.

Lemma strip_idem s : strip (strip s) = strip s.
Proof. apply strip_by_idem. Qed.

(** *** The parts of an argument list *)

Lemma split_step_parts st c :
  exists l, parts (split_step st c) = parts st ++ l
            /\ Forall (fun p => strip p = p) l.
Proof.
  unfold split_step.
  repeat match goal with
         | |- context [if ?b then _ else _] => destruct b
         end; cbn [parts];
    first [ exists []; rewrite app_nil_r; split; [reflexivity|constructor]
          | exists [strip (buf st)]; split; [reflexivity|];
            constructor; [apply strip_idem|constructor] ].
Qed.

Lemma split_run_parts u : forall st,
  Forall (fun p => strip p = p) (parts st) ->
  Forall (fun p => strip p = p) (parts (fold_left split_step u st)).
Proof.
  induction u as [|c u IH]; intros st H; [exact H|]. cbn [fold_left]. apply IH.
  destruct (split_step_parts st c) as (l & -> & Hl). apply Forall_app. split; assumption.
Qed.

(** X2: every part that [_split_printf_args] returns is stripped: it has
    no white space at either end (it may be empty). *)
Theorem X2_split_parts_are_stripped :
  forall args : str, Forall (fun p => strip p = p) (_split_printf_args args).
Proof.
  intro args. unfold _split_printf_args. cbv zeta.
  pose proof (@split_run_parts args {| parts := []; buf := []; q := None; depth := 0 |}
                (Forall_nil _)) as H.
  destruct (truthy _); [|exact H].
  apply Forall_app. split; [exact H|]. constructor; [apply strip_idem|constructor].
Qed.

Lemma strip_after_space p : strip (L " " ++ p) = strip p.
Proof. reflexivity. Qed.

Lemma is_plain_arg_chars p : is_plain_arg p = true -> forallb arg_char p = true.
Proof. unfold is_plain_arg. intro H. apply andb_true_iff in H. apply H. Qed.

Lemma is_plain_arg_strip p : is_plain_arg p = true -> strip p = p.
Proof.
  unfold is_plain_arg. intro H. apply andb_true_iff in H. destruct H as [_ H].
  apply str_eqb_eq. exact H.
Qed.

Lemma split_comma_space P b :
  fold_left split_step (L ", ") {| parts := P; buf := b; q := None; depth := 0 |}
  = {| parts := P ++ [strip b]; buf := L " "; q := None; depth := 0 |}.
Proof. reflexivity. Qed.

Lemma split_join ps : forall p P b0,
  is_plain_arg p = true -> forallb is_plain_arg ps = true ->
  let st := fold_left split_step (join (L ", ") (p :: ps))
              {| parts := P; buf := b0; q := None; depth := 0 |} in
  (if truthy (buf st) then parts st ++ [strip (buf st)] else parts st)
  = P ++ match ps with
         | [] => if truthy (b0 ++ p) then [strip (b0 ++ p)] else []
         | _ => strip (b0 ++ p) :: ps
         end.
Proof.
  induction ps as [|p2 ps IH]; intros p P b0 Hp Hps; cbv zeta.
  - cbn [join]. rewrite split_run_plain by (apply is_plain_arg_chars; exact Hp).
    cbn [parts buf]. destruct (truthy (b0 ++ p)); [reflexivity|symmetry; apply app_nil_r].
  - cbn [forallb] in Hps. apply andb_true_iff in Hps. destruct Hps as [Hp2 Hps].
    change (join (L ", ") (p :: p2 :: ps)) with (p ++ L ", " ++ join (L ", ") (p2 :: ps)).
    rewrite !fold_left_app.
    rewrite (@split_run_plain p) by (apply is_plain_arg_chars; exact Hp).
    cbn [parts buf q depth]. rewrite split_comma_space.
    specialize (IH p2 (P ++ [strip (b0 ++ p)]) (L " ") Hp2 Hps). cbv zeta in IH.
    rewrite IH. rewrite strip_after_space, (is_plain_arg_strip _ Hp2).
    rewrite <- app_assoc. cbn [app]. destruct ps; reflexivity.
Qed.

(** X3: joining plain arguments with a comma and a space and splitting the
    result gives the arguments back (all but the list that is one empty
    argument, whose text is empty and splits into no argument). *)
Theorem X3_split_of_joined_arguments :
  forall ps : list str,
    forallb is_plain_arg ps = true -> ps <> [[]] ->
    _split_printf_args (join (L ", ") ps) = ps.
Proof.
  intros [|p ps] Hps Hne; [reflexivity|].
  cbn [forallb] in Hps. apply andb_true_iff in Hps. destruct Hps as [Hp Hps].
  unfold _split_printf_args.
  pose proof (@split_join ps p [] [] Hp Hps) as H. cbv zeta in H |- *.
  rewrite H. cbn [app]. rewrite (is_plain_arg_strip _ Hp).
  destruct ps; [|reflexivity]. destruct p; [exfalso; apply Hne; reflexivity|reflexivity].
Qed.

Lemma X3_split_of_joined_arguments_witness :
  _split_printf_args (join (L ", ") [L "x"; L ""; L "a + 1"]) = [L "x"; L ""; L "a + 1"].
Proof.
  apply X3_split_of_joined_arguments; [reflexivity|discriminate].
Defined.

Lemma split_step_in_quote st c :
  q st = Some dq -> ch dq c = false ->
  split_step st c
  = {| parts := parts st; buf := buf st ++ [c]; q := Some dq; depth := depth st |}.
Proof.
  intros Hq Hc. unfold split_step. rewrite Hq, Hc. cbn [orb is_some negb andb].
  rewrite !andb_false_r. destruct (ch sq c); reflexivity.
Qed.

Lemma split_run_in_quote u : forall st,
  q st = Some dq -> forallb (notc dq) u = true ->
  fold_left split_step u st
  = {| parts := parts st; buf := buf st ++ u; q := Some dq; depth := depth st |}.
Proof.
  induction u as [|c u IH]; intros st Hq Hu; cbn [fold_left].
  - rewrite app_nil_r. destruct st; cbn in *; subst; reflexivity.
  - cbn [forallb] in Hu. apply andb_true_iff in Hu. destruct Hu as [Hc Hu].
    unfold notc in Hc. apply negb_true_iff in Hc.
    rewrite split_step_in_quote by assumption. rewrite IH by (reflexivity || exact Hu).
    cbn [parts buf depth]. rewrite <- app_assoc. reflexivity.
Qed.

Lemma split_open_quote P b d :
  split_step {| parts := P; buf := b; q := None; depth := d |} dq
  = {| parts := P; buf := b ++ [dq]; q := Some dq; depth := d |}.
Proof. reflexivity. Qed.

Lemma split_close_quote P b d :
  split_step {| parts := P; buf := b; q := Some dq; depth := d |} dq
  = {| parts := P; buf := b ++ [dq]; q := None; depth := d |}.
Proof. reflexivity. Qed.

Lemma split_quoted body P b d :
  forallb (notc dq) body = true ->
  fold_left split_step ([dq] ++ body ++ [dq])
            {| parts := P; buf := b; q := None; depth := d |}
  = {| parts := P; buf := b ++ [dq] ++ body ++ [dq]; q := None; depth := d |}.
Proof.
  intro Hb. rewrite !fold_left_app. cbn [fold_left app]. rewrite split_open_quote.
  rewrite split_run_in_quote by (reflexivity || exact Hb). cbn [parts buf depth].
  rewrite split_close_quote. rewrite <- !app_assoc. reflexivity.
Qed.

(** X4: between a double quote and the next double quote nothing splits:
    a quoted text, whatever commas, parentheses and single quotes it holds,
    is one argument, and the plain arguments after it are split as usual;
    when the closing quote is missing, all that follows the opening one is
    one argument. *)
Theorem X4_split_keeps_quoted_text :
  forall (body : str) (ps : list str),
    forallb (notc dq) body = true -> forallb is_plain_arg ps = true ->
    _split_printf_args (join (L ", ") (([dq] ++ body ++ [dq]) :: ps))
    = ([dq] ++ body ++ [dq]) :: ps
    /\ _split_printf_args ([dq] ++ body) = [strip ([dq] ++ body)].
Proof.
  intros body ps Hb Hps. split.
  - unfold _split_printf_args. destruct ps as [|p ps].
    + cbn [join]. rewrite split_quoted by exact Hb. cbn [buf parts].
      change ([] ++ [dq] ++ body ++ [dq]) with ([dq] ++ body ++ [dq]).
      rewrite (strip_quoted body). reflexivity.
    + cbn [forallb] in Hps. apply andb_true_iff in Hps. destruct Hps as [Hp Hps].
      change (join (L ", ") (([dq] ++ body ++ [dq]) :: p :: ps))
        with (([dq] ++ body ++ [dq]) ++ L ", " ++ join (L ", ") (p :: ps)).
      rewrite (fold_left_app split_step ([dq] ++ body ++ [dq])).
      rewrite (fold_left_app split_step (L ", ")).
      rewrite split_quoted by exact Hb. rewrite split_comma_space.
      change ([] ++ [dq] ++ body ++ [dq]) with ([dq] ++ body ++ [dq]).
      change ([] ++ [strip ([dq] ++ body ++ [dq])])
        with [strip ([dq] ++ body ++ [dq])].
      pose proof (@split_join ps p [strip ([dq] ++ body ++ [dq])] (L " ") Hp Hps)
        as H.
      cbv zeta in H |- *. rewrite H.
      rewrite (strip_quoted body), strip_after_space, (is_plain_arg_strip _ Hp).
      destruct ps; reflexivity.
  - unfold _split_printf_args. cbn [app fold_left]. rewrite split_open_quote.
    rewrite split_run_in_quote by (reflexivity || exact Hb). reflexivity.
Qed.

Lemma X4_split_keeps_quoted_text_witness :
  _split_printf_args
    (join (L ", ") (([dq] ++ L "a, (b" ++ [dq]) :: [L "x"; L "y"]))
  = ([dq] ++ L "a, (b" ++ [dq]) :: [L "x"; L "y"]
  /\ _split_printf_args ([dq] ++ L "a, (b") = [strip ([dq] ++ L "a, (b")].
Proof.
  apply X4_split_keeps_quoted_text; reflexivity.
Defined.

Lemma split_run_nested u : forall P b d,
  forallb no_quote u = true -> commas_nested d u = true ->
  exists d',
    fold_left split_step u {| parts := P; buf := b; q := None; depth := d |}
    = {| parts := P; buf := b ++ u; q := None; depth := d' |}.
Proof.
  induction u as [|c u IH]; intros P b d Hq Hn.
  - exists d. cbn. rewrite app_nil_r. reflexivity.
  - cbn [forallb] in Hq. apply andb_true_iff in Hq. destruct Hq as [Hc Hq].
    unfold no_quote in Hc. apply negb_true_iff in Hc.
    cbn [commas_nested] in Hn. cbn [fold_left]. unfold split_step at 2.
    cbn [q depth buf parts]. rewrite Hc. cbn [is_some negb].
    rewrite !andb_true_r.
    destruct (ch "(" c) eqn:E1.
    + destruct (IH P (b ++ [c]) (S d) Hq Hn) as [d' ->]. exists d'.
      rewrite <- app_assoc. reflexivity.
    + destruct (ch ")" c) eqn:E2.
      * destruct (0 <? d) eqn:Ed; cbn [andb].
        -- destruct (IH P (b ++ [c]) (d - 1) Hq Hn) as [d' ->]. exists d'.
           rewrite <- app_assoc. reflexivity.
        -- assert (d = 0) by (apply Nat.ltb_ge in Ed; lia). subst d.
           assert (Hc' : ch "," c = false).
           { apply ch_eq in E2. subst c. reflexivity. }
           rewrite Hc'. cbn [andb].
           destruct (IH P (b ++ [c]) 0 Hq Hn) as [d' ->]. exists d'.
           rewrite <- app_assoc. reflexivity.
      * destruct (ch "," c) eqn:E3.
        -- apply andb_true_iff in Hn. destruct Hn as [Hd Hn].
           assert (Hz : (d =? 0) = false) by (apply Nat.eqb_neq; apply Nat.ltb_lt in Hd; lia).
           rewrite Hz. cbn [andb].
           destruct (IH P (b ++ [c]) d Hq Hn) as [d' ->]. exists d'.
           rewrite <- app_assoc. reflexivity.
        -- cbn [andb]. destruct (IH P (b ++ [c]) d Hq Hn) as [d' ->]. exists d'.
           rewrite <- app_assoc. reflexivity.
Qed.

(** X5: a text without quotes whose commas are all inside parentheses is
    one argument: a call with several arguments is not split.  A closing
    parenthesis that closes nothing is kept as an ordinary character. *)
Theorem X5_split_keeps_nested_commas :
  forall t : str,
    forallb no_quote t = true -> commas_nested 0 t = true -> t <> [] ->
    _split_printf_args t = [strip t].
Proof.
  intros t Hq Hn Hne. unfold _split_printf_args.
  destruct (@split_run_nested t [] [] 0 Hq Hn) as [d' ->]. cbn [buf parts app].
  destruct t; [congruence|reflexivity].
Qed.

Lemma X5_split_keeps_nested_commas_witness :
  _split_printf_args (L "f(a, g(b, c)) + h) ") = [strip (L "f(a, g(b, c)) + h) ")].
Proof.
  apply X5_split_keeps_nested_commas; [reflexivity|reflexivity|discriminate].
Defined.

(** ** The direction chosen by the command line *)

Lemma split_ch_aux_last_free c e : forall cur,
  forallb (notc c) e = true -> split_ch_aux c e cur = [rev cur ++ e].
Proof.
  induction e as [|d e IH]; intros cur He; cbn [split_ch_aux].
  - rewrite app_nil_r. reflexivity.
  - cbn [forallb] in He. apply andb_true_iff in He. destruct He as [Hd He].
    unfold notc in Hd. apply negb_true_iff in Hd. rewrite Hd.
    rewrite IH by exact He. cbn [rev]. rewrite <- app_assoc. reflexivity.
Qed.

Lemma split_ch_aux_nonempty c s : forall cur, split_ch_aux c s cur <> [].
Proof.
  induction s as [|d s IH]; intro cur; cbn [split_ch_aux]; [discriminate|].
  destruct (ch c d); [discriminate|apply IH].
Qed.

Lemma last_cons_nonempty {A : Type} (x : A) l d : l <> [] -> last (x :: l) d = last l d.
Proof. destruct l; [congruence|reflexivity]. Qed.

(** the last piece of a text split at [c] is what follows its last [c] *)
Lemma split_ch_last c stem e : forall cur,
  forallb (notc c) e = true ->
  last (split_ch_aux c (stem ++ [c] ++ e) cur) [] = e.
Proof.
  induction stem as [|d stem IH]; intros cur He.
  - cbn [app split_ch_aux]. rewrite ch_refl.
    rewrite last_cons_nonempty by apply split_ch_aux_nonempty.
    rewrite split_ch_aux_last_free by exact He. reflexivity.
  - cbn [app split_ch_aux]. destruct (ch c d).
    + rewrite last_cons_nonempty by apply split_ch_aux_nonempty. apply IH. exact He.
    + apply IH. exact He.
Qed.

Lemma ext_of_suffix stem e :
  forallb (notc ".") e = true -> ext_of (stem ++ L "." ++ e) = lower e.
Proof.
  intro He. unfold ext_of, split_ch. change (L ".") with ["."%char].
  rewrite split_ch_last by exact He. reflexivity.
Qed.

Lemma ext_of_no_dot o : forallb (notc ".") o = true -> ext_of o = lower o.
Proof.
  intro Ho. unfold ext_of, split_ch. rewrite split_ch_aux_last_free by exact Ho.
  reflexivity.
Qed.

(** X6: without the option --to, the part of the output name after its
    last dot decides the direction, whatever the case of its letters: "c"
    gives C, and "cc", "cpp", "cxx", "hpp", "hh", "hxx" give C++, whatever
    the input is; with any other ending the output name plays no part and
    the direction is the one chosen without output name.  An output name
    without any dot is read whole as if it were such an ending.  With the
    option --to, its value is the direction. *)
Theorem X6_output_suffix_decides :
  forall (stem e input : str),
    forallb (notc ".") e = true ->
    let rule (x : str) :=
      if mem (lower x) [L "c"] then L "c"
      else if mem (lower x) cpp_exts then L "cpp"
      else target_of None None input in
    target_of None (Some (stem ++ L "." ++ e)) input = rule e
    /\ (e <> [] -> target_of None (Some e) input = rule e)
    /\ (forall t output, target_of (Some t) output input = t).
Proof.
  intros stem e input He rule. unfold rule. split; [|split].
  - unfold target_of. cbv zeta.
    assert (Ht : truthy (stem ++ L "." ++ e) = true) by (destruct stem; reflexivity).
    rewrite Ht, (@ext_of_suffix stem e He).
    destruct (mem (lower e) [L "c"]); [reflexivity|].
    destruct (mem (lower e) cpp_exts); reflexivity.
  - intro Hn. unfold target_of. cbv zeta.
    assert (Ht : truthy e = true) by (destruct e; [congruence|reflexivity]).
    rewrite Ht, (ext_of_no_dot _ He).
    destruct (mem (lower e) [L "c"]); [reflexivity|].
    destruct (mem (lower e) cpp_exts); reflexivity.
  - intros t output. unfold target_of. destruct output; reflexivity.
Qed.

Lemma X6_output_suffix_decides_witness :
  target_of None (Some (L "build/out.v2" ++ L "." ++ L "CPP")) (L "prog.c") = L "cpp"
  /\ (L "CPP" <> [] -> target_of None (Some (L "CPP")) (L "prog.c") = L "cpp")
  /\ (forall t output, target_of (Some t) output (L "prog.c") = t).
Proof.
  apply (@X6_output_suffix_decides (L "build/out.v2") (L "CPP") (L "prog.c")).
  reflexivity.
Defined.

Lemma last_sep c s :
  existsb (ch c) s = true ->
  exists stem e, s = stem ++ [c] ++ e /\ forallb (notc c) e = true.
Proof.
  induction s as [|d s IH]; [discriminate|]. cbn [existsb]. intro H.
  destruct (existsb (ch c) s) eqn:E.
  - destruct (IH eq_refl) as (stem & e & -> & He). exists (d :: stem), e. auto.
  - rewrite orb_false_r in H. apply ch_eq in H. subst d. exists [], s.
    split; [reflexivity|]. apply forallb_forall. intros x Hx. unfold notc.
    apply negb_true_iff. destruct (ch c x) eqn:Ex; [|reflexivity].
    assert (existsb (ch c) s = true) by (apply existsb_exists; eauto). congruence.
Qed.

Lemma startswith_sep c t : forall a b,
  forallb (notc c) a = true -> forallb (notc c) b = true ->
  startswith (a ++ [c]) (b ++ c :: t) = str_eqb a b.
Proof.
  induction a as [|x a IH]; intros b Ha Hb.
  - destruct b as [|d b]; cbn; [rewrite ch_refl; reflexivity|].
    cbn in Hb. apply andb_true_iff in Hb. destruct Hb as [Hd _].
    unfold notc in Hd. apply negb_true_iff in Hd. rewrite Hd. reflexivity.
  - cbn in Ha. apply andb_true_iff in Ha. destruct Ha as [Hx Ha].
    destruct b as [|d b]; cbn [app startswith str_eqb].
    + unfold notc in Hx. apply negb_true_iff in Hx.
      replace (ch x c) with false; [reflexivity|].
      symmetry. apply ch_neq. apply ch_neq in Hx. congruence.
    + cbn in Hb. apply andb_true_iff in Hb. destruct Hb as [_ Hb].
      rewrite IH by assumption. reflexivity.
Qed.

Lemma str_eqb_sym a : forall b, str_eqb a b = str_eqb b a.
Proof.
  induction a as [|x a IH]; intros [|y b]; cbn; try reflexivity.
  rewrite IH. f_equal. destruct (ch x y) eqn:E.
  - apply ch_eq in E. subst. symmetry. apply ch_refl.
  - symmetry. apply ch_neq. apply ch_neq in E. congruence.
Qed.

Lemma str_eqb_rev_one k e : str_eqb [k] (rev e) = str_eqb [k] e.
Proof.
  destruct e as [|d [|d2 e]]; try reflexivity.
  cbn [rev]. rewrite <- !app_assoc. cbn [app].
  destruct (rev e) as [|z r]; cbn; [rewrite ?andb_false_r; reflexivity|].
  destruct r; cbn; rewrite ?andb_false_r; reflexivity.
Qed.

(** a name ends with a dot and [k] when what follows its last dot is [k] *)
Lemma endswith_ext k stem e :
  notc "." k = true -> forallb (notc ".") e = true ->
  endswith ["."%char; k] (stem ++ ["."%char] ++ e) = str_eqb e [k].
Proof.
  intros Hk He. unfold endswith. rewrite !rev_app_distr. cbn [rev app].
  rewrite <- app_assoc. cbn [app].
  change [k; "."%char] with ([k] ++ ["."%char]).
  rewrite startswith_sep.
  - rewrite str_eqb_rev_one. apply str_eqb_sym.
  - cbn. rewrite Hk. reflexivity.
  - rewrite forallb_forall in *. intros x Hx. apply He. apply in_rev. exact Hx.
Qed.

Lemma endswith_ext_dot k s :
  endswith ["."%char; k] s = true -> existsb (ch ".") s = true.
Proof.
  unfold endswith. cbn [rev app]. intro H.
  destruct (rev s) as [|a [|b r]] eqn:E; cbn in H; try (rewrite ?andb_false_r in H; discriminate).
  apply andb_true_iff in H. destruct H as [_ H]. apply andb_true_iff in H.
  destruct H as [Hb _]. apply ch_eq in Hb. subst b.
  apply existsb_exists. exists "."%char. split; [|apply ch_refl].
  apply in_rev. rewrite E. right. left. reflexivity.
Qed.

Lemma lower_is_c d : ch (lower_char d) "c" = ch d "c" || ch d "C".
Proof.
  pose proof (forall_chars
                (fun d => Bool.eqb (ch (lower_char d) "c") (ch d "c" || ch d "C"))) as H.
  apply Bool.eqb_prop. apply H. vm_compute. reflexivity.
Qed.

Lemma lower_eq_c e : str_eqb (lower e) (L "c") = str_eqb e (L "c") || str_eqb e (L "C").
Proof.
  destruct e as [|d [|d2 e]]; [reflexivity| |].
  - change (lower [d]) with [lower_char d]. cbn [L list_ascii_of_string str_eqb].
    change (L "c") with ["c"%char]. change (L "C") with ["C"%char].
    cbn [str_eqb]. rewrite !andb_true_r. apply lower_is_c.
  - change (L "c") with ["c"%char]. change (L "C") with ["C"%char].
    cbn [lower map str_eqb]. rewrite !andb_false_r. reflexivity.
Qed.

Lemma has_dot_not_stdin s : existsb (ch ".") s = true -> str_eqb s (L "-") = false.
Proof.
  intro H. destruct (str_eqb s (L "-")) eqn:E; [|reflexivity].
  apply str_eqb_eq in E. subst s. discriminate.
Qed.

(** X7: with neither --to nor an output name that decides (none, or an
    empty one), the direction is C to C++ exactly when the input name ends
    with ".c" or ".C"; for every other input name, and for the standard
    input "-", the text is taken as C++ and converted to C. *)
Theorem X7_input_suffix_decides :
  forall input : str,
    target_of None None input
    = (if endswith (L ".c") input || endswith (L ".C") input then L "cpp" else L "c")
    /\ target_of None (Some []) input = target_of None None input
    /\ forall code, main_convert None None (L "-") code = convert_cpp_to_c code.
Proof.
  intro input. split; [|split; reflexivity].
  unfold target_of, in_ext. cbv zeta.
  destruct (existsb (ch ".") input) eqn:Hd.
  - rewrite (has_dot_not_stdin _ Hd).
    destruct (last_sep _ _ Hd) as (stem & e & -> & He).
    change ["."%char] with (L ".") at 1. rewrite (@ext_of_suffix stem e He).
    change (L ".c") with ["."%char; "c"%char]. change (L ".C") with ["."%char; "C"%char].
    rewrite !endswith_ext by (reflexivity || exact He).
    cbn [mem existsb]. rewrite orb_false_r, lower_eq_c. reflexivity.
  - replace (endswith (L ".c") input) with false.
    2:{ symmetry. destruct (endswith (L ".c") input) eqn:E; [|reflexivity].
        apply endswith_ext_dot in E. congruence. }
    replace (endswith (L ".C") input) with false.
    2:{ symmetry. destruct (endswith (L ".C") input) eqn:E; [|reflexivity].
        apply endswith_ext_dot in E. congruence. }
    destruct (str_eqb input (L "-")); reflexivity.
Qed.

(** ** The word substitutions, piece by piece *)

Lemma runs_head s :
  match runs s with
  | [] => s = []
  | t :: _ => exists c u, t = c :: u /\ exists s', s = c :: s'
  end.
Proof.
  destruct s as [|c t]; [reflexivity|]. cbn [runs].
  destruct (runs t) as [|[|d u] rest]; [eauto|eauto|].
  destruct (Bool.eqb (is_word c) (is_word d)); eauto.
Qed.

Lemma runs_concat s : concat (runs s) = s.
Proof.
  induction s as [|c t IH]; [reflexivity|]. cbn [runs].
  pose proof (runs_head t) as Hh.
  destruct (runs t) as [|[|d u] rest] eqn:E.
  - subst t. reflexivity.
  - destruct Hh as (? & ? & ? & _). discriminate.
  - destruct (Bool.eqb (is_word c) (is_word d)); cbn in *; rewrite <- IH; reflexivity.
Qed.

Lemma runs_alternate s :
  match s with
  | [] => True
  | c :: _ => alternate (is_word c) (runs s) = true
  end.
Proof.
  induction s as [|c t IH]; [exact I|]. cbn [runs].
  pose proof (runs_head t) as Hh.
  destruct (runs t) as [|[|d u] rest] eqn:E.
  - cbn. rewrite Bool.eqb_reflx. reflexivity.
  - destruct Hh as (? & ? & ? & _). discriminate.
  - destruct Hh as (d' & u' & Hd & s' & ->). injection Hd as <- <-.
    cbn [alternate] in IH. apply andb_true_iff in IH. destruct IH as [Hr Ha].
    destruct (Bool.eqb (is_word c) (is_word d)) eqn:Ec.
    + apply Bool.eqb_prop in Ec. rewrite Ec. cbn [alternate].
      rewrite Ha, andb_true_r. unfold run_of in *. cbn [truthy forallb andb] in *.
      rewrite Ec, Bool.eqb_reflx. rewrite Bool.eqb_reflx in Hr. exact Hr.
    + cbn [alternate]. unfold run_of at 1. cbn [truthy forallb andb].
      rewrite Bool.eqb_reflx. cbn [andb].
      assert (Hn : negb (is_word c) = is_word d).
      { destruct (is_word c), (is_word d); try reflexivity; discriminate. }
      rewrite Hn, Hr, Ha. reflexivity.
Qed.

Lemma replaced_nonword_run W R t :
  is_rule_word W -> forallb (fun d => Bool.eqb (is_word d) false) t = true ->
  replaced W R t = t.
Proof.
  intros HW. induction t as [|c t IH]; intro Ht; [apply replaced_nil; exact HW|].
  cbn [forallb] in Ht. apply andb_true_iff in Ht. destruct Ht as [Hc Ht].
  apply Bool.eqb_prop in Hc. change (c :: t) with ([c] ++ t).
  rewrite replaced_app;
    [|exact HW|left; unfold ends_nonword; cbn; rewrite Hc; reflexivity].
  rewrite replaced_nonword by assumption. rewrite IH by exact Ht. reflexivity.
Qed.

Lemma after_in_word W R (HWn : L W <> []) (HWw : forallb is_word (L W) = true) t :
  forall p, word_before p = true -> forallb is_word t = true -> after W R p t = t.
Proof.
  induction t as [|c t IH]; intros p Hp Ht; [apply after_nil; assumption|].
  cbn [forallb] in Ht. apply andb_true_iff in Ht. destruct Ht as [Hc Ht].
  rewrite after_skip; try assumption.
  - f_equal. apply IH; assumption.
  - unfold word_at. rewrite Hp. reflexivity.
Qed.

Lemma replaced_word_run W R t :
  is_rule_word W -> run_of true t = true ->
  replaced W R t = swap (L W) (L R) t.
Proof.
  intros HW Ht. unfold run_of in Ht. apply andb_true_iff in Ht. destruct Ht as [Hn Ht].
  assert (Hw : forallb is_word t = true).
  { rewrite forallb_forall in *. intros x Hx. apply Bool.eqb_prop. apply Ht. exact Hx. }
  unfold swap. destruct (str_eqb t (L W)) eqn:E.
  - apply str_eqb_eq in E. subst t. apply replaced_word. exact HW.
  - pose proof (rule_word_nonempty HW) as HWn. pose proof (rule_word_word HW) as HWw.
    change (replaced W R t) with (after W (L R) None t).
    destruct t as [|c t]; [discriminate|].
    cbn [forallb] in Hw. apply andb_true_iff in Hw. destruct Hw as [Hc Hw].
    rewrite after_skip; try assumption.
    + f_equal. apply after_in_word; assumption.
    + unfold word_at, tail_ok. cbn [word_before negb andb].
      destruct (startswith (L W) (c :: t)) eqn:Es; [|reflexivity].
      pose proof (startswith_app_skipn _ _ Es) as Hs.
      destruct (skipn (length (L W)) (c :: t)) as [|d r] eqn:Er.
      * rewrite app_nil_r in Hs. rewrite Hs, str_eqb_refl in E. discriminate.
      * cbn [andb word_after].
        assert (Hd : is_word d = true).
        { assert (Hin : In d (c :: t)) by (rewrite Hs; apply in_or_app; right; left; reflexivity).
          assert (Hall : forallb is_word (c :: t) = true) by (cbn; rewrite Hc, Hw; reflexivity).
          rewrite forallb_forall in Hall. apply Hall. exact Hin. }
        rewrite Hd. reflexivity.
Qed.

Lemma run_of_nonword_ends t : run_of false t = true -> ends_nonword t = true.
Proof.
  unfold run_of, ends_nonword. intro H. apply andb_true_iff in H. destruct H as [_ H].
  destruct (rev t) as [|c r] eqn:E; [reflexivity|].
  rewrite forallb_forall in H. specialize (H c).
  assert (Hin : In c t) by (apply in_rev; rewrite E; left; reflexivity).
  apply H in Hin. apply Bool.eqb_prop in Hin. rewrite Hin. reflexivity.
Qed.

Lemma alternate_starts ts :
  alternate false ts = true -> starts_nonword (concat ts) = true.
Proof.
  destruct ts as [|t rest]; [reflexivity|]. cbn [alternate concat]. intro H.
  apply andb_true_iff in H. destruct H as [H _]. unfold run_of in H.
  apply andb_true_iff in H. destruct H as [Hn H]. destruct t as [|c t]; [discriminate|].
  cbn [forallb] in H. apply andb_true_iff in H. destruct H as [Hc _].
  apply Bool.eqb_prop in Hc. unfold starts_nonword. cbn. rewrite Hc. reflexivity.
Qed.

(** the substitution acts on each piece by itself *)
Lemma replaced_pieces W R ts : forall w,
  is_rule_word W -> alternate w ts = true ->
  replaced W R (concat ts) = concat (map (swap (L W) (L R)) ts).
Proof.
  induction ts as [|t rest IH]; intros w HW Ha; [apply replaced_nil; exact HW|].
  cbn [alternate] in Ha. apply andb_true_iff in Ha. destruct Ha as [Ht Ha].
  cbn [concat map].
  rewrite replaced_app; [|exact HW|].
  - rewrite (IH (negb w) HW Ha). f_equal. destruct w.
    + apply replaced_word_run; assumption.
    + unfold run_of in Ht. apply andb_true_iff in Ht. destruct Ht as [Hn Ht].
      rewrite replaced_nonword_run by assumption.
      unfold swap. destruct (str_eqb t (L W)) eqn:E; [|reflexivity].
      apply str_eqb_eq in E. subst t. pose proof (rule_word_word HW) as HWw.
      pose proof (rule_word_nonempty HW) as HWn.
      destruct (L W) as [|c r]; [congruence|]. cbn in Ht, HWw.
      apply andb_true_iff in Ht. destruct Ht as [Hc _]. apply Bool.eqb_prop in Hc.
      apply andb_true_iff in HWw. destruct HWw as [Hc' _]. congruence.
  - destruct w; [right; apply alternate_starts; exact Ha
                |left; apply run_of_nonword_ends; exact Ht].
Qed.

Lemma replaced_runs W R s :
  is_rule_word W -> replaced W R s = concat (map (swap (L W) (L R)) (runs s)).
Proof.
  intro HW. rewrite <- (runs_concat s) at 1. destruct s as [|c t].
  - apply replaced_nil. exact HW.
  - apply replaced_pieces with (w := is_word c); [exact HW|].
    apply (runs_alternate (c :: t)).
Qed.

(** X8: the substitution of a word acts piece by piece: of the longest
    runs of word characters and of other characters that make up the text,
    the runs equal to the word are replaced and all the others are kept,
    for each of the five words and every text, whatever surrounds the runs
    (quotation marks, comment marks). *)
Theorem X8_word_substitution_by_pieces :
  forall (W R : string) (s : str),
    In W ["NULL"; "nullptr"; "bool"; "true"; "false"]%string ->
    sub_word W R s = Ok (concat (map (swap (L W) (L R)) (runs s)))
    /\ concat (runs s) = s.
Proof.
  intros W R s HW. split; [|apply runs_concat].
  rewrite sub_word_replaced. f_equal. apply replaced_runs. exact HW.
Qed.

Lemma X8_word_substitution_by_pieces_witness :
  sub_word "NULL" "nullptr" (L "p=NULL;/*NULL_*/")
  = Ok (concat (map (swap (L "NULL") (L "nullptr")) (runs (L "p=NULL;/*NULL_*/"))))
  /\ concat (runs (L "p=NULL;/*NULL_*/")) = L "p=NULL;/*NULL_*/".
Proof.
  apply X8_word_substitution_by_pieces. simpl. tauto.
Defined.

(** ** Texts without C syntax: lines and words *)

Lemma forallb_rev_intro (C : ascii -> bool) l : forallb C l = true -> forallb C (rev l) = true.
Proof.
  intro H. rewrite forallb_forall in *. intros x Hx. apply H. apply in_rev. exact Hx.
Qed.

Lemma splitlines_aux_chars (C : ascii -> bool) : forall n s cur,
  length s <= n -> forallb C s = true -> forallb C cur = true ->
  Forall (fun l => forallb C l = true) (splitlines_aux s cur).
Proof.
  induction n as [|n IH]; intros s cur Hn Hs Hc.
  - destruct s; [|cbn in Hn; lia]. cbn. destruct cur; constructor; [|constructor].
    apply forallb_rev_intro. exact Hc.
  - destruct s as [|c t]; cbn [splitlines_aux].
    + destruct cur; constructor; [|constructor]. apply forallb_rev_intro. exact Hc.
    + cbn [forallb] in Hs. apply andb_true_iff in Hs. destruct Hs as [Hc0 Hs].
      cbn [length] in Hn.
      pose proof (forallb_rev_intro C cur Hc) as Hr.
      destruct (ch cr c).
      * destruct t as [|d t'].
        -- constructor; [exact Hr|constructor].
        -- cbn [forallb] in Hs. apply andb_true_iff in Hs. destruct Hs as [Hd Hs].
           cbn [length] in Hn.
           destruct (ch nl d).
           ++ constructor; [exact Hr|]. apply IH; [lia|exact Hs|reflexivity].
           ++ constructor; [exact Hr|].
              apply IH; [cbn; lia|cbn; rewrite Hd, Hs; reflexivity|reflexivity].
      * destruct (is_linebreak c).
        -- constructor; [exact Hr|apply IH; [lia|exact Hs|reflexivity]].
        -- apply IH; [lia|exact Hs|]. cbn. rewrite Hc0, Hc. reflexivity.
Qed.

Lemma splitlines_chars (C : ascii -> bool) s :
  forallb C s = true -> Forall (fun l => forallb C l = true) (splitlines s).
Proof. intro H. apply (@splitlines_aux_chars C (length s)); auto. Qed.

Lemma mapM_same {A : Type} (f : A -> res A) l :
  Forall (fun a => f a = Ok a) l -> mapM f l = Ok l.
Proof.
  induction 1 as [|a l Ha _ IH]; [reflexivity|]. cbn [mapM]. rewrite Ha. cbn [bind].
  rewrite IH. reflexivity.
Qed.

(** [convert_c_to_cpp] on a text without include, call and pointer: the
    lines are joined again with line feeds and the word NULL is replaced *)
Lemma c_to_cpp_words s :
  forallb no_c_syntax s = true ->
  convert_c_to_cpp s = Ok (replaced "NULL" "nullptr" (join [nl] (splitlines s))).
Proof.
  intro Hs.
  assert (Hh : forallb (notc "#") s = true)
    by (eapply forallb_sub_class; [|exact Hs]; vm_compute; reflexivity).
  assert (Hp : forallb (notc "(") s = true)
    by (eapply forallb_sub_class; [|exact Hs]; vm_compute; reflexivity).
  assert (Ha : forallb (notc "*") s = true)
    by (eapply forallb_sub_class; [|exact Hs]; vm_compute; reflexivity).
  unfold convert_c_to_cpp.
  rewrite (@re_search_without _include_stdio s "#"%char); [|reflexivity|exact Hh].
  cbn [bind]. destruct (_infer_decl_types_returns s) as [types ->]. cbn [bind].
  cbv zeta. rewrite (@mapM_same str (convert_line types)).
  2:{ eapply Forall_impl; [|apply (splitlines_chars (notc "(") s Hp)].
      intros l Hl. apply convert_line_plain. exact Hl. }
  cbn [bind]. apply after_lines_words.
  - apply forallb_join; [reflexivity|apply splitlines_chars; exact Ha].
  - apply forallb_join; [reflexivity|apply splitlines_chars; exact Hp].
Qed.

Lemma no_linebreak_not_cr c : no_linebreak c = true -> ch cr c = false.
Proof. apply (@disjoint_ok no_linebreak (ch cr) c). vm_compute. reflexivity. Qed.

Lemma splitlines_aux_run a : forall rest cur,
  forallb no_linebreak a = true ->
  splitlines_aux (a ++ rest) cur = splitlines_aux rest (rev a ++ cur).
Proof.
  induction a as [|c a IH]; intros rest cur Ha; [reflexivity|].
  cbn [forallb] in Ha. apply andb_true_iff in Ha. destruct Ha as [Hc Ha].
  cbn [app splitlines_aux]. rewrite (no_linebreak_not_cr _ Hc).
  unfold no_linebreak in Hc. apply negb_true_iff in Hc. rewrite Hc.
  rewrite IH by exact Ha. cbn [rev]. rewrite <- app_assoc. reflexivity.
Qed.

Lemma splitlines_aux_terminator t b cur :
  is_terminator t = true -> (t = [cr] -> startswith [nl] b = false) ->
  splitlines_aux (t ++ b) cur = rev cur :: splitlines_aux b [].
Proof.
  unfold is_terminator. intros Ht Hb. apply orb_true_iff in Ht. destruct Ht as [Ht|Ht].
  - apply str_eqb_eq in Ht. subst t. reflexivity.
  - destruct t as [|c [|d t]]; try discriminate. cbn [app splitlines_aux].
    destruct (ch cr c) eqn:Ec.
    + apply ch_eq in Ec. subst c. specialize (Hb eq_refl).
      destruct b as [|d b]; [reflexivity|]. cbn [startswith] in Hb.
      rewrite andb_true_r in Hb. rewrite Hb. reflexivity.
    + rewrite Ht. reflexivity.
Qed.

Lemma splitlines_line a t b :
  forallb no_linebreak a = true -> is_terminator t = true ->
  (t = [cr] -> startswith [nl] b = false) ->
  splitlines (a ++ t ++ b) = a :: splitlines b.
Proof.
  intros Ha Ht Hb. unfold splitlines. rewrite splitlines_aux_run by exact Ha.
  rewrite splitlines_aux_terminator by assumption.
  rewrite app_nil_r, rev_involutive. reflexivity.
Qed.

Lemma join_splitlines_one a :
  forallb no_linebreak a = true -> join [nl] (splitlines a) = a.
Proof.
  intro Ha. destruct a as [|c a]; [reflexivity|].
  rewrite splitlines_one by (discriminate || exact Ha). reflexivity.
Qed.

Lemma terminator_no_c_syntax t : is_terminator t = true -> forallb no_c_syntax t = true.
Proof.
  unfold is_terminator. intro Ht. apply orb_true_iff in Ht. destruct Ht as [Ht|Ht].
  - apply str_eqb_eq in Ht. subst t. reflexivity.
  - destruct t as [|c [|d t]]; try discriminate. cbn [forallb]. rewrite andb_true_r.
    apply (@sub_class_ok is_linebreak no_c_syntax c); [vm_compute; reflexivity|exact Ht].
Qed.

Lemma splitlines_aux_nonempty b : forall cur, cur <> [] -> splitlines_aux b cur <> [].
Proof.
  induction b as [|c b IH]; intros cur Hc; cbn [splitlines_aux].
  - destruct cur; [congruence|discriminate].
  - destruct (ch cr c); [destruct b as [|e b]; [discriminate|destruct (ch nl e); discriminate]|].
    destruct (is_linebreak c); [discriminate|]. apply IH. discriminate.
Qed.

(** X9: on a text without "#", "(" and "*" (no include, no call, no
    pointer), [convert_c_to_cpp] returns the lines of the text joined with
    line feeds, in which the pieces equal to NULL are replaced by nullptr
    and every other piece is kept.  Every line boundary of [splitlines]
    (carriage return with line feed, carriage return, line feed, vertical
    tab, form feed, the separators 28 to 30, NEL) thus becomes one line
    feed, and the boundary at the end of the text is dropped. *)
Theorem X9_c_to_cpp_without_c_syntax :
  forall s : str,
    forallb no_c_syntax s = true ->
    convert_c_to_cpp s
    = Ok (concat (map (swap (L "NULL") (L "nullptr")) (runs (join [nl] (splitlines s)))))
    /\ (forall a t b,
          s = a ++ t ++ b -> forallb no_linebreak a = true -> is_terminator t = true ->
          (t = [cr] -> startswith [nl] b = false) ->
          join [nl] (splitlines s)
          = match b with [] => a | _ => a ++ [nl] ++ join [nl] (splitlines b) end).
Proof.
  intros s Hs. split.
  - rewrite c_to_cpp_words by exact Hs. f_equal.
    remember (join [nl] (splitlines s)) as l. rewrite <- (runs_concat l) at 1.
    destruct l as [|c l]; [reflexivity|].
    apply replaced_pieces with (w := is_word c); [rule_word|].
    apply (runs_alternate (c :: l)).
  - intros a t b -> Ha Ht Hb. rewrite splitlines_line by assumption.
    destruct b as [|d b]; [reflexivity|].
    destruct (splitlines (d :: b)) as [|l ls] eqn:E; [|reflexivity].
    exfalso. unfold splitlines in E. cbn [splitlines_aux] in E.
    destruct (ch cr d); [destruct b as [|e b]; [discriminate|destruct (ch nl e); discriminate]|].
    destruct (is_linebreak d); [discriminate|].
    apply (@splitlines_aux_nonempty b [d]); [discriminate|exact E].
Qed.

Lemma X9_c_to_cpp_without_c_syntax_witness :
  convert_c_to_cpp (L "x = NULL;" ++ [cr; nl] ++ L "// NULL" ++ [nl])
  = Ok (L "x = nullptr;" ++ [nl] ++ L "// nullptr").
Proof.
  refine (proj1 (@X9_c_to_cpp_without_c_syntax
                   (L "x = NULL;" ++ [cr; nl] ++ L "// NULL" ++ [nl]) _)).
  reflexivity.
Defined.

(** ** C++ texts without stream statement and allocation *)

Lemma run_of_word_class w t : run_of w t = true -> forallb is_word t = true -> w = true.
Proof.
  unfold run_of. intros H Hw. apply andb_true_iff in H. destruct H as [Hn H].
  destruct t as [|c t]; [discriminate|]. cbn in H, Hw.
  apply andb_true_iff in H. destruct H as [H _]. apply Bool.eqb_prop in H.
  apply andb_true_iff in Hw. destruct Hw as [Hw _]. congruence.
Qed.

Lemma run_of_word R : R <> [] -> forallb is_word R = true -> run_of true R = true.
Proof.
  intros Hn Hw. unfold run_of. destruct R; [congruence|]. cbn [truthy andb].
  rewrite forallb_forall in *. intros x Hx. rewrite (Hw x Hx). reflexivity.
Qed.

Lemma alternate_swap W R ts : forall w,
  forallb is_word W = true -> R <> [] -> forallb is_word R = true ->
  alternate w ts = true -> alternate w (map (swap W R) ts) = true.
Proof.
  induction ts as [|t rest IH]; intros w HW HRn HRw Ha; [reflexivity|].
  cbn [alternate map] in *. apply andb_true_iff in Ha. destruct Ha as [Ht Ha].
  rewrite (IH (negb w)) by assumption. rewrite andb_true_r.
  unfold swap. destruct (str_eqb t W) eqn:E; [|exact Ht].
  apply str_eqb_eq in E. subst t.
  rewrite (run_of_word_class _ _ Ht HW). apply run_of_word; assumption.
Qed.

Lemma surface_c_pieces ts w :
  alternate w ts = true -> surface_c (concat ts) = concat (map c_word ts).
Proof.
  intro Ha. unfold surface_c.
  rewrite (@replaced_pieces "nullptr" "NULL" ts w) by (rule_word || exact Ha).
  rewrite (@replaced_pieces "bool" "int" _ w);
    [|rule_word|apply alternate_swap; [reflexivity|discriminate|reflexivity|exact Ha]].
  rewrite (@replaced_pieces "true" "1" _ w);
    [|rule_word
     |repeat (apply alternate_swap; [reflexivity|discriminate|reflexivity|]); exact Ha].
  rewrite (@replaced_pieces "false" "0" _ w);
    [|rule_word
     |repeat (apply alternate_swap; [reflexivity|discriminate|reflexivity|]); exact Ha].
  rewrite !map_map. reflexivity.
Qed.

Lemma surface_c_runs s : surface_c s = concat (map c_word (runs s)).
Proof.
  rewrite <- (runs_concat s) at 1. destruct s as [|c t]; [reflexivity|].
  apply surface_c_pieces with (w := is_word c). apply (runs_alternate (c :: t)).
Qed.

(** *** Texts that do not hold a given word *)

Lemma has_sub_suffix w u : forall v, has_sub w (u ++ v) = false -> has_sub w v = false.
Proof.
  induction u as [|c u IH]; intros v H; [exact H|]. cbn [app has_sub] in H.
  apply orb_false_iff in H. destruct H as [_ H]. apply IH. exact H.
Qed.

Lemma has_sub_startswith w s : has_sub w s = false -> startswith w s = false.
Proof. destruct s; cbn [has_sub]; intro H; apply orb_false_iff in H; apply H. Qed.

Lemma lit_led_match_absent w R p s :
  startswith w s = false -> match_at (Seq (Lit w) R) p s = None.
Proof.
  intro H. unfold match_at. cbn [matchre]. rewrite lit_match_startswith, H. reflexivity.
Qed.

Lemma lit_led_absent w R s :
  has_sub w s = false -> segments (Seq (Lit w) R) s = ([], s).
Proof.
  intro H. apply quiet_segments.
  - intros u1 c u2 E. apply lit_led_match_absent. rewrite app_nil_r.
    apply has_sub_startswith. apply (has_sub_suffix w u1). rewrite <- E. exact H.
  - apply lit_led_match_absent. destruct w; [destruct s; discriminate|reflexivity].
Qed.

Lemma new_delete_absent t :
  has_sub (L "new") t = false -> has_sub (L "delete") t = false ->
  _convert_new_delete_to_malloc_free t = Ok t.
Proof.
  intros Hn Hd. unfold _convert_new_delete_to_malloc_free.
  rewrite (@re_sub_segments_nil re_new_array) by (apply (@lit_led_absent (L "new")); exact Hn).
  cbn [bind].
  rewrite (@re_sub_segments_nil re_new_scalar) by (apply (@lit_led_absent (L "new")); exact Hn).
  cbn [bind].
  rewrite (@re_sub_segments_nil re_delete_array)
    by (apply (@lit_led_absent (L "delete")); exact Hd).
  cbn [bind].
  rewrite (@re_sub_segments_nil re_delete) by (apply (@lit_led_absent (L "delete")); exact Hd).
  reflexivity.
Qed.

Lemma startswith_word_nonword w v :
  w <> [] -> forallb is_word w = true -> starts_nonword v = true -> startswith w v = false.
Proof.
  intros Hn Hw Hv. destruct w as [|a w]; [congruence|]. destruct v as [|d v]; [reflexivity|].
  cbn [forallb] in Hw. apply andb_true_iff in Hw. destruct Hw as [Ha _].
  unfold starts_nonword, word_after in Hv. cbn [startswith].
  unfold ch. destruct (Ascii.eqb a d) eqn:E; [|reflexivity].
  apply Ascii.eqb_eq in E. subst d. rewrite Ha in Hv. discriminate.
Qed.

Lemma startswith_over_boundary w : forall x v,
  forallb is_word w = true -> x <> [] -> startswith w x = false ->
  ends_nonword x = true \/ starts_nonword v = true ->
  startswith w (x ++ v) = false.
Proof.
  induction w as [|a w IH]; intros x v Hw Hx Hs Hb.
  - destruct x; discriminate.
  - destruct x as [|c x]; [congruence|]. cbn [app startswith] in *.
    unfold ch in *. destruct (Ascii.eqb a c) eqn:E; [|reflexivity].
    apply Ascii.eqb_eq in E. subst c. cbn [andb] in *.
    cbn [forallb] in Hw. apply andb_true_iff in Hw. destruct Hw as [Ha Hw].
    destruct x as [|d x].
    + cbn [app]. destruct w as [|b w]; [discriminate|].
      apply startswith_word_nonword; [discriminate|exact Hw|].
      destruct Hb as [Hb|Hb]; [|exact Hb].
      unfold ends_nonword in Hb. cbn in Hb. rewrite Ha in Hb. discriminate.
    + apply IH; [exact Hw|discriminate|exact Hs|].
      rewrite ends_nonword_cons in Hb by discriminate. exact Hb.
Qed.

Lemma has_sub_over_boundary w u : forall v,
  w <> [] -> forallb is_word w = true ->
  ends_nonword u = true \/ starts_nonword v = true ->
  has_sub w u = false -> has_sub w v = false -> has_sub w (u ++ v) = false.
Proof.
  induction u as [|c u IH]; intros v Hn Hw Hb Hu Hv; [exact Hv|].
  cbn [app has_sub] in *. apply orb_false_iff in Hu. destruct Hu as [Hs Hu].
  apply orb_false_iff. split.
  - apply (@startswith_over_boundary w (c :: u) v); [exact Hw|discriminate|exact Hs|exact Hb].
  - destruct u as [|d u]; [exact Hv|].
    apply IH; try assumption.
    rewrite ends_nonword_cons in Hb by discriminate. exact Hb.
Qed.

Lemma alternate_boundary w t rest :
  run_of w t = true -> alternate (negb w) rest = true ->
  ends_nonword t = true \/ starts_nonword (concat rest) = true.
Proof.
  intros Ht Ha. destruct w.
  - right. apply alternate_starts. exact Ha.
  - left. apply run_of_nonword_ends. exact Ht.
Qed.

Lemma has_sub_pieces w ts : forall b,
  w <> [] -> forallb is_word w = true -> alternate b ts = true ->
  forallb (fun t => negb (has_sub w t)) ts = true -> has_sub w (concat ts) = false.
Proof.
  induction ts as [|t rest IH]; intros b Hn Hw Ha Hf.
  - destruct w; [congruence|reflexivity].
  - cbn [alternate forallb concat] in *.
    apply andb_true_iff in Ha. destruct Ha as [Ht Ha].
    apply andb_true_iff in Hf. destruct Hf as [Hh Hf].
    apply has_sub_over_boundary; try assumption.
    + apply (@alternate_boundary b t rest Ht Ha).
    + apply negb_true_iff. exact Hh.
    + apply (IH (negb b)); assumption.
Qed.

Lemma has_sub_prefix w u : forall v, has_sub w (u ++ v) = false -> has_sub w u = false.
Proof.
  induction u as [|c u IH]; intros v H.
  - destruct w; [destruct v; discriminate|reflexivity].
  - cbn [app has_sub] in *. apply orb_false_iff in H. destruct H as [Hs H].
    apply orb_false_iff. split; [|apply (IH v); exact H].
    destruct (startswith w (c :: u)) eqn:E; [|reflexivity].
    rewrite <- Hs. symmetry.
    apply startswith_app_skipn in E.
    change (c :: u ++ v) with ((c :: u) ++ v). rewrite E, <- app_assoc.
    apply startswith_refl.
Qed.

Lemma has_sub_in_pieces w ts :
  w <> [] -> has_sub w (concat ts) = false ->
  forallb (fun t => negb (has_sub w t)) ts = true.
Proof.
  intro Hn. induction ts as [|t rest IH]; intro H; [reflexivity|].
  cbn [concat forallb] in *. apply andb_true_iff. split.
  - apply negb_true_iff. apply (has_sub_prefix w t (concat rest)). exact H.
  - apply IH. apply (has_sub_suffix w t). exact H.
Qed.

Lemma c_word_cases t :
  c_word t = t \/ In (c_word t) [L "NULL"; L "int"; L "1"; L "0"].
Proof.
  unfold c_word, swap.
  destruct (str_eqb t (L "nullptr")) eqn:E1.
  { right. left. reflexivity. }
  destruct (str_eqb t (L "bool")) eqn:E2.
  { right. right. left. reflexivity. }
  destruct (str_eqb t (L "true")) eqn:E3.
  { right. right. right. left. reflexivity. }
  destruct (str_eqb t (L "false")) eqn:E4.
  { right. right. right. right. left. reflexivity. }
  left. reflexivity.
Qed.

Lemma alternate_c_word ts w : alternate w ts = true -> alternate w (map c_word ts) = true.
Proof.
  intro Ha. unfold c_word.
  rewrite <- (map_map _ (swap (L "false") (L "0"))).
  rewrite <- (map_map _ (swap (L "true") (L "1"))).
  rewrite <- (map_map _ (swap (L "bool") (L "int"))).
  repeat (apply alternate_swap; [reflexivity|discriminate|reflexivity|]). exact Ha.
Qed.

Lemma has_sub_c_words w s :
  w <> [] -> forallb is_word w = true ->
  forallb (fun r => negb (has_sub w r)) [L "NULL"; L "int"; L "1"; L "0"] = true ->
  has_sub w s = false -> has_sub w (concat (map c_word (runs s))) = false.
Proof.
  intros Hn Hw Hr Hs.
  destruct s as [|c t]; [destruct w; [congruence|reflexivity]|].
  apply has_sub_pieces with (b := is_word c); try assumption.
  - apply alternate_c_word. apply (runs_alternate (c :: t)).
  - rewrite <- (runs_concat (c :: t)) in Hs. apply has_sub_in_pieces in Hs; [|exact Hn].
    rewrite forallb_forall in *. intros x Hx. apply in_map_iff in Hx.
    destruct Hx as [y [<- Hy]]. destruct (c_word_cases y) as [->|Hin].
    + apply Hs. exact Hy.
    + apply Hr. exact Hin.
Qed.

(** X10: a C++ text without '#' and ':' that nowhere holds the letters
    [new] or [delete] is converted to C by the four word substitutions
    alone: its pieces nullptr, bool, true and false become NULL, int, 1
    and 0, and every other piece, line break and blank is kept. *)
Theorem X10_cpp_to_c_is_word_by_word :
  forall s : str,
    plain_cpp s = true ->
    has_sub (L "new") s = false -> has_sub (L "delete") s = false ->
    convert_cpp_to_c s = Ok (concat (map c_word (runs s))).
Proof.
  intros s Hp Hn Hd. rewrite cpp_to_c_surface by exact Hp.
  rewrite surface_c_runs. apply new_delete_absent.
  - apply has_sub_c_words; [discriminate|reflexivity|reflexivity|exact Hn].
  - apply has_sub_c_words; [discriminate|reflexivity|reflexivity|exact Hd].
Qed.

Lemma X10_cpp_to_c_is_word_by_word_witness :
  convert_cpp_to_c (L "bool ok = true;" ++ [nl] ++ L "int *p = nullptr; /* falsely */")
  = Ok (L "int ok = 1;" ++ [nl] ++ L "int *p = NULL; /* falsely */").
Proof.
  refine (@X10_cpp_to_c_is_word_by_word _ _ _ _); reflexivity.
Defined.

(** ** From C to C++ and back *)

Lemma has_sub_empty w : w <> [] -> has_sub w [] = false.
Proof. destruct w; [congruence|reflexivity]. Qed.

Lemma has_sub_self w : has_sub w w = true.
Proof.
  destruct w as [|c w]; [reflexivity|]. cbn [has_sub].
  rewrite <- (app_nil_r (c :: w)) at 2. rewrite startswith_refl. reflexivity.
Qed.

Lemma splitlines_aux_has_sub w : forall n s cur,
  length s <= n -> has_sub w (rev cur ++ s) = false ->
  Forall (fun l => has_sub w l = false) (splitlines_aux s cur).
Proof.
  induction n as [|n IH]; intros s cur Hn H.
  - destruct s; [|cbn in Hn; lia]. cbn. rewrite app_nil_r in H.
    destruct cur; constructor; [exact H|constructor].
  - pose proof (has_sub_prefix w (rev cur) s H) as Hr.
    destruct s as [|c t]; cbn [splitlines_aux].
    + destruct cur; constructor; [exact Hr|constructor].
    + cbn [length] in Hn.
      pose proof (has_sub_suffix w (rev cur ++ [c]) t) as Ht.
      rewrite <- app_assoc in Ht. specialize (Ht H).
      destruct (ch cr c).
      * destruct t as [|d t'].
        -- constructor; [exact Hr|constructor].
        -- cbn [length] in Hn. destruct (ch nl d).
           ++ constructor; [exact Hr|]. apply IH; [lia|].
              apply (has_sub_suffix w [d]). exact Ht.
           ++ constructor; [exact Hr|]. apply IH; [cbn; lia|exact Ht].
      * destruct (is_linebreak c).
        -- constructor; [exact Hr|apply IH; [lia|exact Ht]].
        -- apply IH; [lia|]. cbn [rev]. rewrite <- app_assoc. exact H.
Qed.

Lemma has_sub_join_lines w ls :
  w <> [] -> forallb is_word w = true ->
  Forall (fun l => has_sub w l = false) ls -> has_sub w (join [nl] ls) = false.
Proof.
  intros Hn Hw. induction 1 as [|a rest Ha Hrest IH]; [apply has_sub_empty; exact Hn|].
  destruct rest as [|b rest]; [exact Ha|].
  change (join [nl] (a :: b :: rest)) with (a ++ [nl] ++ join [nl] (b :: rest)).
  apply has_sub_over_boundary; [exact Hn|exact Hw|right; reflexivity|exact Ha|].
  apply has_sub_over_boundary; [exact Hn|exact Hw|left; reflexivity| |exact IH].
  change (has_sub w [nl]) with (startswith w [nl] || has_sub w []).
  rewrite (has_sub_empty Hn), orb_false_r.
  apply startswith_word_nonword; [exact Hn|exact Hw|reflexivity].
Qed.

Lemma has_sub_lines w s :
  w <> [] -> forallb is_word w = true ->
  has_sub w s = false -> has_sub w (join [nl] (splitlines s)) = false.
Proof.
  intros Hn Hw H. apply has_sub_join_lines; [exact Hn|exact Hw|].
  apply (@splitlines_aux_has_sub w (length s)); [lia|exact H].
Qed.

Lemma forallb_swap_pieces (C : ascii -> bool) W R ts :
  forallb C R = true -> forallb C (concat ts) = true ->
  forallb C (concat (map (swap W R) ts)) = true.
Proof.
  intro HR. induction ts as [|t rest IH]; intro H; [reflexivity|].
  cbn [concat map] in *. rewrite forallb_app in *. apply andb_true_iff in H.
  destruct H as [Ht Hrest]. rewrite (IH Hrest), andb_true_r.
  unfold swap. destruct (str_eqb t W); assumption.
Qed.

Lemma c_word_back t :
  forallb (fun w => negb (has_sub w t)) [L "nullptr"; L "bool"; L "true"; L "false"] = true ->
  c_word (swap (L "NULL") (L "nullptr") t) = t.
Proof.
  intro H. unfold swap at 1. destruct (str_eqb t (L "NULL")) eqn:E.
  - apply str_eqb_eq in E. subst t. reflexivity.
  - rewrite forallb_forall in H.
    assert (Hne : forall w, In w [L "nullptr"; L "bool"; L "true"; L "false"] ->
                            str_eqb t w = false).
    { intros w Hin. destruct (str_eqb t w) eqn:Ew; [|reflexivity].
      apply str_eqb_eq in Ew. subst w. apply H in Hin.
      rewrite has_sub_self in Hin. discriminate. }
    unfold c_word, swap.
    rewrite (Hne (L "nullptr")) by (simpl; tauto).
    rewrite (Hne (L "bool")) by (simpl; tauto).
    rewrite (Hne (L "true")) by (simpl; tauto).
    rewrite (Hne (L "false")) by (simpl; tauto). reflexivity.
Qed.

(** X11: a C text without '#', '(', '*' and ':' that nowhere holds the
    letters of new, delete, nullptr, bool, true or false comes back from
    C to C++ and back to C unchanged but for its line ends: the lines are
    joined with line feeds, and NULL, nullptr in between, is NULL again. *)
Theorem X11_c_round_trip_restores_text :
  forall s : str,
    forallb no_c_syntax s = true -> forallb (notc ":") s = true ->
    forallb (fun w => negb (has_sub w s)) cpp_marks = true ->
    c_round_trip s = Ok (join [nl] (splitlines s)).
Proof.
  intros s Hs Hc Hm. unfold c_round_trip. rewrite c_to_cpp_words by exact Hs. cbn [bind].
  set (l := join [nl] (splitlines s)).
  assert (Hl : forall w, In w cpp_marks -> has_sub w l = false).
  { intros w Hin. apply has_sub_lines.
    - unfold cpp_marks in Hin. cbn [In] in Hin.
      repeat (destruct Hin as [<-|Hin]; [discriminate|]). destruct Hin.
    - unfold cpp_marks in Hin. cbn [In] in Hin.
      repeat (destruct Hin as [<-|Hin]; [reflexivity|]). destruct Hin.
    - rewrite forallb_forall in Hm. apply negb_true_iff. apply Hm. exact Hin. }
  assert (Hh : forallb (notc "#") s = true)
    by (eapply forallb_sub_class; [|exact Hs]; vm_compute; reflexivity).
  assert (Hpl : plain_cpp l = true).
  { unfold plain_cpp, l. apply forallb_join; [reflexivity|].
    eapply Forall_impl; [|apply (Forall_and (splitlines_chars (notc "#") s Hh)
                                            (splitlines_chars (notc ":") s Hc))].
    cbv beta. intros a [H1 H2]. rewrite forallb_forall in *. intros x Hx.
    rewrite (H1 x Hx), (H2 x Hx). reflexivity. }
  rewrite replaced_runs by rule_word.
  rewrite cpp_to_c_surface
    by (apply forallb_swap_pieces; [reflexivity|rewrite runs_concat; exact Hpl]).
  assert (Hback : map c_word (map (swap (L "NULL") (L "nullptr")) (runs l)) = runs l).
  { rewrite map_map. rewrite <- (map_id (runs l)) at 2. apply map_ext_in.
    intros t Ht. apply c_word_back. rewrite forallb_forall. intros w Hw.
    assert (Hin : In w cpp_marks) by (unfold cpp_marks; simpl in *; tauto).
    assert (Hd : w <> []) by (cbn [In] in Hw; repeat (destruct Hw as [<-|Hw]; [discriminate|]);
                              destruct Hw).
    pose proof (Hl w Hin) as Hwl. rewrite <- (runs_concat l) in Hwl.
    apply has_sub_in_pieces in Hwl; [|exact Hd].
    rewrite forallb_forall in Hwl. apply Hwl. exact Ht. }
  destruct l as [|c t] eqn:El.
  - cbn. reflexivity.
  - rewrite (@surface_c_pieces _ (is_word c))
      by (apply alternate_swap; [reflexivity|discriminate|reflexivity
                                |apply (runs_alternate (c :: t))]).
    rewrite Hback, runs_concat. apply new_delete_absent.
    + apply Hl. unfold cpp_marks. simpl. tauto.
    + apply Hl. unfold cpp_marks. simpl. tauto.
Qed.

Lemma X11_c_round_trip_restores_text_witness :
  c_round_trip (L "p = NULL;" ++ [cr; nl] ++ L "return NULL == p;" ++ [nl])
  = Ok (L "p = NULL;" ++ [nl] ++ L "return NULL == p;").
Proof.
  refine (@X11_c_round_trip_restores_text _ _ _ _); reflexivity.
Defined.

(** ** The declaration index *)

Lemma lstrip_by_app f g : forall y,
  forallb f g = true -> lstrip_by f (g ++ y) = lstrip_by f y.
Proof.
  induction g as [|c g IH]; intros y H; [reflexivity|].
  cbn [forallb] in H. apply andb_true_iff in H. destruct H as [Hc H].
  cbn [app lstrip_by]. rewrite Hc. apply IH. exact H.
Qed.

Lemma lstrip_by_stops f y : stops f y = true -> lstrip_by f y = y.
Proof.
  destruct y as [|c y]; [reflexivity|]. cbn [stops lstrip_by]. intro H.
  apply negb_true_iff in H. rewrite H. reflexivity.
Qed.

Lemma star_run_length gaps : length gaps <= length (star_run gaps).
Proof.
  induction gaps as [|g gaps IH]; [apply le_n|].
  cbn [star_run flat_map length]. fold (star_run gaps). rewrite length_app. cbn [length]. lia.
Qed.

(** the loop over the stars of a declarator ends with their number, when it
    is given more rounds than there are stars *)
Lemma strip_stars_run rest : forall gaps fuel k,
  Forall (fun g => forallb is_space g = true) gaps ->
  startswith (L "*") rest = false -> stops is_space rest = true ->
  length gaps < fuel ->
  strip_stars fuel k (star_run gaps ++ rest) = Ok (k + length gaps, rest).
Proof.
  intros gaps fuel k Hg Hs Hb. revert fuel k.
  induction Hg as [|g gaps Hsp _ IH]; intros fuel k Hf.
  - destruct fuel; [cbn in Hf; lia|]. cbn [star_run flat_map app strip_stars].
    rewrite Hs, Nat.add_0_r. reflexivity.
  - destruct fuel; [cbn in Hf; lia|]. cbn [length] in Hf.
    cbn [star_run flat_map]. fold (star_run gaps).
    change (("*"%char :: g) ++ star_run gaps) with ("*"%char :: (g ++ star_run gaps)).
    cbn [app strip_stars]. change (L "*") with ["*"%char]. cbn [startswith].
    rewrite ch_refl. cbn [andb tl]. rewrite <- app_assoc. unfold lstrip.
    rewrite lstrip_by_app by exact Hsp.
    rewrite lstrip_by_stops.
    + rewrite IH by lia. cbn [length]. f_equal. f_equal. lia.
    + destruct gaps as [|g' gaps']; [exact Hb|reflexivity].
Qed.

Lemma re_name_match x rest :
  is_identifier x = true -> stops ident_char rest = true ->
  re_match re_name (x ++ rest) = Some {| m0 := x; mgroups := setg 1 x [] |}.
Proof.
  intros Hx Hr. unfold re_match, re_name.
  destruct x as [|c t]; [discriminate|]. cbn [is_identifier] in Hx.
  apply andb_true_iff in Hx. destruct Hx as [Hc Ht].
  rewrite (@match_at_takes (Grp 1 ident) None (c :: t) rest (setg 1 (c :: t) [])).
  - reflexivity.
  - apply takes_Grp. apply takes_ident; assumption.
Qed.

Lemma re_name_no_match q :
  match q with [] => True | c :: _ => ident_start c = false end ->
  re_match re_name q = None.
Proof.
  intro H. destruct q as [|c q]; [reflexivity|].
  unfold re_match, match_at, re_name, ident. cbn [matchre]. rewrite H. reflexivity.
Qed.

Lemma ident_start_not_star c : ident_start c = true -> ch "*" c = false.
Proof. apply (@disjoint_ok ident_start (ch "*") c). vm_compute. reflexivity. Qed.

Lemma ident_start_not_space c : ident_start c = true -> is_space c = false.
Proof. apply (@disjoint_ok ident_start is_space c). vm_compute. reflexivity. Qed.

(** the two outcomes of [decl_part] *)
Lemma decl_part_named typedefs t types gaps x rest :
  Forall (fun g => forallb is_space g = true) gaps ->
  is_identifier x = true -> stops ident_char rest = true ->
  decl_part typedefs t types (star_run gaps ++ x ++ rest)
  = Ok (dict_set x (decl_type typedefs t (length gaps)) types).
Proof.
  intros Hg Hx Hr. unfold decl_part.
  destruct x as [|c u] eqn:Ex; [discriminate|]. rewrite <- Ex in *.
  assert (Hc : ident_start c = true).
  { rewrite Ex in Hx. cbn [is_identifier] in Hx. apply andb_true_iff in Hx. apply Hx. }
  rewrite strip_stars_run.
  - cbn [bind]. rewrite re_name_match by assumption. unfold grp, group. cbn [mgroups].
    rewrite getg_setg_same. reflexivity.
  - exact Hg.
  - rewrite Ex. change (L "*") with ["*"%char]. cbn [app startswith].
    rewrite (ident_start_not_star _ Hc). reflexivity.
  - rewrite Ex. cbn [app stops]. rewrite (ident_start_not_space _ Hc). reflexivity.
  - pose proof (star_run_length gaps). rewrite length_app. unfold str in *. lia.
Qed.

Lemma decl_part_unnamed typedefs t types gaps rest :
  Forall (fun g => forallb is_space g = true) gaps -> no_name rest = true ->
  decl_part typedefs t types (star_run gaps ++ rest) = Ok types.
Proof.
  intros Hg Hn. unfold decl_part. rewrite strip_stars_run.
  - cbn [bind]. rewrite re_name_no_match; [reflexivity|].
    destruct rest as [|c r]; [exact I|]. cbn [no_name] in Hn.
    apply andb_true_iff in Hn. destruct Hn as [_ Hn]. apply negb_true_iff. exact Hn.
  - exact Hg.
  - destruct rest as [|c r]; [reflexivity|]. cbn [no_name] in Hn.
    apply andb_true_iff in Hn. destruct Hn as [Hn _].
    apply andb_true_iff in Hn. destruct Hn as [Hn _].
    change (L "*") with ["*"%char]. cbn [startswith]. unfold notc in Hn.
    apply negb_true_iff in Hn. rewrite Hn. reflexivity.
  - destruct rest as [|c r]; [reflexivity|]. cbn [no_name] in Hn.
    apply andb_true_iff in Hn. destruct Hn as [Hn _].
    apply andb_true_iff in Hn. destruct Hn as [_ Hn]. exact Hn.
  - pose proof (star_run_length gaps). rewrite length_app. unfold str in *. lia.
Qed.

(** X12: in a declaration of type [t], a declarator made of k stars, each
    followed by any blanks, and a name records for the name the type
    [typedefs.get(t, t)] followed by k stars, whatever follows the name (an
    initialiser, an array bound); the loop over the stars ends within its
    bound.  A declarator whose text after the stars cannot begin a name
    (a parenthesis, a digit, nothing) records nothing. *)
Theorem X12_declarator_stars_and_name :
  forall (typedefs : dict str) (t : str) (types : dict str) (gaps : list str)
         (x rest : str),
    forallb (forallb is_space) gaps = true ->
    (is_identifier x = true -> stops ident_char rest = true ->
     decl_part typedefs t types (star_run gaps ++ x ++ rest)
     = Ok (dict_set x (decl_type typedefs t (length gaps)) types))
    /\ (no_name rest = true ->
        decl_part typedefs t types (star_run gaps ++ rest) = Ok types).
Proof.
  intros typedefs t types gaps x rest Hg.
  assert (Hg' : Forall (fun g => forallb is_space g = true) gaps)
    by (apply Forall_forall; apply forallb_forall; exact Hg).
  split.
  - intros Hx Hr. apply decl_part_named; assumption.
  - intro Hn. apply decl_part_unnamed; assumption.
Qed.

Lemma X12_declarator_stars_and_name_witness :
  decl_part [(L "Node", L "struct Node")] (L "Node") [] (L "* *next = 0")
  = Ok [(L "next", L "struct Node**")]
  /\ decl_part [(L "Node", L "struct Node")] (L "Node") [] (L "*(*cmp)(int)") = Ok [].
Proof.
  split.
  - refine (proj1 (@X12_declarator_stars_and_name [(L "Node", L "struct Node")] (L "Node") []
                     [L " "; []] (L "next") (L " = 0") _) _ _).
    + reflexivity.
    + reflexivity.
    + reflexivity.
  - refine (proj2 (@X12_declarator_stars_and_name [(L "Node", L "struct Node")] (L "Node") []
                     [[]] [] (L "(*cmp)(int)") _) _).
    + reflexivity.
    + reflexivity.
Defined.

Lemma split_ch_aux_run c u : forall rest cur,
  forallb (notc c) u = true ->
  split_ch_aux c (u ++ rest) cur = split_ch_aux c rest (rev u ++ cur).
Proof.
  induction u as [|d u IH]; intros rest cur Hu; [reflexivity|].
  cbn [forallb] in Hu. apply andb_true_iff in Hu. destruct Hu as [Hd Hu].
  unfold notc in Hd. apply negb_true_iff in Hd.
  cbn [app split_ch_aux]. rewrite Hd, IH by exact Hu. cbn [rev].
  rewrite <- app_assoc. reflexivity.
Qed.

Lemma split_ch_aux_join ps : forall p cur,
  Forall (fun q => forallb (notc ",") q = true) (p :: ps) ->
  split_ch_aux "," (join (L ", ") (p :: ps)) cur
  = (rev cur ++ p) :: map (fun q => L " " ++ q) ps.
Proof.
  induction ps as [|q ps IH]; intros p cur H.
  - cbn [join map]. apply split_ch_aux_last_free. inversion H; assumption.
  - inversion H as [|? ? Hp Hrest]; subst.
    change (join (L ", ") (p :: q :: ps)) with (p ++ L ", " ++ join (L ", ") (q :: ps)).
    rewrite split_ch_aux_run by exact Hp.
    change (L ", " ++ join (L ", ") (q :: ps))
      with (","%char :: " "%char :: join (L ", ") (q :: ps)).
    cbn [split_ch_aux]. rewrite ch_refl.
    replace (ch "," " ") with false by reflexivity.
    rewrite IH by exact Hrest. rewrite rev_app_distr, rev_involutive. reflexivity.
Qed.

Lemma repeat_star_run k : repeat "*"%char k = star_run (repeat [] k).
Proof. induction k as [|k IH]; [reflexivity|]. cbn. rewrite IH. reflexivity. Qed.

Lemma forallb_repeat (C : ascii -> bool) c k : C c = true -> forallb C (repeat c k) = true.
Proof. intro H. induction k as [|k IH]; [reflexivity|]. cbn. rewrite H, IH. reflexivity. Qed.

Lemma declarator_chars (C : ascii -> bool) d :
  C "*"%char = true -> sub_class ident_char C = true ->
  is_identifier (snd d) = true -> forallb C (declarator d) = true.
Proof.
  intros Hs HC Hx. unfold declarator. rewrite forallb_app, forallb_repeat by exact Hs.
  eapply forallb_sub_class; [exact HC|]. apply is_identifier_chars. exact Hx.
Qed.

Lemma declarators_chars (C : ascii -> bool) ds :
  C "*"%char = true -> sub_class ident_char C = true ->
  forallb (fun d => is_identifier (snd d)) ds = true ->
  Forall (fun q => forallb C q = true) (map declarator ds).
Proof.
  intros Hs HC Hds. apply Forall_map. apply Forall_forall. intros d Hd.
  apply declarator_chars; [exact Hs|exact HC|].
  rewrite forallb_forall in Hds. apply Hds. exact Hd.
Qed.

Lemma declarator_nonempty d : is_identifier (snd d) = true -> declarator d <> [].
Proof.
  intro Hx. unfold declarator. destruct (snd d) as [|c x]; [discriminate|].
  intro E. apply app_eq_nil in E. destruct E as [_ E]. discriminate.
Qed.

Lemma strip_declarator d :
  is_identifier (snd d) = true -> strip (declarator d) = declarator d.
Proof.
  intro Hx. apply strip_by_word; [apply declarator_nonempty; exact Hx|].
  apply (@declarator_chars (fun c => negb (is_space c))); [reflexivity| |exact Hx].
  vm_compute. reflexivity.
Qed.

Lemma declarators_split ds :
  ds <> [] -> forallb (fun d => is_identifier (snd d)) ds = true ->
  map strip (split_ch "," (join (L ", ") (map declarator ds))) = map declarator ds.
Proof.
  intros Hn Hds. destruct ds as [|d ds]; [congruence|]. unfold split_ch.
  cbn [map]. rewrite split_ch_aux_join.
  - cbn [forallb] in Hds. apply andb_true_iff in Hds. destruct Hds as [Hd Hds].
    cbn [rev app map]. rewrite strip_declarator by exact Hd. f_equal.
    rewrite !map_map. apply map_ext_in. intros e He.
    rewrite strip_after_space. apply strip_declarator.
    rewrite forallb_forall in Hds. apply Hds. exact He.
  - apply (@declarators_chars (notc ",") (d :: ds)); [reflexivity| |exact Hds].
    vm_compute. reflexivity.
Qed.

Lemma declarators_fold T ds : forall types,
  forallb (fun d => is_identifier (snd d)) ds = true ->
  foldM (decl_part [] T) (map declarator ds) types = Ok (declared T ds types).
Proof.
  induction ds as [|d ds IH]; intros types Hds; [reflexivity|].
  cbn [forallb] in Hds. apply andb_true_iff in Hds. destruct Hds as [Hd Hds].
  cbn [map foldM]. unfold declarator at 1. rewrite repeat_star_run.
  rewrite <- (app_nil_r (snd d)) at 1.
  rewrite decl_part_named; [|apply Forall_forall; intros g Hg;
                              apply repeat_spec in Hg; subst g; reflexivity
                            |exact Hd|reflexivity].
  cbn [bind]. rewrite IH by exact Hds. unfold declared, decl_type. cbn [fold_left dict_get].
  rewrite repeat_length. reflexivity.
Qed.

Lemma join_declarators_chars (C : ascii -> bool) ds :
  sub_class declarator_char C = true ->
  forallb (fun d => is_identifier (snd d)) ds = true ->
  forallb C (join (L ", ") (map declarator ds)) = true.
Proof.
  intros HC Hds. eapply forallb_sub_class; [exact HC|].
  apply forallb_join; [reflexivity|].
  apply declarators_chars; [reflexivity|vm_compute; reflexivity|exact Hds].
Qed.

Lemma join_head_nonempty sep (p : str) ps c t :
  p = c :: t -> exists r, join sep (p :: ps) = c :: r.
Proof.
  intros ->. destruct ps as [|q ps]; [exists t; reflexivity|].
  exists (t ++ sep ++ join sep (q :: ps)). reflexivity.
Qed.

(** the declaration pattern on a declaration that is the whole text *)
Lemma decl_re_takes T body :
  In T c_types -> body <> [] -> stops is_space body = true ->
  forallb (notc ";") body = true ->
  takes decl_re None (T ++ L " " ++ body ++ L ";") [] [] (setg 2 body (setg 1 T [])).
Proof.
  intros HT Hn Hs Hb. destruct body as [|b body]; [congruence|].
  cbn [forallb] in Hb. apply andb_true_iff in Hb. destruct Hb as [Hb0 Hb].
  change (T ++ L " " ++ (b :: body) ++ L ";")
    with ([] ++ T ++ (" "%char :: []) ++ (b :: body) ++ L ";" ++ []).
  unfold decl_re.
  apply takes_seq_cons with (g1 := []); [apply takes_Bol; reflexivity|].
  eapply takes_seq_cons.
  { apply takes_Grp. rewrite <- (app_nil_r T), <- (app_nil_l (T ++ [])).
    apply takes_seq_cons with (g1 := []).
    - apply takes_Alt_r; [|apply takes_Eps].
      intro k. unfold c_types in HT. cbn [In] in HT.
      repeat (destruct HT as [<-|HT]; [reflexivity|]). destruct HT.
    - apply takes_seq_cons with (g1 := []); [|apply takes_seq_nil].
      assert (Hid : is_identifier T = true /\ forallb is_word T = true).
      { unfold c_types in HT. cbn [In] in HT.
        repeat (destruct HT as [<-|HT]; [split; reflexivity|]). destruct HT. }
      destruct Hid as [Hid Hw]. destruct T as [|c t]; [discriminate|].
      cbn [is_identifier] in Hid. apply andb_true_iff in Hid. destruct Hid as [Hc _].
      cbn [forallb] in Hw. apply andb_true_iff in Hw. destruct Hw as [_ Hw].
      change (c :: t) with ([c] ++ t). unfold identw.
      apply takes_Seq with (g1 := []);
        [apply takes_Cls; exact Hc|apply takes_Star; [exact Hw|reflexivity]]. }
  eapply takes_seq_cons.
  { apply takes_Plus; [reflexivity|reflexivity|exact Hs]. }
  eapply takes_seq_cons.
  { apply takes_Grp. apply takes_Plus; [exact Hb0|exact Hb|reflexivity]. }
  eapply takes_seq_cons; [apply takes_Lit|].
  apply takes_seq_nil.
Qed.

Lemma finditer_absent w R s :
  has_sub w s = false -> re_finditer (Seq (Lit w) R) s = [].
Proof. intro H. unfold re_finditer. rewrite lit_led_absent by exact H. reflexivity. Qed.

Lemma collect_typedefs_absent code :
  has_sub (L "typedef") code = false -> _collect_typedefs code = Ok [].
Proof.
  intro H. unfold _collect_typedefs.
  unfold re_typedef_struct, re_typedef_struct_body, re_typedef_base, lit.
  cbn [pat fold_right]. rewrite !finditer_absent by exact H. reflexivity.
Qed.

Lemma finditer_without r s c :
  must c r = true -> forallb (notc c) s = true -> re_finditer r s = [].
Proof.
  intros Hm Hs. unfold re_finditer. rewrite (@segments_without r s c Hm Hs). reflexivity.
Qed.

Lemma c_types_chars (C : ascii -> bool) T :
  sub_class ident_char C = true -> In T c_types -> forallb C T = true.
Proof.
  intros HC HT. eapply forallb_sub_class; [exact HC|].
  unfold c_types in HT. cbn [In] in HT.
  repeat (destruct HT as [<-|HT]; [reflexivity|]). destruct HT.
Qed.

Lemma declaration_chars (C : ascii -> bool) T ds :
  sub_class declarator_char C = true -> C ";"%char = true ->
  In T c_types -> forallb (fun d => is_identifier (snd d)) ds = true ->
  forallb C (declaration T ds) = true.
Proof.
  intros HC Hsc HT Hds. unfold declaration. rewrite !forallb_app.
  rewrite (@c_types_chars C T); [| |exact HT].
  - rewrite (@join_declarators_chars C ds HC Hds).
    change (L " ") with [" "%char]. change (L ";") with [";"%char]. cbn [forallb].
    rewrite Hsc. rewrite (@sub_class_ok declarator_char C " "%char HC eq_refl). reflexivity.
  - unfold sub_class in *. rewrite forallb_forall in *. intros c Hc.
    specialize (HC c Hc). unfold declarator_char in HC.
    destruct (ident_char c); [exact HC|reflexivity].
Qed.

(** X13: a text that is one declaration "T d1, d2, ...;" of a primitive
    type T, each declarator being stars and a name, is indexed name by
    name: every name gets the type T followed by its stars, a name declared
    twice keeps its first place and takes its last type. *)
Theorem X13_declaration_indexed :
  forall (T : str) (ds : list (nat * str)),
    In T c_types -> ds <> [] ->
    forallb (fun d => is_identifier (snd d)) ds = true ->
    has_sub (L "typedef") (declaration T ds) = false ->
    _infer_decl_types (declaration T ds) = Ok (declared T ds []).
Proof.
  intros T ds HT Hn Hds Htd. unfold _infer_decl_types.
  rewrite collect_typedefs_absent by exact Htd. cbn [bind]. cbv zeta.
  unfold re_findall1.
  rewrite (@finditer_without re_struct_def (declaration T ds) "{"%char);
    [|reflexivity|apply declaration_chars; [vm_compute; reflexivity|reflexivity
                                           |exact HT|exact Hds]].
  cbn [map app].
  set (body := join (L ", ") (map declarator ds)).
  assert (Hbody : exists b r, body = b :: r /\ declarator_char b = true
                              /\ is_space b = false).
  { destruct ds as [|d ds']; [congruence|]. cbn [forallb] in Hds.
    apply andb_true_iff in Hds. destruct Hds as [Hd _].
    pose proof (@declarator_chars declarator_char d eq_refl eq_refl Hd) as Hc.
    pose proof (@declarator_chars (fun c => negb (is_space c)) d eq_refl eq_refl Hd) as Hs.
    pose proof (@declarator_nonempty d Hd) as Hne.
    destruct (declarator d) as [|b r] eqn:E; [congruence|].
    destruct (@join_head_nonempty (L ", ") (b :: r) (map declarator ds') b r eq_refl)
      as [r' Hr'].
    exists b, r'. unfold body. cbn [map]. rewrite E. split; [exact Hr'|].
    cbn [forallb] in Hc, Hs. apply andb_true_iff in Hc. apply andb_true_iff in Hs.
    split; [apply Hc|apply negb_true_iff; apply Hs]. }
  destruct Hbody as (b & r & Eb & Hb & Hsp).
  assert (Hsc : forallb (notc ";") body = true)
    by (apply join_declarators_chars; [vm_compute; reflexivity|exact Hds]).
  assert (Hm : re_finditer decl_re (declaration T ds)
               = [{| m0 := declaration T ds; mgroups := setg 2 body (setg 1 T []) |}]).
  { unfold re_finditer. rewrite (@segments_all decl_re (declaration T ds)
      {| m0 := declaration T ds; mgroups := setg 2 body (setg 1 T []) |}).
    - reflexivity.
    - unfold declaration. destruct T; [|discriminate].
      unfold c_types in HT. cbn [In] in HT.
      repeat (destruct HT as [HT|HT]; [discriminate|]). destruct HT.
    - unfold declaration. fold body.
      pose proof (@match_at_takes decl_re None (T ++ L " " ++ body ++ L ";") []
                    (setg 2 body (setg 1 T []))) as Hk.
      rewrite app_nil_r in Hk. apply Hk.
      apply decl_re_takes; [exact HT|rewrite Eb; discriminate
                           |rewrite Eb; cbn [stops]; rewrite Hsp; reflexivity|exact Hsc].
    - reflexivity.
    - nomatch_end. }
  rewrite Hm. cbn [foldM bind]. unfold grp, group. cbn [mgroups].
  rewrite getg_setg_other by discriminate. rewrite getg_setg_same. cbn [bind].
  assert (Hmem : mem T c_types = true).
  { unfold c_types in *. cbn [In] in HT.
    repeat (destruct HT as [<-|HT]; [reflexivity|]). destruct HT. }
  unfold c_types in Hmem. rewrite Hmem. cbn [negb andb].
  rewrite getg_setg_same. cbn [bind]. fold body.
  unfold body. rewrite declarators_split by assumption.
  rewrite declarators_fold by exact Hds. reflexivity.
Qed.

Lemma X13_declaration_indexed_witness :
  _infer_decl_types (L "char **argv, c, *s;")
  = Ok [(L "argv", L "char**"); (L "c", L "char"); (L "s", L "char*")].
Proof.
  refine (@X13_declaration_indexed (L "char") [(2, L "argv"); (0, L "c"); (1, L "s")]
            _ _ _ _).
  - simpl. tauto.
  - discriminate.
  - reflexivity.
  - reflexivity.
Defined.

(** *** Declarations that do not begin a line *)

Lemma not_ident_start_not_s c : ident_start c = false -> ch "s" c = false.
Proof.
  intro H. destruct (ch "s" c) eqn:E; [|reflexivity].
  apply ch_eq in E. subst c. discriminate.
Qed.

Lemma decl_re_needs_name p c t :
  at_bol true p && ident_start c = false -> match_at decl_re p (c :: t) = None.
Proof.
  intro H. unfold match_at, decl_re, opt_struct, Opt, identw, lit.
  cbn [pat fold_right matchre]. destruct (at_bol true p); [|reflexivity].
  cbn [andb] in H. change (L "struct") with ("s"%char :: L "truct").
  cbn [lit_match]. rewrite (not_ident_start_not_s _ H), H. reflexivity.
Qed.

Lemma no_decl_start_at u1 : forall p c u2,
  no_decl_start p (u1 ++ c :: u2) = true ->
  at_bol true (lastp p u1) && ident_start c = false.
Proof.
  induction u1 as [|d u1 IH]; intros p c u2 H.
  - cbn [app no_decl_start] in H. apply andb_true_iff in H. destruct H as [H _].
    apply negb_true_iff in H. exact H.
  - cbn [app no_decl_start] in H. apply andb_true_iff in H. destruct H as [_ H].
    rewrite lastp_cons. apply (IH (Some d) c u2). exact H.
Qed.

(** X14: a text in which no line begins with a character that can begin
    a name (every declaration is indented, say) is given the empty
    index: the declaration pattern is tried at the beginning of a line
    only, and allows no blank before the type. *)
Theorem X14_indented_declarations_not_indexed :
  forall code : str,
    no_decl_start None code = true -> _infer_decl_types code = Ok [].
Proof.
  intros code H. unfold _infer_decl_types.
  destruct (_collect_typedefs_returns code) as [typedefs ->]. cbn [bind]. cbv zeta.
  assert (Hm : re_finditer decl_re code = []).
  { unfold re_finditer. rewrite quiet_segments; [reflexivity| |nomatch_end].
    intros u1 c u2 E. rewrite app_nil_r. apply decl_re_needs_name.
    apply (@no_decl_start_at u1 None c u2). rewrite <- E. exact H. }
  rewrite Hm. reflexivity.
Qed.

Lemma X14_indented_declarations_not_indexed_witness :
  _infer_decl_types (L "{" ++ [nl] ++ L "  double x;" ++ [nl] ++ L "  int *p;" ++ [nl]
                       ++ L "}") = Ok [].
Proof.
  refine (@X14_indented_declarations_not_indexed _ _). reflexivity.
Defined.

(** ** Allocation and release *)

(** a region followed by a blank: a literal, then a run of blanks, then a
    pattern stuck on the region, on blanks and on what follows the blank *)
Lemma lit_gap_led_quiet (C : ascii -> bool) w f R s d u v p :
  forallb C w = true -> C s = false -> forallb C u = true ->
  f s = true -> f d = false ->
  stuck_on (fun c => C c || f c || ch d c) R = true ->
  quiet (Seq (Lit w) (Seq (Star true f) R)) p u (s :: d :: v).
Proof.
  intros Hw Hs Hu Hfs Hfd HR u1 c u2 E. unfold match_at. simpl.
  destruct (lit_match w (c :: u2 ++ s :: d :: v) (lastp p u1)) as [[p' s']|] eqn:El;
    [|reflexivity].
  apply lit_match_app in El. subst u. apply forallb_app_inv in Hu.
  destruct Hu as [_ Hu].
  change (c :: u2 ++ s :: d :: v) with ((c :: u2) ++ s :: d :: v) in El.
  destruct (app_split_class C w _ _ _ _ Hw Hu Hs El) as (u3 & E3 & ->).
  rewrite E3 in Hu. apply forallb_app_inv in Hu. destruct Hu as [_ Hu3].
  destruct (star_greedy f (matchre R k_end) p' (u3 ++ s :: d :: v) []) as [y|] eqn:Es;
    [|reflexivity].
  exfalso.
  apply (@star_greedy_taken f y f) in Es; [|apply forallb_forall; intros a _;
    destruct (f a); reflexivity].
  destruct Es as (p2 & t & s2 & g2 & Et & Ht & Hk).
  assert (Hu4 : forallb (fun c => C c || f c) (u3 ++ [s]) = true).
  { rewrite forallb_app. cbn [forallb]. rewrite Hfs, orb_true_r, !andb_true_r.
    rewrite forallb_forall in *. intros a Ha. rewrite (Hu3 a Ha). reflexivity. }
  assert (Et' : (u3 ++ [s]) ++ d :: v = t ++ s2) by (rewrite <- app_assoc; exact Et).
  destruct (@run_stops (fun c => C c || f c) f d v Hfd (u3 ++ [s]) t s2 Hu4 Et' Ht)
    as (e & s3 & -> & He).
  rewrite matchre_stuck in Hk; [discriminate|].
  eapply stuck_on_ok; [exact HR|]. cbv beta.
  destruct He as [He| ->]; [rewrite He; reflexivity|rewrite ch_refl; apply orb_true_r].
Qed.

(** a region of a known class, followed by a blank or not *)
Ltac region_gap :=
  cbv [L list_ascii_of_string]; cbn [app];
  match goal with
  | H : forallb ?C ?u = true |- quiet _ _ ?u _ =>
      apply (@lit_gap_led_quiet C);
        [reflexivity | reflexivity | exact H | reflexivity | reflexivity
        | vm_compute; reflexivity]
  end.

Ltac quiet_gap_go :=
  lazymatch goal with
  | |- quiet _ _ (_ ++ _) _ => apply quiet_app; [quiet_gap_go | quiet_gap_go]
  | |- quiet _ _ (L _) _ => quiet_concrete
  | |- quiet _ _ (_ :: _) _ => apply quiet_cons; [nomatch_here | quiet_gap_go]
  | |- quiet _ _ [] _ => apply quiet_nil
  | |- _ => first [region | region_gap]
  end.

Ltac no_segments_gap :=
  cbn [app]; repeat (rewrite <- app_assoc || rewrite <- app_comm_cons);
  apply quiet_segments; [quiet_gap_go | nomatch_end].

Lemma re_sub_st_one {S : Type} r (repl : mobj -> S -> res (str * S)) pre u v m t st st' :
  segments r (pre ++ u ++ v) = ([(pre, m)], v) -> repl m st = Ok (t, st') ->
  re_sub_st r repl (pre ++ u ++ v) st = Ok (pre ++ t ++ v, st').
Proof.
  intros H Hr. unfold re_sub_st. rewrite H. cbn [foldM fst snd bind]. rewrite Hr.
  cbn [bind app]. rewrite <- app_assoc. reflexivity.
Qed.

(** the optional "struct" before a type name that no blank follows *)
Lemma struct_ws1_fails T d v k p g :
  forallb ident_char T = true -> is_space d = false -> ident_char d = false ->
  matchre (pat [lit "struct"; ws1]) k p (T ++ d :: v) g = None.
Proof.
  intros HT Hs Hd. unfold lit, ws1, Plus. cbn [pat fold_right matchre].
  destruct (lit_match (L "struct") (T ++ d :: v) p) as [[p' s']|] eqn:El; [|reflexivity].
  apply lit_match_app in El.
  destruct (app_split_class ident_char (L "struct") T d v s' eq_refl HT Hd El)
    as (u3 & E3 & ->).
  rewrite E3 in HT. apply forallb_app_inv in HT. destruct HT as [_ Hu3].
  destruct u3 as [|e u3]; cbn [app].
  - rewrite Hs. reflexivity.
  - cbn [forallb] in Hu3. apply andb_true_iff in Hu3. destruct Hu3 as [He _].
    rewrite (@disjoint_ok ident_char is_space e); [reflexivity|vm_compute; reflexivity|exact He].
Qed.

Lemma takes_opt_struct T d v p g :
  forallb ident_char T = true -> is_space d = false -> ident_char d = false ->
  takes opt_struct p [] (T ++ d :: v) g g.
Proof.
  intros HT Hs Hd. unfold opt_struct, Opt. apply takes_Alt_r; [|apply takes_Eps].
  intro k. apply struct_ws1_fails; assumption.
Qed.

(** the cast "(T*)" *)
Lemma cast_takes n T p v g :
  is_identifier T = true ->
  takes (cast n) p (L "(" ++ T ++ L "*)") v g (setg n T g).
Proof.
  intro HT. pose proof (@is_identifier_chars T HT) as HTc.
  destruct T as [|c T]; [discriminate|].
  cbn [is_identifier] in HT. apply andb_true_iff in HT. destruct HT as [Hc HT].
  change (L "(" ++ (c :: T) ++ L "*)")
    with (L "(" ++ [] ++ [] ++ (c :: T) ++ [] ++ L "*" ++ [] ++ L ")" ++ []).
  unfold cast.
  eapply takes_seq_cons; [apply takes_Lit|].
  eapply takes_seq_cons.
  { apply takes_Star; [reflexivity|].
    apply (stops_cons ident_start); [vm_compute; reflexivity|exact Hc]. }
  eapply takes_seq_cons.
  { rewrite <- !app_assoc.
    apply (@takes_opt_struct (c :: T) "*"%char (L ")" ++ v));
      [exact HTc|reflexivity|reflexivity]. }
  eapply takes_seq_cons.
  { apply takes_Grp. apply takes_ident; [exact Hc|exact HT|reflexivity]. }
  eapply takes_seq_cons; [apply takes_Star; reflexivity|].
  eapply takes_seq_cons; [apply takes_Lit|].
  eapply takes_seq_cons; [apply takes_Star; reflexivity|].
  eapply takes_seq_cons; [apply takes_Lit|].
  apply takes_seq_nil.
Qed.

Lemma malloc_array_takes p T n pos v :
  is_identifier p = true -> is_identifier T = true -> is_number_or_name n = true ->
  takes re_malloc_array pos (malloc_array_stmt p T n) v []
        (setg 3 n (setg 2 T (setg 1 p []))).
Proof.
  intros Hp HT Hn.
  pose proof (@is_identifier_chars T HT) as HTc.
  pose proof (@is_name_chars n Hn) as Hnc.
  destruct p as [|a p]; [discriminate|].
  cbn [is_identifier] in Hp. apply andb_true_iff in Hp. destruct Hp as [Ha Hp].
  assert (HT0 : exists c T', T = c :: T' /\ ident_start c = true).
  { destruct T as [|c T']; [discriminate|]. exists c, T'. split; [reflexivity|].
    cbn [is_identifier] in HT. apply andb_true_iff in HT. apply HT. }
  destruct HT0 as (c & T' & ET & Hc).
  destruct n as [|b n]; [discriminate|].
  cbn [forallb] in Hnc. apply andb_true_iff in Hnc. destruct Hnc as [Hb Hnc].
  unfold malloc_array_stmt.
  retext ((a :: p) ++ L " = (" ++ T ++ L "*)malloc(sizeof(" ++ T ++ L ") * " ++ (b :: n)
            ++ L ");")
         ((a :: p) ++ [" "%char] ++ L "=" ++ [" "%char] ++ (L "(" ++ T ++ L "*)") ++ []
            ++ L "malloc" ++ [] ++ L "(" ++ [] ++ L "sizeof(" ++ [] ++ [] ++ T ++ []
            ++ L ")" ++ [" "%char] ++ L "*" ++ [" "%char] ++ (b :: n) ++ L ")" ++ []
            ++ L ";" ++ []).
  unfold re_malloc_array.
  eapply takes_seq_cons.
  { apply takes_Grp. apply takes_ident; [exact Ha|exact Hp|reflexivity]. }
  eapply takes_seq_cons; [apply takes_Star; reflexivity|].
  eapply takes_seq_cons; [apply takes_Lit|].
  eapply takes_seq_cons; [apply takes_Star; reflexivity|].
  eapply takes_seq_cons; [apply cast_takes; exact HT|].
  eapply takes_seq_cons; [apply takes_Star; reflexivity|].
  eapply takes_seq_cons; [apply takes_Lit|].
  eapply takes_seq_cons; [apply takes_Star; reflexivity|].
  eapply takes_seq_cons; [apply takes_Lit|].
  eapply takes_seq_cons; [apply takes_Star; reflexivity|].
  eapply takes_seq_cons; [apply takes_Lit|].
  eapply takes_seq_cons.
  { apply takes_Star; [reflexivity|]. rewrite ET.
    apply (stops_cons ident_start); [vm_compute; reflexivity|exact Hc]. }
  eapply takes_seq_cons.
  { rewrite <- !app_assoc.
    apply (@takes_opt_struct T ")"%char); [exact HTc|reflexivity|reflexivity]. }
  eapply takes_seq_cons; [apply takes_Ref; apply getg_setg_same|].
  eapply takes_seq_cons; [apply takes_Star; reflexivity|].
  eapply takes_seq_cons; [apply takes_Lit|].
  eapply takes_seq_cons; [apply takes_Star; reflexivity|].
  eapply takes_seq_cons; [apply takes_Lit|].
  eapply takes_seq_cons.
  { apply takes_Star; [reflexivity|].
    apply (stops_cons ident_char); [vm_compute; reflexivity|exact Hb]. }
  eapply takes_seq_cons.
  { apply takes_Grp. apply takes_Plus; [|eapply forallb_sub_class; [|exact Hnc]|reflexivity].
    - apply (sub_class_ok ident_char (notc ")")); [vm_compute; reflexivity|exact Hb].
    - vm_compute; reflexivity. }
  eapply takes_seq_cons; [apply takes_Lit|].
  eapply takes_seq_cons; [apply takes_Star; reflexivity|].
  eapply takes_seq_cons; [apply takes_Lit|].
  apply takes_seq_nil.
Qed.

Lemma free_takes q pos v :
  is_identifier q = true ->
  takes re_free pos (free_stmt q) v [] (setg 1 q []).
Proof.
  intro Hq. destruct q as [|c q]; [discriminate|].
  cbn [is_identifier] in Hq. apply andb_true_iff in Hq. destruct Hq as [Hc Hq].
  unfold free_stmt.
  retext (L "free(" ++ (c :: q) ++ L ");")
         (L "free" ++ [] ++ L "(" ++ [] ++ (c :: q) ++ [] ++ L ")" ++ [] ++ L ";" ++ []).
  unfold re_free.
  eapply takes_seq_cons; [apply takes_Lit|].
  eapply takes_seq_cons; [apply takes_Star; reflexivity|].
  eapply takes_seq_cons; [apply takes_Lit|].
  eapply takes_seq_cons.
  { apply takes_Star; [reflexivity|].
    apply (stops_cons ident_start); [vm_compute; reflexivity|exact Hc]. }
  eapply takes_seq_cons.
  { apply takes_Grp. apply takes_ident; [exact Hc|exact Hq|reflexivity]. }
  eapply takes_seq_cons; [apply takes_Star; reflexivity|].
  eapply takes_seq_cons; [apply takes_Lit|].
  eapply takes_seq_cons; [apply takes_Star; reflexivity|].
  eapply takes_seq_cons; [apply takes_Lit|].
  apply takes_seq_nil.
Qed.

Lemma array_allocation_release types p T n q mid :
  is_identifier p = true -> is_identifier T = true ->
  is_number_or_name n = true -> is_identifier q = true ->
  forallb is_space mid = true ->
  _convert_malloc_free_to_new_delete (malloc_array_stmt p T n ++ mid ++ free_stmt q) types
  = Ok (new_array_stmt p T n ++ mid ++ delete_stmt (str_eqb q p) q).
Proof.
  intros Hp HT Hn Hq Hmid.
  pose proof (@is_identifier_chars p Hp) as Hpc.
  pose proof (@is_identifier_chars T HT) as HTc.
  pose proof (@is_name_chars n Hn) as Hnc.
  pose proof (@is_identifier_chars q Hq) as Hqc.
  unfold _convert_malloc_free_to_new_delete. cbv zeta.
  assert (Hre : re_findall1 re_realloc (malloc_array_stmt p T n ++ mid ++ free_stmt q) = []).
  { unfold re_findall1, re_finditer.
    replace (segments re_realloc (malloc_array_stmt p T n ++ mid ++ free_stmt q))
      with (@nil (str * mobj), malloc_array_stmt p T n ++ mid ++ free_stmt q);
      [reflexivity|].
    symmetry. unfold malloc_array_stmt, free_stmt, re_realloc. no_segments_gap. }
  rewrite Hre.
  change (malloc_array_stmt p T n ++ mid ++ free_stmt q)
    with ([] ++ malloc_array_stmt p T n ++ (mid ++ free_stmt q)).
  erewrite re_sub_st_one;
    [ | apply segments_one;
        [ unfold malloc_array_stmt; destruct p; discriminate
        | apply quiet_nil
        | apply malloc_array_takes; assumption
        | apply quiet_lacks with (c := "="%char); [reflexivity|];
          apply forallb_not_In with (C := notc "="); [|reflexivity];
          unfold free_stmt; fb
        | nomatch_end ]
      | unfold repl_array, grp, group; cbn [mgroups];
        rewrite getg_setg_other by discriminate;
        rewrite getg_setg_other by discriminate;
        rewrite getg_setg_same; cbn [bind];
        rewrite getg_setg_other by discriminate;
        rewrite getg_setg_same; cbn [bind];
        rewrite getg_setg_same; cbn [bind mem existsb]; reflexivity ].
  cbn [bind app dict_set].
  fold (new_array_stmt p T n).
  assert (Hstar : forallb (notc "*") (new_array_stmt p T n ++ mid ++ free_stmt q) = true)
    by (unfold new_array_stmt, free_stmt; fb).
  do 6 (rewrite re_sub_st_segments_nil;
        [cbn [bind]|eapply segments_without with (c := "*"%char); [reflexivity|exact Hstar]]).
  rewrite app_assoc.
  rewrite <- (app_nil_r (free_stmt q)).
  assert (Hdel : repl_free {| m0 := free_stmt q; mgroups := setg 1 q [] |} [(p, array)]
                 = Ok (delete_stmt (str_eqb q p) q, [(p, array)])).
  { unfold repl_free, grp, group. cbn [mgroups]. rewrite getg_setg_same.
    cbn [bind dict_get]. unfold delete_stmt. destruct (str_eqb q p); reflexivity. }
  erewrite re_sub_st_one;
    [ | apply segments_one;
        [ discriminate
        | unfold new_array_stmt, free_stmt, re_free;
          repeat (rewrite <- app_assoc || rewrite <- app_comm_cons); quiet_gap_go
        | apply free_takes; exact Hq
        | apply quiet_nil
        | nomatch_end ]
      | exact Hdel ].
  cbn [bind]. rewrite app_nil_r, <- app_assoc. reflexivity.
Qed.

Lemma convert_line_quiet types l :
  segments re_printf_stmt l = ([], l) -> segments re_scanf_stmt l = ([], l) ->
  convert_line types l = Ok l.
Proof.
  intros H1 H2. unfold convert_line. rewrite re_sub_segments_nil by exact H1.
  cbn [bind]. apply re_sub_segments_nil. exact H2.
Qed.

(** X15: an array allocation and a release.  In the allocation pass, with
    whatever blanks between the two statements, "p = (T*)malloc(sizeof(T) * n);"
    becomes "p = new T[n];", and "free(q);" becomes "delete[] q;" when q is
    the allocated name p and "delete q;" when it is any other name.
    [convert_c_to_cpp] returns the same for the two statements on two
    lines, whatever line boundary separates them, with a line feed between
    them. *)
Theorem X15_array_allocation_pairs_with_release :
  forall (p T n q : str),
    is_identifier p = true -> is_identifier T = true ->
    is_number_or_name n = true -> is_identifier q = true ->
    (forall types mid,
       forallb is_space mid = true ->
       _convert_malloc_free_to_new_delete
         (malloc_array_stmt p T n ++ mid ++ free_stmt q) types
       = Ok (new_array_stmt p T n ++ mid ++ delete_stmt (str_eqb q p) q))
    /\ (forall t,
          is_terminator t = true ->
          p <> L "NULL" -> T <> L "NULL" -> n <> L "NULL" -> q <> L "NULL" ->
          convert_c_to_cpp (malloc_array_stmt p T n ++ t ++ free_stmt q)
          = Ok (new_array_stmt p T n ++ [nl] ++ delete_stmt (str_eqb q p) q)).
Proof.
  intros p T n q Hp HT Hn Hq. split.
  { intros types mid Hmid. apply array_allocation_release; assumption. }
  intros t Ht Hpn HTn Hnn Hqn.
  pose proof (@is_identifier_chars p Hp) as Hpc.
  pose proof (@is_identifier_chars T HT) as HTc.
  pose proof (@is_name_chars n Hn) as Hnc.
  pose proof (@is_identifier_chars q Hq) as Hqc.
  assert (Htc : forallb is_linebreak t = true).
  { unfold is_terminator in Ht. apply orb_true_iff in Ht. destruct Ht as [Ht|Ht].
    - apply str_eqb_eq in Ht. subst t. reflexivity.
    - destruct t as [|c [|d t]]; try discriminate. cbn [forallb]. rewrite Ht. reflexivity. }
  unfold convert_c_to_cpp.
  rewrite (@re_search_without _include_stdio _ "#"%char);
    [|reflexivity|unfold malloc_array_stmt, free_stmt; fb].
  cbn [bind].
  destruct (_infer_decl_types_returns (malloc_array_stmt p T n ++ t ++ free_stmt q))
    as [types ->].
  cbn [bind]. cbv zeta.
  rewrite splitlines_line;
    [|unfold malloc_array_stmt; fb|exact Ht|intros _; reflexivity].
  rewrite splitlines_one; [|discriminate|unfold free_stmt; fb].
  cbn [mapM].
  rewrite convert_line_quiet;
    [|unfold malloc_array_stmt, re_printf_stmt; no_segments_gap
     |unfold malloc_array_stmt, re_scanf_stmt; no_segments_gap].
  cbn [bind].
  rewrite convert_line_quiet;
    [|unfold free_stmt, re_printf_stmt; no_segments
     |unfold free_stmt, re_scanf_stmt; no_segments].
  cbn [bind join].
  rewrite array_allocation_release by (assumption || reflexivity).
  cbn [bind].
  assert (Hstar : forallb (notc "*")
                    (new_array_stmt p T n ++ [nl] ++ delete_stmt (str_eqb q p) q) = true)
    by (unfold new_array_stmt, delete_stmt; destruct (str_eqb q p); fb).
  rewrite re_sub_segments_nil
    by (eapply segments_without with (c := "*"%char); [reflexivity|exact Hstar]).
  cbn [bind]. unfold sub_word. apply re_sub_segments_nil.
  unfold new_array_stmt, delete_stmt, re_word. destruct (str_eqb q p); no_segments.
Qed.

Lemma X15_array_allocation_pairs_with_release_witness :
  _convert_malloc_free_to_new_delete
    (L "buf = (char*)malloc(sizeof(char) * len);" ++ L "  " ++ L "free(buf);") []
  = Ok (L "buf = new char[len];" ++ L "  " ++ L "delete[] buf;")
  /\ convert_c_to_cpp
       (L "buf = (char*)malloc(sizeof(char) * len);" ++ [cr; nl] ++ L "free(tmp);")
     = Ok (L "buf = new char[len];" ++ [nl] ++ L "delete tmp;").
Proof.
  pose proof (@X15_array_allocation_pairs_with_release (L "buf") (L "char") (L "len")
                (L "buf") eq_refl eq_refl eq_refl eq_refl) as H1.
  pose proof (@X15_array_allocation_pairs_with_release (L "buf") (L "char") (L "len")
                (L "tmp") eq_refl eq_refl eq_refl eq_refl) as H2.
  split.
  - apply (proj1 H1 [] (L "  ")). reflexivity.
  - apply (proj2 H2 [cr; nl]); [reflexivity|discriminate|discriminate|discriminate
                                |discriminate].
Defined.

(** the allocation pass on a text without a star: only the releases change *)
Lemma release_without_star types pre q :
  forallb (notc "*") pre = true -> is_identifier q = true ->
  segments re_realloc (pre ++ free_stmt q) = ([], pre ++ free_stmt q) ->
  quiet re_free None pre (free_stmt q ++ []) ->
  _convert_malloc_free_to_new_delete (pre ++ free_stmt q) types
  = Ok (pre ++ delete_stmt false q).
Proof.
  intros Hpre Hq Hre Hquiet.
  pose proof (@is_identifier_chars q Hq) as Hqc.
  unfold _convert_malloc_free_to_new_delete. cbv zeta.
  assert (Hstar : forallb (notc "*") (pre ++ free_stmt q) = true)
    by (unfold free_stmt; fb).
  do 7 (rewrite re_sub_st_segments_nil;
        [cbn [bind]|eapply segments_without with (c := "*"%char); [reflexivity|exact Hstar]]).
  rewrite <- (app_nil_r (free_stmt q)).
  erewrite re_sub_st_one;
    [ | apply segments_one;
        [ discriminate | exact Hquiet | apply free_takes; exact Hq | apply quiet_nil
        | nomatch_end ]
      | unfold repl_free, grp, group; cbn [mgroups];
        rewrite getg_setg_same; cbn [bind dict_get]; reflexivity ].
  cbn [bind]. rewrite app_nil_r. reflexivity.
Qed.

(** X16: an allocation written without cast, "p = malloc(n);", is kept as
    it is, while the release on the next line, "free(q);", becomes
    "delete q;": the output releases with delete what malloc allocated. *)
Theorem X16_plain_malloc_kept_release_rewritten :
  forall (p n q t : str),
    is_identifier p = true -> is_number_or_name n = true -> is_identifier q = true ->
    is_terminator t = true ->
    p <> L "NULL" -> n <> L "NULL" -> q <> L "NULL" ->
    convert_c_to_cpp (malloc_plain_stmt p n ++ t ++ free_stmt q)
    = Ok (malloc_plain_stmt p n ++ [nl] ++ delete_stmt false q).
Proof.
  intros p n q t Hp Hn Hq Ht Hpn Hnn Hqn.
  pose proof (@is_identifier_chars p Hp) as Hpc.
  pose proof (@is_name_chars n Hn) as Hnc.
  pose proof (@is_identifier_chars q Hq) as Hqc.
  assert (Htc : forallb is_linebreak t = true).
  { unfold is_terminator in Ht. apply orb_true_iff in Ht. destruct Ht as [Ht|Ht].
    - apply str_eqb_eq in Ht. subst t. reflexivity.
    - destruct t as [|c [|d t]]; try discriminate. cbn [forallb]. rewrite Ht. reflexivity. }
  unfold convert_c_to_cpp.
  rewrite (@re_search_without _include_stdio _ "#"%char);
    [|reflexivity|unfold malloc_plain_stmt, free_stmt; fb].
  cbn [bind].
  destruct (_infer_decl_types_returns (malloc_plain_stmt p n ++ t ++ free_stmt q))
    as [types ->].
  cbn [bind]. cbv zeta.
  rewrite splitlines_line;
    [|unfold malloc_plain_stmt; fb|exact Ht|intros _; reflexivity].
  rewrite splitlines_one; [|discriminate|unfold free_stmt; fb].
  cbn [mapM].
  rewrite convert_line_quiet;
    [|unfold malloc_plain_stmt, re_printf_stmt; no_segments_gap
     |unfold malloc_plain_stmt, re_scanf_stmt; no_segments_gap].
  cbn [bind].
  rewrite convert_line_quiet;
    [|unfold free_stmt, re_printf_stmt; no_segments
     |unfold free_stmt, re_scanf_stmt; no_segments].
  cbn [bind join]. rewrite app_assoc.
  rewrite release_without_star;
    [ | unfold malloc_plain_stmt; fb | exact Hq
      | unfold malloc_plain_stmt, free_stmt, re_realloc; no_segments_gap
      | unfold malloc_plain_stmt, free_stmt, re_free;
        repeat (rewrite <- app_assoc || rewrite <- app_comm_cons); quiet_gap_go ].
  cbn [bind]. rewrite <- app_assoc.
  rewrite re_sub_segments_nil
    by (eapply segments_without with (c := "*"%char); [reflexivity|];
        unfold malloc_plain_stmt, delete_stmt; fb).
  cbn [bind]. unfold sub_word. apply re_sub_segments_nil.
  unfold malloc_plain_stmt, delete_stmt, re_word. no_segments.
Qed.

Lemma X16_plain_malloc_kept_release_rewritten_witness :
  convert_c_to_cpp (L "buf = malloc(len);" ++ [nl] ++ L "free(buf);")
  = Ok (L "buf = malloc(len);" ++ [nl] ++ L "delete buf;").
Proof.
  refine (@X16_plain_malloc_kept_release_rewritten (L "buf") (L "len") (L "buf") [nl]
            _ _ _ _ _ _ _); (reflexivity || discriminate).
Defined.

(** ** Include lines *)

(** a greedy run that gives back its last character *)
Lemma star_greedy_back c (K : cont) u d v g x : forall p,
  forallb c u = true -> c d = true -> stops c v = true ->
  K (Some d) v g = None -> K (lastp p u) (d :: v) g = Some x ->
  star_greedy c K p (u ++ d :: v) g = Some x.
Proof.
  induction u as [|a u IH]; intros p Hu Hd Hv Hn Hx.
  - cbn [app star_greedy]. rewrite Hd. rewrite star_greedy_stop by exact Hv.
    rewrite Hn. exact Hx.
  - cbn [forallb] in Hu. apply andb_true_iff in Hu. destruct Hu as [Ha Hu].
    cbn [app star_greedy]. rewrite Ha.
    rewrite (IH (Some a) Hu Hd Hv Hn Hx). reflexivity.
Qed.

(** blanks up to the last line feed before a text that begins with no blank *)
Lemma ws_eol_takes g1 rest p g :
  forallb is_space g1 = true -> rest <> [] -> stops is_space rest = true ->
  takes (pat [ws; Eol]) p g1 (nl :: rest) g g.
Proof.
  intros Hg Hn Hs k x Hk. unfold ws. cbn [pat fold_right matchre].
  apply star_greedy_back; [exact Hg|reflexivity|exact Hs| |].
  - destruct rest as [|e rest]; [congruence|]. cbn [stops] in Hs.
    apply negb_true_iff in Hs. unfold at_eol.
    destruct (ch nl e) eqn:E; [|reflexivity].
    apply ch_eq in E. subst e. discriminate.
  - cbn [at_eol]. rewrite ch_refl. exact Hk.
Qed.

(** blanks up to the end of the text *)
Lemma ws_end_takes g1 p g :
  forallb is_space g1 = true -> takes (pat [ws; Eol]) p g1 [] g g.
Proof.
  intros Hg k x Hk. unfold ws. cbn [pat fold_right matchre].
  apply star_greedy_take; [exact Hg|]. cbn [star_greedy matchre at_eol]. exact Hk.
Qed.

Lemma include_takes (h : string) g0 g1 v :
  forallb is_space g0 = true -> L h <> [] -> stops is_space (L h) = true ->
  takes (pat [ws; Eol]) (lastp None (g0 ++ include_line h)) g1 v [] [] ->
  takes (include_re h) None (g0 ++ include_line h ++ g1) v [] [].
Proof.
  intros H0 Hh Hhs Htail. unfold include_re, include_line.
  retext (g0 ++ (L "#include " ++ L h) ++ g1)
         ([] ++ g0 ++ L "#" ++ [] ++ L "include" ++ [" "%char] ++ L h ++ g1).
  apply takes_seq_cons with (g1 := []); [apply takes_Bol; reflexivity|].
  eapply takes_seq_cons; [apply takes_Star; [exact H0|reflexivity]|].
  eapply takes_seq_cons; [apply takes_Lit|].
  eapply takes_seq_cons; [apply takes_Star; reflexivity|].
  eapply takes_seq_cons; [apply takes_Lit|].
  eapply takes_seq_cons.
  { apply takes_Star; [reflexivity|]. destruct (L h) as [|c t]; [congruence|].
    exact Hhs. }
  eapply takes_seq_cons; [apply takes_Lit|].
  replace (lastp (lastp (lastp (lastp (lastp (lastp (lastp None []) g0) (L "#")) [])
                    (L "include")) [" "%char]) (L h))
    with (lastp None (g0 ++ L "#include " ++ L h))
    by (rewrite !lastp_app; reflexivity).
  exact Htail.
Qed.

(** the include substitution on a text that begins with the include line *)
Lemma include_sub (h : string) repl g0 g1 v :
  forallb is_space g0 = true -> L h <> [] -> stops is_space (L h) = true ->
  must "#" (include_re h) = true ->
  takes (pat [ws; Eol]) (lastp None (g0 ++ include_line h)) g1 v [] [] ->
  forallb (notc "#") v = true ->
  re_search (include_re h) (g0 ++ include_line h ++ g1 ++ v) = true
  /\ re_sub (include_re h) (fun _ => Ok repl) (g0 ++ include_line h ++ g1 ++ v)
     = Ok (repl ++ v).
Proof.
  intros H0 Hh Hhs Hm Htail Hv.
  pose proof (@include_takes h g0 g1 v H0 Hh Hhs Htail) as Ht.
  split.
  - unfold re_search. pose proof (@match_at_takes _ _ _ _ _ Ht) as Hma.
    rewrite <- !app_assoc in Hma.
    destruct (g0 ++ include_line h ++ g1 ++ v) as [|c s] eqn:E.
    + cbn [search_from]. rewrite Hma. reflexivity.
    + cbn [search_from]. rewrite Hma. reflexivity.
  - retext (g0 ++ include_line h ++ g1 ++ v) ([] ++ (g0 ++ include_line h ++ g1) ++ v).
    erewrite re_sub_one;
      [reflexivity
      | apply segments_one;
        [ unfold include_line; intro E; apply app_eq_nil in E; destruct E as [_ E];
          discriminate
        | apply quiet_nil
        | exact Ht
        | apply quiet_lacks with (c := "#"%char); [exact Hm|];
          rewrite app_nil_r; apply forallb_not_In with (C := notc "#"); [exact Hv|reflexivity]
        | apply match_at_lacks with (c := "#"%char); [exact Hm|intros []] ]
      | reflexivity ].
Qed.

Lemma splitlines_nonempty c r : splitlines (c :: r) <> [].
Proof.
  unfold splitlines. cbn [splitlines_aux].
  destruct (ch cr c); [destruct r as [|d r']; [discriminate|destruct (ch nl d); discriminate]|].
  destruct (is_linebreak c); [discriminate|].
  apply splitlines_aux_nonempty. discriminate.
Qed.

Lemma join_cons_nonempty sep (a : str) l : l <> [] -> join sep (a :: l) = a ++ sep ++ join sep l.
Proof. destruct l; [congruence|reflexivity]. Qed.

(** X17: a C text that begins with the line "#include <stdio.h>", with
    any blanks before it and any blanks and empty lines after it, and goes
    on with a text without "#", "(" and "*": the include line becomes
    "#include <iostream>", the blanks and empty lines around it are
    dropped, and the rest is converted as it is on its own.  When nothing
    but blanks follows the include line, the result is the new include
    line alone. *)
Theorem X17_stdio_include_becomes_iostream :
  forall g0 g1 rest : str,
    forallb is_space g0 = true -> forallb is_space g1 = true ->
    (rest <> [] -> stops is_space rest = true -> forallb no_c_syntax rest = true ->
     convert_c_to_cpp (g0 ++ include_line "<stdio.h>" ++ g1 ++ [nl] ++ rest)
     = (out <- convert_c_to_cpp rest ;; Ok (include_line "<iostream>" ++ [nl] ++ out)))
    /\ convert_c_to_cpp (g0 ++ include_line "<stdio.h>" ++ g1)
       = Ok (include_line "<iostream>").
Proof.
  intros g0 g1 rest H0 H1. split.
  - intros Hn Hs Hrest.
    assert (Hh : forallb (notc "#") rest = true)
      by (eapply forallb_sub_class; [|exact Hrest]; vm_compute; reflexivity).
    assert (Hp : forallb (notc "(") rest = true)
      by (eapply forallb_sub_class; [|exact Hrest]; vm_compute; reflexivity).
    assert (Ha : forallb (notc "*") rest = true)
      by (eapply forallb_sub_class; [|exact Hrest]; vm_compute; reflexivity).
    destruct (@include_sub "<stdio.h>" (include_line "<iostream>") g0 g1 (nl :: rest))
      as [Hsearch Hsub];
      [exact H0|discriminate|reflexivity|reflexivity
      |apply ws_eol_takes; assumption|cbn [forallb]; rewrite Hh; reflexivity|].
    unfold convert_c_to_cpp at 1. change _include_stdio with (include_re "<stdio.h>").
    change (g0 ++ include_line "<stdio.h>" ++ g1 ++ [nl] ++ rest)
      with (g0 ++ include_line "<stdio.h>" ++ g1 ++ nl :: rest).
    rewrite Hsearch.
    change (L "#include <iostream>") with (include_line "<iostream>").
    rewrite Hsub. cbn [bind].
    destruct (_infer_decl_types_returns (include_line "<iostream>" ++ nl :: rest))
      as [types ->].
    cbn [bind]. cbv zeta.
    change (include_line "<iostream>" ++ nl :: rest)
      with (include_line "<iostream>" ++ [nl] ++ rest).
    rewrite splitlines_line; [|reflexivity|reflexivity|discriminate].
    cbn [mapM]. rewrite convert_line_plain by reflexivity. cbn [bind].
    rewrite (@mapM_same str (convert_line types)).
    2:{ eapply Forall_impl; [|apply (splitlines_chars (notc "(") rest Hp)].
        intros l Hl. apply convert_line_plain. exact Hl. }
    cbn [bind].
    rewrite join_cons_nonempty by (destruct rest; [congruence|apply splitlines_nonempty]).
    rewrite c_to_cpp_words by exact Hrest. cbn [bind].
    set (J := join [nl] (splitlines rest)).
    assert (HJa : forallb (notc "*") J = true)
      by (apply forallb_join; [reflexivity|apply splitlines_chars; exact Ha]).
    assert (HJp : forallb (notc "(") J = true)
      by (apply forallb_join; [reflexivity|apply splitlines_chars; exact Hp]).
    change (after_lines types (include_line "<iostream>" ++ [nl] ++ J)
            = Ok (include_line "<iostream>" ++ [nl] ++ replaced "NULL" "nullptr" J)).
    rewrite after_lines_words;
      [|rewrite !forallb_app, HJa; reflexivity|rewrite !forallb_app, HJp; reflexivity].
    f_equal. rewrite (app_assoc (include_line "<iostream>") [nl] J).
    rewrite replaced_app; [|rule_word|left; reflexivity].
    replace (replaced "NULL" "nullptr" (include_line "<iostream>" ++ [nl]))
      with (include_line "<iostream>" ++ [nl]) by (vm_compute; reflexivity).
    rewrite <- app_assoc. reflexivity.
  - destruct (@include_sub "<stdio.h>" (include_line "<iostream>") g0 g1 [])
      as [Hsearch Hsub];
      [exact H0|discriminate|reflexivity|reflexivity
      |apply ws_end_takes; exact H1|reflexivity|].
    rewrite app_nil_r in Hsearch, Hsub.
    unfold convert_c_to_cpp. change _include_stdio with (include_re "<stdio.h>").
    rewrite Hsearch.
    change (L "#include <iostream>") with (include_line "<iostream>").
    rewrite Hsub. cbn [bind]. vm_compute. reflexivity.
Qed.

Lemma X17_stdio_include_becomes_iostream_witness :
  convert_c_to_cpp ([nl] ++ include_line "<stdio.h>" ++ (L " " ++ [nl]) ++ [nl]
                      ++ L "void f = NULL;")
  = Ok (L "#include <iostream>" ++ [nl] ++ L "void f = nullptr;").
Proof.
  refine (eq_trans (proj1 (@X17_stdio_include_becomes_iostream [nl] (L " " ++ [nl])
                             (L "void f = NULL;") _ _) _ _ _) _).
  - reflexivity.
  - reflexivity.
  - discriminate.
  - reflexivity.
  - reflexivity.
  - vm_compute. reflexivity.
Defined.

Lemma surface_c_app u v :
  ends_nonword u = true -> surface_c (u ++ v) = surface_c u ++ surface_c v.
Proof.
  intro Hu. unfold surface_c.
  rewrite (@replaced_app "nullptr" "NULL") by (rule_word || (left; exact Hu)).
  rewrite (@replaced_app "bool" "int")
    by (rule_word || (left; apply replaced_ends; [rule_word|exact Hu])).
  rewrite (@replaced_app "true" "1")
    by (rule_word || (left; repeat (apply replaced_ends; [rule_word|]); exact Hu)).
  rewrite (@replaced_app "false" "0")
    by (rule_word || (left; repeat (apply replaced_ends; [rule_word|]); exact Hu)).
  reflexivity.
Qed.

(** [convert_cpp_to_c] on a text without include, stream statement and
    allocation: the four words are replaced run by run *)
Lemma cpp_to_c_words s :
  plain_cpp s = true -> has_sub (L "new") s = false -> has_sub (L "delete") s = false ->
  convert_cpp_to_c s = Ok (concat (map c_word (runs s))).
Proof.
  intros Hp Hn Hd. rewrite cpp_to_c_surface by exact Hp.
  rewrite surface_c_runs. apply new_delete_absent.
  - apply has_sub_c_words; [discriminate|reflexivity|reflexivity|exact Hn].
  - apply has_sub_c_words; [discriminate|reflexivity|reflexivity|exact Hd].
Qed.

(** X18: a C++ text that begins with the line "#include <iostream>",
    with any blanks before it and any blanks and empty lines after it, and
    goes on with a text without "#" and ":" in which new and delete occur
    nowhere: the include line becomes the two lines "#include <stdio.h>"
    and "#include <stdlib.h>", the blanks and empty lines around it are
    dropped, and the rest is converted as it is on its own.  When nothing
    but blanks follows the include line, the result is the two lines. *)
Theorem X18_iostream_include_becomes_stdio_stdlib :
  forall g0 g1 rest : str,
    forallb is_space g0 = true -> forallb is_space g1 = true ->
    (rest <> [] -> stops is_space rest = true -> plain_cpp rest = true ->
     has_sub (L "new") rest = false -> has_sub (L "delete") rest = false ->
     convert_cpp_to_c (g0 ++ include_line "<iostream>" ++ g1 ++ [nl] ++ rest)
     = (out <- convert_cpp_to_c rest ;;
        Ok (include_line "<stdio.h>" ++ [nl] ++ include_line "<stdlib.h>" ++ [nl] ++ out)))
    /\ convert_cpp_to_c (g0 ++ include_line "<iostream>" ++ g1)
       = Ok (include_line "<stdio.h>" ++ [nl] ++ include_line "<stdlib.h>").
Proof.
  intros g0 g1 rest H0 H1. split.
  - intros Hne Hs Hrest Hnew Hdel.
    assert (Hh : forallb (notc "#") rest = true)
      by (eapply forallb_sub_class; [|exact Hrest]; vm_compute; reflexivity).
    assert (Hc : forallb (notc ":") rest = true)
      by (eapply forallb_sub_class; [|exact Hrest]; vm_compute; reflexivity).
    rewrite (@cpp_to_c_words rest Hrest Hnew Hdel). cbn [bind].
    unfold convert_cpp_to_c. change _include_iostream with (include_re "<iostream>").
    change (g0 ++ include_line "<iostream>" ++ g1 ++ [nl] ++ rest)
      with (g0 ++ include_line "<iostream>" ++ g1 ++ nl :: rest).
    set (H := L "#include <stdio.h>" ++ [nl] ++ L "#include <stdlib.h>").
    destruct (@include_sub "<iostream>" H g0 g1 (nl :: rest)) as [Hsearch Hsub];
      [exact H0|discriminate|reflexivity|reflexivity
      |apply ws_eol_takes; assumption|cbn [forallb]; rewrite Hh; reflexivity|].
    change (fun _ : mobj => @Ok (list ascii) H) with (fun _ : mobj => @Ok str H).
    rewrite Hsearch, Hsub. cbn [bind].
    assert (Hcol : forallb (notc ":") (H ++ nl :: rest) = true)
      by (rewrite forallb_app; cbn [forallb]; rewrite Hc; reflexivity).
    rewrite (@re_sub_segments_nil re_cout);
      [|eapply segments_without; [|exact Hcol]; reflexivity].
    cbn [bind].
    rewrite (@re_sub_segments_nil re_cin);
      [|eapply segments_without; [|exact Hcol]; reflexivity].
    cbn [bind]. do 4 (rewrite sub_word_replaced; cbn [bind]).
    change (_convert_new_delete_to_malloc_free (surface_c ((H ++ [nl]) ++ rest))
            = Ok ((H ++ [nl]) ++ concat (map c_word (runs rest)))).
    rewrite surface_c_app by reflexivity.
    replace (surface_c (H ++ [nl])) with (H ++ [nl]) by (vm_compute; reflexivity).
    rewrite surface_c_runs.
    apply new_delete_absent.
    + apply has_sub_over_boundary; [discriminate|reflexivity|left; reflexivity
                                    |vm_compute; reflexivity|].
      apply has_sub_c_words; [discriminate|reflexivity|reflexivity|exact Hnew].
    + apply has_sub_over_boundary; [discriminate|reflexivity|left; reflexivity
                                    |vm_compute; reflexivity|].
      apply has_sub_c_words; [discriminate|reflexivity|reflexivity|exact Hdel].
  - unfold convert_cpp_to_c. change _include_iostream with (include_re "<iostream>").
    set (H := L "#include <stdio.h>" ++ [nl] ++ L "#include <stdlib.h>").
    destruct (@include_sub "<iostream>" H g0 g1 []) as [Hsearch Hsub];
      [exact H0|discriminate|reflexivity|reflexivity
      |apply ws_end_takes; exact H1|reflexivity|].
    rewrite app_nil_r in Hsearch, Hsub.
    change (fun _ : mobj => @Ok (list ascii) H) with (fun _ : mobj => @Ok str H).
    rewrite Hsearch, Hsub. cbn [bind]. vm_compute. reflexivity.
Qed.

Lemma X18_iostream_include_becomes_stdio_stdlib_witness :
  convert_cpp_to_c (include_line "<iostream>" ++ [nl] ++ [nl] ++ L "bool ok = true;")
  = Ok (L "#include <stdio.h>" ++ [nl] ++ L "#include <stdlib.h>" ++ [nl]
          ++ L "int ok = 1;").
Proof.
  refine (eq_trans (proj1 (@X18_iostream_include_becomes_stdio_stdlib [] [nl]
                             (L "bool ok = true;") _ _) _ _ _ _ _) _).
  - reflexivity.
  - reflexivity.
  - discriminate.
  - reflexivity.
  - reflexivity.
  - reflexivity.
  - reflexivity.
  - vm_compute. reflexivity.
Defined.

(** ** printf with any specifier *)

Section OneSpecifier.

Variables A S B x : str.
Hypothesis HA : forallb frag_char A = true.
Hypothesis HB : forallb frag_char B = true.
Hypothesis HS : forallb spec_char S = true.
Hypothesis HSp : startswith (L "%") S = true.
Hypothesis HSt : forall p v, takes (Grp 1 re_spec) p S v [] (setg 1 S []).
Hypothesis Hx : is_identifier x = true.

Lemma one_spec_no_quote : forallb (notc dq) (one_spec_format A S B) = true.
Proof. unfold one_spec_format. fb. Qed.

Lemma one_spec_args :
  _split_printf_args ([dq] ++ (one_spec_format A S B) ++ [dq] ++ L ", " ++ x)
  = [[dq] ++ (one_spec_format A S B) ++ [dq]; x].
Proof.
  unfold _split_printf_args.
  replace ([dq] ++ (one_spec_format A S B) ++ [dq] ++ L ", " ++ x)
    with (([dq] ++ (one_spec_format A S B) ++ [dq]) ++ L ", " ++ x)
    by (repeat (rewrite <- app_assoc || rewrite <- app_comm_cons); reflexivity).
  rewrite fold_left_app. rewrite split_quoted by apply one_spec_no_quote.
  rewrite fold_left_app. rewrite split_comma_space.
  rewrite (@split_run_plain x) by exact (@identifier_arg x Hx).
  cbn [parts buf q depth app].
  assert (Ht : truthy (L " " ++ x) = true) by reflexivity. rewrite Ht.
  rewrite strip_space_ident by exact Hx.
  change (dq :: one_spec_format A S B ++ [dq])
    with ([dq] ++ one_spec_format A S B ++ [dq]).
  rewrite strip_quoted. reflexivity.
Qed.

Lemma one_spec_fmt_str :
  strip_ch dq (strip ([dq] ++ (one_spec_format A S B) ++ [dq])) = (one_spec_format A S B).
Proof.
  rewrite strip_quoted. unfold strip_ch, strip_by.
  change (lstrip_by (ch dq) ([dq] ++ (one_spec_format A S B) ++ [dq]))
    with (lstrip_by (ch dq) ((one_spec_format A S B) ++ [dq])).
  pose proof one_spec_no_quote as Hq.
  assert (Hf : exists c t, (one_spec_format A S B) = c :: t).
  { unfold one_spec_format. destruct A as [|a A']; [|exists a; eexists; reflexivity].
    destruct S as [|s S']; [discriminate|exists s; eexists; reflexivity]. }
  assert (Hl : lstrip_by (ch dq) (one_spec_format A S B ++ [dq])
               = one_spec_format A S B ++ [dq]).
  { destruct Hf as (c & t & Ef). rewrite Ef in Hq |- *.
    cbn [forallb] in Hq. apply andb_true_iff in Hq. destruct Hq as [Hc _].
    unfold notc in Hc. apply negb_true_iff in Hc.
    cbn [app lstrip_by]. rewrite Hc. reflexivity. }
  rewrite Hl.
  unfold one_spec_format.
  replace ((A ++ S ++ B ++ L "\n") ++ [dq])
    with ((A ++ S ++ B ++ [bsl]) ++ ["n"%char] ++ [dq])
    by (repeat (rewrite <- app_assoc || rewrite <- app_comm_cons); reflexivity).
  rewrite rstrip_by_one; [|reflexivity|reflexivity].
  repeat (rewrite <- app_assoc || rewrite <- app_comm_cons). reflexivity.
Qed.

Lemma one_spec_tokens :
  re_split1 (Grp 1 re_spec) (one_spec_format A S B) = Ok [A; S; B ++ L "\n"].
Proof.
  unfold re_split1, one_spec_format.
  rewrite (@segments_one (Grp 1 re_spec) A S (B ++ L "\n") (setg 1 S [])).
  - reflexivity.
  - destruct S; discriminate.
  - region.
  - apply HSt.
  - quiet_go.
  - nomatch_end.
Qed.

Lemma one_spec_loop :
  fold_left printf_step [A; S; B ++ L "\n"] (L "std::cout", [x], false)
  = (((L "std::cout" ++ insertion A) ++ L " << (" ++ x ++ L ")") ++ insertion B,
     [], true).
Proof.
  cbn [fold_left]. rewrite printf_step_frag by exact HA.
  assert (Hstep : printf_step (L "std::cout" ++ insertion A, [x], false) S
                  = ((L "std::cout" ++ insertion A) ++ L " << (" ++ x ++ L ")",
                     @nil str, false)).
  { unfold printf_step. destruct S as [|s S']; [discriminate|].
    cbn [truthy negb]. rewrite HSp. reflexivity. }
  rewrite Hstep. apply printf_step_last. exact HB.
Qed.

Lemma one_spec_to_cout :
  _convert_printf_to_cout
    (L "printf" ++ L "(" ++ ([dq] ++ one_spec_format A S B ++ [dq] ++ L ", " ++ x)
       ++ L ");")
  = Ok (L "std::cout" ++ insertion A ++ L " << (" ++ x ++ L ")" ++ insertion B
          ++ L " << std::endl;").
Proof.
  unfold _convert_printf_to_cout.
  change re_printf_call
    with (pat [lit "printf"; ws; lit "("; Grp 1 (Star true any_char); lit ")"; ws;
               lit ";"; ws]).
  rewrite call_match. cbn [grp group getg mgroups setg nth bind].
  rewrite one_spec_args.
  cbn [startswith app]. change (ch dq dq) with true. cbn [andb orb negb].
  cbv zeta.
  change (dq :: one_spec_format A S B ++ [dq])
    with ([dq] ++ one_spec_format A S B ++ [dq]).
  rewrite one_spec_fmt_str.
  rewrite one_spec_tokens. cbn [bind].
  rewrite one_spec_loop.
  f_equal. repeat (rewrite <- app_assoc || rewrite <- app_comm_cons). reflexivity.
Qed.

Lemma one_spec_line types :
  convert_line types (printf_stmt (one_spec_format A S B) x)
  = Ok (L "std::cout" ++ insertion A ++ L " << (" ++ x ++ L ")" ++ insertion B
          ++ L " << std::endl;").
Proof.
  pose proof (@is_identifier_chars x Hx) as Hxc.
  unfold convert_line, printf_stmt.
  retext (L "printf(" ++ [dq] ++ (one_spec_format A S B) ++ [dq] ++ L ", " ++ x ++ L ");")
         (L "printf" ++ L "("
            ++ ([dq] ++ (one_spec_format A S B) ++ [dq] ++ L ", " ++ x) ++ L ");").
  erewrite re_sub_all.
  2:{ apply segments_all.
      + discriminate.
      + apply stmt_match; unfold one_spec_format; fb.
      + reflexivity.
      + nomatch_end. }
  2:{ cbn [m0]. apply one_spec_to_cout. }
  cbn [bind].
  apply re_sub_segments_nil.
  apply (insertion_cases A); [|intro HtA]; apply (insertion_cases B); try intro HtB;
    cbn [app]; no_segments.
Qed.

Lemma one_spec_c_to_cpp :
  x <> L "NULL" ->
  convert_c_to_cpp (printf_stmt (one_spec_format A S B) x)
  = Ok (L "std::cout" ++ insertion A ++ L " << (" ++ x ++ L ")" ++ insertion B
          ++ L " << std::endl;").
Proof.
  intro Hxn.
  pose proof (@is_identifier_chars x Hx) as Hxc.
  destruct (@c_to_cpp_line (printf_stmt (one_spec_format A S B) x)) as [types ->];
    [discriminate | unfold printf_stmt, one_spec_format; fb
    | unfold printf_stmt, one_spec_format; fb |].
  rewrite one_spec_line. cbn [bind].
  apply (insertion_cases A); [|intro HtA]; apply (insertion_cases B); try intro HtB;
    cbn [app]; (apply after_lines_plain; [fb | no_segments | no_segments]).
Qed.

End OneSpecifier.

Lemma spec_text_chars w1 dotted w2 c :
  forallb is_digit w1 = true -> forallb is_digit w2 = true ->
  one_of "dlfcsg" c = true -> forallb spec_char (spec_text w1 dotted w2 c) = true.
Proof.
  intros H1 H2 Hc. unfold spec_text.
  assert (Hu : forallb (one_of "dlfcsg") [c] = true)
    by (cbn [forallb]; rewrite Hc; reflexivity).
  remember [c] as u eqn:Eu. clear Eu.
  destruct dotted; fb.
Qed.

Lemma spec_text_takes w1 dotted w2 c p v :
  forallb is_digit w1 = true -> forallb is_digit w2 = true ->
  one_of "dlfcsg" c = true ->
  takes (Grp 1 re_spec) p (spec_text w1 dotted w2 c) v []
        (setg 1 (spec_text w1 dotted w2 c) []).
Proof.
  intros H1 H2 Hc. apply takes_Grp. unfold re_spec, spec_text.
  assert (Hcd : is_digit c = false)
    by (apply (@disjoint_ok (one_of "dlfcsg") is_digit c);
        [vm_compute; reflexivity|exact Hc]).
  assert (Hcp : ch "." c = false)
    by (apply (@disjoint_ok (one_of "dlfcsg") (ch ".") c);
        [vm_compute; reflexivity|exact Hc]).
  destruct dotted.
  - retext (L "%" ++ w1 ++ (L "." ++ w2) ++ [c]) (L "%" ++ w1 ++ L "." ++ w2 ++ [c] ++ []).
    apply takes_seq_cons with (g1 := []); [apply takes_Lit|].
    apply takes_seq_cons with (g1 := []); [apply takes_Star; [exact H1|reflexivity]|].
    apply takes_seq_cons with (g1 := []); [apply takes_Alt_l; apply takes_Lit|].
    apply takes_seq_cons with (g1 := []).
    { apply takes_Star; [exact H2|]. cbn [app stops]. rewrite Hcd. reflexivity. }
    apply takes_seq_cons with (g1 := []); [apply takes_Cls; exact Hc|].
    apply takes_seq_nil.
  - retext (L "%" ++ w1 ++ [] ++ [c]) (L "%" ++ w1 ++ [] ++ [] ++ [c] ++ []).
    apply takes_seq_cons with (g1 := []); [apply takes_Lit|].
    apply takes_seq_cons with (g1 := []).
    { apply takes_Star; [exact H1|]. cbn [app stops]. rewrite Hcd. reflexivity. }
    apply takes_seq_cons with (g1 := []).
    { apply takes_Alt_r; [|apply takes_Eps]. intro k. unfold lit.
      cbn [matchre app]. change (L ".") with ["."%char]. cbn [lit_match].
      rewrite Hcp. reflexivity. }
    apply takes_seq_cons with (g1 := []).
    { apply takes_Star; [reflexivity|]. cbn [app stops]. rewrite Hcd. reflexivity. }
    apply takes_seq_cons with (g1 := []); [apply takes_Cls; exact Hc|].
    apply takes_seq_nil.
Qed.

(** X19: a specifier is found with any width and precision, and with any
    of the letters d, l, f, c, s, g as its last character; the width and
    the precision leave no trace in the output.  In the statement
    printf("A%<digits>.<digits><letter>B\n", x); the specifier, whatever it
    is, becomes the insertion of x.  The letter l ends a specifier: "%ld"
    is read as "%l" followed by the text "d", which is inserted after x. *)
Theorem X19_printf_width_precision_length :
  forall (A B x w1 w2 : str) (dotted : bool) (c : ascii),
    forallb frag_char A = true -> forallb frag_char B = true ->
    is_identifier x = true -> x <> L "NULL" ->
    forallb is_digit w1 = true -> forallb is_digit w2 = true ->
    one_of "dlfcsg" c = true ->
    convert_c_to_cpp (printf_stmt (A ++ spec_text w1 dotted w2 c ++ B ++ L "\n") x)
    = Ok (L "std::cout" ++ insertion A ++ L " << (" ++ x ++ L ")" ++ insertion B
            ++ L " << std::endl;").
Proof.
  intros A B x w1 w2 dotted c HA HB Hx Hxn H1 H2 Hc.
  apply (@one_spec_c_to_cpp A (spec_text w1 dotted w2 c) B x); try assumption.
  - apply spec_text_chars; assumption.
  - reflexivity.
  - intros p v. apply spec_text_takes; assumption.
Qed.

Lemma X19_printf_width_precision_length_witness :
  convert_c_to_cpp (L "printf(" ++ [dq] ++ L "n=%ld\n" ++ [dq] ++ L ", n);")
  = Ok (L "std::cout << " ++ [dq] ++ L "n=" ++ [dq] ++ L " << (n) << " ++ [dq] ++ L "d"
          ++ [dq] ++ L " << std::endl;").
Proof.
  refine (@X19_printf_width_precision_length (L "n=") (L "d") (L "n") [] [] false "l"%char
            _ _ _ _ _ _ _); (reflexivity || discriminate).
Defined.

(** ** Pointers to structures *)

(** the allocation pass on a text without parenthesis *)
Lemma alloc_pass_without_paren types l :
  forallb (notc "(") l = true -> _convert_malloc_free_to_new_delete l types = Ok l.
Proof.
  intro Hp. unfold _convert_malloc_free_to_new_delete. cbv zeta.
  do 8 (rewrite re_sub_st_segments_nil;
        [cbn [bind]|eapply segments_without with (c := "("%char); [reflexivity|exact Hp]]).
  reflexivity.
Qed.

Lemma lastp_class (C : ascii -> bool) u : forall p,
  forallb C u = true -> disjoint C is_word = true -> word_before p = false ->
  word_before (lastp p u) = false.
Proof.
  induction u as [|c u IH]; intros p Hu Hd Hp; [exact Hp|].
  cbn [forallb] in Hu. apply andb_true_iff in Hu. destruct Hu as [Hc Hu].
  rewrite lastp_cons. apply IH; [exact Hu|exact Hd|].
  cbn [word_before]. apply (disjoint_ok C is_word c Hd Hc).
Qed.

Lemma struct_ptr_takes A g1 N g2 v :
  forallb is_blank A = true -> forallb is_blank g1 = true -> g1 <> [] ->
  is_identifier N = true -> forallb is_blank g2 = true ->
  takes re_struct_ptr (lastp None A) (L "struct" ++ g1 ++ N ++ g2 ++ L "*") v []
        (setg 1 N []).
Proof.
  intros HA H1 Hn HN H2.
  assert (Hsp : forall g, forallb is_blank g = true -> forallb is_space g = true).
  { intros g Hg. eapply forallb_sub_class; [|exact Hg]. vm_compute. reflexivity. }
  destruct g1 as [|d g1]; [congruence|].
  pose proof (Hsp _ H1) as H1s. cbn [forallb] in H1s.
  apply andb_true_iff in H1s. destruct H1s as [Hd H1s].
  destruct N as [|c N]; [discriminate|].
  cbn [is_identifier] in HN. apply andb_true_iff in HN. destruct HN as [Hc HN].
  retext (L "struct" ++ (d :: g1) ++ (c :: N) ++ g2 ++ L "*")
         ([] ++ L "struct" ++ (d :: g1) ++ (c :: N) ++ g2 ++ L "*" ++ []).
  unfold re_struct_ptr.
  apply takes_seq_cons with (g1 := []).
  { apply takes_WordB.
    rewrite (@lastp_class is_blank A None HA); [reflexivity|vm_compute; reflexivity
                                               |reflexivity]. }
  apply takes_seq_cons with (g1 := []); [apply takes_Lit|].
  apply takes_seq_cons with (g1 := []).
  { apply takes_Plus; [exact Hd|exact H1s|].
    apply (stops_cons ident_start); [vm_compute; reflexivity|exact Hc]. }
  eapply takes_seq_cons.
  { apply takes_Grp. apply takes_ident; [exact Hc|exact HN|].
    destruct g2 as [|e g2]; [reflexivity|]. cbn [forallb] in H2.
    apply andb_true_iff in H2. destruct H2 as [He _].
    apply (stops_cons is_blank); [vm_compute; reflexivity|exact He]. }
  eapply takes_seq_cons; [apply takes_Star; [apply Hsp; exact H2|reflexivity]|].
  eapply takes_seq_cons; [apply takes_Lit|].
  apply takes_seq_nil.
Qed.

(** X20: on a line without include and call, a pointer to a structure,
    written "struct", blanks, a name, any blanks and a star, after any
    indentation and before a text without star, loses the word struct and
    every blank between the name and the star; the rest of the line is
    kept, but for the runs NULL, which become nullptr. *)
Theorem X20_struct_pointer_loses_struct :
  forall A g1 N g2 B : str,
    forallb is_blank A = true -> forallb is_blank g1 = true -> g1 <> [] ->
    is_identifier N = true -> forallb is_blank g2 = true ->
    forallb plain_line_char B = true ->
    convert_c_to_cpp (A ++ L "struct" ++ g1 ++ N ++ g2 ++ L "*" ++ B)
    = Ok (concat (map (swap (L "NULL") (L "nullptr")) (runs (A ++ N ++ L "*" ++ B)))).
Proof.
  intros A g1 N g2 B HA H1 Hn HN H2 HB.
  pose proof (@is_identifier_chars N HN) as HNc.
  destruct (@c_to_cpp_line (A ++ L "struct" ++ g1 ++ N ++ g2 ++ L "*" ++ B))
    as [types ->]; [destruct A; discriminate | fb | fb |].
  rewrite convert_line_plain by fb. cbn [bind]. unfold after_lines.
  rewrite alloc_pass_without_paren by fb. cbn [bind].
  retext (A ++ L "struct" ++ g1 ++ N ++ g2 ++ L "*" ++ B)
         (A ++ (L "struct" ++ g1 ++ N ++ g2 ++ L "*") ++ B).
  erewrite re_sub_one;
    [ | apply segments_one;
        [ discriminate
        | region
        | apply struct_ptr_takes; assumption
        | apply quiet_lacks with (c := "*"%char); [reflexivity|];
          rewrite app_nil_r; apply forallb_not_In with (C := notc "*"); [fb|reflexivity]
        | nomatch_end ]
      | reflexivity ].
  cbn [bind tg group getg mgroups setg nth]. rewrite sub_word_replaced.
  rewrite replaced_runs by rule_word. rewrite <- !app_assoc. reflexivity.
Qed.

Lemma X20_struct_pointer_loses_struct_witness :
  convert_c_to_cpp (L "    struct Node *next = NULL;")
  = Ok (L "    Node*next = nullptr;").
Proof.
  refine (@X20_struct_pointer_loses_struct (L "    ") (L " ") (L "Node") (L " ")
            (L "next = NULL;") _ _ _ _ _ _); (reflexivity || discriminate).
Defined.

(** ** A declaration and a stream statement *)

(** the declaration pattern on a declaration at the start of a text *)
Lemma decl_re_takes_before T body v :
  In T c_types -> body <> [] -> stops is_space body = true ->
  forallb (notc ";") body = true ->
  takes decl_re None (T ++ L " " ++ body ++ L ";") v [] (setg 2 body (setg 1 T [])).
Proof.
  intros HT Hn Hs Hb. destruct body as [|b body]; [congruence|].
  cbn [forallb] in Hb. apply andb_true_iff in Hb. destruct Hb as [Hb0 Hb].
  change (T ++ L " " ++ (b :: body) ++ L ";")
    with ([] ++ T ++ (" "%char :: []) ++ (b :: body) ++ L ";" ++ []).
  unfold decl_re.
  apply takes_seq_cons with (g1 := []); [apply takes_Bol; reflexivity|].
  eapply takes_seq_cons.
  { apply takes_Grp. rewrite <- (app_nil_r T), <- (app_nil_l (T ++ [])).
    apply takes_seq_cons with (g1 := []).
    - apply takes_Alt_r; [|apply takes_Eps].
      intro k. unfold c_types in HT. cbn [In] in HT.
      repeat (destruct HT as [<-|HT]; [reflexivity|]). destruct HT.
    - apply takes_seq_cons with (g1 := []); [|apply takes_seq_nil].
      assert (Hid : is_identifier T = true /\ forallb is_word T = true).
      { unfold c_types in HT. cbn [In] in HT.
        repeat (destruct HT as [<-|HT]; [split; reflexivity|]). destruct HT. }
      destruct Hid as [Hid Hw]. destruct T as [|c t]; [discriminate|].
      cbn [is_identifier] in Hid. apply andb_true_iff in Hid. destruct Hid as [Hc _].
      cbn [forallb] in Hw. apply andb_true_iff in Hw. destruct Hw as [_ Hw].
      change (c :: t) with ([c] ++ t). unfold identw.
      apply takes_Seq with (g1 := []);
        [apply takes_Cls; exact Hc|apply takes_Star; [exact Hw|reflexivity]]. }
  eapply takes_seq_cons.
  { apply takes_Plus; [reflexivity|reflexivity|exact Hs]. }
  eapply takes_seq_cons.
  { apply takes_Grp. apply takes_Plus; [exact Hb0|exact Hb|reflexivity]. }
  eapply takes_seq_cons; [apply takes_Lit|].
  apply takes_seq_nil.
Qed.

Lemma decl_re_quiet p u v : no_decl_start p u = true -> quiet decl_re p u v.
Proof.
  intros H u1 c u2 E. apply decl_re_needs_name.
  apply (@no_decl_start_at u1 p c u2). rewrite <- E. exact H.
Qed.

Lemma no_decl_start_line u : forall p,
  forallb not_nl u = true -> at_bol true p = false -> no_decl_start p u = true.
Proof.
  induction u as [|c u IH]; intros p Hu Hp; [reflexivity|].
  cbn [forallb] in Hu. apply andb_true_iff in Hu. destruct Hu as [Hc Hu].
  cbn [no_decl_start]. rewrite Hp. cbn [andb negb]. apply IH; [exact Hu|].
  cbn [at_bol andb]. unfold not_nl in Hc. apply negb_true_iff in Hc. exact Hc.
Qed.

(** the index of a text that begins with a declaration of a primitive
    type and holds no other *)
Lemma infer_declaration_before T ds v :
  In T c_types -> ds <> [] ->
  forallb (fun d => is_identifier (snd d)) ds = true ->
  has_sub (L "typedef") (declaration T ds ++ v) = false ->
  forallb (notc "{") v = true ->
  quiet decl_re (lastp None (declaration T ds)) v [] ->
  _infer_decl_types (declaration T ds ++ v) = Ok (declared T ds []).
Proof.
  intros HT Hn Hds Htd Hv Hq. unfold _infer_decl_types.
  rewrite collect_typedefs_absent by exact Htd. cbn [bind]. cbv zeta.
  unfold re_findall1.
  rewrite (@finditer_without re_struct_def (declaration T ds ++ v) "{"%char);
    [|reflexivity|rewrite forallb_app, Hv, andb_true_r;
                  apply declaration_chars; [vm_compute; reflexivity|reflexivity
                                           |exact HT|exact Hds]].
  cbn [map app].
  set (body := join (L ", ") (map declarator ds)).
  assert (Hbody : exists b r, body = b :: r /\ is_space b = false).
  { destruct ds as [|d ds']; [congruence|]. cbn [forallb] in Hds.
    apply andb_true_iff in Hds. destruct Hds as [Hd _].
    pose proof (@declarator_chars (fun c => negb (is_space c)) d eq_refl eq_refl Hd) as Hs.
    pose proof (@declarator_nonempty d Hd) as Hne.
    destruct (declarator d) as [|b r] eqn:E; [congruence|].
    destruct (@join_head_nonempty (L ", ") (b :: r) (map declarator ds') b r eq_refl)
      as [r' Hr'].
    exists b, r'. unfold body. cbn [map]. rewrite E. split; [exact Hr'|].
    cbn [forallb] in Hs. apply andb_true_iff in Hs. apply negb_true_iff. apply Hs. }
  destruct Hbody as (b & r & Eb & Hsp).
  assert (Hsc : forallb (notc ";") body = true)
    by (apply join_declarators_chars; [vm_compute; reflexivity|exact Hds]).
  assert (Hm : re_finditer decl_re (declaration T ds ++ v)
               = [{| m0 := declaration T ds; mgroups := setg 2 body (setg 1 T []) |}]).
  { unfold re_finditer.
    change (declaration T ds ++ v) with ([] ++ declaration T ds ++ v).
    rewrite (@segments_one decl_re [] (declaration T ds) v (setg 2 body (setg 1 T []))).
    - reflexivity.
    - unfold declaration. destruct T; [|discriminate].
      unfold c_types in HT. cbn [In] in HT.
      repeat (destruct HT as [HT|HT]; [discriminate|]). destruct HT.
    - apply quiet_nil.
    - unfold declaration. fold body.
      apply decl_re_takes_before; [exact HT|rewrite Eb; discriminate
                                  |rewrite Eb; cbn [stops]; rewrite Hsp; reflexivity|exact Hsc].
    - exact Hq.
    - nomatch_end. }
  rewrite Hm. cbn [foldM bind]. unfold grp, group. cbn [mgroups].
  rewrite getg_setg_other by discriminate. rewrite getg_setg_same. cbn [bind].
  assert (Hmem : mem T c_types = true).
  { unfold c_types in *. cbn [In] in HT.
    repeat (destruct HT as [<-|HT]; [reflexivity|]). destruct HT. }
  unfold c_types in Hmem. rewrite Hmem. cbn [negb andb].
  rewrite getg_setg_same. cbn [bind]. fold body.
  unfold body. rewrite declarators_split by assumption.
  rewrite declarators_fold by exact Hds. reflexivity.
Qed.

Lemma lit_match_split w1 w2 : forall s p,
  lit_match (w1 ++ w2) s p
  = match lit_match w1 s p with
    | Some (p', s') => lit_match w2 s' p'
    | None => None
    end.
Proof.
  induction w1 as [|c w1 IH]; intros s p; [reflexivity|].
  destruct s as [|d s]; [reflexivity|]. cbn [app lit_match].
  destruct (ch c d); [apply IH|reflexivity].
Qed.

(** a pattern led by a literal is quiet where it is with the literal cut
    in two *)
Lemma quiet_lit_split w1 w2 R p u v :
  quiet (Seq (Lit w1) (Seq (Lit w2) R)) p u v -> quiet (Seq (Lit (w1 ++ w2)) R) p u v.
Proof.
  intros H u1 c u2 E. specialize (H u1 c u2 E). unfold match_at in *.
  cbn [matchre] in *. rewrite lit_match_split.
  destruct (lit_match w1 (c :: u2 ++ v) (lastp p u1)) as [[p' s']|]; [exact H|reflexivity].
Qed.

Lemma has_sub_nonword_run w t :
  w <> [] -> forallb is_word w = true ->
  forallb (fun d => Bool.eqb (is_word d) false) t = true -> has_sub w t = false.
Proof.
  intros Hn Hw. induction t as [|c t IH]; intro Ht; [apply has_sub_empty; exact Hn|].
  cbn [forallb] in Ht. apply andb_true_iff in Ht. destruct Ht as [Hc Ht].
  apply Bool.eqb_prop in Hc. cbn [has_sub]. rewrite (IH Ht), orb_false_r.
  apply startswith_word_nonword; [exact Hn|exact Hw|].
  unfold starts_nonword, word_after. rewrite Hc. reflexivity.
Qed.

Lemma pieces_ok_has_sub w ts : forall b,
  w <> [] -> forallb is_word w = true -> pieces_ok w b ts = true ->
  has_sub w (concat ts) = false.
Proof.
  intros b Hn Hw H. apply has_sub_pieces with (b := b); [exact Hn|exact Hw| |].
  - revert b H. induction ts as [|t rest IH]; intros b H; [reflexivity|].
    cbn [pieces_ok alternate] in *. apply andb_true_iff in H. destruct H as [Ht H].
    unfold piece_ok in Ht. apply andb_true_iff in Ht. destruct Ht as [Hr _].
    rewrite Hr, (IH _ H). reflexivity.
  - revert b H. induction ts as [|t rest IH]; intros b H; [reflexivity|].
    cbn [pieces_ok forallb] in *. apply andb_true_iff in H. destruct H as [Ht H].
    rewrite (IH _ H), andb_true_r.
    unfold piece_ok in Ht. apply andb_true_iff in Ht. destruct Ht as [Hr Hs].
    destruct b; [exact Hs|].
    apply negb_true_iff. apply has_sub_nonword_run; [exact Hn|exact Hw|].
    unfold run_of in Hr. apply andb_true_iff in Hr. apply Hr.
Qed.

Lemma cout_takes x p v :
  is_identifier x = true ->
  takes re_cout p (cout_stmt x) v [] (setg 1 (L " " ++ x) []).
Proof.
  intros Hx k y Hk. pose proof (@is_identifier_chars x Hx) as Hxc.
  unfold cout_stmt, re_cout.
  retext ((L "std::cout << " ++ x ++ L ";") ++ v)
         (L "std::cout" ++ [" "%char] ++ L "<<" ++ (L " " ++ x) ++ L ";" ++ v).
  apply matchre_seq_takes with (g' := []); [apply takes_Lit|].
  apply matchre_seq_takes with (g' := []); [apply takes_Star; reflexivity|].
  apply matchre_seq_takes with (g' := []); [apply takes_Lit|].
  apply lazy_grp_upto with (C := notc ";"); [fb|fb|vm_compute; reflexivity|].
  cbn [pat fold_right matchre]. unfold lit. change (L ";") with [";"%char].
  cbn [app matchre lit_match]. rewrite ch_refl.
  unfold cout_stmt in Hk. rewrite !lastp_app in Hk. exact Hk.
Qed.

Lemma cout_one_repl code tmap x :
  _infer_decl_types code = Ok tmap -> is_identifier x = true ->
  cout_repl code {| m0 := cout_stmt x; mgroups := setg 1 (L " " ++ x) [] |}
  = Ok (printf_call (_fmt_for_type (or_default (L "int") (dict_get x tmap))) x).
Proof.
  intros Ht Hx. pose proof (@is_identifier_chars x Hx) as Hxc.
  unfold cout_repl, grp, group. cbn [mgroups]. rewrite getg_setg_same. cbn [bind].
  cbv zeta. unfold re_split.
  rewrite (@segments_without (lit "<<") (L " " ++ x) "<"%char); [|reflexivity|fb].
  cbn [map app]. rewrite strip_space_ident by exact Hx.
  rewrite (@cout_parts_pieces code tmap [x] [] [] Ht). cbn [bind app map filter].
  assert (Hce : is_cout_expr x = true).
  { unfold is_cout_expr. destruct x as [|c t]; [discriminate|].
    cbn [is_identifier] in Hx. apply andb_true_iff in Hx. destruct Hx as [Hc _].
    assert (He : str_eqb (c :: t) (L "std::endl") = false).
    { destruct (str_eqb (c :: t) (L "std::endl")) eqn:Es; [|reflexivity].
      apply str_eqb_eq in Es. rewrite Es in Hxc. discriminate. }
    rewrite He. cbn [negb andb startswith].
    rewrite (@disjoint_ok ident_start (ch dq) c); [reflexivity|vm_compute; reflexivity
                                                  |exact Hc]. }
  rewrite Hce. cbn [length Nat.eqb negb join concat app].
  unfold cout_piece. unfold is_cout_expr in Hce. apply andb_true_iff in Hce.
  destruct Hce as [He Hq]. apply negb_true_iff in He. apply negb_true_iff in Hq.
  rewrite He, Hq. unfold token_spec, expr_ctype.
  rewrite expr_ctype_name by exact Hx. rewrite app_nil_r. reflexivity.
Qed.

(** the stages of [convert_cpp_to_c] after the cout rewriting, on a text
    in which they find nothing *)
Lemma cpp_tail_identity s :
  forallb (notc ":") s = true ->
  forallb (fun w => negb (has_sub w s)) cpp_marks = true ->
  (code <- re_sub re_cin cin_repl s ;;
   code <- sub_word "nullptr" "NULL" code ;;
   code <- sub_word "bool" "int" code ;;
   code <- sub_word "true" "1" code ;;
   code <- sub_word "false" "0" code ;;
   _convert_new_delete_to_malloc_free code) = Ok s.
Proof.
  intros Hc Hm.
  assert (Hl : forall w, In w cpp_marks -> has_sub w s = false).
  { intros w Hin. rewrite forallb_forall in Hm. apply negb_true_iff. apply Hm. exact Hin. }
  rewrite (@re_sub_segments_nil re_cin);
    [|eapply segments_without; [|exact Hc]; reflexivity].
  cbn [bind]. do 4 (rewrite sub_word_replaced; cbn [bind]).
  change (_convert_new_delete_to_malloc_free (surface_c s) = Ok s).
  rewrite surface_c_runs.
  assert (Hid : map c_word (runs s) = runs s).
  { rewrite <- (map_id (runs s)) at 2. apply map_ext_in. intros t Ht.
    assert (Hne : forall w, In w cpp_words -> str_eqb t w = false).
    { intros w Hw. destruct (str_eqb t w) eqn:Ew; [|reflexivity].
      apply str_eqb_eq in Ew. subst w.
      assert (Hin : In t cpp_marks) by (unfold cpp_marks, cpp_words in *; simpl in *; tauto).
      assert (Hd : t <> [])
        by (unfold cpp_words in Hw; cbn [In] in Hw;
            repeat (destruct Hw as [<-|Hw]; [discriminate|]); destruct Hw).
      pose proof (Hl t Hin) as Hts. rewrite <- (runs_concat s) in Hts.
      apply has_sub_in_pieces in Hts; [|exact Hd].
      rewrite forallb_forall in Hts. specialize (Hts t Ht).
      rewrite has_sub_self in Hts. discriminate. }
    unfold c_word, swap, cpp_words in *.
    rewrite (Hne (L "nullptr")) by (simpl; tauto).
    rewrite (Hne (L "bool")) by (simpl; tauto).
    rewrite (Hne (L "true")) by (simpl; tauto).
    rewrite (Hne (L "false")) by (simpl; tauto). reflexivity. }
  rewrite Hid, runs_concat. apply new_delete_absent; apply Hl; unfold cpp_marks; simpl; tauto.
Qed.

Lemma fmt_for_type_shape ty :
  exists l, _fmt_for_type ty = L "%" ++ l
            /\ In l [L "d"; L "ld"; L "f"; L "lf"; L "c"; L "s"].
Proof.
  unfold _fmt_for_type. cbv zeta. cbn [dict_get].
  repeat match goal with
         | |- context [if ?b then _ else _] => destruct b
         end;
    eexists; (split; [reflexivity|simpl; tauto]).
Qed.

Lemma c_types_piece T w :
  In T c_types -> In w name_marks -> piece_ok w true T = true.
Proof.
  intros HT Hw. unfold c_types in HT. unfold name_marks, cpp_marks in Hw.
  cbn [In] in HT, Hw.
  repeat (destruct HT as [<-|HT];
          [repeat (destruct Hw as [<-|Hw]; [reflexivity|]); destruct Hw|]).
  destruct HT.
Qed.

Lemma letters_piece l w :
  In l [L "d"; L "ld"; L "f"; L "lf"; L "c"; L "s"] -> In w name_marks ->
  piece_ok w true l = true.
Proof.
  intros Hl Hw. unfold name_marks, cpp_marks in Hw. cbn [In] in Hl, Hw.
  repeat (destruct Hl as [<-|Hl];
          [repeat (destruct Hw as [<-|Hw]; [reflexivity|]); destruct Hw|]).
  destruct Hl.
Qed.

Lemma name_piece x w :
  is_identifier x = true -> has_sub w x = false -> piece_ok w true x = true.
Proof.
  intros Hx Hs. unfold piece_ok, run_of. rewrite Hs.
  pose proof (@identifier_word x Hx) as Hw. destruct x as [|c t]; [discriminate|].
  cbn [truthy andb negb orb]. rewrite andb_true_r.
  rewrite forallb_forall in *. intros d Hd. rewrite (Hw d Hd). reflexivity.
Qed.

Lemma stars_piece w k : piece_ok w false (L " " ++ repeat "*"%char k) = true.
Proof.
  unfold piece_ok, run_of. cbn [negb orb andb]. rewrite andb_true_r.
  change (L " " ++ repeat "*"%char k) with (" "%char :: repeat "*"%char k).
  cbn [truthy forallb andb]. change (Bool.eqb (is_word " ") false) with true.
  cbn [andb]. apply forallb_repeat. reflexivity.
Qed.

Lemma name_marks_words w : In w name_marks -> w <> [] /\ forallb is_word w = true.
Proof.
  intro Hw. unfold name_marks, cpp_marks in Hw. cbn [In] in Hw.
  repeat (destruct Hw as [<-|Hw]; [split; [discriminate|reflexivity]|]). destruct Hw.
Qed.

(** X21: a variable declared at the beginning of a line with a primitive
    type and any number of stars, and printed with std::cout on the next
    line, is printed by printf with the specifier of its declared type: the
    declaration index, the type of the expression and the table of
    specifiers work together.  The name must hold none of the words the
    other passes look for. *)
Theorem X21_declared_type_gives_printf_specifier :
  forall (T : str) (k : nat) (x : str),
    In T c_types -> is_identifier x = true ->
    forallb (fun w => negb (has_sub w x)) name_marks = true ->
    convert_cpp_to_c (declaration T [(k, x)] ++ [nl] ++ cout_stmt x)
    = Ok (declaration T [(k, x)] ++ [nl]
            ++ printf_call (_fmt_for_type (T ++ repeat "*"%char k)) x).
Proof.
  intros T k x HT Hx Hm.
  pose proof (@is_identifier_chars x Hx) as Hxc.
  pose proof (@c_types_chars ident_char T eq_refl HT) as HTc.
  assert (Hxw : forall w, In w name_marks -> piece_ok w true x = true).
  { intros w Hw. apply name_piece; [exact Hx|]. rewrite forallb_forall in Hm.
    apply negb_true_iff. apply Hm. exact Hw. }
  assert (ED : declaration T [(k, x)] = T ++ L " " ++ repeat "*"%char k ++ x ++ L ";")
    by (unfold declaration, declarator; cbn [map join fst snd];
        rewrite <- !app_assoc; reflexivity).
  set (stars := repeat "*"%char k) in *.
  assert (Hsc : forallb (ch "*") stars = true) by (apply forallb_repeat; reflexivity).
  assert (Hst : forall w, piece_ok w false (L " " ++ stars) = true)
    by (intro w; apply stars_piece).
  set (code := declaration T [(k, x)] ++ [nl] ++ cout_stmt x).
  assert (Ecode : code = concat [T; L " " ++ stars; x; L ";" ++ [nl]; L "std"; L "::";
                                 L "cout"; L " << "; x; L ";"]).
  { unfold code. rewrite ED. unfold cout_stmt. cbn [concat].
    repeat (rewrite <- app_assoc || rewrite <- app_comm_cons). reflexivity. }
  assert (Htd : has_sub (L "typedef") code = false).
  { rewrite Ecode. apply pieces_ok_has_sub with (b := true); [discriminate|reflexivity|].
    assert (Hin : In (L "typedef") name_marks) by (left; reflexivity).
    cbn [pieces_ok negb]. rewrite (c_types_piece HT Hin), Hst, (Hxw _ Hin).
    reflexivity. }
  assert (Hinfer : _infer_decl_types code = Ok [(x, T ++ stars)]).
  { unfold code.
    rewrite (@infer_declaration_before T [(k, x)] ([nl] ++ cout_stmt x)).
    - reflexivity.
    - exact HT.
    - discriminate.
    - cbn [forallb snd]. rewrite Hx. reflexivity.
    - exact Htd.
    - unfold cout_stmt. fb.
    - rewrite ED. rewrite !lastp_app. cbn [app].
      apply quiet_cons; [apply decl_re_needs_name; reflexivity|].
      unfold cout_stmt. change (L "std::cout << " ++ x ++ L ";")
        with ("s"%char :: L "td::cout << " ++ x ++ L ";").
      apply quiet_cons; [reflexivity|].
      apply decl_re_quiet. apply no_decl_start_line; [fb|reflexivity]. }
  unfold convert_cpp_to_c. fold code.
  rewrite (@re_search_without _include_iostream code "#"%char);
    [|reflexivity|unfold code; rewrite ED; unfold cout_stmt; fb].
  cbn [bind].
  assert (Ecode2 : code = (declaration T [(k, x)] ++ [nl]) ++ cout_stmt x ++ [])
    by (unfold code; rewrite app_nil_r, <- app_assoc; reflexivity).
  rewrite Ecode2 at 2.
  erewrite re_sub_one;
    [ | apply segments_one;
        [ discriminate
        | rewrite ED; unfold re_cout, lit; cbn [pat fold_right];
          change (L "std::cout") with (L "std" ++ L "::cout");
          apply quiet_lit_split;
          repeat (rewrite <- app_assoc || rewrite <- app_comm_cons); quiet_go
        | apply cout_takes; exact Hx
        | apply quiet_nil
        | nomatch_end ]
      | apply (@cout_one_repl code [(x, T ++ stars)] x Hinfer Hx) ].
  cbn [bind dict_get]. rewrite str_eqb_refl.
  match goal with
  | |- context [or_default ?a ?b] =>
      assert (Eo : or_default a b = T ++ stars)
        by (destruct T; [|reflexivity]; unfold c_types in HT; cbn [In] in HT;
            repeat (destruct HT as [HT|HT]; [discriminate|]); destruct HT);
      rewrite Eo
  end.
  rewrite app_nil_r, <- app_assoc.
  apply cpp_tail_identity.
  - destruct (fmt_for_type_shape (T ++ stars)) as (l & -> & Hl).
    assert (Hlc : forallb ident_char l = true)
      by (cbn [In] in Hl; repeat (destruct Hl as [<-|Hl]; [reflexivity|]); destruct Hl).
    rewrite ED. unfold printf_call. fb.
  - apply forallb_forall. intros w Hw. apply negb_true_iff.
    assert (Hin : In w name_marks) by (right; exact Hw).
    destruct (fmt_for_type_shape (T ++ stars)) as (l & -> & Hl).
    destruct (name_marks_words Hin) as [Hwn Hww].
    replace (declaration T [(k, x)] ++ [nl] ++ printf_call (L "%" ++ l) x)
      with (concat [T; L " " ++ stars; x; L ";" ++ [nl]; L "printf";
                    L "(" ++ [dq] ++ L "%"; l; [dq] ++ L ", "; x; L ");"]).
    + apply pieces_ok_has_sub with (b := true); [exact Hwn|exact Hww|].
      cbn [pieces_ok negb].
      rewrite (c_types_piece HT Hin), Hst, (Hxw _ Hin), (letters_piece Hl Hin).
      unfold name_marks, cpp_marks in Hin. cbn [In] in Hin.
      repeat (destruct Hin as [<-|Hin]; [reflexivity|]). destruct Hin.
    + rewrite ED. unfold printf_call. cbn [concat].
      repeat (rewrite <- app_assoc || rewrite <- app_comm_cons). reflexivity.
Qed.

Lemma X21_declared_type_gives_printf_specifier_witness :
  convert_cpp_to_c (L "double ratio;" ++ [nl] ++ L "std::cout << ratio;")
  = Ok (L "double ratio;" ++ [nl] ++ L "printf(" ++ [dq] ++ L "%lf" ++ [dq]
          ++ L ", ratio);").
Proof.
  refine (@X21_declared_type_gives_printf_specifier (L "double") 0 (L "ratio") _ _ _).
  - simpl. tauto.
  - reflexivity.
  - reflexivity.
Defined.

Lemma infer_not_at_line_start code :
  no_decl_start None code = true -> _infer_decl_types code = Ok [].
Proof.
  intro H. unfold _infer_decl_types.
  destruct (_collect_typedefs_returns code) as [typedefs ->]. cbn [bind]. cbv zeta.
  assert (Hm : re_finditer decl_re code = []).
  { unfold re_finditer. rewrite quiet_segments; [reflexivity| |nomatch_end].
    apply decl_re_quiet. exact H. }
  rewrite Hm. reflexivity.
Qed.

Lemma no_decl_start_app a : forall p b,
  no_decl_start p (a ++ b) = no_decl_start p a && no_decl_start (lastp p a) b.
Proof.
  induction a as [|c a IH]; intros p b; [reflexivity|].
  cbn [app no_decl_start]. rewrite IH, lastp_cons, andb_assoc. reflexivity.
Qed.

Lemma no_decl_start_blanks u : forall p,
  forallb is_blank u = true -> no_decl_start p u = true.
Proof.
  induction u as [|c u IH]; intros p Hu; [reflexivity|].
  cbn [forallb] in Hu. apply andb_true_iff in Hu. destruct Hu as [Hc Hu].
  cbn [no_decl_start]. rewrite (IH _ Hu), andb_true_r.
  rewrite (@disjoint_ok is_blank ident_start c); [|vm_compute; reflexivity|exact Hc].
  rewrite andb_false_r. reflexivity.
Qed.

Lemma lastp_blanks u : forall p,
  u <> [] -> forallb is_blank u = true -> at_bol true (lastp p u) = false.
Proof.
  induction u as [|c u IH]; intros p Hn Hu; [congruence|].
  cbn [forallb] in Hu. apply andb_true_iff in Hu. destruct Hu as [Hc Hu].
  rewrite lastp_cons. destruct u as [|d u]; [|apply IH; [discriminate|exact Hu]].
  cbn [lastp fold_left at_bol andb].
  apply (@disjoint_ok is_blank (ch nl) c); [vm_compute; reflexivity|exact Hc].
Qed.

Lemma blanks_piece w u :
  u <> [] -> forallb is_blank u = true -> forall v,
  forallb (fun d => Bool.eqb (is_word d) false) v = true ->
  piece_ok w false (v ++ u) = true.
Proof.
  intros Hn Hu v Hv. unfold piece_ok, run_of. cbn [negb orb]. rewrite andb_true_r.
  apply andb_true_iff. split.
  - destruct v; [destruct u; [congruence|reflexivity]|reflexivity].
  - rewrite forallb_app, Hv. cbn [andb]. rewrite forallb_forall in *. intros d Hd.
    rewrite (@disjoint_ok is_blank is_word d); [reflexivity|vm_compute; reflexivity|].
    apply Hu. exact Hd.
Qed.

(** X22: the same declaration and statement after an indentation: the
    declaration does not begin its line, so it is not in the index, and
    the variable is printed with "%d" whatever its declared type is. *)
Theorem X22_indented_declaration_prints_with_d :
  forall (ind T : str) (k : nat) (x : str),
    ind <> [] -> forallb is_blank ind = true ->
    is_identifier T = true -> is_identifier x = true ->
    forallb (fun w => negb (has_sub w T) && negb (has_sub w x)) cpp_marks = true ->
    convert_cpp_to_c (ind ++ declaration T [(k, x)] ++ [nl] ++ ind ++ cout_stmt x)
    = Ok (ind ++ declaration T [(k, x)] ++ [nl] ++ ind ++ printf_call (L "%d") x).
Proof.
  intros ind T k x Hin Hib HT Hx Hm.
  pose proof (@is_identifier_chars x Hx) as Hxc.
  pose proof (@is_identifier_chars T HT) as HTc.
  assert (Hw : forall w, In w cpp_marks ->
                 piece_ok w true T = true /\ piece_ok w true x = true).
  { intros w Hw. rewrite forallb_forall in Hm. specialize (Hm w Hw).
    apply andb_true_iff in Hm. destruct Hm as [H1 H2].
    apply negb_true_iff in H1. apply negb_true_iff in H2.
    split; apply name_piece; assumption. }
  assert (ED : declaration T [(k, x)] = T ++ L " " ++ repeat "*"%char k ++ x ++ L ";")
    by (unfold declaration, declarator; cbn [map join fst snd];
        rewrite <- !app_assoc; reflexivity).
  set (stars := repeat "*"%char k) in *.
  assert (Hsc : forallb (ch "*") stars = true) by (apply forallb_repeat; reflexivity).
  assert (Hst : forall w, piece_ok w false (L " " ++ stars) = true)
    by (intro w; apply stars_piece).
  set (code := ind ++ declaration T [(k, x)] ++ [nl] ++ ind ++ cout_stmt x).
  assert (Hinfer : _infer_decl_types code = Ok []).
  { apply infer_not_at_line_start. unfold code.
    rewrite no_decl_start_app, (@no_decl_start_blanks ind _ Hib). cbn [andb].
    rewrite no_decl_start_app.
    rewrite no_decl_start_line; [|rewrite ED; fb|apply lastp_blanks; assumption].
    cbn [andb]. rewrite ED, !lastp_app. cbn [app no_decl_start at_bol andb negb].
    rewrite no_decl_start_app, (@no_decl_start_blanks ind _ Hib). cbn [andb].
    apply no_decl_start_line; [unfold cout_stmt; fb|apply lastp_blanks; assumption]. }
  unfold convert_cpp_to_c. fold code.
  rewrite (@re_search_without _include_iostream code "#"%char);
    [|reflexivity|unfold code; rewrite ED; unfold cout_stmt; fb].
  cbn [bind].
  assert (Ecode2 : code = (ind ++ declaration T [(k, x)] ++ [nl] ++ ind) ++ cout_stmt x ++ [])
    by (unfold code; rewrite app_nil_r, <- !app_assoc; reflexivity).
  rewrite Ecode2 at 2.
  erewrite re_sub_one;
    [ | apply segments_one;
        [ discriminate
        | rewrite ED; unfold re_cout, lit; cbn [pat fold_right];
          change (L "std::cout") with (L "std" ++ L "::cout");
          apply quiet_lit_split;
          repeat (rewrite <- app_assoc || rewrite <- app_comm_cons); quiet_go
        | apply cout_takes; exact Hx
        | apply quiet_nil
        | nomatch_end ]
      | apply (@cout_one_repl code [] x Hinfer Hx) ].
  cbn [bind dict_get].
  change (_fmt_for_type (or_default (L "int") None)) with (L "%d").
  rewrite app_nil_r, <- !app_assoc.
  apply cpp_tail_identity.
  - rewrite ED. unfold printf_call. fb.
  - apply forallb_forall. intros w Hwm. apply negb_true_iff.
    assert (Hnm : In w name_marks) by (right; exact Hwm).
    destruct (name_marks_words Hnm) as [Hwn Hww]. destruct (Hw w Hwm) as [HpT Hpx].
    replace (ind ++ declaration T [(k, x)] ++ [nl] ++ ind ++ printf_call (L "%d") x)
      with (concat [[] ++ ind; T; L " " ++ stars; x; (L ";" ++ [nl]) ++ ind; L "printf";
                    L "(" ++ [dq] ++ L "%"; L "d"; [dq] ++ L ", "; x; L ");"]).
    + apply pieces_ok_has_sub with (b := false); [exact Hwn|exact Hww|].
      cbn [pieces_ok negb].
      rewrite (@blanks_piece w ind Hin Hib [] eq_refl).
      rewrite (@blanks_piece w ind Hin Hib (L ";" ++ [nl]) eq_refl).
      rewrite HpT, Hst, Hpx.
      unfold cpp_marks in Hwm. cbn [In] in Hwm.
      repeat (destruct Hwm as [<-|Hwm]; [reflexivity|]). destruct Hwm.
    + rewrite ED. unfold printf_call. cbn [concat].
      repeat (rewrite <- app_assoc || rewrite <- app_comm_cons). reflexivity.
Qed.

Lemma X22_indented_declaration_prints_with_d_witness :
  convert_cpp_to_c (L "  double ratio;" ++ [nl] ++ L "  std::cout << ratio;")
  = Ok (L "  double ratio;" ++ [nl] ++ L "  printf(" ++ [dq] ++ L "%d" ++ [dq]
          ++ L ", ratio);").
Proof.
  refine (@X22_indented_declaration_prints_with_d (L "  ") (L "double") 0 (L "ratio")
            _ _ _ _ _); (reflexivity || discriminate).
Defined.

(** a run of word characters that does not hold the word [w], before a
    character that is none: no pattern led by [w] matches in it *)
Lemma word_absent_quiet w R p u v :
  forallb is_word w = true -> has_sub w u = false -> starts_nonword v = true ->
  quiet (Seq (Lit w) R) p u v.
Proof.
  intros Hw Hs Hv u1 c u2 E. apply lit_led_match_absent.
  change (c :: u2 ++ v) with ((c :: u2) ++ v).
  apply startswith_over_boundary; [exact Hw|discriminate| |right; exact Hv].
  apply has_sub_startswith. apply (has_sub_suffix w u1). rewrite <- E. exact Hs.
Qed.

Ltac region_absent :=
  cbv [L list_ascii_of_string]; cbn [app];
  match goal with
  | H : has_sub ?w ?u = false |- quiet _ _ ?u _ =>
      apply (@word_absent_quiet w); [reflexivity | exact H | reflexivity]
  end.

Ltac quiet_absent_go :=
  lazymatch goal with
  | |- quiet _ _ (_ ++ _) _ => apply quiet_app; [quiet_absent_go | quiet_absent_go]
  | |- quiet _ _ (L _) _ => quiet_concrete
  | |- quiet _ _ (_ :: _) _ => apply quiet_cons; [nomatch_here | quiet_absent_go]
  | |- quiet _ _ [] _ => apply quiet_nil
  | |- _ => first [region_absent | region]
  end.

(** a text made of two matches with a quiet text between them *)
Lemma segments_two r u1 mid u2 g1 g2 :
  u1 <> [] -> u2 <> [] ->
  takes r None u1 (mid ++ u2) [] g1 ->
  quiet r (lastp None u1) mid u2 ->
  takes r (lastp None (u1 ++ mid)) u2 [] [] g2 ->
  match_at r (lastp None (u1 ++ mid ++ u2)) [] = None ->
  segments r (u1 ++ mid ++ u2)
  = ([([], {| m0 := u1; mgroups := g1 |}); (mid, {| m0 := u2; mgroups := g2 |})], []).
Proof.
  intros Hn1 Hn2 Ht1 Hq Ht2 He. unfold segments.
  destruct u1 as [|c w]; [congruence|]. destruct u2 as [|c2 w2]; [congruence|].
  apply match_at_takes in Ht1. apply match_at_takes in Ht2.
  change ((c :: w) ++ mid ++ c2 :: w2) with (c :: w ++ mid ++ c2 :: w2) in *.
  rewrite (@scan_here r None c w (mid ++ c2 :: w2) [] _ Ht1 eq_refl).
  rewrite scan_quiet by exact Hq. rewrite app_nil_r.
  replace (lastp (lastp (Some c) w) mid) with (lastp None ((c :: w) ++ mid))
    by (rewrite lastp_app; reflexivity).
  rewrite <- (app_nil_r w2) at 1. change ((c2 :: w2) ++ []) with (c2 :: w2 ++ []) in Ht2.
  rewrite (@scan_here r _ c2 w2 [] (rev mid) _ Ht2 eq_refl).
  rewrite scan_end.
  - cbn [rev app]. rewrite rev_involutive. reflexivity.
  - replace (lastp (Some c2) w2) with (lastp (lastp None ((c :: w) ++ mid)) (c2 :: w2))
      by reflexivity.
    rewrite <- lastp_app, <- app_assoc. exact He.
Qed.

(** the optional "struct" before a name that is not "struct" *)
Lemma struct_ws1_fails_name R T d v k p g :
  forallb ident_char T = true -> T <> L "struct" -> ident_char d = false ->
  matchre (Seq (Lit (L "struct")) (Seq ws1 R)) k p (T ++ d :: v) g = None.
Proof.
  intros HT Hne Hd. unfold ws1, Plus. cbn [matchre].
  destruct (lit_match (L "struct") (T ++ d :: v) p) as [[p' s']|] eqn:El; [|reflexivity].
  apply lit_match_app in El.
  destruct (app_split_class ident_char (L "struct") T d v s' eq_refl HT Hd El)
    as (u3 & E3 & ->).
  destruct u3 as [|e u3]; [rewrite app_nil_r in E3; congruence|].
  rewrite E3 in HT. apply forallb_app_inv in HT. destruct HT as [_ Hu3].
  cbn [forallb] in Hu3. apply andb_true_iff in Hu3. destruct Hu3 as [He _].
  cbn [app]. rewrite (@disjoint_ok ident_char is_space e);
    [reflexivity|vm_compute; reflexivity|exact He].
Qed.

(** the declaration pattern at the start of a line, for a type that is one
    name *)
Lemma decl_re_takes_name T body v p :
  at_bol true p = true -> is_identifier T = true -> T <> L "struct" ->
  body <> [] -> stops is_space body = true -> forallb (notc ";") body = true ->
  takes decl_re p (T ++ L " " ++ body ++ L ";") v [] (setg 2 body (setg 1 T [])).
Proof.
  intros Hp HT Hne Hn Hs Hb. destruct body as [|b body]; [congruence|].
  pose proof (@is_identifier_chars T HT) as HTc.
  pose proof (@identifier_word T HT) as HTw.
  cbn [forallb] in Hb. apply andb_true_iff in Hb. destruct Hb as [Hb0 Hb].
  change (T ++ L " " ++ (b :: body) ++ L ";")
    with ([] ++ T ++ (" "%char :: []) ++ (b :: body) ++ L ";" ++ []).
  unfold decl_re.
  apply takes_seq_cons with (g1 := []); [apply takes_Bol; exact Hp|].
  eapply takes_seq_cons.
  { apply takes_Grp. rewrite <- (app_nil_r T), <- (app_nil_l (T ++ [])).
    apply takes_seq_cons with (g1 := []).
    - apply takes_Alt_r; [|apply takes_Eps].
      intro k. rewrite <- !app_assoc.
      apply (@struct_ws1_fails_name Eps T " "%char); [exact HTc|exact Hne|reflexivity].
    - apply takes_seq_cons with (g1 := []); [|apply takes_seq_nil].
      destruct T as [|c t]; [discriminate|].
      cbn [is_identifier] in HT. apply andb_true_iff in HT. destruct HT as [Hc _].
      cbn [forallb] in HTw. apply andb_true_iff in HTw. destruct HTw as [_ Hw].
      change (c :: t) with ([c] ++ t). unfold identw.
      apply takes_Seq with (g1 := []);
        [apply takes_Cls; exact Hc|apply takes_Star; [exact Hw|reflexivity]]. }
  eapply takes_seq_cons.
  { apply takes_Plus; [reflexivity|reflexivity|exact Hs]. }
  eapply takes_seq_cons.
  { apply takes_Grp. apply takes_Plus; [exact Hb0|exact Hb|reflexivity]. }
  eapply takes_seq_cons; [apply takes_Lit|].
  apply takes_seq_nil.
Qed.
Lemma matchre_lit_here w b k p v g :
  matchre (Seq (Lit w) b) k p (w ++ v) g = matchre b k (lastp p w) v g.
Proof. cbn [matchre]. rewrite lit_match_here. reflexivity. Qed.

Lemma matchre_ws1_one b k p d v g :
  is_space d = true -> stops is_space v = true ->
  matchre (Seq ws1 b) k p (d :: v) g = matchre b k (Some d) v g.
Proof.
  intros Hd Hv. unfold ws1, Plus. cbn [matchre]. rewrite Hd.
  apply star_greedy_stop. exact Hv.
Qed.

Lemma typedef_base_takes B A v :
  is_identifier B = true -> B <> L "struct" -> is_identifier A = true ->
  takes re_typedef_base None (typedef_line B A) v [] (setg 2 A (setg 1 B [])).
Proof.
  intros HB HBn HA.
  pose proof (@is_identifier_chars B HB) as HBc.
  pose proof (@identifier_word B HB) as HBw.
  pose proof (@identifier_word A HA) as HAw.
  destruct A as [|a A]; [discriminate|].
  cbn [is_identifier] in HA. apply andb_true_iff in HA. destruct HA as [Ha _].
  cbn [forallb] in HAw. apply andb_true_iff in HAw. destruct HAw as [_ HAw].
  assert (HB0 : exists b B', B = b :: B' /\ ident_start b = true).
  { destruct B as [|b B']; [discriminate|]. exists b, B'. split; [reflexivity|].
    cbn [is_identifier] in HB. apply andb_true_iff in HB. apply HB. }
  destruct HB0 as (b & B' & EB & Hb).
  unfold typedef_line.
  retext (L "typedef " ++ B ++ L " " ++ (a :: A) ++ L ";")
         (L "typedef" ++ [" "%char] ++ B ++ [" "%char] ++ (a :: A) ++ [] ++ L ";" ++ []).
  unfold re_typedef_base.
  eapply takes_seq_cons; [apply takes_Lit|].
  eapply takes_seq_cons.
  { apply takes_Plus; [reflexivity|reflexivity|]. rewrite EB.
    apply (stops_cons ident_start); [vm_compute; reflexivity|exact Hb]. }
  eapply takes_seq_cons.
  { apply takes_Grp. rewrite <- (app_nil_r B), <- (app_nil_l (B ++ [])).
    apply takes_seq_cons with (g1 := []).
    - apply takes_Alt_r; [|apply takes_Eps].
      intro k. rewrite <- !app_assoc.
      apply (@struct_ws1_fails_name Eps B " "%char); [exact HBc|exact HBn|reflexivity].
    - apply takes_seq_cons with (g1 := []); [|apply takes_seq_nil].
      rewrite EB in HBw |- *.
      cbn [forallb] in HBw. apply andb_true_iff in HBw. destruct HBw as [_ HBw].
      change (b :: B') with ([b] ++ B'). unfold identw.
      apply takes_Seq with (g1 := []);
        [apply takes_Cls; exact Hb|apply takes_Star; [exact HBw|reflexivity]]. }
  eapply takes_seq_cons.
  { apply takes_Plus; [reflexivity|reflexivity|].
    apply (stops_cons ident_start); [vm_compute; reflexivity|exact Ha]. }
  eapply takes_seq_cons.
  { apply takes_Grp. change (a :: A) with ([a] ++ A). unfold identw.
    eapply takes_Seq; [apply takes_Cls; exact Ha|apply takes_Star; [exact HAw|reflexivity]]. }
  eapply takes_seq_cons; [apply takes_Star; reflexivity|].
  eapply takes_seq_cons; [apply takes_Lit|].
  apply takes_seq_nil.
Qed.

(** "typedef struct" is not found where the type after typedef is one name *)
Lemma typedef_struct_not_here B v :
  is_identifier B = true -> B <> L "struct" ->
  match_at re_typedef_struct None (L "typedef " ++ B ++ L " " ++ v) = None.
Proof.
  intros HB HBn. pose proof (@is_identifier_chars B HB) as HBc.
  unfold match_at, re_typedef_struct, lit. cbn [pat fold_right].
  change (L "typedef " ++ B ++ L " " ++ v)
    with (L "typedef" ++ " "%char :: B ++ " "%char :: v).
  rewrite matchre_lit_here.
  rewrite matchre_ws1_one;
    [|reflexivity|destruct B as [|b B']; [discriminate|];
                  cbn [is_identifier] in HB; apply andb_true_iff in HB;
                  apply (stops_cons ident_start); [vm_compute; reflexivity|apply HB]].
  rewrite struct_ws1_fails_name; [reflexivity|exact HBc|exact HBn|reflexivity].
Qed.
(** no pattern led by [w] matches in a text that does not hold [w] *)
Lemma absent_quiet w R p u v :
  has_sub w (u ++ v) = false -> quiet (Seq (Lit w) R) p u v.
Proof.
  intros Hs u1 c u2 E. apply lit_led_match_absent. apply has_sub_startswith.
  apply (has_sub_suffix w u1). rewrite E in Hs. rewrite <- app_assoc in Hs. exact Hs.
Qed.

Lemma declarators_fold_alias tds T T' ds : forall types,
  dict_get T tds = Some T' ->
  forallb (fun d => is_identifier (snd d)) ds = true ->
  foldM (decl_part tds T) (map declarator ds) types = Ok (declared T' ds types).
Proof.
  induction ds as [|d ds IH]; intros types HT Hds; [reflexivity|].
  cbn [forallb] in Hds. apply andb_true_iff in Hds. destruct Hds as [Hd Hds].
  cbn [map foldM]. unfold declarator at 1. rewrite repeat_star_run.
  rewrite <- (app_nil_r (snd d)) at 1.
  rewrite decl_part_named; [|apply Forall_forall; intros g Hg;
                              apply repeat_spec in Hg; subst g; reflexivity
                            |exact Hd|reflexivity].
  cbn [bind]. rewrite IH by assumption. unfold declared, decl_type. cbn [fold_left].
  rewrite HT, repeat_length. reflexivity.
Qed.

Lemma declaration_name_chars (C : ascii -> bool) T ds :
  sub_class declarator_char C = true -> C ";"%char = true ->
  is_identifier T = true -> forallb (fun d => is_identifier (snd d)) ds = true ->
  forallb C (declaration T ds) = true.
Proof.
  intros HC Hsc HT Hds. unfold declaration. rewrite !forallb_app.
  assert (Hi : sub_class ident_char C = true).
  { unfold sub_class in *. rewrite forallb_forall in *. intros c Hc.
    specialize (HC c Hc). unfold declarator_char in HC.
    destruct (ident_char c); [exact HC|reflexivity]. }
  rewrite (@forallb_sub_class ident_char C T Hi (@is_identifier_chars T HT)).
  rewrite (@join_declarators_chars C ds HC Hds).
  change (L " ") with [" "%char]. change (L ";") with [";"%char]. cbn [forallb].
  rewrite Hsc. rewrite (@sub_class_ok declarator_char C " "%char HC eq_refl). reflexivity.
Qed.

Lemma typedef_line_chars (C : ascii -> bool) B A :
  sub_class declarator_char C = true -> C ";"%char = true ->
  is_identifier B = true -> is_identifier A = true ->
  forallb C (typedef_line B A) = true.
Proof.
  intros HC Hsc HB HA. unfold typedef_line. rewrite !forallb_app.
  assert (Hi : sub_class ident_char C = true).
  { unfold sub_class in *. rewrite forallb_forall in *. intros c Hc.
    specialize (HC c Hc). unfold declarator_char in HC.
    destruct (ident_char c); [exact HC|reflexivity]. }
  rewrite (@forallb_sub_class ident_char C B Hi (@is_identifier_chars B HB)).
  rewrite (@forallb_sub_class ident_char C A Hi (@is_identifier_chars A HA)).
  rewrite (@forallb_sub_class declarator_char C (L "typedef ") HC eq_refl).
  change (L " ") with [" "%char]. change (L ";") with [";"%char]. cbn [forallb].
  rewrite Hsc. rewrite (@sub_class_ok declarator_char C " "%char HC eq_refl). reflexivity.
Qed.

(** the typedefs of a text made of one alias line and one declaration *)
Lemma collect_typedefs_alias B A ds :
  is_identifier B = true -> B <> L "struct" -> has_sub (L "typedef") B = false ->
  is_identifier A = true ->
  forallb (fun d => is_identifier (snd d)) ds = true ->
  has_sub (L "typedef") (declaration A ds) = false ->
  _collect_typedefs (typedef_line B A ++ [nl] ++ declaration A ds) = Ok [(A, B)].
Proof.
  intros HB HBn HBt HA Hds Htd.
  assert (HAt : has_sub (L "typedef") A = false)
    by (apply (has_sub_prefix (L "typedef") A _ Htd)).
  set (code := typedef_line B A ++ [nl] ++ declaration A ds).
  assert (Hbr : forallb (notc "{") code = true).
  { unfold code. rewrite !forallb_app.
    rewrite typedef_line_chars, declaration_name_chars;
      try assumption; try reflexivity; vm_compute; reflexivity. }
  unfold _collect_typedefs.
  assert (H1 : re_finditer re_typedef_struct code = []).
  { unfold re_finditer. replace (segments re_typedef_struct code) with (@nil (str * mobj), code);
      [reflexivity|]. symmetry. unfold code, typedef_line.
    change (L "typedef " ++ B ++ L " " ++ A ++ L ";")
      with ("t"%char :: L "ypedef " ++ B ++ L " " ++ A ++ L ";").
    cbn [app]. repeat (rewrite <- app_assoc || rewrite <- app_comm_cons).
    apply quiet_segments; [|nomatch_end].
    apply quiet_cons.
    - rewrite app_nil_r.
      change ("t"%char :: L "ypedef " ++ B ++ L " " ++ A ++ L ";" ++ nl :: declaration A ds)
        with (L "typedef " ++ B ++ L " " ++ (A ++ L ";" ++ nl :: declaration A ds)).
      apply typedef_struct_not_here; assumption.
    - unfold re_typedef_struct, lit. cbn [pat fold_right].
      apply quiet_app; [quiet_concrete|].
      apply quiet_app; [region_absent|].
      apply quiet_app; [quiet_concrete|].
      apply quiet_app; [region_absent|].
      apply quiet_app; [quiet_concrete|].
      apply quiet_cons; [nomatch_here|].
      apply absent_quiet. rewrite app_nil_r. exact Htd. }
  rewrite H1. cbn [foldM bind].
  rewrite (@finditer_without re_typedef_struct_body code "{"%char eq_refl Hbr).
  cbn [foldM bind].
  assert (H3 : re_finditer re_typedef_base code
               = [{| m0 := typedef_line B A; mgroups := setg 2 A (setg 1 B []) |}]).
  { unfold re_finditer, code.
    change (typedef_line B A ++ [nl] ++ declaration A ds)
      with ([] ++ typedef_line B A ++ [nl] ++ declaration A ds).
    rewrite (@segments_one re_typedef_base [] (typedef_line B A) ([nl] ++ declaration A ds)
               (setg 2 A (setg 1 B []))).
    - reflexivity.
    - unfold typedef_line. discriminate.
    - apply quiet_nil.
    - apply typedef_base_takes; assumption.
    - unfold re_typedef_base, lit. cbn [pat fold_right app].
      apply quiet_cons; [nomatch_here|].
      apply absent_quiet. rewrite app_nil_r. exact Htd.
    - nomatch_end. }
  rewrite H3. cbn [foldM bind]. unfold grp, group. cbn [mgroups].
  rewrite getg_setg_other by discriminate. rewrite getg_setg_same. cbn [bind].
  rewrite getg_setg_same. cbn [bind]. reflexivity.
Qed.
(** X23: a text made of the line "typedef B A;" and, on the next line, a
    declaration "A d1, d2, ...;" through the alias A is indexed as a
    declaration of B: every declared name gets the type B followed by its
    stars, and the alias line itself adds no name. *)
Theorem X23_alias_declaration_indexed : forall B A ds,
  is_identifier B = true -> B <> L "struct" -> has_sub (L "typedef") B = false ->
  is_identifier A = true -> A <> L "struct" -> ds <> [] ->
  forallb (fun d => is_identifier (snd d)) ds = true ->
  has_sub (L "typedef") (declaration A ds) = false ->
  _infer_decl_types (typedef_line B A ++ [nl] ++ declaration A ds) = Ok (declared B ds []).
Proof.
  intros B A ds HB HBn HBt HA HAn Hn Hds Htd.
  assert (HAt : has_sub (L "typedef") A = false)
    by (apply (has_sub_prefix (L "typedef") A _ Htd)).
  unfold _infer_decl_types.
  rewrite collect_typedefs_alias by assumption. cbn [bind]. cbv zeta.
  set (code := typedef_line B A ++ [nl] ++ declaration A ds).
  assert (Hbr : forallb (notc "{") code = true).
  { unfold code. rewrite !forallb_app.
    rewrite typedef_line_chars, declaration_name_chars;
      try assumption; try reflexivity; vm_compute; reflexivity. }
  unfold re_findall1.
  rewrite (@finditer_without re_struct_def code "{"%char eq_refl Hbr).
  cbn [map app fst].
  set (body := join (L ", ") (map declarator ds)).
  assert (Hbody : exists b r, body = b :: r /\ is_space b = false).
  { destruct ds as [|d ds']; [congruence|]. cbn [forallb] in Hds.
    apply andb_true_iff in Hds. destruct Hds as [Hd _].
    pose proof (@declarator_chars (fun c => negb (is_space c)) d eq_refl eq_refl Hd) as Hs.
    pose proof (@declarator_nonempty d Hd) as Hne.
    destruct (declarator d) as [|b r] eqn:E; [congruence|].
    destruct (@join_head_nonempty (L ", ") (b :: r) (map declarator ds') b r eq_refl)
      as [r' Hr'].
    exists b, r'. unfold body. cbn [map]. rewrite E. split; [exact Hr'|].
    cbn [forallb] in Hs. apply andb_true_iff in Hs. apply negb_true_iff. apply Hs. }
  destruct Hbody as (b & r & Eb & Hsp).
  assert (Hsc : forallb (notc ";") body = true)
    by (apply join_declarators_chars; [vm_compute; reflexivity|exact Hds]).
  set (alias := B ++ L " " ++ A).
  assert (Eline : typedef_line B A = L "typedef" ++ L " " ++ alias ++ L ";").
  { unfold typedef_line, alias. rewrite <- !app_assoc. reflexivity. }
  assert (Hal : alias <> [] /\ stops is_space alias = true
                /\ forallb (notc ";") alias = true).
  { unfold alias. destruct B as [|b0 B']; [discriminate|].
    cbn [is_identifier] in HB. apply andb_true_iff in HB. destruct HB as [Hb0 HB'].
    split; [discriminate|]. split.
    - cbn [app]. apply (stops_cons ident_start); [vm_compute; reflexivity|exact Hb0].
    - rewrite !forallb_app.
      rewrite (@forallb_sub_class ident_char (notc ";") (b0 :: B') eq_refl).
      + rewrite (@forallb_sub_class ident_char (notc ";") A eq_refl
                   (@is_identifier_chars A HA)). reflexivity.
      + cbn [forallb]. rewrite HB'.
        rewrite (@sub_class_ok ident_start ident_char b0 eq_refl Hb0). reflexivity. }
  destruct Hal as (Hal0 & Hal1 & Hal2).
  assert (Hm : re_finditer decl_re code
               = [{| m0 := typedef_line B A;
                     mgroups := setg 2 alias (setg 1 (L "typedef") []) |};
                  {| m0 := declaration A ds; mgroups := setg 2 body (setg 1 A []) |}]).
  { unfold re_finditer, code.
    rewrite (@segments_two decl_re (typedef_line B A) [nl] (declaration A ds)
               (setg 2 alias (setg 1 (L "typedef") [])) (setg 2 body (setg 1 A []))).
    - reflexivity.
    - unfold typedef_line. discriminate.
    - unfold declaration. destruct A; [discriminate|]. discriminate.
    - rewrite Eline. apply decl_re_takes_name; try assumption; try reflexivity.
      discriminate.
    - rewrite Eline, !lastp_app. cbn [app].
      apply quiet_cons; [|apply quiet_nil].
      apply decl_re_needs_name. apply andb_false_r.
    - rewrite Eline, <- !app_assoc, !lastp_app. unfold declaration. fold body.
      apply decl_re_takes_name; try assumption; try reflexivity.
      + rewrite Eb. discriminate.
      + rewrite Eb. cbn [stops]. rewrite Hsp. reflexivity.
    - nomatch_end. }
  rewrite Hm. cbn [foldM bind]. unfold grp, group. cbn [mgroups].
  rewrite !getg_setg_other by discriminate. rewrite !getg_setg_same. cbn [bind].
  assert (Hty : str_eqb (L "typedef") A = false).
  { destruct (str_eqb (L "typedef") A) eqn:E; [|reflexivity].
    apply str_eqb_eq in E. subst A. rewrite has_sub_self in HAt. discriminate. }
  assert (Hm1 : mem (L "typedef") [L "int"; L "long"; L "float"; L "double"; L "char"; A]
                = false).
  { unfold mem. cbn [existsb]. rewrite Hty. reflexivity. }
  rewrite Hm1. cbn [dict_get]. rewrite Hty. cbn [negb andb orb is_some].
  replace (startswith (L "struct ") (L "typedef")) with false by reflexivity.
  cbn [negb andb orb].
  rewrite getg_setg_other by discriminate. rewrite !getg_setg_same. cbn [bind].
  assert (Hm2 : mem A [L "int"; L "long"; L "float"; L "double"; L "char"; A] = true).
  { unfold mem. cbn [existsb]. rewrite str_eqb_refl, !orb_true_r. reflexivity. }
  rewrite Hm2. cbn [negb andb].
  unfold body. rewrite declarators_split by assumption.
  rewrite (@declarators_fold_alias [(A, B)] A B ds []); [reflexivity| |exact Hds].
  cbn [dict_get]. rewrite str_eqb_refl. reflexivity.
Qed.

Lemma X23_alias_declaration_indexed_witness :
  _infer_decl_types (L "typedef double real;" ++ [nl] ++ L "real *r, s;")
  = Ok [(L "r", L "double*"); (L "s", L "double")].
Proof.
  apply (X23_alias_declaration_indexed (B := L "double") (A := L "real")
           (ds := [(1, L "r"); (0, L "s")]));
    first [reflexivity | discriminate].
Defined.
